(* ===== verification/_CoqProject ===== *)
-Q . S2P
Prelude.v
Cstring.v
Spinlock.v
Proc.v
ProcFacts.v
Scheduling.v
Trap.v
Ring.v
Blocks.v
Sleeplock.v
Bio.v
Ide.v
Log.v
Fs.v
FsFacts.v
FsFile.v
FsDir.v
FsCache.v
Mkfs.v
MkfsFacts.v
MkfsRead.v
Kalloc.v
Vm.v
VmFacts.v
VmSpace.v
VmUser.v
Pipe.v
Syscall.v
Sysproc.v
File.v
Sysfile.v
FileFacts.v
Descriptors.v
Exec.v
ExecFacts.v
Console.v
ConsoleFacts.v
Kbd.v
Ulib.v
Grep.v
Shell.v
ShellFacts.v
ShellPrint.v
ShellRun.v
Umalloc.v
