(* ===== verification/Prelude.v ===== *)
(** A verification of the xv6 kernel of this repository and of the programs that
    do more than pass arguments to it.

    * The program

    The kernel is xv6 for the x86 with a priority scheduler, process statistics
    (getstats, setpriority, getprocs), and a console with history and
    completion.  Its parts stand on each other: spin locks under everything;
    the page allocator and the page tables; the process table and scheduler; the
    disk, the buffer cache, the log, the file system; pipes and open files; the
    system calls, which take their arguments from user memory; the console and
    the keyboard.  In user space the shell parses and runs commands on those
    calls, and the user library, the allocator and grep are used by the programs.
    On the host, mkfs lays out the disk the kernel starts from.

    * Where each part is

    - This file: machine integers at their width ([u8], [u32], [s32]), field
      update [r <| f := v |>], the monad [M] of state, panic and sleep with its
      rules ([wp] total, [wlp] partial correctness), lists and reachability.
    - Cstring: byte memory and string.c.
    - Spinlock: spinlock.c, on one CPU as functions, on all as interleaved steps.
    - Proc, ProcFacts, Scheduling, Trap: proc.c and trap.c.  [kst]
      is the process table with the CPUs; the class [Kernel] is what proc.c asks
      of the other parts; the step relation interleaves the CPUs.
    - Ring, Sleeplock, Blocks, Bio: sleeplock.c and bio.c.  [store] of Blocks is
      the interface of the block layer, which Bio implements and Log uses.
    - Ide: ide.c, its queue and interrupt, and memide.c.
    - Log: log.c, on [store], with crashes between any two disk writes.
    - Fs, FsFacts, FsFile, FsDir, FsCache: fs.c: allocator, inodes, contents,
      directories, the inode cache and path names.
    - Mkfs, MkfsFacts, MkfsRead: mkfs.c; the invariant of the image while it is
      built; the kernel reading it.  The builder's file under construction is
      seen as a file of the kernel ([view]), so the lemmas of FsFile apply.
    - Kalloc, Vm, VmFacts, VmSpace, VmUser: kalloc.c and vm.c, free list and page
      tables as words in memory; whole address spaces and the pages they own.
    - Pipe: pipe.c with its sleepers as a transition system.
    - Syscall, Sysproc: syscall.c and sysproc.c.  The class [User] is the memory
      of a process as the calls see it.
    - File, Sysfile, FileFacts, Descriptors: file.c and sysfile.c, over Fs, Pipe
      and Kalloc together.
    - Exec, ExecFacts: exec.c and sys_exec, over Fs, Vm and the current process.
    - Console, ConsoleFacts, Kbd: console.c, kbd.c and kbd.h.
    - Ulib: the string routines, gets and atoi of ulib.c, printf.c and cprintf.
    - Umalloc: umalloc.c, the free list in memory.
    - Grep: grep.c.
    - Shell, ShellFacts, ShellPrint, ShellRun: sh.c.

    A struct is a record with the C field names, a pointer into a table an index
    into it, a pointer into memory an address; a function of the source is a
    definition of the same name, loops being separate definitions named after
    it.  A panic is the result [Panic] with its message, a process that sleeps
    [Sleeps] or a state of the system.

    * What is shown

    - The log: a crash at any point of a commit, and of the recovery after it,
      gives all of a transaction or none; with a log larger than LOGSIZE no call
      overflows it, with the log that mkfs makes three calls can.
    - The block layer: reads and writes through the cache are reads and writes of
      the disk; the queue and interrupt of the driver implement a request as one
      step.  The file system: allocation, reading and writing of file contents,
      directory entries, uniqueness of cached inodes.
    - The image: for any files that fit, mkfs succeeds and the kernel started on
      the image reads every file by its name.
    - Descriptors: after any calls of any processes each open file counts its
      descriptors, pipes live exactly while an end is open, no transaction stays
      open, and no call runs into a panic that guards these.
    - Processes: the invariant of all reachable states of the machine, the choice
      of the scheduler, sleep and wakeup, kill; a trap panics only for a fault of
      the kernel and returns only to a process that is not killed.  Spin locks:
      mutual exclusion.
    - Memory: pages are neither lost nor given out twice; mappages maps exactly
      its range; copyuvm gives an equal copy or frees all it took; copyout writes
      exactly the user's bytes; pointers and strings that the system calls accept
      lie in the process.
    - Programs: exec fails without a trace or installs the memory that the program
      headers describe and the arguments on the stack.
    - Pipes: the bytes read are the bytes written, in order; no wakeup is lost
      unless a writer is killed.
    - Console: the rings implement a line editor; reads take submitted lines; the
      cursor stays on the screen.
    - User space: the parser of the shell ends, and reads back every printed
      command; a command starts the programs it means with the right descriptors;
      the history file; the matcher of grep decides the language of an
      expression; numbers printed are read back; blocks of malloc are disjoint and
      free gives them back.

    Several theorems state what the code does where it departs from what it
    means: the log reservation, kill(0), a killed pipe writer, uva2ka without a
    page table, the size check of getprocs, cd in the shell, short reads in grep,
    sizes near 2^32 in malloc, a root directory that fills its last block in mkfs.

    * Fuel and bounds

    Loops that are not structural carry fuel, chosen so that it cannot run out:
    readi and writei one turn per block touched; balloc, dirlookup and namex one
    per bit, entry and path element; mappages, allocuvm and deallocuvm one per
    page; copyout one per byte at most; fetchstr one per byte to the end of the
    process; filewrite and iappend of mkfs one per chunk or block; history_add, kill-line and the console
    loops one per byte of the ring; the shell's parser four calls and one turn per
    character, which [parsecmd_ends] proves enough; number output 16 digits.
    [console_refines] assumes fewer than 2^31 - 1000 characters read so far.

    * What is not modelled

    - Locks that only make a call atomic (bcache, icache, log, kmem, pipe, cons)
      are the atomicity of the call; fork is one step of the scheduler's model.
    - Below Ide the controller of the disk is its registers.  The loading of
      descriptor tables and segment registers, the assembly that enters and leaves
      the kernel, the C startup and boot code, the interrupt controllers, the
      tables of the firmware and the serial line are device state.
    - Output of cprintf outside of the console, procdump, getcallerpcs and the
      address of trap frames.  Kernel page faults: address 0 is memory.
    - Messages that mkfs prints, and a host file it cannot open.
    - The wolfie picture, the small programs, which pass arguments to system calls
      and print, and the tests. *)
From stdpp Require Export base tactics list numbers strings option gmap functions relations.
From Stdlib Require Export ZArith Lia.
Global Open Scope Z_scope.

Declare Scope xv6_scope.
Delimit Scope xv6_scope with xv6.
Global Open Scope xv6_scope.

(** ** Machine integers *)

Definition u8 (z : Z) : Z := z mod 2 ^ 8.
Definition u16 (z : Z) : Z := z mod 2 ^ 16.
Definition u32 (z : Z) : Z := z mod 2 ^ 32.
Definition s16 (z : Z) : Z := (z + 2 ^ 15) mod 2 ^ 16 - 2 ^ 15.
Definition s32 (z : Z) : Z := (z + 2 ^ 31) mod 2 ^ 32 - 2 ^ 31.
(** A C [char] is signed on this target. *)
Definition s8 (z : Z) : Z := (z + 2 ^ 7) mod 2 ^ 8 - 2 ^ 7.

Definition is_u8 (z : Z) : Prop := 0 <= z < 2 ^ 8.
Definition is_u32 (z : Z) : Prop := 0 <= z < 2 ^ 32.
Definition is_s32 (z : Z) : Prop := - 2 ^ 31 <= z < 2 ^ 31.

(** The development's arithmetic solver: unfolds the width predicates and
    turns division and remainder into linear constraints. *)
Ltac zarith :=
  unfold u8, u16, u32, s8, s16, s32, is_u8, is_u32, is_s32 in *;
  simpl (2 ^ _) in *;
  Z.to_euclidean_division_equations; lia.

Lemma u32_small z : is_u32 z -> u32 z = z.
Proof. intros; apply Z.mod_small; exact H. Qed.
Lemma u32_range z : is_u32 (u32 z).
Proof. apply Z.mod_pos_bound; lia. Qed.
Lemma u32_idem z : u32 (u32 z) = u32 z.
Proof. apply u32_small, u32_range. Qed.
Lemma s32_small z : is_s32 z -> s32 z = z.
Proof. zarith. Qed.
Lemma s32_range z : is_s32 (s32 z).
Proof. zarith. Qed.
Lemma u32_s32 z : u32 (s32 z) = u32 z.
Proof. zarith. Qed.
Lemma s32_u32 z : s32 (u32 z) = s32 z.
Proof. zarith. Qed.

(** ** Struct assignment

    [r <| f := v |>] is the C assignment [r.f = v] on a value of a record
    type; a record takes part by an [Eta] instance that lists its fields. *)

Class Eta (R : Type) := eta : R -> R.
Class Assign {R E : Type} (field : R -> E) := assign : (E -> E) -> R -> R.
Arguments assign {R E} field {_} _ _ /.

Ltac solve_assign :=
  lazymatch goal with
  | |- @Assign ?R ?E ?field =>
      let e := constr:(_ : Eta R) in
      let e := eval hnf in e in
      exact (fun (g : E -> E) (r : R) =>
        ltac:(let rebuilt := eval cbv beta in (e r) in
              lazymatch rebuilt with
              | context C [field r] => let t := context C [g (field r)] in exact t
              end))
  end.
#[export] Hint Extern 0 (Assign _) => solve_assign : typeclass_instances.

Notation "r <| f := v |>" := (assign f (fun _ => v) r)
  (at level 1, left associativity, f at level 1, v at level 99) : xv6_scope.
Notation "r <| f ::= g |>" := (assign f g r)
  (at level 1, left associativity, f at level 1, g at level 99) : xv6_scope.

(** ** Outcomes and the state monad

    [panic] never returns; a call that has to wait for another thread gives
    the channel it sleeps on; everything else returns a value. *)

Inductive result (A : Type) : Type :=
| Ok (a : A)
| Panic (msg : string)
| Sleeps (chan : string).
Arguments Ok {A} a.
Arguments Panic {A} msg.
Arguments Sleeps {A} chan.

Definition M (S A : Type) : Type := S -> result (S * A).

#[export] Instance M_ret {S} : MRet (M S) := fun A a s => Ok (s, a).
#[export] Instance M_bind {S} : MBind (M S) := fun A B f m s =>
  match m s with
  | Ok (s', a) => f a s'
  | Panic e => Panic e
  | Sleeps c => Sleeps c
  end.

Section monad.
Context {S : Type}.
Definition panic {A} (msg : string) : M S A := fun _ => Panic msg.
Definition sleeps {A} (chan : string) : M S A := fun _ => Sleeps chan.
Definition gets {A} (f : S -> A) : M S A := fun s => Ok (s, f s).
Definition modify (f : S -> S) : M S unit := fun s => Ok (f s, tt).

(** Run an operation of a component on its part of a larger state. *)
Definition zoom {T A} (get : S -> T) (put : T -> S -> S) (m : M T A) : M S A :=
  fun s => match m (get s) with
           | Ok (t, a) => Ok (put t s, a)
           | Panic e => Panic e
           | Sleeps c => Sleeps c
           end.

(** [for(x in l) body]: the loops over a statically bounded range. *)
Fixpoint mfor {A} (l : list A) (body : A -> M S unit) : M S unit :=
  match l with
  | [] => mret tt
  | x :: l => body x ;; mfor l body
  end.

(** [wp m Q s]: run from [s], [m] returns (it neither panics nor sleeps) and
    its result and final state satisfy [Q]. *)
Definition wp {A} (m : M S A) (Q : A -> S -> Prop) (s : S) : Prop :=
  match m s with Ok (s', a) => Q a s' | _ => False end.

Lemma wp_ret {A} (a : A) (Q : A -> S -> Prop) s : Q a s -> wp (mret a) Q s.
Proof. done. Qed.
Lemma wp_bind {A B} (m : M S A) (f : A -> M S B) Q s :
  wp m (fun a s' => wp (f a) Q s') s -> wp (mbind f m) Q s.
Proof. unfold wp, mbind, M_bind. by destruct (m s) as [[]| |]. Qed.
Lemma wp_gets {A} (f : S -> A) (Q : A -> S -> Prop) s :
  Q (f s) s -> wp (gets f) Q s.
Proof. done. Qed.
Lemma wp_modify (f : S -> S) (Q : unit -> S -> Prop) s :
  Q tt (f s) -> wp (modify f) Q s.
Proof. done. Qed.
Lemma wp_mono {A} (m : M S A) (Q R : A -> S -> Prop) s :
  wp m Q s -> (forall a s', Q a s' -> R a s') -> wp m R s.
Proof. unfold wp. destruct (m s) as [[]| |]; auto. Qed.
Lemma wp_conj {A} (m : M S A) (Q R : A -> S -> Prop) s :
  wp m Q s -> wp m R s -> wp m (fun a s' => Q a s' /\ R a s') s.
Proof. unfold wp. destruct (m s) as [[]| |]; auto. Qed.
Lemma wp_ok {A} (m : M S A) (Q : A -> S -> Prop) s :
  wp m Q s <-> exists s' a, m s = Ok (s', a) /\ Q a s'.
Proof.
  unfold wp. split.
  - destruct (m s) as [[s' a]| |]; [eauto|done|done].
  - intros (s' & a & -> & HQ). done.
Qed.
(** The state [m] leaves. *)
Definition exec {A} (m : M S A) (s : S) : S := match m s with Ok (s', _) => s' | _ => s end.
Lemma wp_exec {A} (m : M S A) (Q : S -> Prop) s : wp m (fun _ => Q) s -> Q (exec m s).
Proof. unfold wp, exec. by destruct (m s) as [[]| |]. Qed.
(** The loop rule: an invariant indexed by the elements still to visit. *)
Lemma wp_mfor {A} (l : list A) (body : A -> M S unit) (I : list A -> S -> Prop)
  (Q : unit -> S -> Prop) s :
  I l s ->
  (forall x l' s', I (x :: l') s' -> wp (body x) (fun _ s'' => I l' s'') s') ->
  (forall s', I [] s' -> Q tt s') ->
  wp (mfor l body) Q s.
Proof.
  intros HI Hstep HQ. revert s HI.
  induction l as [|x l IH]; intros s HI; simpl; [by apply wp_ret, HQ|].
  apply wp_bind. eapply wp_mono; [by apply Hstep|]. eauto.
Qed.
(** [wlp m Q s]: if [m] returns from [s], its result and state satisfy [Q]; for
    invariants, where a panic stops the machine. *)
Definition wlp {A} (m : M S A) (Q : A -> S -> Prop) (s : S) : Prop :=
  match m s with Ok (s', a) => Q a s' | _ => True end.

Lemma wlp_ret {A} (a : A) (Q : A -> S -> Prop) s : Q a s -> wlp (mret a) Q s.
Proof. done. Qed.
Lemma wlp_bind {A B} (m : M S A) (f : A -> M S B) Q s :
  wlp m (fun a s' => wlp (f a) Q s') s -> wlp (mbind f m) Q s.
Proof. unfold wlp, mbind, M_bind. by destruct (m s) as [[]| |]. Qed.
Lemma wlp_gets {A} (f : S -> A) (Q : A -> S -> Prop) s :
  Q (f s) s -> wlp (gets f) Q s.
Proof. done. Qed.
Lemma wlp_modify (f : S -> S) (Q : unit -> S -> Prop) s :
  Q tt (f s) -> wlp (modify f) Q s.
Proof. done. Qed.
Lemma wlp_panic {A} msg (Q : A -> S -> Prop) s : wlp (panic msg) Q s.
Proof. done. Qed.
Lemma wlp_mono {A} (m : M S A) (Q R : A -> S -> Prop) s :
  wlp m Q s -> (forall a s', Q a s' -> R a s') -> wlp m R s.
Proof. unfold wlp. destruct (m s) as [[]| |]; auto. Qed.
Lemma wlp_mfor {A} (l : list A) (body : A -> M S unit) (I : S -> Prop)
  (Q : unit -> S -> Prop) s :
  I s -> (forall x s', x ∈ l -> I s' -> wlp (body x) (fun _ s'' => I s'') s') ->
  (forall s', I s' -> Q tt s') -> wlp (mfor l body) Q s.
Proof.
  intros HI Hstep HQ. revert s HI Hstep.
  induction l as [|x l IH]; intros s HI Hstep; simpl; [by apply wlp_ret, HQ|].
  apply wlp_bind. eapply wlp_mono; [apply Hstep; [left|done]|].
  intros ? s' Hs'. apply IH; [done|]. intros. apply Hstep; [by right|done].
Qed.
Lemma wlp_ok {A} (m : M S A) (Q : A -> S -> Prop) s s' a :
  wlp m Q s -> m s = Ok (s', a) -> Q a s'.
Proof. unfold wlp. intros H E. by rewrite E in H. Qed.
End monad.

Lemma wp_zoom {S T A} (get : S -> T) (put : T -> S -> S) (m : M T A)
  (Q : A -> S -> Prop) (s : S) :
  wp m (fun a t => Q a (put t s)) (get s) -> wp (zoom get put m) Q s.
Proof. unfold wp, zoom. by destruct (m (get s)) as [[]| |]. Qed.

(** The first statement has run. *)
Lemma bind_run {S A B} (m : M S A) (f : A -> M S B) s s1 a :
  m s = Ok (s1, a) -> mbind f m s = f a s1.
Proof. unfold mbind, M_bind. by intros ->. Qed.
(** Inversion of a run that returned. *)
Lemma bind_ok {S A B} (m : M S A) (f : A -> M S B) s s' b :
  mbind f m s = Ok (s', b) -> exists s1 a, m s = Ok (s1, a) /\ f a s1 = Ok (s', b).
Proof. unfold mbind, M_bind. destruct (m s) as [[s1 a]| |]; [eauto|done|done]. Qed.
Lemma ret_ok {S A} (a a' : A) (s s' : S) : (mret a : M S A) s = Ok (s', a') -> s' = s /\ a' = a.
Proof. unfold mret, M_ret. naive_solver. Qed.
Lemma gets_ok {S A} (f : S -> A) s s' a : gets f s = Ok (s', a) -> s' = s /\ a = f s.
Proof. unfold gets. naive_solver. Qed.
Lemma modify_ok {S} (f : S -> S) s s' u : modify f s = Ok (s', u) -> s' = f s.
Proof. unfold modify. naive_solver. Qed.
Lemma zoom_ok {S T A} (get : S -> T) (put : T -> S -> S) (m : M T A) s s' a :
  zoom get put m s = Ok (s', a) -> exists t, m (get s) = Ok (t, a) /\ s' = put t s.
Proof. unfold zoom. destruct (m (get s)) as [[t b]| |]; naive_solver. Qed.

Ltac inv_ok_step :=
  match goal with
  | H : mbind _ _ _ = Ok _ |- _ =>
      let s := fresh "s" in let a := fresh "a" in let H1 := fresh "Hr" in
      apply bind_ok in H; destruct H as (s & a & H1 & H); cbn beta in H
  | H : mret _ _ = Ok _ |- _ => apply ret_ok in H; destruct H as [-> ->]
  | H : mret _ _ = Ok (?s, ?a) |- _ => apply ret_ok in H; destruct H as [? ?]; subst
  | H : gets _ _ = Ok _ |- _ => apply gets_ok in H; destruct H as [-> ->]
  | H : gets _ _ = Ok _ |- _ => apply gets_ok in H; destruct H as [? ?]; subst
  | H : modify _ _ = Ok _ |- _ => apply modify_ok in H; subst
  | H : panic _ _ = Ok _ |- _ => discriminate H
  | H : sleeps _ _ = Ok _ |- _ => discriminate H
  | H : (if decide ?P then _ else _) _ = Ok _ |- _ => destruct (decide P)
  | H : (if ?b then _ else _) _ = Ok _ |- _ => let E := fresh "Eb" in destruct b eqn:E
  end.
(** Decompose a run that returned into the runs of its statements. *)
Ltac inv_ok := repeat inv_ok_step.

(** One symbolic-execution step of a monadic body. *)
Ltac wp_step :=
  match goal with
  | |- wp (mret _) _ _ => apply wp_ret
  | |- wp (mbind _ _) _ _ => apply wp_bind
  | |- wp (gets _) _ _ => apply wp_gets
  | |- wp (modify _) _ _ => apply wp_modify
  end.
Ltac wp_run := repeat (wp_step; cbn beta).
Ltac wlp_step :=
  match goal with
  | |- wlp (mret _) _ _ => apply wlp_ret
  | |- wlp (mbind _ _) _ _ => apply wlp_bind
  | |- wlp (gets _) _ _ => apply wlp_gets
  | |- wlp (modify _) _ _ => apply wlp_modify
  | |- wlp (panic _) _ _ => apply wlp_panic
  end.
Ltac wlp_run := repeat (wlp_step; cbn beta).

(** ** Byte arrays

    [slice l o n] is the [n] bytes at offset [o]; [splice l o bs] overwrites
    them: what a [memmove] into or out of a buffer does. *)

Section arrays.
Context {A : Type}.
Implicit Types (l bs : list A) (o n : nat).
Definition slice l o n : list A := take n (drop o l).
Definition splice l o bs : list A := take o l ++ bs ++ drop (o + length bs) l.

Lemma slice_length l o n : (o + n <= length l)%nat -> length (slice l o n) = n.
Proof. intros. unfold slice. rewrite length_take, length_drop. lia. Qed.
Lemma splice_length l o bs :
  (o + length bs <= length l)%nat -> length (splice l o bs) = length l.
Proof.
  intros. unfold splice. rewrite !length_app, length_take, length_drop. lia.
Qed.
Lemma splice_lookup l o bs (i : nat) :
  (o + length bs <= length l)%nat ->
  splice l o bs !! i =
    if decide (o <= i < o + length bs)%nat then bs !! (i - o)%nat else l !! i.
Proof.
  intros Hlen. unfold splice. case_decide as Hi.
  - rewrite lookup_app_r by (rewrite length_take_le; lia).
    rewrite length_take_le by lia. by rewrite lookup_app_l by lia.
  - destruct (decide (i < o)%nat).
    + rewrite lookup_app_l by (rewrite length_take_le; lia).
      by rewrite lookup_take_lt by lia.
    + rewrite lookup_app_r by (rewrite length_take_le; lia).
      rewrite length_take_le by lia. rewrite lookup_app_r by lia. rewrite lookup_drop. f_equal. lia.
Qed.
Lemma slice_lookup l o n (i : nat) :
  slice l o n !! i = if decide (i < n)%nat then l !! (o + i)%nat else None.
Proof.
  unfold slice. case_decide.
  - by rewrite lookup_take_lt, lookup_drop by lia.
  - by apply lookup_take_ge; lia.
Qed.
Lemma slice_splice_same l o bs :
  (o + length bs <= length l)%nat -> slice (splice l o bs) o (length bs) = bs.
Proof.
  intros. apply list_eq; intros i. rewrite slice_lookup. case_decide.
  - rewrite splice_lookup by lia. rewrite decide_True by lia. f_equal. lia.
  - symmetry. apply lookup_ge_None. lia.
Qed.
Lemma slice_splice_disjoint l o bs o' n :
  (o + length bs <= length l)%nat ->
  (o' + n <= o \/ o + length bs <= o')%nat ->
  slice (splice l o bs) o' n = slice l o' n.
Proof.
  intros. apply list_eq; intros i. rewrite !slice_lookup. case_decide; [|done].
  rewrite splice_lookup by lia. by rewrite decide_False by lia.
Qed.
Lemma splice_slice_id l o n :
  (o + n <= length l)%nat -> splice l o (slice l o n) = l.
Proof.
  intros. apply list_eq; intros i.
  rewrite splice_lookup by (rewrite slice_length; lia).
  rewrite slice_length by lia. case_decide; [|done].
  rewrite slice_lookup, decide_True by lia. f_equal. lia.
Qed.
End arrays.

(** Little-endian integers, the layout of every on-disk structure. *)
Fixpoint le_enc (n : nat) (v : Z) : list Z :=
  match n with
  | O => []
  | S n => v mod 256 :: le_enc n (v / 256)
  end.
Fixpoint le_dec (bs : list Z) : Z :=
  match bs with
  | [] => 0
  | b :: bs => b + 256 * le_dec bs
  end.

Lemma le_enc_length n v : length (le_enc n v) = n.
Proof. revert v; induction n; intros; simpl; auto. Qed.
Lemma le_enc_bytes n v : Forall is_u8 (le_enc n v).
Proof.
  revert v; induction n; intros; simpl; constructor; auto.
  unfold is_u8. apply Z.mod_pos_bound. lia.
Qed.
Lemma le_dec_enc n v : le_dec (le_enc n v) = v mod 256 ^ Z.of_nat n.
Proof.
  revert v; induction n as [|n IH]; intros; simpl le_enc; simpl le_dec.
  - by rewrite Z.mod_1_r.
  - rewrite IH. rewrite Nat2Z.inj_succ, Z.pow_succ_r by lia.
    rewrite Z.rem_mul_r; [lia|lia|]. apply Z.pow_pos_nonneg; lia.
Qed.
Lemma le_dec_range bs : Forall is_u8 bs -> 0 <= le_dec bs < 256 ^ Z.of_nat (length bs).
Proof.
  induction 1 as [|b bs Hb _ IH]; simpl le_dec; simpl length; [simpl; lia|].
  rewrite Nat2Z.inj_succ, Z.pow_succ_r by lia. unfold is_u8 in Hb. lia.
Qed.
Lemma le_enc_dec bs : Forall is_u8 bs -> le_enc (length bs) (le_dec bs) = bs.
Proof.
  induction 1 as [|b bs Hb _ IH]; simpl; [done|]. unfold is_u8 in Hb.
  f_equal.
  - rewrite Z.mul_comm, Z_mod_plus_full. apply Z.mod_small. lia.
  - rewrite Z.mul_comm, Z.div_add, Z.div_small by lia. by rewrite Z.add_0_l.
Qed.

Definition get16 (b : list Z) (o : nat) : Z := le_dec (slice b o 2).
Definition get32 (b : list Z) (o : nat) : Z := le_dec (slice b o 4).
Definition set16 (b : list Z) (o : nat) (v : Z) : list Z := splice b o (le_enc 2 v).
Definition set32 (b : list Z) (o : nat) (v : Z) : list Z := splice b o (le_enc 4 v).

Section words.
Implicit Types (b bs : list Z) (o : nat).
Lemma get32_set32 b o v :
  (o + 4 <= length b)%nat -> get32 (set32 b o v) o = u32 v.
Proof.
  intros. unfold get32, set32.
  rewrite <- (le_enc_length 4 v) at 2.
  rewrite slice_splice_same by (rewrite le_enc_length; lia).
  rewrite le_dec_enc. done.
Qed.
Lemma get16_set16 b o v :
  (o + 2 <= length b)%nat -> get16 (set16 b o v) o = u16 v.
Proof.
  intros. unfold get16, set16.
  rewrite <- (le_enc_length 2 v) at 2.
  rewrite slice_splice_same by (rewrite le_enc_length; lia).
  rewrite le_dec_enc. done.
Qed.
Lemma get32_splice_ne b o bs o' :
  (o + length bs <= length b)%nat -> (o' + 4 <= o \/ o + length bs <= o')%nat ->
  get32 (splice b o bs) o' = get32 b o'.
Proof. intros. unfold get32. by rewrite slice_splice_disjoint. Qed.
Lemma get16_splice_ne b o bs o' :
  (o + length bs <= length b)%nat -> (o' + 2 <= o \/ o + length bs <= o')%nat ->
  get16 (splice b o bs) o' = get16 b o'.
Proof. intros. unfold get16. by rewrite slice_splice_disjoint. Qed.
Lemma get32_set32_ne b o v o' :
  (o + 4 <= length b)%nat -> (o' + 4 <= o \/ o + 4 <= o')%nat ->
  get32 (set32 b o v) o' = get32 b o'.
Proof. intros. apply get32_splice_ne; rewrite le_enc_length; lia. Qed.
Lemma set32_length b o v : (o + 4 <= length b)%nat -> length (set32 b o v) = length b.
Proof. intros. apply splice_length. rewrite le_enc_length. lia. Qed.
Lemma set16_length b o v : (o + 2 <= length b)%nat -> length (set16 b o v) = length b.
Proof. intros. apply splice_length. rewrite le_enc_length. lia. Qed.
End words.

(** Adjacent overwrites, and reading inside an overwrite. *)
Lemma splice_adjacent {A} (l x y : list A) o k :
  k = (o + length x)%nat -> (o <= length l)%nat -> splice (splice l o x) k y = splice l o (x ++ y).
Proof.
  intros -> Ho. unfold splice at 1 3. rewrite length_app, app_assoc.
  assert (E1 : take (o + length x) (splice l o x) = take o l ++ x).
  { unfold splice. rewrite app_assoc. rewrite take_app_length'; [done|].
    rewrite length_app, length_take. lia. }
  assert (E2 : drop (o + length x + length y) (splice l o x) = drop (o + (length x + length y)) l).
  { unfold splice. rewrite app_assoc, drop_app_ge by (rewrite length_app, length_take; lia).
    rewrite length_app, length_take, drop_drop. f_equal. lia. }
  rewrite E1, E2. by rewrite <- !app_assoc.
Qed.
Lemma splice_lookup_ext {A} (l bs : list A) o (j : nat) :
  (o <= length l)%nat ->
  splice l o bs !! j = if decide (o <= j < o + length bs)%nat then bs !! (j - o)%nat else l !! j.
Proof.
  intros Ho. unfold splice. case_decide as Hj.
  - rewrite lookup_app_r by (rewrite length_take; lia). rewrite length_take.
    rewrite lookup_app_l by lia. f_equal. lia.
  - destruct (decide (j < o)%nat).
    + rewrite lookup_app_l by (rewrite length_take; lia). by rewrite lookup_take_lt.
    + rewrite lookup_app_r by (rewrite length_take; lia). rewrite length_take.
      rewrite lookup_app_r by lia. rewrite lookup_drop. f_equal. lia.
Qed.
Lemma slice_in_splice {A} (l bs : list A) o k n :
  (o + length bs <= length l)%nat -> (k + n <= length bs)%nat ->
  slice (splice l o bs) (o + k) n = slice bs k n.
Proof.
  intros Hl Hk. apply list_eq. intros j. rewrite !slice_lookup. case_decide; [|done].
  rewrite splice_lookup by done. rewrite decide_True by lia. f_equal. lia.
Qed.
Lemma slice_app_l {A} (x y : list A) k n : (k + n <= length x)%nat -> slice (x ++ y) k n = slice x k n.
Proof. intros. unfold slice. rewrite drop_app_le, take_app_le by (rewrite ?length_drop; lia). done. Qed.
Lemma slice_app_r {A} (x y : list A) k n : slice (x ++ y) (length x + k) n = slice y k n.
Proof. unfold slice. by rewrite drop_app_add. Qed.
Lemma slice_full {A} (x : list A) : slice x 0 (length x) = x.
Proof. unfold slice. rewrite drop_0. by apply take_ge. Qed.
Lemma slice_words (a : list Z) k :
  (k < length a)%nat -> slice (mjoin (le_enc 4 <$> a)) (4 * k) 4 = le_enc 4 (a !!! k).
Proof.
  revert k. induction a as [|x a IH]; intros [|k] Hk; simpl length in *; try lia; rewrite fmap_cons; cbn [mjoin list_join].
  - rewrite slice_app_l by (rewrite le_enc_length; lia). exact (slice_full (le_enc 4 x)).
  - replace (4 * S k)%nat with (length (le_enc 4 x) + 4 * k)%nat by (rewrite le_enc_length; lia).
    rewrite slice_app_r. apply IH. lia.
Qed.
Lemma words_length (a : list Z) : length (mjoin (le_enc 4 <$> a)) = (4 * length a)%nat.
Proof.
  induction a as [|x a IH]; [done|].
  change (length (le_enc 4 x ++ mjoin (le_enc 4 <$> a)) = 4 * S (length a))%nat.
  rewrite length_app, le_enc_length, IH. lia.
Qed.

(** ** Lists *)

Lemma fn_insert_cases {K A} `{!EqDecision K} (f : K -> A) (c c' : K) (v : A) :
  <[c := v]> f c' = if decide (c = c') then v else f c'.
Proof. case_decide; [subst; apply fn_lookup_insert|by apply fn_lookup_insert_ne]. Qed.
Lemma alter_insert {A} (f : A -> A) i (l : list A) x :
  l !! i = Some x -> alter f i l = <[i := f x]> l.
Proof.
  intros Hx. apply list_eq. intros j. destruct (decide (i = j)) as [<-|Hj].
  - rewrite list_lookup_alter_eq, Hx, list_lookup_insert_eq; [done|by eapply lookup_lt_Some].
  - by rewrite list_lookup_alter_ne, list_lookup_insert_ne.
Qed.
Lemma alter_none {A} (f : A -> A) i (l : list A) : l !! i = None -> alter f i l = l.
Proof.
  intros Hx. apply list_eq. intros j. destruct (decide (i = j)) as [<-|Hj].
  - by rewrite list_lookup_alter_eq, Hx.
  - by rewrite list_lookup_alter_ne.
Qed.
Lemma find_split {A} (P : A -> bool) l x :
  find P l = Some x ->
  exists l1 l2, l = l1 ++ x :: l2 /\ P x = true /\ Forall (fun y => P y = false) l1.
Proof.
  induction l as [|y l IH]; simpl; [done|]. destruct (P y) eqn:Hy; intros H.
  - simplify_eq. by exists [], l.
  - destruct (IH H) as (l1 & l2 & -> & Hx & Hl). exists (y :: l1), l2. auto.
Qed.
Lemma find_seq (P : nat -> bool) k j :
  match find P (seq j k) with
  | Some i => (j <= i < j + k)%nat /\ P i = true /\ forall i', (j <= i' < i)%nat -> P i' = false
  | None => forall i', (j <= i' < j + k)%nat -> P i' = false
  end.
Proof.
  revert j. induction k as [|k IH]; intros j; simpl; [lia|]. destruct (P j) eqn:Hj.
  - split; [lia|]. split; [done|lia].
  - specialize (IH (S j)). destruct (find P (seq (S j) k)) as [i|].
    + destruct IH as (H1 & H2 & H3). split; [lia|]. split; [done|]. intros i' Hi'.
      destruct (decide (i' = j)) as [->|]; [done|]. apply H3. lia.
    + intros i' Hi'. destruct (decide (i' = j)) as [->|]; [done|]. apply IH. lia.
Qed.
Lemma prefix_app_inv {A} (p l1 l2 : list A) :
  p `prefix_of` l1 ++ l2 -> p `prefix_of` l1 \/ exists p', p = l1 ++ p' /\ p' `prefix_of` l2.
Proof.
  revert p. induction l1 as [|x l1 IH]; intros p Hp; simpl in *; [right; eauto|].
  destruct p as [|y p]; [left; apply prefix_nil|].
  assert (y = x) as -> by (by eapply prefix_cons_inv_1). apply prefix_cons_inv_2 in Hp.
  destruct (IH p Hp) as [H|(p' & -> & H)]; [left; by apply prefix_cons|right; eauto].
Qed.
Lemma filter_id {A} (P : A -> Prop) `{!forall x, Decision (P x)} (l : list A) :
  Forall P l -> filter P l = l.
Proof.
  induction 1 as [|x l Hx _ IH]; [done|]. rewrite filter_cons_True by done. by rewrite IH.
Qed.

(** ** Reachability *)

Lemma rtc_invariant {S} (R : relation S) (I : S -> Prop) s s' :
  I s -> (forall x y, I x -> R x y -> I y) -> rtc R s s' -> I s'.
Proof. intros HI Hstep Hr. induction Hr; eauto. Qed.

(** ** The modes of open (fcntl.h), which the kernel and the programs share *)

Definition O_RDONLY : Z := 0.
Definition O_WRONLY : Z := 1.
Definition O_RDWR : Z := 2.
Definition O_CREATE : Z := 512.

(** ** Text *)

Definition NEWLINE : Z := 10.
(** The text of a list of lines. *)
Definition lines_text (ls : list (list Z)) : list Z := concat (map (fun l => l ++ [NEWLINE]) ls).
