(* ===== verification/Cstring.v ===== *)
(** Byte-addressed memory and the C string routines.

    [mem] is the flat address space as a total function from addresses to
    bytes.  The definitions follow string.c pointer step by pointer step; the
    theorems relate each to the effect its callers rely on. *)
From S2P Require Import Prelude.

Definition mem : Type := Z -> Z.
Definition upd (m : mem) (a v : Z) : mem := fun x => if decide (x = a) then v else m x.

(** [n] consecutive bytes at [a]. *)
Definition bytes_at (m : mem) (a : Z) (n : nat) : list Z :=
  (fun i => m (a + Z.of_nat i)) <$> seq 0 n.
(** Memory with the bytes [bs] stored at [a]. *)
Definition put_bytes (m : mem) (a : Z) (bs : list Z) : mem :=
  fun x => if decide (a <= x < a + Z.of_nat (length bs)) then bs !!! Z.to_nat (x - a) else m x.

Module string_c.

(** [rep stosb]: n bytes. *)
Fixpoint stosb (m : mem) (a v : Z) (n : nat) : mem :=
  match n with
  | O => m
  | S n => stosb (upd m a (u8 v)) (a + 1) v n
  end.

Definition store32 (m : mem) (a v : Z) : mem :=
  upd (upd (upd (upd m a (u8 v)) (a + 1) (u8 (Z.shiftr v 8)))
           (a + 2) (u8 (Z.shiftr v 16))) (a + 3) (u8 (Z.shiftr v 24)).

(** [rep stosl]: n double words. *)
Fixpoint stosl (m : mem) (a v : Z) (n : nat) : mem :=
  match n with
  | O => m
  | S n => stosl (store32 m a v) (a + 4) v n
  end.

Definition memset (m : mem) (dst c : Z) (n : nat) : mem :=
  if bool_decide (dst mod 4 = 0 /\ Z.of_nat n mod 4 = 0) then
    let c := Z.land c 255 in
    stosl m dst
      (Z.lor (Z.lor (Z.lor (Z.shiftl c 24) (Z.shiftl c 16)) (Z.shiftl c 8)) c)
      (n / 4)%nat
  else stosb m dst c n.

Fixpoint memcmp (m : mem) (s1 s2 : Z) (n : nat) : Z :=
  match n with
  | O => 0
  | S n => if decide (m s1 = m s2) then memcmp m (s1 + 1) (s2 + 1) n
           else m s1 - m s2
  end.

(** [while(n-- > 0) *d++ = *s++;] *)
Fixpoint copy_up (m : mem) (d s : Z) (n : nat) : mem :=
  match n with
  | O => m
  | S n => copy_up (upd m d (m s)) (d + 1) (s + 1) n
  end.
(** [while(n-- > 0) *--d = *--s;] *)
Fixpoint copy_down (m : mem) (d s : Z) (n : nat) : mem :=
  match n with
  | O => m
  | S n => copy_down (upd m (d - 1) (m (s - 1))) (d - 1) (s - 1) n
  end.

Definition memmove (m : mem) (dst src : Z) (n : nat) : mem :=
  if bool_decide (src < dst /\ src + Z.of_nat n > dst)
  then copy_down m (dst + Z.of_nat n) (src + Z.of_nat n) n
  else copy_up m dst src n.

Fixpoint strncmp (m : mem) (p q : Z) (n : nat) : Z :=
  match n with
  | O => 0
  | S n' => if bool_decide (m p <> 0 /\ m p = m q)
            then strncmp m (p + 1) (q + 1) n'
            else u8 (m p) - u8 (m q)
  end.

(** The second loop of [strncpy], which pads with NULs. *)
Fixpoint zero_fill (m : mem) (s : Z) (n : nat) : mem :=
  match n with
  | O => m
  | S n => zero_fill (upd m s 0) (s + 1) n
  end.
Fixpoint strncpy (m : mem) (s t : Z) (n : nat) : mem :=
  match n with
  | O => m
  | S n => let m' := upd m s (m t) in
           if decide (m t = 0) then zero_fill m' (s + 1) n
           else strncpy m' (s + 1) (t + 1) n
  end.

(** The loop of [safestrcpy] with its final store; [n] is the value [--n]
    leaves at the head of the loop. *)
Fixpoint safestrcpy_loop (m : mem) (s t : Z) (n : nat) : mem :=
  match n with
  | O => upd m s 0
  | S n => let m' := upd m s (m t) in
           if decide (m t = 0) then upd m' (s + 1) 0
           else safestrcpy_loop m' (s + 1) (t + 1) n
  end.
Definition safestrcpy (m : mem) (s t : Z) (n : Z) : mem :=
  if decide (n <= 0) then m else safestrcpy_loop m s t (Z.to_nat (n - 1)).

(** [strlen] with [fuel] bounding the scan. *)
Fixpoint strlen_from (m : mem) (s : Z) (n : Z) (fuel : nat) : option Z :=
  match fuel with
  | O => None
  | S fuel => if decide (m (s + n) = 0) then Some n else strlen_from m s (n + 1) fuel
  end.
Definition strlen (m : mem) (s : Z) (fuel : nat) : option Z := strlen_from m s 0 fuel.

End string_c.

Lemma bytes_at_lookup (m : mem) (a : Z) (n i : nat) :
  bytes_at m a n !! i = if decide (i < n)%nat then Some (m (a + Z.of_nat i)) else None.
Proof.
  unfold bytes_at. rewrite list_lookup_fmap. case_decide.
  - by rewrite lookup_seq_lt by lia.
  - by rewrite lookup_seq_ge by lia.
Qed.
Lemma bytes_at_length (m : mem) (a : Z) (n : nat) : length (bytes_at m a n) = n.
Proof. unfold bytes_at. by rewrite length_fmap, length_seq. Qed.
Lemma bytes_at_put m a bs : bytes_at (put_bytes m a bs) a (length bs) = bs.
Proof.
  apply list_eq. intros k. rewrite bytes_at_lookup. case_decide as Hk.
  - unfold put_bytes. rewrite decide_True by lia. replace (a + Z.of_nat k - a) with (Z.of_nat k) by lia.
    rewrite Nat2Z.id. symmetry. by apply list_lookup_lookup_total_lt.
  - symmetry. apply lookup_ge_None. lia.
Qed.
Lemma bytes_at_ext m m' a n :
  (forall x, a <= x < a + Z.of_nat n -> m x = m' x) -> bytes_at m a n = bytes_at m' a n.
Proof.
  intros H. apply list_eq. intros k. rewrite !bytes_at_lookup. case_decide; [|done]. f_equal. apply H. lia.
Qed.

(** ** Effects *)

Section effects.
Import string_c.
Implicit Types (m : mem) (n : nat).

Ltac upd_solve := unfold upd; repeat case_decide; try lia; try f_equal; try lia.

Lemma copy_up_spec m d s n x :
  s >= d \/ s + Z.of_nat n <= d ->
  copy_up m d s n x =
    if decide (d <= x < d + Z.of_nat n) then m (s + (x - d)) else m x.
Proof.
  revert m d s. induction n as [|n IH]; intros m d s Hs; simpl copy_up.
  - rewrite decide_False by lia. done.
  - rewrite IH by lia. upd_solve.
Qed.
Lemma copy_down_spec m d s n x :
  s - Z.of_nat n < d - Z.of_nat n ->
  copy_down m d s n x =
    if decide (d - Z.of_nat n <= x < d) then m (s + (x - d)) else m x.
Proof.
  revert m d s. induction n as [|n IH]; intros m d s Hs; simpl copy_down.
  - rewrite decide_False by lia. done.
  - rewrite IH by lia. upd_solve.
Qed.

(** Whatever the overlap, [memmove] is a simultaneous copy. *)
Lemma memmove_copy m dst src n x :
  memmove m dst src n x =
    if decide (dst <= x < dst + Z.of_nat n) then m (src + (x - dst)) else m x.
Proof.
  unfold memmove. case_bool_decide.
  - rewrite copy_down_spec by lia.
    repeat case_decide; try lia; f_equal; lia.
  - rewrite copy_up_spec by lia. done.
Qed.

Lemma stosb_spec m a v n x :
  stosb m a v n x = if decide (a <= x < a + Z.of_nat n) then u8 v else m x.
Proof.
  revert m a. induction n as [|n IH]; intros m a; simpl stosb.
  - by rewrite decide_False by lia.
  - rewrite IH. upd_solve.
Qed.
(** [v] repeats the byte [c] four times. *)
Definition byte_splat (c v : Z) : Prop :=
  u8 v = c /\ u8 (Z.shiftr v 8) = c /\ u8 (Z.shiftr v 16) = c /\ u8 (Z.shiftr v 24) = c.
Lemma stosl_spec m a c v n x :
  byte_splat c v ->
  stosl m a v n x = if decide (a <= x < a + 4 * Z.of_nat n) then c else m x.
Proof.
  intros Hv. revert m a. induction n as [|n IH]; intros m a; simpl stosl.
  - by rewrite decide_False by lia.
  - rewrite IH. unfold store32. destruct Hv as (-> & -> & -> & ->). upd_solve.
Qed.
Lemma memset_word_splat c :
  byte_splat (u8 c)
    (let c := Z.land c 255 in
     Z.lor (Z.lor (Z.lor (Z.shiftl c 24) (Z.shiftl c 16)) (Z.shiftl c 8)) c).
Proof.
  cbv zeta. change 255 with (Z.ones 8). rewrite Z.land_ones by lia. fold (u8 c).
  assert (H : 0 <= u8 c < 256) by (apply Z.mod_pos_bound; lia).
  generalize dependent (u8 c). clear c. intros c Hc.
  assert (Hz : forall k, 8 <= k -> Z.testbit c k = false).
  { intros k Hk. destruct (decide (c = 0)) as [->|]; [apply Z.testbit_0_l|].
    apply Z.bits_above_log2; [lia|]. apply Z.log2_lt_pow2; [lia|].
    apply Z.lt_le_trans with (2 ^ 8); [lia|]. apply Z.pow_le_mono_r; lia. }
  unfold byte_splat, u8. repeat split; apply Z.bits_inj_iff'; intros k Hk;
    rewrite <- Z.land_ones, Z.land_spec, Z.testbit_ones_nonneg by lia;
    rewrite ?Z.shiftr_spec, !Z.lor_spec, !Z.shiftl_spec by lia;
    destruct (Z.ltb_spec k 8); rewrite ?Bool.andb_false_r, ?Bool.andb_true_r;
    try (symmetry; apply Hz; lia);
    repeat match goal with
    | |- context [Z.testbit c ?j] =>
        match j with k => fail 1 | _ => idtac end;
        first [ rewrite (Hz j) by lia
              | rewrite (Z.testbit_neg_r c j) by lia
              | replace j with k by lia ]
    end; rewrite ?Bool.orb_false_r; done.
Qed.
Lemma memset_fill m dst c n x :
  memset m dst c n x =
    if decide (dst <= x < dst + Z.of_nat n) then u8 c else m x.
Proof.
  unfold memset. case_bool_decide as H.
  - rewrite (stosl_spec _ _ (u8 c)) by apply memset_word_splat.
    replace (4 * Z.of_nat (n / 4)) with (Z.of_nat n); [done|].
    rewrite Nat2Z.inj_div. zarith.
  - apply stosb_spec.
Qed.
End effects.

(** The string of at most [n] bytes at [p]: up to the first NUL. *)
Fixpoint strn (m : mem) (p : Z) (n : nat) : list Z :=
  match n with
  | O => []
  | S n => if decide (m p = 0) then [] else m p :: strn m (p + 1) n
  end.

Definition disjoint (a b : Z) (n : nat) : Prop :=
  a + Z.of_nat n <= b \/ b + Z.of_nat n <= a.

Section strings.
Import string_c.
Implicit Types (m : mem) (n : nat).

Lemma strn_ext m m' p n :
  (forall x, p <= x < p + Z.of_nat n -> m x = m' x) -> strn m p n = strn m' p n.
Proof.
  revert p. induction n as [|n IH]; intros p H; simpl; [done|].
  rewrite (H p) by lia. case_decide; [done|]. f_equal. apply IH. intros. apply H. lia.
Qed.
Lemma strn_length m p n : (length (strn m p n) <= n)%nat.
Proof.
  revert p. induction n as [|n IH]; intros p; simpl; [lia|].
  case_decide; simpl; [lia|]. specialize (IH (p + 1)). lia.
Qed.

Lemma strn_nonzero m p n : Forall (fun c => c <> 0) (strn m p n).
Proof.
  revert p. induction n as [|n IH]; intros p; simpl; [constructor|].
  case_decide; constructor; auto.
Qed.
Lemma strn_bytes m p n : (forall x, is_u8 (m x)) -> Forall is_u8 (strn m p n).
Proof.
  intros Hm. revert p. induction n as [|n IH]; intros p; simpl; [constructor|].
  case_decide; constructor; auto.
Qed.
Lemma strn_padded m p n w :
  (length w <= n)%nat -> Forall (fun c => c <> 0) w ->
  (forall i, (i < n)%nat -> m (p + Z.of_nat i) = (w ++ replicate n 0) !!! i) ->
  strn m p n = w.
Proof.
  revert p w. induction n as [|n IH]; intros p w Hl Hw Hi; simpl.
  - destruct w; simpl in *; [done|lia].
  - pose proof (Hi 0%nat ltac:(lia)) as H0. rewrite Z.add_0_r in H0. rewrite H0.
    destruct w as [|c w]; simpl; [done|]. inversion_clear Hw as [|? ? Hc Hw'].
    rewrite decide_False by done. f_equal. simpl in Hl. apply IH; [lia|done|].
    intros i Hlt. replace (p + 1 + Z.of_nat i) with (p + Z.of_nat (S i)) by lia.
    rewrite Hi by lia. simpl. rewrite replicate_cons_app, app_assoc.
    rewrite (lookup_total_app_l (_ ++ _)); [done|]. rewrite length_app, length_replicate. lia.
Qed.

Lemma zero_fill_spec m s n x :
  zero_fill m s n x = if decide (s <= x < s + Z.of_nat n) then 0 else m x.
Proof.
  revert m s. induction n as [|n IH]; intros m s; simpl zero_fill.
  - by rewrite decide_False by lia.
  - rewrite IH. unfold upd. repeat case_decide; try lia; done.
Qed.

Lemma strncmp_zero_iff m p q n :
  (forall x, is_u8 (m x)) -> strncmp m p q n = 0 <-> strn m p n = strn m q n.
Proof.
  intros Hm. revert p q. induction n as [|n IH]; intros p q; simpl; [done|].
  pose proof (Hm p) as Hp. pose proof (Hm q) as Hq. unfold is_u8 in Hp, Hq.
  case_bool_decide as Hc.
  - destruct Hc as [H0 He]. rewrite IH. rewrite <- He, !decide_False by done.
    split; intros H; [by rewrite H|by simplify_eq].
  - unfold u8. rewrite !Z.mod_small by lia.
    assert (Hne : m p = m q -> m p = 0) by (intros; destruct (decide (m p = 0)); tauto).
    destruct (decide (m p = 0)) as [H0|H0], (decide (m q = 0)) as [H1|H1];
      (split; intros H; [try (exfalso; lia)|]); [done|lia|discriminate|discriminate|].
    injection H as H _. lia.
Qed.

Lemma strncpy_spec m s t n x :
  disjoint s t n ->
  strncpy m s t n x =
    if decide (s <= x < s + Z.of_nat n)
    then (strn m t n ++ replicate n 0) !!! Z.to_nat (x - s) else m x.
Proof.
  revert m s t. induction n as [|n IH]; intros m s t Hd; cbn [strncpy strn].
  - by rewrite decide_False by lia.
  - unfold disjoint in *. case_decide as H0.
    + rewrite zero_fill_spec. simpl app. rewrite H0. unfold upd.
      repeat case_decide; try lia; try done.
      * symmetry. apply (lookup_total_replicate_2 (A := Z) (S n)). lia.
      * subst x. by rewrite Z.sub_diag.
    + rewrite IH by lia.
      rewrite (strn_ext (upd m s (m t)) m) by (intros; unfold upd; case_decide; [lia|done]).
      assert (Hcut : forall j, (j < n)%nat ->
        (strn m (t + 1) n ++ replicate n 0) !!! j
        = (strn m (t + 1) n ++ replicate (S n) 0) !!! j).
      { intros j Hj. rewrite replicate_S_end, app_assoc.
        rewrite (lookup_total_app_l (_ ++ _)); [done|].
        rewrite length_app, length_replicate. lia. }
      repeat case_decide; try lia.
      * rewrite Hcut by lia. replace (Z.to_nat (x - s)) with (S (Z.to_nat (x - (s + 1)))) by lia.
        done.
      * replace x with s by lia. rewrite Z.sub_diag. unfold upd.
        by rewrite decide_True by done.
      * unfold upd. by rewrite decide_False by lia.
Qed.

Lemma safestrcpy_loop_spec m s t k :
  (forall i, 0 <= i <= Z.of_nat k -> forall j, 0 <= j <= Z.of_nat k -> s + i <> t + j) ->
  let m' := safestrcpy_loop m s t k in
  strn m' s (S k) = strn m t k /\
  m' (s + Z.of_nat (length (strn m t k))) = 0 /\
  (forall x, x < s \/ s + Z.of_nat k < x -> m' x = m x).
Proof.
  revert m s t. induction k as [|k IH]; intros m s t Hd; cbn [safestrcpy_loop].
  - assert (Hs : upd m s 0 s = 0) by (unfold upd; case_decide; lia).
    simpl. rewrite Z.add_0_r, Hs. split; [by rewrite decide_True by done|]. split; [done|].
    intros. unfold upd. by rewrite decide_False by lia.
  - destruct (decide (m t = 0)) as [H0|H0].
    + cbn zeta. cbn [strn]. rewrite (decide_True (P := m t = 0)) by exact H0. simpl length.
      assert (Hs : upd (upd m s (m t)) (s + 1) 0 s = 0)
        by (unfold upd; repeat case_decide; lia).
      rewrite Z.add_0_r, Hs. split; [by rewrite decide_True by done|]. split; [done|].
      intros. unfold upd. rewrite !decide_False by lia. done.
    + set (m1 := upd m s (m t)).
      destruct (IH m1 (s + 1) (t + 1)) as (H1 & H2 & H3).
      { intros i Hi j Hj. specialize (Hd (i + 1) ltac:(lia) (j + 1) ltac:(lia)). lia. }
      assert (Hsrc : strn m1 (t + 1) k = strn m (t + 1) k).
      { apply strn_ext. intros x Hx. unfold m1, upd. rewrite decide_False; [done|].
        specialize (Hd 0 ltac:(lia) (x - t) ltac:(lia)). lia. }
      rewrite Hsrc in H1, H2. cbn zeta.
      assert (Hs : safestrcpy_loop m1 (s + 1) (t + 1) k s = m t).
      { rewrite H3 by lia. unfold m1, upd. by rewrite decide_True. }
      split; [|split].
      * remember (S k) as k1. cbn [strn]. rewrite Hs, decide_False by done. subst k1.
        rewrite H1. cbn [strn]. by rewrite (decide_False (P := m t = 0)) by done.
      * cbn [strn]. rewrite (decide_False (P := m t = 0)) by done. simpl length.
        rewrite <- H2. f_equal. lia.
      * intros x Hx. rewrite H3 by lia. unfold m1, upd. by rewrite decide_False by lia.
Qed.

Lemma strlen_from_spec m s (n : Z) (k fuel : nat) :
  0 <= n -> (forall i, n <= i < n + Z.of_nat k -> m (s + i) <> 0) ->
  m (s + (n + Z.of_nat k)) = 0 -> (k < fuel)%nat ->
  strlen_from m s n fuel = Some (n + Z.of_nat k).
Proof.
  revert n k. induction fuel as [|fuel IH]; intros n k Hn Hnz Hz Hf; [lia|]. simpl.
  case_decide as H.
  - destruct k; [f_equal; lia|]. exfalso. apply (Hnz n); [lia|done].
  - destruct k as [|k]; [rewrite Z.add_0_r in Hz; done|].
    rewrite (IH (n + 1) k); [f_equal; lia|lia| |rewrite <- Hz; f_equal; lia|lia].
    intros i Hi. apply Hnz. lia.
Qed.
End strings.

(** ** Properties *)

Section properties.
Import string_c.

(** Memmove copies the [n] source bytes as they were before the call to
    the destination, for every overlap of the two ranges, and changes no
    byte outside the destination. *)
Theorem memmove_correct (m : mem) (dst src : Z) (n : nat) :
  bytes_at (memmove m dst src n) dst n = bytes_at m src n /\
  (forall x, ~ (dst <= x < dst + Z.of_nat n) -> memmove m dst src n x = m x).
Proof.
  split.
  - apply list_eq. intros i. rewrite !bytes_at_lookup. case_decide; [|done].
    rewrite memmove_copy, decide_True by lia. do 2 f_equal. lia.
  - intros x Hx. by rewrite memmove_copy, decide_False.
Qed.

(** Memset fills exactly the [n] bytes at [dst] with the low byte of [c],
    on the word-store path as on the byte-store path. *)
Theorem memset_correct (m : mem) (dst c : Z) (n : nat) :
  bytes_at (memset m dst c n) dst n = replicate n (u8 c) /\
  (forall x, ~ (dst <= x < dst + Z.of_nat n) -> memset m dst c n x = m x).
Proof.
  split.
  - apply list_eq. intros i. rewrite bytes_at_lookup. case_decide.
    + rewrite lookup_replicate_2, memset_fill, decide_True by lia. done.
    + symmetry. apply lookup_replicate_None. lia.
  - intros x Hx. by rewrite memset_fill, decide_False.
Qed.

(** Safestrcpy into a buffer of [n > 0] bytes leaves there the source
    string cut to [n - 1] bytes, NUL-terminated inside the buffer, and writes
    nothing outside it. *)
Theorem safestrcpy_correct (m : mem) (s t n : Z) :
  0 < n -> disjoint s t (Z.to_nat n) ->
  let m' := safestrcpy m s t n in
  strn m' s (Z.to_nat n) = strn m t (Z.to_nat (n - 1)) /\
  (exists k, 0 <= k < n /\ m' (s + k) = 0) /\
  (forall x, ~ (s <= x < s + n) -> m' x = m x).
Proof.
  intros Hn Hd m'. unfold m', safestrcpy. rewrite decide_False by lia.
  destruct (safestrcpy_loop_spec m s t (Z.to_nat (n - 1))) as (H1 & H2 & H3).
  { unfold disjoint in Hd. lia. }
  split; [|split].
  - rewrite <- H1. f_equal. lia.
  - eexists. split; [|exact H2]. pose proof (strn_length m t (Z.to_nat (n - 1))). lia.
  - intros x Hx. apply H3. lia.
Qed.

(** On byte-valued memory strncmp returns 0 exactly when the two strings
    agree up to their first NUL or up to [n] bytes; strncpy writes the source
    string padded with NULs to exactly [n] bytes, so a copied name compares
    equal to its source. *)
Theorem strncpy_strncmp (m : mem) (s t : Z) (n : nat) :
  (forall x, is_u8 (m x)) -> disjoint s t n ->
  let m' := strncpy m s t n in
  strncmp m' s t n = 0 /\
  bytes_at m' s n = take n (strn m t n ++ replicate n 0) /\
  (forall x, ~ (s <= x < s + Z.of_nat n) -> m' x = m x).
Proof.
  intros Hm Hd m'.
  assert (Hv : forall x, m' x =
    if decide (s <= x < s + Z.of_nat n)
    then (strn m t n ++ replicate n 0) !!! Z.to_nat (x - s) else m x)
    by (intros; by apply strncpy_spec).
  split; [|split].
  - apply strncmp_zero_iff.
    + intros x. rewrite Hv. case_decide; [|done].
      apply Forall_lookup_total_1; [|rewrite length_app, length_replicate; lia].
      apply Forall_app. split; [by apply strn_bytes|].
      apply Forall_replicate. unfold is_u8. lia.
    + rewrite (strn_padded m' s n (strn m t n)).
      * apply strn_ext. intros x Hx. unfold disjoint in Hd. by rewrite Hv, decide_False by lia.
      * apply strn_length.
      * apply strn_nonzero.
      * intros i Hi. rewrite Hv, decide_True by lia. f_equal. lia.
  - apply list_eq. intros i. rewrite bytes_at_lookup. case_decide.
    + rewrite lookup_take_lt, Hv, decide_True by lia.
      replace (Z.to_nat (s + Z.of_nat i - s)) with i by lia.
      symmetry. apply list_lookup_lookup_total_lt. rewrite length_app, length_replicate. lia.
    + symmetry. apply lookup_take_ge. lia.
  - intros x Hx. by rewrite Hv, decide_False.
Qed.

(** Memory holding "hello" at address 200. *)
Definition hello_mem : mem := fun x =>
  match x with 200 => 104 | 201 => 101 | 202 => 108 | 203 => 108 | 204 => 111 | _ => 0 end.

(** The copy of "hello" into a four-byte buffer. *)
Lemma safestrcpy_correct_witness :
  strn (safestrcpy hello_mem 100 200 4) 100 4 = [104; 101; 108] /\
  safestrcpy hello_mem 100 200 4 200 = 104.
Proof.
  destruct (safestrcpy_correct hello_mem 100 200 4) as (H1 & _ & H3).
  - lia.
  - left; vm_compute; discriminate.
  - split; [exact H1|]. apply (H3 200). lia.
Defined.

Lemma hello_mem_bytes (x : Z) : is_u8 (hello_mem x).
Proof. unfold hello_mem, is_u8. repeat case_match; lia. Qed.

(** "hello" copied into a DIRSIZ-sized name field. *)
Lemma strncpy_strncmp_witness :
  strncmp (strncpy hello_mem 100 200 14) 100 200 14 = 0 /\
  bytes_at (strncpy hello_mem 100 200 14) 100 14
    = [104; 101; 108; 108; 111; 0; 0; 0; 0; 0; 0; 0; 0; 0].
Proof.
  destruct (strncpy_strncmp hello_mem 100 200 14) as (H1 & H2 & _).
  - exact hello_mem_bytes.
  - left; vm_compute; discriminate.
  - split; [exact H1|exact H2].
Defined.
End properties.
