(* ===== verification/Spinlock.v ===== *)
(** Spin locks and interrupt nesting (spinlock.c).

    [cpu] holds the per-CPU fields the lock code uses; [lk_state] is all CPUs
    with the locks of the kernel, addressed by their location.  The operations
    are the functions of spinlock.c run by one CPU.  The second half is the
    multiprocessor: every CPU interleaves the single steps of its [acquire]
    and [release] calls, the atomic [xchg] being one of them. *)
From S2P Require Import Prelude.

(** struct cpu of proc.h: interrupt flag of the CPU's eflags, pushcli depth,
    saved flag, and the slot of the process it runs. *)
Record cpu := mkcpu { FL_IF : bool; ncli : Z; intena : bool; cproc : option nat }.
#[export] Instance eta_cpu : Eta cpu := fun u => mkcpu (FL_IF u) (ncli u) (intena u) (cproc u).

Record spinlock := mklock { locked : Z; lcpu : option nat }.
#[export] Instance eta_spinlock : Eta spinlock := fun l => mklock (locked l) (lcpu l).

Record lk_state := mklk { cpus : list cpu; locks : gmap Z spinlock }.
#[export] Instance eta_lk : Eta lk_state := fun s => mklk (cpus s) (locks s).

#[export] Instance cpu_inhabited : Inhabited cpu := populate (mkcpu false 0 false None).

Definition the_cpu (s : lk_state) (c : nat) : cpu := cpus s !!! c.
Definition on_cpu (c : nat) (f : cpu -> cpu) (s : lk_state) : lk_state :=
  s <| cpus ::= alter f c |>.
Definition set_lock (a : Z) (l : spinlock) (s : lk_state) : lk_state :=
  s <| locks ::= insert a l |>.
Definition lock_at (s : lk_state) (a : Z) : spinlock := default (mklock 0 None) (locks s !! a).

Definition initlock (a : Z) : M lk_state unit := modify (set_lock a (mklock 0 None)).

(** mycpu of proc.c: the caller must have interrupts off. *)
Definition mycpu (c : nat) : M lk_state cpu :=
  u ← gets (fun s => the_cpu s c);
  if FL_IF u then panic "mycpu called with interrupts enabled" else mret u.

Definition pushcli (c : nat) : M lk_state unit :=
  eflags ← gets (fun s => FL_IF (the_cpu s c));
  modify (on_cpu c (fun u => u <| FL_IF := false |>));;
  u ← mycpu c;
  (if decide (ncli u = 0) then modify (on_cpu c (fun u => u <| intena := eflags |>))
   else mret tt);;
  modify (on_cpu c (fun u => u <| ncli ::= Z.add 1 |>)).

Definition popcli (c : nat) : M lk_state unit :=
  eflags ← gets (fun s => FL_IF (the_cpu s c));
  if eflags : bool then panic "popcli - interruptible" else
  modify (on_cpu c (fun u => u <| ncli ::= Z.add (-1) |>));;
  u ← mycpu c;
  if decide (ncli u < 0) then panic "popcli" else
  if bool_decide (ncli u = 0) && intena u
  then modify (on_cpu c (fun u => u <| FL_IF := true |>)) else mret tt.

Definition holds (s : lk_state) (c : nat) (a : Z) : bool :=
  bool_decide (locked (lock_at s a) <> 0 /\ lcpu (lock_at s a) = Some c).

Definition holding (c : nat) (a : Z) : M lk_state bool :=
  pushcli c;;
  mycpu c;;
  r ← gets (fun s => holds s c a);
  popcli c;;
  mret r.

(** The spin: [xchg] stores 1 and returns the old value; a CPU that reads 1
    keeps spinning until the holder has run. *)
Definition acquire (c : nat) (a : Z) : M lk_state unit :=
  pushcli c;;
  h ← holding c a;
  if h : bool then panic "acquire" else
  old ← gets (fun s => locked (lock_at s a));
  if decide (old <> 0) then sleeps "spin" else
  modify (fun s => set_lock a ((lock_at s a) <| locked := 1 |>) s);;
  mycpu c;;
  modify (fun s => set_lock a ((lock_at s a) <| lcpu := Some c |>) s).

Definition release (c : nat) (a : Z) : M lk_state unit :=
  h ← holding c a;
  if negb h then panic "release" else
  modify (fun s => set_lock a ((lock_at s a) <| lcpu := None |>) s);;
  modify (fun s => set_lock a ((lock_at s a) <| locked := 0 |>) s);;
  popcli c.

(** ** What each operation does *)

Definition cpu_wf (u : cpu) : Prop := 0 <= ncli u /\ (0 < ncli u -> FL_IF u = false).
Definition pushed (u : cpu) : cpu :=
  mkcpu false (1 + ncli u) (if decide (ncli u = 0) then FL_IF u else intena u) (cproc u).
Definition popped (u : cpu) : cpu :=
  mkcpu (bool_decide (ncli u = 1) && intena u) (-1 + ncli u) (intena u) (cproc u).
(** A matched pushcli/popcli pair. *)
Definition noted (u : cpu) : cpu :=
  u <| intena := if decide (ncli u = 0) then FL_IF u else intena u |>.

Section operations.
Context (c : nat).
Implicit Types (s : lk_state) (u : cpu) (a : Z).
Definition valid_cpu s : Prop := (c < length (cpus s))%nat.

Lemma the_on_cpu f s : valid_cpu s -> the_cpu (on_cpu c f s) c = f (the_cpu s c).
Proof.
  intros Hc. unfold the_cpu, on_cpu. simpl. rewrite list_lookup_total_alter. by rewrite decide_True.
Qed.
Lemma the_on_cpu_ne f s c' : c <> c' -> the_cpu (on_cpu c f s) c' = the_cpu s c'.
Proof. intros. unfold the_cpu, on_cpu. simpl. rewrite list_lookup_total_alter. rewrite decide_False; [done|]. by intros [? _]. Qed.
Lemma valid_on_cpu f s : valid_cpu s -> valid_cpu (on_cpu c f s).
Proof. unfold valid_cpu, on_cpu. simpl. by rewrite length_alter. Qed.
Lemma on_cpu_compose f g s : on_cpu c f (on_cpu c g s) = on_cpu c (f ∘ g) s.
Proof. unfold on_cpu. simpl. by rewrite list_alter_alter_eq. Qed.
Lemma on_cpu_ext f g s :
  f (the_cpu s c) = g (the_cpu s c) -> on_cpu c f s = on_cpu c g s.
Proof.
  intros H. unfold on_cpu. simpl. f_equal. apply list_alter_ext; [|done].
  intros x Hx. unfold the_cpu in H. apply list_lookup_total_correct in Hx. by subst.
Qed.
Lemma on_cpu_set_lock f a l s : on_cpu c f (set_lock a l s) = set_lock a l (on_cpu c f s).
Proof. done. Qed.
Lemma the_set_lock a l s : the_cpu (set_lock a l s) c = the_cpu s c.
Proof. done. Qed.
Lemma set_lock_set_lock a l l' s : set_lock a l (set_lock a l' s) = set_lock a l s.
Proof. unfold set_lock. simpl. by rewrite insert_insert_eq. Qed.
Lemma lock_at_set a l s : lock_at (set_lock a l s) a = l.
Proof. unfold lock_at, set_lock. simpl. by rewrite lookup_insert_eq. Qed.
Lemma lock_at_set_ne a b l s : a <> b -> lock_at (set_lock a l s) b = lock_at s b.
Proof. intros. unfold lock_at, set_lock. simpl. by rewrite lookup_insert_ne. Qed.
Lemma lock_at_on_cpu f a s : lock_at (on_cpu c f s) a = lock_at s a.
Proof. done. Qed.

Lemma mycpu_eq s : FL_IF (the_cpu s c) = false -> mycpu c s = Ok (s, the_cpu s c).
Proof. intros H. unfold mycpu, mbind, M_bind, gets. by rewrite H. Qed.

Lemma pushcli_eq s : valid_cpu s -> pushcli c s = Ok (on_cpu c pushed s, tt).
Proof.
  intros Hc. unfold pushcli, mbind, M_bind, gets, modify.
  rewrite mycpu_eq by (by rewrite the_on_cpu).
  rewrite the_on_cpu by done.
  change (ncli (the_cpu s c) <| FL_IF := false |>) with (ncli (the_cpu s c)).
  destruct (decide (ncli (the_cpu s c) = 0)) as [E|E]; unfold mret, M_ret;
    rewrite ?on_cpu_compose; do 2 f_equal; apply on_cpu_ext; unfold pushed; simpl.
  - by rewrite decide_True.
  - by rewrite decide_False.
Qed.
Lemma popcli_eq s :
  valid_cpu s -> 0 < ncli (the_cpu s c) -> FL_IF (the_cpu s c) = false ->
  popcli c s = Ok (on_cpu c popped s, tt).
Proof.
  intros Hc Hn Hf. unfold popcli, mbind, M_bind, gets, modify. rewrite Hf.
  rewrite mycpu_eq by (rewrite the_on_cpu by done; exact Hf).
  rewrite the_on_cpu by done. simpl.
  rewrite decide_False by lia.
  assert (E : bool_decide (-1 + ncli (the_cpu s c) = 0) = bool_decide (ncli (the_cpu s c) = 1))
    by (apply bool_decide_ext; lia).
  rewrite E. destruct (bool_decide _ && _) eqn:Eb; unfold mret, M_ret;
    rewrite ?on_cpu_compose; do 2 f_equal; apply on_cpu_ext; unfold popped; simpl; by rewrite Eb, ?Hf.
Qed.

Lemma popped_pushed u : cpu_wf u -> popped (pushed u) = noted u.
Proof.
  intros [H0 H1]. unfold popped, pushed, noted. destruct u as [f n i p]; simpl in *.
  f_equal; [|lia]. case_decide as E.
  - subst. rewrite bool_decide_true by lia. done.
  - rewrite bool_decide_false by lia. simpl. symmetry. apply H1. lia.
Qed.
Lemma holding_eq s a :
  valid_cpu s -> cpu_wf (the_cpu s c) -> holding c a s = Ok (on_cpu c noted s, holds s c a).
Proof.
  intros Hc Hw. unfold holding, mbind, M_bind, gets. rewrite pushcli_eq by done.
  rewrite mycpu_eq by (by rewrite the_on_cpu).
  assert (Hc' : valid_cpu (on_cpu c pushed s)) by by apply valid_on_cpu.
  assert (Hw0 : 0 <= ncli (the_cpu s c)) by apply Hw.
  rewrite popcli_eq; [|done|rewrite the_on_cpu by done; simpl; lia|by rewrite the_on_cpu].
  rewrite on_cpu_compose. unfold mret, M_ret. do 2 f_equal.
  apply on_cpu_ext. by apply popped_pushed.
Qed.

Lemma pushed_wf u : cpu_wf u -> cpu_wf (pushed u).
Proof. intros [??]. split; simpl; [lia|done]. Qed.
Lemma noted_pushed u : cpu_wf u -> noted (pushed u) = pushed u.
Proof. intros [??]. unfold noted, pushed. simpl. by rewrite (decide_False (P := 1 + _ = 0)) by lia. Qed.

(** acquire of a free lock takes it, with interrupts off one level deeper. *)
Lemma acquire_eq s a :
  valid_cpu s -> cpu_wf (the_cpu s c) -> locked (lock_at s a) = 0 ->
  acquire c a s = Ok (set_lock a (mklock 1 (Some c)) (on_cpu c pushed s), tt).
Proof.
  intros Hc Hw Hl. unfold acquire, mbind, M_bind, gets, modify. rewrite pushcli_eq by done.
  assert (Hc' : valid_cpu (on_cpu c pushed s)) by by apply valid_on_cpu.
  assert (E : on_cpu c noted (on_cpu c pushed s) = on_cpu c pushed s).
  { rewrite on_cpu_compose. apply on_cpu_ext. by apply noted_pushed. }
  rewrite holding_eq; [|done|rewrite the_on_cpu by done; by apply pushed_wf].
  rewrite E. unfold holds at 1. rewrite !lock_at_on_cpu.
  rewrite bool_decide_false by (by intros [? _]).
  rewrite decide_False by (rewrite lock_at_on_cpu; auto).
  rewrite mycpu_eq by (rewrite the_set_lock; by rewrite the_on_cpu).
  rewrite lock_at_set, set_lock_set_lock. done.
Qed.
(** acquire of a lock the CPU already holds panics. *)
Lemma acquire_self s a :
  valid_cpu s -> cpu_wf (the_cpu s c) -> holds s c a = true ->
  acquire c a s = Panic "acquire".
Proof.
  intros Hc Hw Hh. unfold acquire, mbind, M_bind. rewrite pushcli_eq by done.
  rewrite holding_eq; [|by apply valid_on_cpu|rewrite the_on_cpu by done; by apply pushed_wf].
  assert (E : holds (on_cpu c pushed s) c a = true) by exact Hh. by rewrite E.
Qed.
(** release by the holder frees the lock and undoes one pushcli level. *)
Lemma release_eq s a :
  valid_cpu s -> 0 < ncli (the_cpu s c) -> FL_IF (the_cpu s c) = false ->
  holds s c a = true ->
  release c a s = Ok (set_lock a (mklock 0 None) (on_cpu c popped s), tt).
Proof.
  intros Hc Hn Hf Hh. unfold release, mbind, M_bind, modify.
  rewrite holding_eq; [|done|split; [lia|done]]. rewrite Hh. change (negb true) with false.
  assert (E : on_cpu c noted s = s).
  { rewrite (on_cpu_ext noted id).
    - unfold on_cpu, id. destruct s as [l k]. simpl. f_equal. by apply list_alter_id.
    - unfold noted, id. destruct (the_cpu s c) as [f n i p]; simpl in *.
      by rewrite decide_False by lia. }
  rewrite E. cbv beta iota. rewrite lock_at_set, set_lock_set_lock.
  rewrite popcli_eq by done. done.
Qed.
Lemma release_not_held s a :
  valid_cpu s -> cpu_wf (the_cpu s c) -> holds s c a = false ->
  release c a s = Panic "release".
Proof.
  intros Hc Hw Hh. unfold release, mbind, M_bind. rewrite holding_eq by done. by rewrite Hh.
Qed.
End operations.

(** ** The multiprocessor

    A CPU outside the lock code is at [PRun]; the other points are the memory
    operations of [acquire] and [release] that other CPUs can observe. *)
Inductive pc :=
| PRun
| PSpin (a : Z)   (* in the xchg loop *)
| PGot (a : Z)    (* xchg returned 0, lk->cpu not yet stored *)
| PDrop (a : Z)   (* lk->cpu cleared, lk->locked not yet cleared *)
| PPop.           (* lock released, popcli to run *)

(** [mheld] is the list of locks whose critical section the CPU is in. *)
Record mp := mkmp { ms : lk_state; mpc : nat -> pc; mheld : nat -> list Z }.

Inductive mp_step : mp -> mp -> Prop :=
| mp_enter c a s s1 p h :
    p c = PRun -> valid_cpu c s -> (pushcli c;; holding c a) s = Ok (s1, false) ->
    mp_step (mkmp s p h) (mkmp s1 (<[c := PSpin a]> p) h)
| mp_spin c a s p h :
    p c = PSpin a -> locked (lock_at s a) <> 0 ->
    mp_step (mkmp s p h) (mkmp (set_lock a ((lock_at s a) <| locked := 1 |>) s) p h)
| mp_take c a s p h :
    p c = PSpin a -> locked (lock_at s a) = 0 ->
    mp_step (mkmp s p h)
      (mkmp (set_lock a ((lock_at s a) <| locked := 1 |>) s)
            (<[c := PGot a]> p) (<[c := a :: h c]> h))
| mp_record c a s p h :
    p c = PGot a ->
    mp_step (mkmp s p h)
      (mkmp (set_lock a ((lock_at s a) <| lcpu := Some c |>) s) (<[c := PRun]> p) h)
| mp_leave c a s s1 p h :
    p c = PRun -> valid_cpu c s -> holding c a s = Ok (s1, true) ->
    mp_step (mkmp s p h)
      (mkmp (set_lock a ((lock_at s1 a) <| lcpu := None |>) s1) (<[c := PDrop a]> p) h)
| mp_unlock c a s p h :
    p c = PDrop a ->
    mp_step (mkmp s p h)
      (mkmp (set_lock a ((lock_at s a) <| locked := 0 |>) s)
            (<[c := PPop]> p) (<[c := filter (fun b => b <> a) (h c)]> h))
| mp_pop c s s1 p h :
    p c = PPop -> valid_cpu c s -> popcli c s = Ok (s1, tt) ->
    mp_step (mkmp s p h) (mkmp s1 (<[c := PRun]> p) h).

(** All locks free, every CPU outside the lock code at depth 0. *)
Definition mp_init (m : mp) : Prop :=
  (forall c, mpc m c = PRun /\ mheld m c = [] /\ ncli (the_cpu (ms m) c) = 0) /\
  (forall a, lock_at (ms m) a = mklock 0 None).

Definition pc_depth (q : pc) : Z := match q with PSpin _ | PPop => 1 | _ => 0 end.

Record mp_inv (m : mp) : Prop := {
  mi_wf : forall c, cpu_wf (the_cpu (ms m) c);
  mi_depth : forall c, ncli (the_cpu (ms m) c) = Z.of_nat (length (mheld m c)) + pc_depth (mpc m c);
  mi_locked : forall c a, a ∈ mheld m c -> locked (lock_at (ms m) a) = 1;
  mi_excl : forall c c' a, a ∈ mheld m c -> a ∈ mheld m c' -> c = c';
  mi_nodup : forall c, NoDup (mheld m c);
  mi_owner : forall c a, lcpu (lock_at (ms m) a) = Some c -> a ∈ mheld m c;
  mi_pc : forall c a, mpc m c = PGot a \/ mpc m c = PDrop a -> a ∈ mheld m c;
  mi_drop : forall c a, mpc m c = PDrop a -> lcpu (lock_at (ms m) a) = None;
}.

Lemma mp_init_inv m : mp_init m -> mp_inv m.
Proof.
  intros [Hc Hl]. split; intros.
  - destruct (Hc c) as (_ & _ & H). split; rewrite H; lia.
  - destruct (Hc c) as (-> & -> & ->). done.
  - destruct (Hc c) as (_ & E & _). rewrite E in H. set_solver.
  - destruct (Hc c) as (_ & E & _). rewrite E in H. set_solver.
  - destruct (Hc c) as (_ & -> & _). constructor.
  - by rewrite Hl in H.
  - destruct (Hc c) as (E & _). rewrite E in H. destruct H; discriminate.
  - by rewrite Hl.
Qed.

(** The fields of a lock survive an update of another lock, and of the other
    fields of the same lock. *)
Lemma lock_at_cases s a b l :
  lock_at (set_lock a l s) b = if decide (a = b) then l else lock_at s b.
Proof. case_decide; [subst; apply lock_at_set|by apply lock_at_set_ne]. Qed.

Lemma the_on_cpu_cases c c' f s :
  valid_cpu c s ->
  the_cpu (on_cpu c f s) c' = if decide (c = c') then f (the_cpu s c') else the_cpu s c'.
Proof. intros. case_decide; [subst; by apply the_on_cpu|by apply the_on_cpu_ne]. Qed.

Lemma filter_ne_length (a : Z) (l : list Z) :
  NoDup l -> a ∈ l -> (S (length (filter (fun b => b <> a) l)) = length l)%nat.
Proof.
  intros Hnd Ha. apply list_elem_of_split in Ha as (l1 & l2 & ->).
  apply NoDup_app in Hnd as (_ & Hd & Hnd2). apply NoDup_cons in Hnd2 as [Ha2 _].
  rewrite filter_app, filter_cons_False by auto.
  rewrite !length_app. simpl.
  rewrite !filter_id; [lia| |].
  - apply Forall_forall. set_solver.
  - apply Forall_forall. intros x Hx ->. apply (Hd a); set_solver.
Qed.

Ltac mp_case :=
  repeat match goal with
  | H : context [<[_ := _]> _ _] |- _ => rewrite fn_insert_cases in H
  | |- context [<[_ := _]> _ _] => rewrite fn_insert_cases
  | H : context [lock_at (set_lock _ _ _) _] |- _ => rewrite lock_at_cases in H
  | |- context [lock_at (set_lock _ _ _) _] => rewrite lock_at_cases
  end;
  rewrite ?the_set_lock; repeat case_decide; simplify_eq/=.

(** Steps that change no lock and keep every CPU's held list. *)
Lemma mp_inv_cpu c f q s p h :
  mp_inv (mkmp s p h) -> valid_cpu c s ->
  cpu_wf (f (the_cpu s c)) ->
  ncli (f (the_cpu s c)) = Z.of_nat (length (h c)) + pc_depth q ->
  (forall a, q <> PGot a /\ q <> PDrop a) ->
  mp_inv (mkmp (on_cpu c f s) (<[c := q]> p) h).
Proof.
  intros [W D L X N O P Dr] Hc Hw Hd Hq. simpl in *. split; simpl; intros.
  - rewrite the_on_cpu_cases by done. case_decide; subst; auto.
  - rewrite the_on_cpu_cases by done. mp_case; auto.
  - rewrite lock_at_on_cpu. eauto.
  - eauto.
  - eauto.
  - rewrite lock_at_on_cpu in *. eauto.
  - mp_case; [|eauto]. destruct (Hq a); firstorder congruence.
  - rewrite lock_at_on_cpu. mp_case; [|eauto]. destruct (Hq a); firstorder congruence.
Qed.

Lemma mp_step_inv m m' : mp_inv m -> mp_step m m' -> mp_inv m'.
Proof.
  intros HI Hs. inversion Hs as [c a s s1 p h Hp Hc Hr|c a s p h Hp Hl|c a s p h Hp Hl
    |c a s p h Hp|c a s s1 p h Hp Hc Hr|c a s p h Hp|c s s1 p h Hp Hc Hr]; subst; clear Hs;
    pose proof HI as [W D L X N O P Dr]; simpl in *.
  - unfold mbind, M_bind in Hr. rewrite pushcli_eq in Hr by done.
    rewrite holding_eq in Hr;
      [|by apply valid_on_cpu|rewrite the_on_cpu by done; by apply pushed_wf].
    injection Hr as Hr _. rewrite on_cpu_compose in Hr. subst s1.
    rewrite (on_cpu_ext _ _ pushed) by (simpl; by apply noted_pushed).
    apply mp_inv_cpu; [done|done|by apply pushed_wf| |done].
    simpl. rewrite D, Hp. simpl. lia.
  - split; simpl; intros; mp_case; eauto; exfalso; eauto.
  - assert (Hfree : forall c', a ∉ h c') by (intros c' Hin; specialize (L _ _ Hin); lia).
    split; simpl; intros; mp_case; eauto.
    + specialize (D c0). rewrite Hp in D. simpl in *. lia.
    + apply elem_of_cons in H as [->|]; [done|eauto].
    + apply elem_of_cons in H0 as [->|]; [by apply Hfree in H|eauto].
    + apply elem_of_cons in H as [->|]; [by apply Hfree in H0|eauto].
    + constructor; eauto.
    + apply list_elem_of_here.
    + apply list_elem_of_further. eauto.
    + destruct H; simplify_eq. apply list_elem_of_here.
  - assert (Ha : a ∈ h c) by eauto.
    split; simpl; intros; mp_case; eauto.
    + specialize (D c0). by rewrite Hp in D.
    + destruct H; discriminate.
    + exfalso. assert (c = c0) by eauto. congruence.
  - rewrite holding_eq in Hr by done. injection Hr as <- Hh.
    apply bool_decide_eq_true in Hh as [Hl Ho].
    assert (Ha : a ∈ h c) by eauto.
    assert (HI' : mp_inv (mkmp (on_cpu c noted s) (<[c := PRun]> p) h)).
    { apply mp_inv_cpu; [done|done| |by rewrite <- Hp; apply (D c)|done].
      destruct (W c) as [W1 W2]. split; simpl; auto. }
    destruct HI' as [W' D' L' X' N' O' P' Dr']. simpl in *.
    split; simpl; intros; mp_case; eauto.
    + specialize (D' c0). by rewrite fn_insert_cases, decide_True in D' by done.
    + specialize (D' c0). by rewrite fn_insert_cases, decide_False in D' by done.
    + destruct H; simplify_eq. done.
  - assert (Ha : a ∈ h c) by eauto.
    pose proof (filter_ne_length a (h c) (N c) Ha) as Hlen.
    split; simpl; intros; mp_case; rewrite ?list_elem_of_filter in *; eauto.
    + specialize (D c0). rewrite Hp in D. simpl in D. lia.
    + by destruct H.
    + destruct H. eauto.
    + exfalso. assert (c = c0) by eauto. congruence.
    + destruct H0. eauto.
    + destruct H. eauto.
    + by apply NoDup_filter.
    + rewrite (Dr c0) in H by done. discriminate.
    + destruct H; discriminate.
  - assert (Hn : ncli (the_cpu s c) = Z.of_nat (length (h c)) + 1)
      by (rewrite D, Hp; done).
    destruct (W c) as [W1 W2].
    rewrite popcli_eq in Hr; [|done|lia|apply W2; lia]. injection Hr as <-.
    apply mp_inv_cpu; [done|done| |simpl; lia|done].
    split; simpl; [lia|]. intros. rewrite bool_decide_false by lia. done.
Qed.

(** ** Properties *)

(** C12: mutual exclusion. In every state the processors reach by interleaving
    the memory operations of acquire and release, at most one CPU is inside
    the critical section of a lock, and that CPU runs with interrupts off and
    a pushcli depth that counts the locks it holds. *)
Theorem spinlock_mutual_exclusion (m m' : mp) :
  mp_init m -> rtc mp_step m m' ->
  forall c a, a ∈ mheld m' c ->
    (forall c', a ∈ mheld m' c' -> c' = c) /\
    FL_IF (the_cpu (ms m') c) = false /\
    Z.of_nat (length (mheld m' c)) <= ncli (the_cpu (ms m') c).
Proof.
  intros Hi Hr. assert (HI : mp_inv m')
    by (eapply rtc_invariant; eauto using mp_init_inv, mp_step_inv).
  intros c a Ha. destruct HI as [W D L X N O P Dr].
  assert (Hl : (0 < length (mheld m' c))%nat) by (destruct (mheld m' c); [set_solver|simpl; lia]).
  assert (Hd : 0 <= pc_depth (mpc m' c)) by (destruct (mpc m' c); simpl; lia).
  split; [eauto|]. split; [apply W; rewrite D; lia|rewrite D; lia].
Qed.

(** Two CPUs contending for lock 7: the first takes it, the second spins. *)
Definition two_cpus : lk_state :=
  mklk [mkcpu true 0 false None; mkcpu true 0 false None] ∅.
Definition contended : mp :=
  mkmp (mklk [mkcpu false 1 true None; mkcpu false 1 true None] {[7 := mklock 1 None]})
       (<[1%nat := PSpin 7]> (<[0%nat := PGot 7]> (<[0%nat := PSpin 7]> (fun _ => PRun))))
       (<[0%nat := [7]]> (fun _ => [])).

Lemma spinlock_mutual_exclusion_witness :
  7 ∈ mheld contended 0%nat /\ (forall c', 7 ∈ mheld contended c' -> c' = 0%nat) /\
  FL_IF (the_cpu (ms contended) 0) = false.
Proof.
  assert (H7 : 7 ∈ mheld contended 0%nat) by (cbn; left).
  destruct (spinlock_mutual_exclusion (mkmp two_cpus (fun _ => PRun) (fun _ => [])) contended)
    with (c := 0%nat) (a := 7) as (H1 & H2 & _); [| |exact H7|split; [exact H7|split; assumption]].
  - split; [|intros a; apply (f_equal (default _) (lookup_empty a))].
    intros c. split; [done|]. split; [done|]. destruct c as [|[|c]]; done.
  - eapply rtc_l; [apply (mp_enter 0 7); [done|cbn; unfold valid_cpu; simpl; lia|vm_compute; done]|].
    eapply rtc_l; [apply (mp_take 0 7); done|].
    eapply rtc_l; [apply (mp_enter 1 7); [done|unfold valid_cpu; simpl; lia|vm_compute; done]|].
    apply rtc_refl.
Defined.

(** [k] calls in a row. *)
Definition times (k : nat) (m : M lk_state unit) : M lk_state unit :=
  mfor (replicate k tt) (fun _ => m).

Lemma times_pushcli c k s :
  valid_cpu c s -> times k (pushcli c) s = Ok (on_cpu c (Nat.iter k pushed) s, tt).
Proof.
  unfold times. revert s. induction k as [|k IH]; intros s Hc; simpl mfor.
  - unfold mret, M_ret. do 2 f_equal. destruct s as [l q]. unfold on_cpu. simpl.
    f_equal. symmetry. by apply list_alter_id.
  - unfold mbind, M_bind. rewrite pushcli_eq by done. rewrite IH by by apply valid_on_cpu.
    rewrite on_cpu_compose. do 2 f_equal. apply on_cpu_ext. simpl.
    by rewrite <- Nat.iter_succ_r.
Qed.
Lemma times_popcli c k s :
  valid_cpu c s -> ncli (the_cpu s c) = Z.of_nat k -> FL_IF (the_cpu s c) = false -> (0 < k)%nat ->
  times k (popcli c) s =
    Ok (on_cpu c (fun u => mkcpu (intena u) 0 (intena u) (cproc u)) s, tt).
Proof.
  unfold times. revert s. induction k as [|k IH]; intros s Hc Hn Hf Hk; [lia|].
  simpl mfor. unfold mbind, M_bind. rewrite popcli_eq by (done || lia).
  destruct k as [|k].
  - simpl. unfold mret, M_ret. do 2 f_equal. apply on_cpu_ext. unfold popped.
    rewrite Hn. simpl. done.
  - rewrite IH; [|by apply valid_on_cpu|rewrite the_on_cpu by done; simpl; lia| |lia].
    + rewrite on_cpu_compose. done.
    + rewrite the_on_cpu by done. simpl. by rewrite bool_decide_false by lia.
Qed.
Lemma iter_pushed k u :
  ncli u = 0 -> (0 < k)%nat -> Nat.iter k pushed u = mkcpu false (Z.of_nat k) (FL_IF u) (cproc u).
Proof.
  intros Hn Hk. induction k as [|k IH]; [lia|]. rewrite Nat.iter_succ.
  destruct k as [|k].
  - simpl. unfold pushed. rewrite Hn. by rewrite decide_True.
  - rewrite IH by lia. unfold pushed. simpl ncli. rewrite decide_False by lia. f_equal. lia.
Qed.

(** Pushcli and popcli are matched: [k] pushcli calls from depth 0 turn
    interrupts off, and after the same number of popcli calls the interrupt
    flag and the depth are what they were, whichever the flag was. *)
Theorem pushcli_popcli_matched (c k : nat) (s : lk_state) :
  valid_cpu c s -> ncli (the_cpu s c) = 0 -> (0 < k)%nat ->
  exists s1 s2,
    times k (pushcli c) s = Ok (s1, tt) /\ FL_IF (the_cpu s1 c) = false /\
    times k (popcli c) s1 = Ok (s2, tt) /\
    FL_IF (the_cpu s2 c) = FL_IF (the_cpu s c) /\ ncli (the_cpu s2 c) = 0 /\
    (forall c', c' <> c -> the_cpu s2 c' = the_cpu s c').
Proof.
  intros Hc Hn Hk. eexists _, _. rewrite times_pushcli by done. split; [done|].
  rewrite the_on_cpu, iter_pushed by done. split; [done|].
  rewrite times_popcli with (k := k); [split; [done|]|by apply valid_on_cpu| | |done];
    rewrite ?the_on_cpu, ?iter_pushed by (done || by apply valid_on_cpu); [|done|done].
  split; [done|]. split; [done|].
  intros c' Hne. by rewrite !the_on_cpu_ne by congruence.
Qed.

Lemma pushcli_popcli_matched_witness :
  exists s1 s2,
    times 3 (pushcli 1) two_cpus = Ok (s1, tt) /\ FL_IF (the_cpu s1 1) = false /\
    times 3 (popcli 1) s1 = Ok (s2, tt) /\ FL_IF (the_cpu s2 1) = true.
Proof.
  destruct (pushcli_popcli_matched 1 3 two_cpus) as (s1 & s2 & H1 & H2 & H3 & H4 & _);
    [unfold valid_cpu; simpl; lia|reflexivity|lia|].
  exists s1, s2. split; [exact H1|]. split; [exact H2|]. split; [exact H3|exact H4].
Defined.
