(* ===== verification/Proc.v ===== *)
(** Processes and the priority scheduler (proc.c, proc.h, pstat.h, and the
    timer branch of trap.c).

    [kst] is the process table with its lock, the CPUs, the tick counter and
    the rest of the kernel as an environment.  A process is named by its slot
    in the table; where the C code holds a [struct proc *], the model holds a
    slot, [None] for the null pointer.  [Kernel] is the interface of the other
    components proc.c calls: the page allocator, the page tables, the file
    table and the inodes. *)
From S2P Require Import Prelude Spinlock.

Definition NPROC : nat := 64.
Definition NOFILE : nat := 16.
Definition PGSIZE : Z := 4096.
Definition DEFAULT_PRIORITY : Z := 16.
Definition MIN_PRIORITY : Z := 0.
Definition MAX_PRIORITY : Z := 31.
(** Where ptable.lock and tickslock live. *)
Definition PTABLE_LOCK : Z := 1.
Definition TICKS_LOCK : Z := 2.
(** The address of the variable [ticks], a sleep channel. *)
Definition TICKS_CHAN : Z := 3.

Inductive procstate := UNUSED | EMBRYO | SLEEPING | RUNNABLE | RUNNING | ZOMBIE.
#[export] Instance procstate_eq : EqDecision procstate.
Proof. solve_decision. Defined.

(** A sleep channel is an address: of a process (wait) or of other data. *)
Inductive channel := ProcChan (i : nat) | AddrChan (a : Z).
#[export] Instance channel_eq : EqDecision channel.
Proof. solve_decision. Defined.

(** The registers of struct trapframe that the kernel reads or writes. *)
Record trapframe := mktf {
  tf_eax : Z; tf_es : Z; tf_ds : Z; tf_trapno : Z; tf_err : Z; tf_eip : Z;
  tf_cs : Z; tf_eflags : Z; tf_esp : Z; tf_ss : Z }.
#[export] Instance eta_tf : Eta trapframe := fun t =>
  mktf (tf_eax t) (tf_es t) (tf_ds t) (tf_trapno t) (tf_err t) (tf_eip t)
       (tf_cs t) (tf_eflags t) (tf_esp t) (tf_ss t).
Definition tf_zero : trapframe := mktf 0 0 0 0 0 0 0 0 0 0.

(** Where a switched-out kernel thread continues: the saved eip of its
    context, with the local variable [intena] of sched(). *)
Inductive kpoint := KForkret | KYield | KSleep (lk : Z) | KWait | KExit.
Record kcontext := mkctx { kpt : kpoint; kintena : bool }.

Record proc := mkproc {
  sz : Z; pgdir : Z; kstack : Z; state : procstate; pid : Z;
  parent : option nat; tf : trapframe; context : kcontext;
  chan : option channel; killed : bool; ofile : list Z; cwd : Z;
  name : list Z; priority : Z; wait_time : Z; run_time : Z;
  turnaround_time : Z; creation_time : Z; last_scheduled : Z }.
#[export] Instance eta_proc : Eta proc := fun p =>
  mkproc (sz p) (pgdir p) (kstack p) (state p) (pid p) (parent p) (tf p)
    (context p) (chan p) (killed p) (ofile p) (cwd p) (name p) (priority p)
    (wait_time p) (run_time p) (turnaround_time p) (creation_time p) (last_scheduled p).

(** A slot of the zero-initialised table. *)
Definition proc_zero : proc :=
  mkproc 0 0 0 UNUSED 0 None tf_zero (mkctx KForkret false) None false
    (replicate NOFILE 0) 0 [] 0 0 0 0 0 0.
#[export] Instance proc_inhabited : Inhabited proc := populate proc_zero.

Record pstat := mkpstat {
  ps_pid : Z; ps_priority : Z; ps_wait_time : Z; ps_run_time : Z; ps_turnaround_time : Z }.

(** What proc.c calls in the rest of the kernel. *)
Class Kernel (E : Type) := {
  kalloc : M E (option Z);
  kfree : Z -> M E unit;
  setupkvm : M E (option Z);
  inituvm : Z -> M E unit;
  copyuvm : Z -> Z -> M E (option Z);
  allocuvm : Z -> Z -> Z -> M E Z;
  deallocuvm : Z -> Z -> Z -> M E Z;
  freevm : Z -> M E unit;
  copyout_pstat : Z -> Z -> pstat -> M E Z;
  filedup : Z -> M E Z;
  fileclose : Z -> M E unit;
  idup : Z -> M E Z;
  iput : Z -> M E unit;
  begin_op : M E unit;
  end_op : M E unit;
  namei_root : M E Z;
  fs_boot : M E unit;
}.

Record kst (E : Type) := mkkst {
  klk : lk_state; ptable : list proc; initproc : option nat; nextpid : Z;
  ticks : Z; first : bool; env : E }.
Arguments mkkst {E}. Arguments klk {E}. Arguments ptable {E}. Arguments initproc {E}.
Arguments nextpid {E}. Arguments ticks {E}. Arguments first {E}. Arguments env {E}.
#[export] Instance eta_kst {E} : Eta (kst E) := fun s =>
  mkkst (klk s) (ptable s) (initproc s) (nextpid s) (ticks s) (first s) (env s).

(** ** Loops over the table *)

(** The scan of allocproc. *)
Fixpoint find_slot (P : proc -> bool) (i : nat) (t : list proc) : option nat :=
  match t with
  | [] => None
  | p :: t => if P p then Some i else find_slot P (S i) t
  end.

Definition wakeup1 (ch : option channel) (t : list proc) : list proc :=
  (fun p => if bool_decide (state p = SLEEPING /\ chan p = ch)
            then p <| state := RUNNABLE |> else p) <$> t.

(** First loop of the scheduler: charge the time since the last visit. *)
Definition account (tk : Z) (p : proc) : proc :=
  if bool_decide (state p <> UNUSED /\ last_scheduled p <> 0) then
    let p := match state p with
             | RUNNING => p <| run_time := s32 (run_time p + u32 (tk - last_scheduled p)) |>
             | RUNNABLE => p <| wait_time := s32 (wait_time p + u32 (tk - last_scheduled p)) |>
             | _ => p
             end in
    p <| last_scheduled := s32 tk |>
  else p.

(** Second loop: [chosen] is the slot and priority of the best so far. *)
Fixpoint choose_from (i : nat) (t : list proc) (chosen : option (nat * Z)) : option (nat * Z) :=
  match t with
  | [] => chosen
  | p :: t =>
      choose_from (S i) t
        (if decide (state p <> RUNNABLE) then chosen else
         match chosen with
         | None => Some (i, priority p)
         | Some (j, q) => if decide (priority p < q) then Some (i, priority p) else Some (j, q)
         end)
  end.
Definition choose (t : list proc) : option nat := fst <$> choose_from 0 t None.

Section kernel.
Context {E : Type} `{!Kernel E}.
Definition K : Type -> Type := M (kst E).

(** Spin-lock operations and calls into the other components. *)
Definition on_lk {A} (m : M lk_state A) : K A := zoom klk (fun t s => s <| klk := t |>) m.
Definition on_env {A} (m : M E A) : K A := zoom env (fun t s => s <| env := t |>) m.
Definition getp (i : nat) : K proc := gets (fun s => ptable s !!! i).
(** [ptable.proc[i].f = v] *)
Definition setp (i : nat) (f : proc -> proc) : K unit :=
  modify (fun s => s <| ptable ::= alter f i |>).
Definition set_table (f : list proc -> list proc) : K unit :=
  modify (fun s => s <| ptable ::= f |>).

Definition pinit : K unit := on_lk (initlock PTABLE_LOCK).

Definition myproc (c : nat) : K (option nat) :=
  on_lk (pushcli c);;
  u ← on_lk (mycpu c);
  on_lk (popcli c);;
  mret (cproc u).

(** The caller dereferences myproc() without a test. *)
Definition curproc (c : nat) : K nat :=
  p ← myproc c;
  match p with Some i => mret i | None => panic "null dereference" end.

Definition allocproc (c : nat) : K (option nat) :=
  on_lk (acquire c PTABLE_LOCK);;
  t ← gets ptable;
  match find_slot (fun p => bool_decide (state p = UNUSED)) 0 t with
  | None => on_lk (release c PTABLE_LOCK);; mret None
  | Some i =>
      n ← gets nextpid;
      tk ← gets ticks;
      setp i (fun p => p <| state := EMBRYO |> <| pid := n |>
                         <| priority := DEFAULT_PRIORITY |> <| wait_time := 0 |>
                         <| run_time := 0 |> <| turnaround_time := 0 |>
                         <| creation_time := s32 tk |> <| last_scheduled := s32 tk |>);;
      modify (fun s => s <| nextpid := s32 (n + 1) |>);;
      on_lk (release c PTABLE_LOCK);;
      stack ← on_env kalloc;
      match stack with
      | None => setp i (fun p => p <| kstack := 0 |> <| state := UNUSED |>);; mret None
      | Some a =>
          setp i (fun p => p <| kstack := a |> <| context := mkctx KForkret false |>);;
          mret (Some i)
      end
  end.

Definition SEG_UCODE : Z := 3.
Definition SEG_UDATA : Z := 4.
Definition DPL_USER : Z := 3.
Definition EFLAGS_IF : Z := 512.
(** T_IRQ0 + IRQ_TIMER *)
Definition T_TIMER : Z := 32.

Definition userinit (c : nat) : K unit :=
  p ← allocproc c;
  modify (fun s => s <| initproc := p |>);;
  match p with
  | None => panic "null dereference"
  | Some i =>
      d ← on_env setupkvm;
      match d with
      | None => panic "userinit: out of memory?"
      | Some d =>
          setp i (fun p => p <| pgdir := d |>);;
          on_env (inituvm d);;
          setp i (fun p => p <| sz := PGSIZE |>);;
          let ds := Z.lor (Z.shiftl SEG_UDATA 3) DPL_USER in
          setp i (fun p => p <| tf :=
            tf_zero <| tf_cs := Z.lor (Z.shiftl SEG_UCODE 3) DPL_USER |> <| tf_ds := ds |>
                    <| tf_es := ds |> <| tf_ss := ds |> <| tf_eflags := EFLAGS_IF |>
                    <| tf_esp := PGSIZE |> <| tf_eip := 0 |> |>);;
          (* "initcode" *)
          setp i (fun p => p <| name := [105; 110; 105; 116; 99; 111; 100; 101] |>);;
          w ← on_env namei_root;
          setp i (fun p => p <| cwd := w |>);;
          on_lk (acquire c PTABLE_LOCK);;
          setp i (fun p => p <| state := RUNNABLE |>);;
          on_lk (release c PTABLE_LOCK)
      end
  end.

(** vm.c's checks before it loads the process's segments and page table. *)
Definition switchuvm (i : nat) : K unit :=
  p ← getp i;
  if decide (kstack p = 0) then panic "switchuvm: no kstack" else
  if decide (pgdir p = 0) then panic "switchuvm: no pgdir" else mret tt.

Definition growproc (c : nat) (n : Z) : K Z :=
  i ← curproc c;
  p ← getp i;
  newsz ← (if decide (n > 0) then on_env (allocuvm (pgdir p) (sz p) (u32 (sz p + n)))
           else if decide (n < 0) then on_env (deallocuvm (pgdir p) (sz p) (u32 (sz p + n)))
           else mret (sz p));
  if bool_decide (n <> 0 /\ newsz = 0) then mret (-1) else
  setp i (fun p => p <| sz := newsz |>);;
  switchuvm i;;
  mret 0.

Definition fork (c : nat) : K Z :=
  cur ← curproc c;
  np ← allocproc c;
  match np with
  | None => mret (-1)
  | Some np =>
      p ← getp cur;
      d ← on_env (copyuvm (pgdir p) (sz p));
      match d with
      | None =>
          q ← getp np;
          on_env (kfree (kstack q));;
          setp np (fun q => q <| pgdir := 0 |> <| kstack := 0 |> <| state := UNUSED |>);;
          mret (-1)
      | Some d =>
          setp np (fun q => q <| pgdir := d |> <| sz := sz p |> <| parent := Some cur |>
                              <| tf := (tf p) <| tf_eax := 0 |> |>);;
          mfor (seq 0 NOFILE) (fun i =>
            let f := ofile p !!! i in
            if decide (f = 0) then mret tt else
            f' ← on_env (filedup f);
            setp np (fun q => q <| ofile ::= insert i f' |>));;
          w ← on_env (idup (cwd p));
          setp np (fun q => q <| cwd := w |>);;
          setp np (fun q => q <| name := take 15 (name p) |>);;
          setp np (fun q => q <| priority := priority p |>);;
          q ← getp np;
          on_lk (acquire c PTABLE_LOCK);;
          setp np (fun q => q <| state := RUNNABLE |>);;
          on_lk (release c PTABLE_LOCK);;
          mret (pid q)
      end
  end.

(** scheduler() after its swtch returns: the process it ran has given up the
    CPU, still holding ptable.lock. *)
Definition scheduler_back (c : nat) : K unit :=
  u ← gets (fun s => the_cpu (klk s) c);
  match cproc u with
  | None => panic "null dereference"
  | Some i =>
      tk ← gets ticks;
      setp i (fun p =>
        (if decide (last_scheduled p <> 0)
         then p <| run_time := s32 (run_time p + u32 (tk - last_scheduled p)) |> else p)
        <| last_scheduled := s32 tk |>);;
      on_lk (modify (on_cpu c (fun u => u <| cproc := None |>)));;
      on_lk (release c PTABLE_LOCK)
  end.

(** sched(): the checks, then the switch to the CPU's scheduler; [k] is the
    point where the process will continue. *)
Definition sched (c : nat) (k : kpoint) : K unit :=
  i ← curproc c;
  h ← on_lk (holding c PTABLE_LOCK);
  if negb h then panic "sched ptable.lock" else
  u ← on_lk (mycpu c);
  if decide (ncli u <> 1) then panic "sched locks" else
  p ← getp i;
  if decide (state p = RUNNING) then panic "sched running" else
  if FL_IF u then panic "sched interruptible" else
  setp i (fun p => p <| context := mkctx k (intena u) |>);;
  scheduler_back c.

Definition yield (c : nat) : K unit :=
  on_lk (acquire c PTABLE_LOCK);;
  i ← curproc c;
  setp i (fun p => p <| state := RUNNABLE |>);;
  sched c KYield.

(** sleep(chan, lk) up to the switch; [k] continues it. *)
Definition sleep (c : nat) (ch : option channel) (lk : Z) (k : kpoint) : K unit :=
  p ← myproc c;
  match p with
  | None => panic "sleep"
  | Some i =>
      if decide (lk = 0) then panic "sleep without lk" else
      (if decide (lk <> PTABLE_LOCK)
       then on_lk (acquire c PTABLE_LOCK);; on_lk (release c lk) else mret tt);;
      setp i (fun p => p <| chan := ch |> <| state := SLEEPING |>);;
      sched c k
  end.

Definition wakeup (c : nat) (ch : option channel) : K unit :=
  on_lk (acquire c PTABLE_LOCK);;
  set_table (wakeup1 ch);;
  on_lk (release c PTABLE_LOCK).

(** The loop of exit() that passes children to init. *)
Definition reparent (cur : nat) : K unit :=
  mfor (seq 0 NPROC) (fun i =>
    p ← getp i;
    if decide (parent p <> Some cur) then mret tt else
    ip ← gets initproc;
    setp i (fun p => p <| parent := ip |>);;
    if decide (state p = ZOMBIE) then set_table (wakeup1 (ProcChan <$> ip)) else mret tt).

Definition exit (c : nat) : K unit :=
  cur ← curproc c;
  ip ← gets initproc;
  if decide (ip = Some cur) then panic "init exiting" else
  tk ← gets ticks;
  setp cur (fun p => p <| turnaround_time := s32 (u32 (tk - creation_time p)) |>);;
  mfor (seq 0 NOFILE) (fun fd =>
    p ← getp cur;
    let f := ofile p !!! fd in
    if decide (f = 0) then mret tt else
    on_env (fileclose f);;
    setp cur (fun p => p <| ofile ::= insert fd 0 |>));;
  on_env begin_op;;
  p ← getp cur;
  on_env (iput (cwd p));;
  on_env end_op;;
  setp cur (fun p => p <| cwd := 0 |>);;
  on_lk (acquire c PTABLE_LOCK);;
  p ← getp cur;
  set_table (wakeup1 (ProcChan <$> parent p));;
  reparent cur;;
  setp cur (fun p => p <| state := ZOMBIE |>);;
  sched c KExit.

(** The scan of wait() over the table: [Some pid] when a zombie child was
    reaped (the lock is then released), otherwise whether there are children. *)
Fixpoint wait_scan (c cur : nat) (l : list nat) (havekids : bool) : K (option Z * bool) :=
  match l with
  | [] => mret (None, havekids)
  | i :: l =>
      p ← getp i;
      if decide (parent p <> Some cur) then wait_scan c cur l havekids else
      if decide (state p = ZOMBIE) then
        on_env (kfree (kstack p));;
        setp i (fun p => p <| kstack := 0 |>);;
        on_env (freevm (pgdir p));;
        setp i (fun p => p <| pid := 0 |> <| parent := None |> <| name := [] |>
                           <| killed := false |> <| state := UNUSED |>);;
        on_lk (release c PTABLE_LOCK);;
        mret (Some (pid p), true)
      else wait_scan c cur l true
  end.

(** One turn of wait()'s for(;;) with ptable.lock held: the value returned, or
    [None] when the process went to sleep to continue at [KWait]. *)
Definition wait_loop (c : nat) : K (option Z) :=
  cur ← curproc c;
  r ← wait_scan c cur (seq 0 NPROC) false;
  match r with
  | (Some pid, _) => mret (Some pid)
  | (None, havekids) =>
      p ← getp cur;
      if negb havekids || killed p then
        on_lk (release c PTABLE_LOCK);; mret (Some (-1))
      else
        sleep c (Some (ProcChan cur)) PTABLE_LOCK KWait;; mret None
  end.
Definition wait (c : nat) : K (option Z) :=
  on_lk (acquire c PTABLE_LOCK);; wait_loop c.

(** The rest of a thread after swtch gave it the CPU, to the release of
    ptable.lock.  After [KSleep lk] the thread next acquires [lk]. *)
Definition resume (c i : nat) : K (option Z) :=
  p ← getp i;
  let k := context p in
  let restore := on_lk (modify (on_cpu c (fun u => u <| intena := kintena k |>))) in
  match kpt k with
  | KForkret =>
      on_lk (release c PTABLE_LOCK);;
      b ← gets first;
      (if b : bool then modify (fun s => s <| first := false |>);; on_env fs_boot
       else mret tt);;
      mret None
  | KYield => restore;; on_lk (release c PTABLE_LOCK);; mret None
  | KSleep lk =>
      restore;; setp i (fun p => p <| chan := None |>);;
      on_lk (release c PTABLE_LOCK);; mret None
  | KWait => restore;; setp i (fun p => p <| chan := None |>);; wait_loop c
  | KExit => panic "zombie exit"
  end.

(** One turn of the scheduler's for(;;) up to the switch: [None] when no
    process is runnable. *)
Definition schedule (c : nat) : K (option nat) :=
  on_lk (modify (on_cpu c (fun u => u <| FL_IF := true |>)));;
  on_lk (acquire c PTABLE_LOCK);;
  tk ← gets ticks;
  set_table (fmap (account tk));;
  t ← gets ptable;
  match choose t with
  | None => on_lk (release c PTABLE_LOCK);; mret None
  | Some i =>
      setp i (fun p => p <| last_scheduled := s32 tk |>);;
      on_lk (modify (on_cpu c (fun u => u <| cproc := Some i |>)));;
      switchuvm i;;
      setp i (fun p => p <| state := RUNNING |>);;
      mret (Some i)
  end.
(** The turn with the resumption of the chosen thread. *)
Definition scheduler (c : nat) : K unit :=
  r ← schedule c;
  match r with
  | None => mret tt
  | Some i => resume c i;; mret tt
  end.

Definition kill (c : nat) (n : Z) : K Z :=
  on_lk (acquire c PTABLE_LOCK);;
  t ← gets ptable;
  match find_slot (fun p => bool_decide (pid p = n)) 0 t with
  | Some i =>
      setp i (fun p => p <| killed := true |>);;
      p ← getp i;
      (if decide (state p = SLEEPING) then setp i (fun p => p <| state := RUNNABLE |>)
       else mret tt);;
      on_lk (release c PTABLE_LOCK);; mret 0
  | None => on_lk (release c PTABLE_LOCK);; mret (-1)
  end.

Definition setpriority (c : nat) (n prio : Z) : K Z :=
  if decide (prio < MIN_PRIORITY \/ prio > MAX_PRIORITY) then mret (-1) else
  on_lk (acquire c PTABLE_LOCK);;
  t ← gets ptable;
  match find_slot (fun p => bool_decide (pid p = n)) 0 t with
  | Some i =>
      setp i (fun p => p <| priority := prio |>);;
      on_lk (release c PTABLE_LOCK);; mret 0
  | None => on_lk (release c PTABLE_LOCK);; mret (-1)
  end.

(** The statistics getstats() reports for a slot. *)
Definition stats_of (tk : Z) (p : proc) : pstat :=
  mkpstat (pid p) (priority p) (wait_time p) (run_time p)
    (if decide (state p = ZOMBIE \/ state p = UNUSED) then turnaround_time p
     else s32 (u32 (tk - creation_time p))).
Definition getstats (c : nat) (n ptr : Z) : K Z :=
  on_lk (acquire c PTABLE_LOCK);;
  t ← gets ptable;
  match find_slot (fun p => bool_decide (pid p = n)) 0 t with
  | Some i =>
      p ← getp i;
      tk ← gets ticks;
      cur ← curproc c;
      me ← getp cur;
      r ← on_env (copyout_pstat (pgdir me) ptr (stats_of tk p));
      on_lk (release c PTABLE_LOCK);;
      mret (if decide (r < 0) then -1 else 0)
  | None => on_lk (release c PTABLE_LOCK);; mret (-1)
  end.

(** The timer case of trap()'s switch. *)
Definition clock (c : nat) : K unit :=
  if decide (c = 0%nat) then
    on_lk (acquire c TICKS_LOCK);;
    modify (fun s => s <| ticks := u32 (ticks s + 1) |>);;
    wakeup c (Some (AddrChan TICKS_CHAN));;
    p ← myproc c;
    (match p with
     | Some i =>
         q ← getp i;
         if decide (state q = RUNNING) then setp i (fun p => p <| run_time := s32 (run_time p + 1) |>)
         else mret tt
     | None => mret tt
     end);;
    on_lk (release c TICKS_LOCK)
  else mret tt.
(** A killed process that was in user space exits; [cs] is that of the trap
    frame.  Whether the process goes on. *)
Definition kill_check (c : nat) (cs : Z) : K bool :=
  p ← myproc c;
  match p with
  | None => mret true
  | Some i =>
      q ← getp i;
      if killed q && bool_decide (Z.land cs 3 = DPL_USER) then exit c;; mret false else mret true
  end.
(** The end of trap(), up to where the process leaves the CPU: a killed process
    exits, and the clock makes the others yield.  A process that yielded makes
    the last check when it runs again. *)
Definition trap_end (c : nat) (trapno cs : Z) : K bool :=
  go ← kill_check c cs;
  if negb go then mret false else
  p ← myproc c;
  match p with
  | None => kill_check c cs
  | Some i =>
      q ← getp i;
      if bool_decide (state q = RUNNING /\ trapno = T_TIMER) then yield c;; mret false else kill_check c cs
  end.
Definition timer_tick (c : nat) (cs : Z) : K unit := clock c;; trap_end c T_TIMER cs;; mret tt.

End kernel.
