(* ===== verification/ProcFacts.v ===== *)
(** Correctness of the process table and the scheduler of Proc.v.

    First the loops over the table as functions of the table, then what each
    operation changes, then the transition system of all CPUs running
    processes, its invariant, and the properties of the calls. *)
From S2P Require Import Prelude Spinlock Proc.

(** Lock operations and the CPUs: which operations leave [cpu->proc] alone. *)
Create HintDb keeps.
(** The invariant of the process table. *)
Create HintDb tinv.

(** ** The choice of the scheduler *)

(** [o] is the choice among the slots of [t]: the least priority number, and
    among equals the least slot. *)
Definition is_best (t : list proc) (o : option (nat * Z)) : Prop :=
  match o with
  | None => forall j q, t !! j = Some q -> state q <> RUNNABLE
  | Some (i, pr) =>
      (exists p, t !! i = Some p /\ state p = RUNNABLE /\ priority p = pr) /\
      (forall j q, t !! j = Some q -> state q = RUNNABLE ->
         pr < priority q \/ (pr = priority q /\ (i <= j)%nat))
  end.

Lemma lookup_snoc_inv {A} (l : list A) x j y :
  (l ++ [x]) !! j = Some y -> l !! j = Some y \/ (j = length l /\ y = x).
Proof.
  intros H. apply lookup_app_Some in H as [H|[Hl H]]; [by left|right].
  apply list_lookup_singleton_Some in H as [? ?]. split; [lia|done].
Qed.

Lemma is_best_snoc t p o :
  is_best t o ->
  is_best (t ++ [p])
    (if decide (state p <> RUNNABLE) then o else
     match o with
     | None => Some (length t, priority p)
     | Some (j, q) => if decide (priority p < q) then Some (length t, priority p) else Some (j, q)
     end).
Proof.
  assert (Hp : (t ++ [p]) !! length t = Some p) by (by rewrite lookup_app_r, Nat.sub_diag by lia).
  destruct o as [[i pr]|]; simpl.
  - intros [(b & Hb & Hs & Hpr) Hmin].
    assert (Hi : (i < length t)%nat) by (by apply lookup_lt_Some in Hb).
    assert (Hb' : (t ++ [p]) !! i = Some b) by (by rewrite lookup_app_l).
    case_decide as H1; [|case_decide as H2]; simpl; (split; [eauto|]);
      try (exists p; split; [done|]; split; [by destruct (decide (state p = RUNNABLE))|done]);
      intros j q [Hj|[-> ->]]%lookup_snoc_inv Hq; try done.
    + by eapply Hmin.
    + destruct (Hmin j q Hj Hq); lia.
    + right. lia.
    + by eapply Hmin.
    + lia.
  - intros Hno. case_decide as H1; simpl.
    + intros j q [Hj|[-> ->]]%lookup_snoc_inv; [eauto|done].
    + split; [exists p; split; [done|]; split; [by destruct (decide (state p = RUNNABLE))|done]|].
      intros j q [Hj|[-> ->]]%lookup_snoc_inv Hq; [by eapply Hno in Hj|lia].
Qed.

Lemma choose_from_best t : forall pre o,
  is_best pre o -> is_best (pre ++ t) (choose_from (length pre) t o).
Proof.
  induction t as [|p t IH]; intros pre o Ho; simpl.
  - by rewrite app_nil_r.
  - replace (pre ++ p :: t) with ((pre ++ [p]) ++ t) by (by rewrite <- app_assoc).
    replace (S (length pre)) with (length (pre ++ [p])) by (rewrite length_app; simpl; lia).
    apply IH. by apply is_best_snoc.
Qed.

Lemma choose_spec t :
  match choose t with
  | None => forall j q, t !! j = Some q -> state q <> RUNNABLE
  | Some i => exists p, t !! i = Some p /\ state p = RUNNABLE /\
      (forall j q, t !! j = Some q -> state q = RUNNABLE ->
         priority p < priority q \/ (priority p = priority q /\ (i <= j)%nat))
  end.
Proof.
  pose proof (choose_from_best t [] None) as H. unfold choose. simpl in H.
  specialize (H ltac:(by intros j q Hj)).
  destruct (choose_from 0 t None) as [[i pr]|]; simpl in *; [|done].
  destruct H as [(p & Hp & Hs & <-) Hmin]. eauto.
Qed.

(** The choice depends on states and priorities only. *)
Lemma choose_from_ext f i t o :
  (forall p, state (f p) = state p /\ priority (f p) = priority p) ->
  choose_from i (f <$> t) o = choose_from i t o.
Proof.
  intros Hf. revert i o. induction t as [|p t IH]; intros i o; simpl; [done|].
  destruct (Hf p) as [-> ->]. by rewrite IH.
Qed.
Lemma account_state tk p : state (account tk p) = state p.
Proof.
  unfold account. case_bool_decide; [|done]. destruct (state p) eqn:Es; simpl; by rewrite Es.
Qed.
Lemma account_priority tk p : priority (account tk p) = priority p.
Proof. unfold account. case_bool_decide; [|done]. by destruct (state p). Qed.
Lemma account_pid tk p : pid (account tk p) = pid p.
Proof. unfold account. case_bool_decide; [|done]. by destruct (state p). Qed.
Lemma choose_account tk t : choose (account tk <$> t) = choose t.
Proof.
  unfold choose. f_equal. apply choose_from_ext. intros p.
  auto using account_state, account_priority.
Qed.

Lemma find_slot_spec P t : forall i,
  match find_slot P i t with
  | Some j => exists p, (i <= j)%nat /\ t !! (j - i)%nat = Some p /\ P p = true /\
                (forall k q, (k < j - i)%nat -> t !! k = Some q -> P q = false)
  | None => forall k q, t !! k = Some q -> P q = false
  end.
Proof.
  induction t as [|p t IH]; intros i; simpl; [by intros k q Hk|].
  destruct (P p) eqn:HP.
  - exists p. rewrite Nat.sub_diag. repeat split; [lia|done|lia].
  - specialize (IH (S i)). destruct (find_slot P (S i) t) as [j|].
    + destruct IH as (q & Hle & Hq & HPq & Hall). exists q. split; [lia|].
      replace (j - i)%nat with (S (j - S i)) by lia. simpl. split; [done|]. split; [done|].
      intros [|k] q' Hk Hq'; simpl in Hq'; [by simplify_eq|]. eapply Hall; [|done]. lia.
    + intros [|k] q Hk; simpl in Hk; [by simplify_eq|eauto].
Qed.
Lemma find_slot_Some P t i :
  find_slot P 0 t = Some i ->
  exists p, t !! i = Some p /\ P p = true /\ forall k q, (k < i)%nat -> t !! k = Some q -> P q = false.
Proof.
  intros H. pose proof (find_slot_spec P t 0) as Hs. rewrite H in Hs.
  destruct Hs as (p & _ & Hp & HP & Hall). rewrite Nat.sub_0_r in *. eauto.
Qed.
Lemma find_slot_None P t :
  find_slot P 0 t = None -> forall k q, t !! k = Some q -> P q = false.
Proof. intros H. pose proof (find_slot_spec P t 0) as Hs. by rewrite H in Hs. Qed.

Lemma find_slot_first P t i p :
  t !! i = Some p -> P p = true -> (forall k q, (k < i)%nat -> t !! k = Some q -> P q = false) ->
  find_slot P 0 t = Some i.
Proof.
  intros Hp HP Hmin. destruct (find_slot P 0 t) as [j|] eqn:Hf.
  - apply find_slot_Some in Hf as (q & Hq & HPq & Hq').
    destruct (Nat.lt_trichotomy i j) as [H|[->|H]]; [|done|].
    + by rewrite (Hq' _ _ H Hp) in HP.
    + by rewrite (Hmin _ _ H Hq) in HPq.
  - eapply find_slot_None in Hf; [|done]. congruence.
Qed.
(** The scheduler's criterion determines its choice. *)
Lemma choose_unique t i p :
  t !! i = Some p -> state p = RUNNABLE ->
  (forall j q, t !! j = Some q -> state q = RUNNABLE ->
     priority p < priority q \/ (priority p = priority q /\ (i <= j)%nat)) ->
  choose t = Some i.
Proof.
  intros Hp Hs Hmin. pose proof (choose_spec t) as Hc. destruct (choose t) as [j|].
  - destruct Hc as (q & Hq & Hsq & Hmin'). f_equal.
    destruct (Hmin _ _ Hq Hsq), (Hmin' _ _ Hp Hs); lia.
  - by apply Hc in Hp.
Qed.

(** What proc.c relies on: an allocation that succeeds gives an address, and
    no page is at address 0. *)
Class KernelLaws (E : Type) `{!Kernel E} := {
  kalloc_nonnull : forall e e' a, kalloc e = Ok (e', Some a) -> a <> 0;
  setupkvm_nonnull : forall e e' a, setupkvm e = Ok (e', Some a) -> a <> 0;
  copyuvm_nonnull : forall d n e e' a, copyuvm d n e = Ok (e', Some a) -> a <> 0;
}.

(** ** Running with and without ptable.lock *)

Section kernel_facts.
Context {E : Type} `{!Kernel E}.
Implicit Types (s : kst E) (c i : nat).

Definition cpu_of s c : cpu := the_cpu (klk s) c.
Definition runs s c : option nat := cproc (cpu_of s c).

(** ptable.lock is free for CPU [c] to take. *)
Record kready c s : Prop := {
  kr_valid : valid_cpu c (klk s);
  kr_wf : cpu_wf (cpu_of s c);
  kr_free : locked (lock_at (klk s) PTABLE_LOCK) = 0;
}.
(** CPU [c] holds ptable.lock. *)
Record kheld c s : Prop := {
  kh_valid : valid_cpu c (klk s);
  kh_depth : 0 < ncli (cpu_of s c);
  kh_if : FL_IF (cpu_of s c) = false;
  kh_holds : holds (klk s) c PTABLE_LOCK = true;
}.

Definition lk_take c (l : lk_state) : lk_state :=
  set_lock PTABLE_LOCK (mklock 1 (Some c)) (on_cpu c pushed l).
Definition lk_drop c (l : lk_state) : lk_state :=
  set_lock PTABLE_LOCK (mklock 0 None) (on_cpu c popped l).

Lemma k_acquire c s :
  kready c s -> on_lk (acquire c PTABLE_LOCK) s = Ok (s <| klk := lk_take c (klk s) |>, tt).
Proof.
  intros Hr. unfold on_lk, zoom. rewrite acquire_eq; [done| | |]; apply Hr.
Qed.
Lemma k_taken c s : kready c s -> kheld c (s <| klk := lk_take c (klk s) |>).
Proof.
  intros [Hv [Hd _] Hf]. unfold cpu_of in Hd. split; simpl.
  - unfold lk_take. by apply valid_on_cpu.
  - unfold cpu_of, lk_take. simpl. rewrite the_set_lock, the_on_cpu by done. simpl. lia.
  - unfold cpu_of, lk_take. simpl. by rewrite the_set_lock, the_on_cpu.
  - unfold holds, lk_take. rewrite lock_at_set. simpl. by apply bool_decide_true.
Qed.
Lemma k_release c s :
  kheld c s -> on_lk (release c PTABLE_LOCK) s = Ok (s <| klk := lk_drop c (klk s) |>, tt).
Proof.
  intros [Hv Hd Hi Hh]. unfold cpu_of in *. unfold on_lk, zoom.
  rewrite release_eq by (done || lia). done.
Qed.
Lemma k_dropped c s : kheld c s -> kready c (s <| klk := lk_drop c (klk s) |>).
Proof.
  intros [Hv Hd Hi Hh]. unfold cpu_of in *. split; simpl.
  - by apply valid_on_cpu.
  - unfold cpu_of, lk_drop. simpl. rewrite the_set_lock, the_on_cpu by done. split; simpl; [lia|].
    intros. by rewrite bool_decide_false by lia.
  - unfold lk_drop. by rewrite lock_at_set.
Qed.
Lemma k_release_not_held c s :
  kready c s -> on_lk (release c PTABLE_LOCK) s = Panic "release".
Proof.
  intros Hr. unfold on_lk, zoom. rewrite release_not_held; [done|apply Hr|apply Hr|].
  unfold holds. apply bool_decide_false. intros [H _]. apply H, Hr.
Qed.

(** What another CPU sees of a take or a drop: nothing but the lock. *)
Lemma runs_take c l c' :
  valid_cpu c l -> cproc (the_cpu (lk_take c l) c') = cproc (the_cpu l c').
Proof.
  intros Hv. unfold lk_take. rewrite the_set_lock, the_on_cpu_cases by done. by case_decide.
Qed.
Lemma runs_drop c l c' :
  valid_cpu c l -> cproc (the_cpu (lk_drop c l) c') = cproc (the_cpu l c').
Proof.
  intros Hv. unfold lk_drop. rewrite the_set_lock, the_on_cpu_cases by done. by case_decide.
Qed.

Lemma noted_held c s : kheld c s -> on_cpu c noted (klk s) = klk s.
Proof.
  intros [Hv Hd Hi Hh]. unfold cpu_of in *. rewrite (on_cpu_ext _ noted id).
  - destruct (klk s) as [l k]. unfold on_cpu, id. simpl. f_equal. by apply list_alter_id.
  - unfold noted, id. destruct (the_cpu (klk s) c) as [f n b p]. simpl in *.
    by rewrite decide_False by lia.
Qed.

Lemma k_mycpu c s :
  FL_IF (cpu_of s c) = false -> on_lk (mycpu c) s = Ok (s, cpu_of s c).
Proof.
  intros H. unfold on_lk, zoom. rewrite mycpu_eq by done. by destruct s.
Qed.
Lemma k_holding c s : kheld c s -> on_lk (holding c PTABLE_LOCK) s = Ok (s, true).
Proof.
  intros H. unfold on_lk, zoom. rewrite holding_eq.
  - rewrite noted_held by done. rewrite (kh_holds _ _ H). by destruct s.
  - apply H.
  - destruct H as [_ Hd Hi _]. unfold cpu_of in *. split; [lia|done].
Qed.

(** myproc, whose pushcli/popcli pair records the interrupt flag. *)
Lemma k_myproc c s :
  valid_cpu c (klk s) -> cpu_wf (cpu_of s c) ->
  myproc c s = Ok (s <| klk := on_cpu c noted (klk s) |>, runs s c).
Proof.
  intros Hv Hw. unfold myproc, mbind, M_bind, on_lk at 1, zoom. rewrite pushcli_eq by done.
  rewrite k_mycpu by (unfold cpu_of; simpl; by rewrite the_on_cpu).
  unfold on_lk, zoom. destruct Hw as [Hw1 Hw2]. unfold cpu_of in *.
  simpl. rewrite popcli_eq; [| | |]; rewrite ?the_on_cpu by done; simpl; try done; try lia;
    [|by apply valid_on_cpu].
  rewrite on_cpu_compose. unfold mret, M_ret. unfold runs, cpu_of. do 2 f_equal.
  simpl. f_equal. apply on_cpu_ext. simpl. by apply popped_pushed.
Qed.
Lemma k_myproc_held c s : kheld c s -> myproc c s = Ok (s, runs s c).
Proof.
  intros H. rewrite k_myproc.
  - rewrite noted_held by done. by destruct s.
  - apply H.
  - destruct H as [_ Hd Hi _]. unfold cpu_of in *. split; [lia|done].
Qed.
Lemma k_curproc_held c s i : kheld c s -> runs s c = Some i -> curproc c s = Ok (s, i).
Proof. intros H Hi. unfold curproc, mbind, M_bind. rewrite k_myproc_held by done. by rewrite Hi. Qed.

(** ** What the operations do *)

(** The time charged to the process that gives up the CPU. *)
Definition charge (tk : Z) (p : proc) : proc :=
  (if decide (last_scheduled p <> 0)
   then p <| run_time := s32 (run_time p + u32 (tk - last_scheduled p)) |> else p)
  <| last_scheduled := s32 tk |>.
Definition sched_out c i (k : kpoint) s : kst E :=
  s <| ptable ::= alter (fun p => charge (ticks s)
                          (p <| context := mkctx k (intena (cpu_of s c)) |>)) i |>
    <| klk := lk_drop c (on_cpu c (fun u => u <| cproc := None |>) (klk s)) |>.

Lemma kheld_cproc c s o :
  kheld c s -> kheld c (s <| klk := on_cpu c (fun u => u <| cproc := o |>) (klk s) |>).
Proof.
  intros [Hv Hd Hi Hh]. unfold cpu_of in *. split; simpl; unfold cpu_of; simpl;
    rewrite ?the_on_cpu by done; try done. by apply valid_on_cpu.
Qed.

Lemma sched_eq c i k s :
  kheld c s -> ncli (cpu_of s c) = 1 -> runs s c = Some i ->
  state (ptable s !!! i) <> RUNNING ->
  sched c k s = Ok (sched_out c i k s, tt).
Proof.
  intros H Hd Hi Hst. unfold sched, mbind, M_bind.
  rewrite (k_curproc_held c s i) by done. rewrite k_holding by done. change (negb true) with false.
  cbv beta iota. rewrite k_mycpu by apply H.
  rewrite decide_False by (rewrite Hd; auto).
  unfold getp, gets. rewrite decide_False by done. rewrite (kh_if _ _ H).
  unfold setp, modify, scheduler_back, mbind, M_bind, gets, setp, modify.
  change (the_cpu (klk _) c) with (cpu_of s c). unfold runs in Hi. rewrite Hi.
  set (s1 := s <| ptable ::= _ |>).
  set (s2 := s1 <| ptable ::= _ |>).
  unfold on_lk at 1, zoom, modify.
  match goal with |- on_lk _ ?s3 = _ => assert (H3 : kheld c s3) end.
  { apply (kheld_cproc c s2). destruct H; split; done. }
  rewrite k_release by done. unfold sched_out, s2, s1. simpl. by rewrite list_alter_alter_eq.
Qed.

Lemma k_setp i f s : setp i f s = Ok (s <| ptable ::= alter f i |>, tt).
Proof. done. Qed.

Lemma yield_eq c i s :
  kready c s -> ncli (cpu_of s c) = 0 -> runs s c = Some i ->
  yield c s = Ok (sched_out c i KYield
    (s <| klk := lk_take c (klk s) |>
       <| ptable ::= alter (fun p => p <| state := RUNNABLE |>) i |>), tt).
Proof.
  intros Hr Hd Hi. unfold yield, mbind, M_bind. rewrite k_acquire by done.
  pose proof (k_taken c s Hr) as Hh.
  assert (Hi' : runs (s <| klk := lk_take c (klk s) |>) c = Some i).
  { unfold runs, cpu_of. simpl. rewrite runs_take; [done|apply Hr]. }
  rewrite (k_curproc_held _ _ i) by done. rewrite k_setp.
  apply sched_eq; [by destruct Hh; split| |done|].
  { unfold cpu_of, lk_take. simpl. rewrite the_set_lock, the_on_cpu by apply Hr.
    unfold cpu_of in Hd. simpl. lia. }
  simpl. rewrite list_lookup_total_alter. case_decide; [done|].
  destruct (decide (i < length (ptable s))%nat); [tauto|].
  rewrite list_lookup_total_alt, lookup_ge_None_2 by lia. done.
Qed.

(** The table with which a chosen process [i] starts to run. *)
Definition dispatch (tk : Z) i (t : list proc) : list proc :=
  alter (fun p => p <| last_scheduled := s32 tk |> <| state := RUNNING |>) i (account tk <$> t).
Definition sti c (l : lk_state) : lk_state := on_cpu c (fun u => u <| FL_IF := true |>) l.

Lemma kready_sti c s :
  kready c s -> ncli (cpu_of s c) = 0 -> kready c (s <| klk := sti c (klk s) |>).
Proof.
  intros [Hv Hw Hf] Hd. unfold cpu_of in *. split; unfold cpu_of, sti; simpl; [by apply valid_on_cpu| |done].
  rewrite the_on_cpu by done. split; simpl; lia.
Qed.

(** Every process that may be chosen has its stack and page table. *)
Definition loadable (t : list proc) : Prop :=
  forall i p, t !! i = Some p -> state p = RUNNABLE -> kstack p <> 0 /\ pgdir p <> 0.

Lemma schedule_eq c s :
  kready c s -> ncli (cpu_of s c) = 0 -> loadable (ptable s) ->
  schedule c s =
    match choose (ptable s) with
    | None => Ok (s <| klk := lk_drop c (lk_take c (sti c (klk s))) |>
                    <| ptable ::= fmap (account (ticks s)) |>, None)
    | Some i => Ok (s <| klk := on_cpu c (fun u => u <| cproc := Some i |>)
                                  (lk_take c (sti c (klk s))) |>
                      <| ptable ::= dispatch (ticks s) i |>, Some i)
    end.
Proof.
  intros Hr Hd Hl. unfold schedule, mbind, M_bind, on_lk at 1, zoom, modify.
  pose proof (kready_sti c s Hr Hd) as Hr1. rewrite k_acquire by done.
  pose proof (k_taken c _ Hr1) as Hh.
  unfold gets, set_table, modify. cbv beta iota.
  match goal with |- ?lhs = _ => match lhs with context [choose ?t] =>
    replace (choose t) with (choose (ptable s)) by (symmetry; apply choose_account) end end.
  pose proof (choose_spec (ptable s)) as Hc.
  destruct (choose (ptable s)) as [i|].
  - destruct Hc as (p & Hp & Hs & _). destruct (Hl _ _ Hp Hs) as [Hk Hg].
    rewrite k_setp. unfold on_lk at 1, zoom.
    unfold switchuvm, mbind, M_bind, getp, gets.
    match goal with |- context [decide (kstack ?q = 0)] => assert (Hq : kstack q <> 0 /\ pgdir q <> 0) end.
    { simpl. rewrite list_lookup_total_alter, length_fmap.
      assert (Hlt : (i < length (ptable s))%nat) by (by apply lookup_lt_Some in Hp).
      rewrite decide_True by done.
      rewrite (list_lookup_total_correct (account _ <$> _) i (account (ticks s) p))
        by (by rewrite list_lookup_fmap, Hp).
      unfold account.
      case_bool_decide; [|done]. by destruct (state p). }
    destruct Hq as [Hq1 Hq2]. rewrite !decide_False by done.
    unfold mret, M_ret. rewrite k_setp. simpl. unfold dispatch. by rewrite list_alter_alter_eq.
  - match goal with |- context [on_lk _ ?s3] => assert (H3 : kheld c s3) by (by destruct Hh; split) end.
    by rewrite k_release.
Qed.

(** ** The invariant of the process table

    Which slots are in use, and by whom: pids are positive, below nextpid and
    distinct, priorities are in range, and a process past EMBRYO has a kernel
    stack and a page table. *)
Record slots_inv (t : list proc) (np : Z) : Prop := {
  si_len : length t = NPROC;
  si_next : 0 < np < 2 ^ 31;
  si_pid : forall i p, t !! i = Some p -> state p <> UNUSED -> 0 < pid p < np;
  si_uniq : forall i j p q, t !! i = Some p -> t !! j = Some q ->
    state p <> UNUSED -> state q <> UNUSED -> pid p = pid q -> i = j;
  si_prio : forall i p, t !! i = Some p -> state p <> UNUSED ->
    MIN_PRIORITY <= priority p <= MAX_PRIORITY;
  si_load : forall i p, t !! i = Some p -> state p <> UNUSED -> state p <> EMBRYO ->
    kstack p <> 0 /\ pgdir p <> 0;
}.
(** [cp c] is the process CPU [c] runs: exactly the RUNNING processes run, each
    on one CPU. *)
Record cpus_inv (t : list proc) (cp : nat -> option nat) : Prop := {
  ci_cpu : forall c i, cp c = Some i -> exists p, t !! i = Some p /\ state p = RUNNING;
  ci_run : forall i p, t !! i = Some p -> state p = RUNNING -> exists c, cp c = Some i;
  ci_one : forall c c' i, cp c = Some i -> cp c' = Some i -> c = c';
}.

Lemma alter_lookup_inv f i (t : list proc) j q :
  alter f i t !! j = Some q ->
  (j <> i /\ t !! j = Some q) \/ (j = i /\ exists p, t !! i = Some p /\ q = f p).
Proof.
  intros Hq. destruct (decide (j = i)) as [->|Hne].
  - right. rewrite list_lookup_alter_eq in Hq. destruct (t !! i) as [p|]; simpl in Hq; simplify_eq. eauto.
  - left. by rewrite list_lookup_alter_ne in Hq.
Qed.
Lemma Forall2_alter {A} (R : A -> A -> Prop) f i (t : list A) :
  (forall p, R p p) -> (forall p, t !! i = Some p -> R p (f p)) -> Forall2 R t (alter f i t).
Proof.
  intros Hr Hf. apply Forall2_same_length_lookup. split; [by rewrite length_alter|].
  intros j p q Hp Hq. destruct (decide (j = i)) as [->|Hne].
  - rewrite list_lookup_alter_eq, Hp in Hq. simpl in Hq. simplify_eq. auto.
  - rewrite list_lookup_alter_ne, Hp in Hq by done. by simplify_eq.
Qed.
Lemma Forall2_fmap_self {A} (R : A -> A -> Prop) f (t : list A) :
  (forall p, R p (f p)) -> Forall2 R t (f <$> t).
Proof. intros Hf. induction t; constructor; auto. Qed.

(** A change of a slot that keeps it in use with its pid; what else it must
    keep depends on how far the slot is set up. *)
Definition keeps (p q : proc) : Prop :=
  (state q <> UNUSED -> state p <> UNUSED /\ pid q = pid p /\
     MIN_PRIORITY <= priority q <= MAX_PRIORITY) /\
  (state q <> UNUSED -> state q <> EMBRYO -> kstack q <> 0 /\ pgdir q <> 0).

Lemma slots_keep t t' np :
  slots_inv t np ->
  Forall2 (fun p q => slots_inv t np -> (exists i, t !! i = Some p) -> keeps p q) t t' ->
  slots_inv t' np.
Proof.
  intros HI Ha.
  assert (Hl : forall i q, t' !! i = Some q -> exists p, t !! i = Some p /\ keeps p q).
  { intros i q Hq. destruct (Forall2_lookup_r _ _ _ _ _ Ha Hq) as (p & ? & ?). eauto. }
  destruct HI as [L N P U Q D]. split; try done.
  - rewrite <- L. symmetry. by eapply Forall2_length.
  - intros i q Hq Hs. destruct (Hl _ _ Hq) as (p & Hp & [K _]).
    destruct (K Hs) as (? & -> & _). eauto.
  - intros i j q r Hq Hr Hsq Hsr He.
    destruct (Hl _ _ Hq) as (p & Hp & [K _]), (Hl _ _ Hr) as (p' & Hp' & [K' _]).
    destruct (K Hsq) as (? & E1 & _), (K' Hsr) as (? & E2 & _).
    eapply (U i j p p'); [done..|congruence].
  - intros i q Hq Hs. destruct (Hl _ _ Hq) as (p & Hp & [K _]). by destruct (K Hs) as (? & ? & ?).
  - intros i q Hq Hs Hs'. destruct (Hl _ _ Hq) as (p & Hp & [_ K]). auto.
Qed.

(** Two contents of a slot with the same identity. *)
Definition same_id (p q : proc) : Prop :=
  pid p = pid q /\ priority p = priority q /\ kstack p = kstack q /\ pgdir p = pgdir q.
(** Waiting for a CPU or an event, or for the parent to collect it. *)
Definition parked (x : procstate) : Prop := x = SLEEPING \/ x = RUNNABLE \/ x = ZOMBIE.
Definition in_use (x : procstate) : Prop := x = RUNNING \/ parked x.

Lemma keeps_same i p q t np :
  slots_inv t np -> t !! i = Some p -> same_id p q ->
  state p = state q \/ (in_use (state p) /\ in_use (state q)) -> keeps p q.
Proof.
  intros [L N P U Q D] Hp (E1 & E2 & E3 & E4) Hs. unfold keeps. rewrite <- E1, <- E2, <- E3, <- E4.
  specialize (P _ _ Hp). specialize (Q _ _ Hp). specialize (D _ _ Hp).
  unfold in_use, parked in Hs. destruct Hs as [<-|[Hs Hs']]; [tauto|].
  assert (state p <> UNUSED /\ state p <> EMBRYO) as [? ?] by intuition congruence. tauto.
Qed.
Lemma slots_alter t np i f :
  slots_inv t np -> (forall p, t !! i = Some p -> keeps p (f p)) -> slots_inv (alter f i t) np.
Proof.
  intros HI Hf. eapply slots_keep; [done|]. apply Forall2_alter; [|eauto].
  intros p _ (j & Hj). eapply keeps_same; [done..| |by left]. done.
Qed.
Lemma slots_map t np f :
  slots_inv t np -> (forall p, same_id p (f p)) ->
  (forall p, state p = state (f p) \/ (in_use (state p) /\ in_use (state (f p)))) ->
  slots_inv (f <$> t) np.
Proof.
  intros HI Hf Hs. eapply slots_keep; [done|]. apply Forall2_fmap_self.
  intros p _ (j & Hj). by eapply keeps_same.
Qed.
(** A new process takes an unused slot and the next pid. *)
Lemma slots_alloc t np i f :
  slots_inv t np -> np + 1 < 2 ^ 31 ->
  (forall p, t !! i = Some p -> state p = UNUSED /\ state (f p) = EMBRYO /\ pid (f p) = np /\
     MIN_PRIORITY <= priority (f p) <= MAX_PRIORITY) ->
  slots_inv (alter f i t) (np + 1).
Proof.
  intros [L N P U Q D] Hn Hf. split.
  - by rewrite length_alter.
  - lia.
  - intros j q [(Hj & Hq)|(-> & p & Hp & ->)]%alter_lookup_inv Hs.
    + specialize (P _ _ Hq Hs). lia.
    + destruct (Hf p Hp) as (_ & _ & -> & _). lia.
  - intros j k q r [(Hj & Hq)|(-> & p & Hp & ->)]%alter_lookup_inv
      [(Hk & Hr)|(-> & p' & Hp' & ->)]%alter_lookup_inv Hs Hs' He; [eauto| | |done].
    + destruct (Hf p' Hp') as (_ & _ & Ep & _). specialize (P _ _ Hq Hs). lia.
    + destruct (Hf p Hp) as (_ & _ & Ep & _). specialize (P _ _ Hr Hs'). lia.
  - intros j q [(Hj & Hq)|(-> & p & Hp & ->)]%alter_lookup_inv Hs; [eauto|by apply Hf].
  - intros j q [(Hj & Hq)|(-> & p & Hp & ->)]%alter_lookup_inv Hs Hs'; [eauto|].
    destruct (Hf p Hp) as (_ & Es & _). congruence.
Qed.

Lemma cpus_keep t t' cp :
  Forall2 (fun p q => state p = RUNNING <-> state q = RUNNING) t t' ->
  cpus_inv t cp -> cpus_inv t' cp.
Proof.
  intros Ha [C R O]. split; [| |done].
  - intros c i Hc. destruct (C c i Hc) as (p & Hp & Hs).
    destruct (Forall2_lookup_l _ _ _ _ _ Ha Hp) as (q & Hq & Hpq). exists q. tauto.
  - intros i q Hq Hs. destruct (Forall2_lookup_r _ _ _ _ _ Ha Hq) as (p & Hp & Hpq).
    eapply R; [done|tauto].
Qed.
Lemma cpus_alter t cp i f :
  cpus_inv t cp ->
  (forall p, t !! i = Some p -> state p = RUNNING <-> state (f p) = RUNNING) ->
  cpus_inv (alter f i t) cp.
Proof. intros HI Hf. eapply cpus_keep; [|done]. by apply Forall2_alter. Qed.
Lemma cpus_ext t cp cp' : (forall c, cp c = cp' c) -> cpus_inv t cp -> cpus_inv t cp'.
Proof.
  intros He [C R O]. split.
  - intros c i. rewrite <- He. apply C.
  - intros i p Hp Hs. destruct (R _ _ Hp Hs) as (c & Hc). exists c. by rewrite <- He.
  - intros c c' i. rewrite <- !He. apply O.
Qed.
(** [i] leaves CPU [c]. *)
Lemma cpus_out t cp c i f :
  cpus_inv t cp -> cp c = Some i -> (forall p, t !! i = Some p -> state (f p) <> RUNNING) ->
  cpus_inv (alter f i t) (<[c := None]> cp).
Proof.
  intros [C R O] Hc Hf. split.
  - intros c' j. rewrite fn_insert_cases. case_decide as Hcc; [done|]. intros Hj.
    destruct (C _ _ Hj) as (p & Hp & Hs). exists p. split; [|done].
    rewrite list_lookup_alter_ne; [done|]. intros ->. apply Hcc. eauto.
  - intros j q [(Hne & Hq)|(-> & p & Hp & ->)]%alter_lookup_inv Hs; [|by apply Hf in Hs].
    destruct (R _ _ Hq Hs) as (c' & Hc'). exists c'. rewrite fn_insert_cases.
    rewrite decide_False; [done|]. intros ->. simplify_eq.
  - intros c1 c2 j. rewrite !fn_insert_cases. repeat case_decide; try done. apply O.
Qed.
(** [i], which did not run, gets the idle CPU [c]. *)
Lemma cpus_in t cp c i f :
  cpus_inv t cp -> cp c = None ->
  (exists p, t !! i = Some p /\ state p <> RUNNING /\ state (f p) = RUNNING) ->
  cpus_inv (alter f i t) (<[c := Some i]> cp).
Proof.
  intros [C R O] Hc (p0 & Hp0 & Hs0 & Hf).
  assert (Hni : forall c', cp c' <> Some i).
  { intros c' Hc'. destruct (C _ _ Hc') as (p & Hp & Hs). congruence. }
  split.
  - intros c' j. rewrite fn_insert_cases. case_decide; intros Hj; simplify_eq.
    + exists (f p0). by rewrite list_lookup_alter_eq, Hp0.
    + destruct (C _ _ Hj) as (p & Hp & Hs). exists p. split; [|done].
      rewrite list_lookup_alter_ne; [done|]. intros ->. by apply (Hni c').
  - intros j q [(Hne & Hq)|(-> & p & Hp & ->)]%alter_lookup_inv Hs.
    + destruct (R _ _ Hq Hs) as (c' & Hc'). exists c'. rewrite fn_insert_cases.
      rewrite decide_False; [done|]. intros ->. simplify_eq.
    + exists c. by rewrite fn_insert_cases, decide_True.
  - intros c1 c2 j. rewrite !fn_insert_cases. repeat case_decide; intros H1 H2; simplify_eq; try done.
    + by apply Hni in H2.
    + by apply Hni in H1.
    + eauto.
Qed.

(** The invariant of the kernel state. *)
Definition tinv s : Prop := slots_inv (ptable s) (nextpid s) /\ cpus_inv (ptable s) (runs s).

(** ** Every operation preserves it *)

(** The lock operations never change what a CPU runs. *)
Definition lk_keeps {A} (m : M lk_state A) : Prop :=
  forall l, wlp m (fun _ l' => length (cpus l') = length (cpus l) /\
    forall c, cproc (the_cpu l' c) = cproc (the_cpu l c)) l.
Lemma keeps_ret {A} (a : A) : lk_keeps (mret a).
Proof. by intros l. Qed.
Lemma keeps_panic {A} e : lk_keeps (panic (A := A) e).
Proof. by intros l. Qed.
Lemma keeps_sleeps {A} e : lk_keeps (sleeps (A := A) e).
Proof. by intros l. Qed.
Lemma keeps_gets {A} (f : lk_state -> A) : lk_keeps (gets f).
Proof. by intros l. Qed.
Lemma keeps_bind {A B} (m : M lk_state A) (f : A -> M lk_state B) :
  lk_keeps m -> (forall a, lk_keeps (f a)) -> lk_keeps (mbind f m).
Proof.
  intros Hm Hf l. apply wlp_bind. eapply wlp_mono; [apply Hm|]. simpl.
  intros a l' [Hl H]. eapply wlp_mono; [apply Hf|]. simpl. intros b l'' [Hl' H'].
  split; [congruence|]. intros c. by rewrite H', H.
Qed.
Lemma keeps_on_cpu c f : (forall u, cproc (f u) = cproc u) -> lk_keeps (modify (on_cpu c f)).
Proof.
  intros Hf l. split; [simpl; by rewrite length_alter|].
  intros c'. unfold the_cpu, on_cpu. simpl. rewrite list_lookup_total_alter.
  case_decide as Hc; [destruct Hc as [-> _]; apply Hf|done].
Qed.
Lemma keeps_set_lock a f : lk_keeps (modify (fun l => set_lock a (f l) l)).
Proof. by intros l. Qed.

Ltac head_of t := lazymatch t with ?f _ => head_of f | _ => t end.
Ltac keeps_step :=
  match goal with
  | |- lk_keeps (mbind _ _) => apply keeps_bind; intros
  | |- lk_keeps (mret _) => apply keeps_ret
  | |- lk_keeps (panic _) => apply keeps_panic
  | |- lk_keeps (sleeps _) => apply keeps_sleeps
  | |- lk_keeps (gets _) => apply keeps_gets
  | |- lk_keeps (modify (on_cpu _ _)) => apply keeps_on_cpu; done
  | |- lk_keeps (modify (fun l => set_lock _ _ l)) => apply keeps_set_lock
  | |- lk_keeps (modify (set_lock _ _)) => apply (keeps_set_lock _ (fun _ => _))
  | |- lk_keeps (if ?b then _ else _) => destruct b
  | |- lk_keeps ?m => let h := head_of m in unfold h
  end.
Lemma keeps_acquire c a : lk_keeps (acquire c a).
Proof. repeat keeps_step. Qed.
Lemma keeps_release c a : lk_keeps (release c a).
Proof. repeat keeps_step. Qed.
Lemma keeps_holding c a : lk_keeps (holding c a).
Proof. repeat keeps_step. Qed.
Lemma keeps_mycpu c : lk_keeps (mycpu c).
Proof. repeat keeps_step. Qed.
Lemma keeps_pushcli c : lk_keeps (pushcli c).
Proof. repeat keeps_step. Qed.
Lemma keeps_popcli c : lk_keeps (popcli c).
Proof. repeat keeps_step. Qed.
Lemma keeps_initlock a : lk_keeps (initlock a).
Proof. repeat keeps_step. Qed.
#[local] Hint Resolve keeps_acquire keeps_release keeps_holding keeps_mycpu keeps_pushcli
  keeps_popcli keeps_initlock : keeps.

(** A step that touches neither the table nor what the CPUs run. *)
Record frame s s' : Prop := {
  fr_table : ptable s' = ptable s;
  fr_next : nextpid s' = nextpid s;
  fr_init : initproc s' = initproc s;
  fr_ticks : ticks s' = ticks s;
  fr_cpus : length (cpus (klk s')) = length (cpus (klk s));
  fr_runs : forall c, runs s' c = runs s c;
}.
Lemma frame_refl s : frame s s.
Proof. by split. Qed.
Lemma frame_trans s1 s2 s3 : frame s1 s2 -> frame s2 s3 -> frame s1 s3.
Proof. intros [] []. split; try congruence. Qed.

Lemma wlp_on_lk {A} (m : M lk_state A) (Q : A -> kst E -> Prop) s :
  lk_keeps m -> (forall a s', frame s s' -> Q a s') -> wlp (on_lk m) Q s.
Proof.
  intros Hm HQ. specialize (Hm (klk s)). unfold wlp, on_lk, zoom in *.
  destruct (m (klk s)) as [[l a]| |]; [|done..]. apply HQ. destruct Hm. by split.
Qed.
Lemma wlp_on_env {A} (m : M E A) (Q : A -> kst E -> Prop) s :
  (forall a s' e e', m e = Ok (e', a) -> frame s s' -> Q a s') -> wlp (on_env m) Q s.
Proof.
  intros HQ. unfold wlp, on_env, zoom.
  destruct (m (env s)) as [[e a]| |] eqn:Em; [|done..]. eapply HQ; [done|]. by split.
Qed.
Lemma wlp_setp i f (Q : unit -> kst E -> Prop) s :
  Q tt (s <| ptable ::= alter f i |>) -> wlp (setp i f) Q s.
Proof. done. Qed.
Lemma wlp_getp i (Q : proc -> kst E -> Prop) s : Q (ptable s !!! i) s -> wlp (getp i) Q s.
Proof. done. Qed.
Lemma wlp_set_table f (Q : unit -> kst E -> Prop) s :
  Q tt (s <| ptable ::= f |>) -> wlp (set_table f) Q s.
Proof. done. Qed.

(** What survives such a step. *)
Class Framed (J : kst E -> Prop) := framed : forall s s', frame s s' -> J s -> J s'.
#[local] Instance framed_tinv : Framed tinv.
Proof.
  intros s s' [Ht Hn _ _ _ Hr] [H1 H2]. split; rewrite Ht; [by rewrite Hn|].
  by eapply cpus_ext; [|done].
Qed.
#[local] Instance framed_runs c o : Framed (fun s => runs s c = o).
Proof. intros s s' F <-. apply F. Qed.
#[local] Instance framed_valid c : Framed (fun s => valid_cpu c (klk s)).
Proof. intros s s' F. unfold valid_cpu. by rewrite (fr_cpus _ _ F). Qed.
(** The pid counter has not run out. *)
Definition pids_left s : Prop := nextpid s + 1 < 2 ^ 31.
#[local] Instance framed_pids_left : Framed pids_left.
Proof. intros s s' F. unfold pids_left. by rewrite (fr_next _ _ F). Qed.
#[local] Instance framed_frame s0 : Framed (frame s0).
Proof. intros s s' F H. by eapply frame_trans. Qed.

Lemma wlp_myproc c (Q : option nat -> kst E -> Prop) s :
  (forall s', frame s s' -> Q (runs s' c) s') -> wlp (myproc c) Q s.
Proof.
  intros HQ. unfold myproc. wlp_run. apply wlp_on_lk; [auto with keeps|]. intros _ s1 F1.
  wlp_run. unfold wlp, on_lk, zoom, mycpu, mbind, M_bind, gets.
  destruct (FL_IF (the_cpu (klk s1) c)) eqn:Ef; [done|].
  simpl. match goal with |- context [popcli c ?l] => pose proof (keeps_popcli c l) as Hk end.
  unfold wlp in Hk. destruct (popcli c _) as [[l []]| |]; [|done..]. simpl.
  set (s' := s1 <| klk := l |>).
  destruct Hk as [Hk1 Hk]. replace (cproc (the_cpu (klk s1) c)) with (runs s' c) by (apply (Hk c)).
  apply HQ. eapply frame_trans; [done|]. by split.
Qed.
Lemma wlp_curproc c (Q : nat -> kst E -> Prop) s :
  (forall i s', frame s s' -> runs s' c = Some i -> Q i s') -> wlp (curproc c) Q s.
Proof.
  intros HQ. unfold curproc. wlp_run. apply wlp_myproc. intros s' F.
  destruct (runs s' c) eqn:Er; [|done]. wlp_run. auto.
Qed.

Lemma tinv_alter s i f :
  tinv s -> (forall p, ptable s !! i = Some p -> keeps p (f p)) ->
  (forall p, ptable s !! i = Some p -> state p = RUNNING <-> state (f p) = RUNNING) ->
  tinv (s <| ptable ::= alter f i |>).
Proof. intros [H1 H2] Hk Hr. split; [by apply slots_alter|by apply cpus_alter]. Qed.
Lemma tinv_alter_same s i f :
  tinv s -> (forall p, same_id p (f p)) -> (forall p, state (f p) = state p) ->
  tinv (s <| ptable ::= alter f i |>).
Proof.
  intros HI Hf Hs. apply tinv_alter; [done| |by intros p _; rewrite Hs].
  intros p Hp. eapply keeps_same; [apply HI|done..|by left].
Qed.
Lemma tinv_map s f :
  tinv s -> (forall p, same_id p (f p)) ->
  (forall p, state p = state (f p) \/ (parked (state p) /\ parked (state (f p)))) ->
  tinv (s <| ptable ::= fmap f |>).
Proof.
  intros [H1 H2] Hf Hs. split; simpl.
  - apply slots_map; [done..|]. intros p. unfold in_use. destruct (Hs p); tauto.
  - eapply cpus_keep; [|done]. apply Forall2_fmap_self. intros p.
    destruct (Hs p) as [->|[Ha Hb]]; [done|]. unfold parked in *. intuition congruence.
Qed.

(** One statement of an operation, carrying the framed facts over. *)
Ltac kstep :=
  match goal with
  | F : frame ?s ?s' |- _ =>
      is_var s; repeat match goal with
      | H : ?P |- _ => lazymatch P with context [s] =>
          lazymatch eval pattern s in P with ?J _ => 
            lazymatch P with frame s s' => fail | _ => idtac end;
            apply (framed (J := J) s s' F) in H; cbn beta in H end end
      end; clear F; try clear s
  | |- wlp (on_lk _) _ _ => apply wlp_on_lk; [solve [auto with keeps]|intros ? ? ?]
  | |- wlp (on_env _) _ _ => apply wlp_on_env; intros ? ? ? ? ? ?
  | |- wlp (setp _ _) _ _ => apply wlp_setp
  | |- wlp (getp _) _ _ => apply wlp_getp
  | |- wlp (set_table _) _ _ => apply wlp_set_table
  | |- wlp (myproc _) _ _ => apply wlp_myproc; intros ? ?
  | |- wlp (curproc _) _ _ => apply wlp_curproc; intros ? ? ? ?
  | |- wlp (if decide ?P then _ else _) _ _ => destruct (decide P)
  | |- wlp (if ?b then _ else _) _ _ => destruct b eqn:?
  | |- wlp (match ?o with None => _ | Some _ => _ end) _ _ => destruct o eqn:?
  | |- _ => wlp_step; cbn beta
  end.
Ltac kauto := repeat kstep.
(** The goal is about the state after a step that touched nothing. *)
Ltac kback := match goal with F : frame _ ?s' |- ?G => eapply framed; [exact F|]; cbn beta end.

(** The invariant holds once slot [i] is changed by [f]. *)
Definition tinv_as f i s : Prop := tinv (s <| ptable ::= alter f i |>).
#[local] Instance framed_tinv_as f i : Framed (tinv_as f i).
Proof.
  intros s s' F H. unfold tinv_as in *. eapply framed; [|exact H].
  destruct F as [Ft Fn Fi Fk Fc Fr]. split; simpl; [by rewrite Ft|done..|exact Fr].
Qed.
(** The last change of the slot decides. *)
Lemma tinv_as_alter f g h i s :
  tinv_as f i s -> (forall p, ptable s !! i = Some p -> h (g p) = f p) ->
  tinv_as h i (s <| ptable ::= alter g i |>).
Proof.
  unfold tinv_as. intros H Hf. simpl in *.
  enough (Eq : alter h i (alter g i (ptable s)) = alter f i (ptable s)) by (simpl; by rewrite Eq).
  rewrite list_alter_alter_eq. apply list_alter_ext; [|done].
  intros p Hp. by apply Hf.
Qed.

(** CPU [c] is about to give up: its process is parked already. *)
Definition leaving c i s : Prop :=
  tinv_as (fun p => p <| state := RUNNING |>) i s /\ runs s c = Some i /\
  exists p, ptable s !! i = Some p /\ parked (state p).
#[local] Instance framed_leaving c i : Framed (leaving c i).
Proof.
  intros s s' F (H1 & H2 & H3). split; [by eapply framed|]. split; [by rewrite (fr_runs _ _ F)|].
  by rewrite (fr_table _ _ F).
Qed.

Lemma leaving_setp c i f s :
  tinv s -> runs s c = Some i ->
  (forall p, same_id p (f p) /\ parked (state (f p))) -> 
  leaving c i (s <| ptable ::= alter f i |>).
Proof.
  intros HI Hr Hf. destruct (ci_cpu _ _ (proj2 HI) _ _ Hr) as (p & Hp & Hs).
  split; [|split; [done|]].
  - eapply (tinv_as_alter (fun p => (f p) <| state := RUNNING |>)); [|done].
    apply tinv_alter; [done| |].
    + intros q Hq. simplify_eq. eapply keeps_same; [apply HI|done|apply (Hf p)|left]. done.
    + intros q Hq. simplify_eq. done.
  - exists (f p). simpl. rewrite list_lookup_alter_eq, Hp. split; [done|]. apply Hf.
Qed.
Lemma leaving_out c i f s (l : lk_state) :
  leaving c i s -> (forall p, same_id p (f p) /\ state (f p) = state p) ->
  (forall c', cproc (the_cpu l c') = <[c := None]> (runs s) c') ->
  tinv (s <| ptable ::= alter f i |> <| klk := l |>).
Proof.
  intros ([H1 H2] & Hr & p & Hp & Hs) Hf Hl. destruct (Hf p) as [Hid Est].
  assert (Eq : alter f i (ptable s) =
    alter (fun _ => f p) i (alter (fun q => q <| state := RUNNING |>) i (ptable s))).
  { rewrite list_alter_alter_eq. apply list_alter_ext; [|done]. intros q Hq. by simplify_eq/=. }
  simpl in *. split; simpl; rewrite Eq.
  - apply slots_alter; [done|]. intros q Hq. eapply keeps_same; [done..| |].
    + rewrite list_lookup_alter_eq, Hp in Hq. simpl in Hq. by simplify_eq.
    + rewrite list_lookup_alter_eq, Hp in Hq. simpl in Hq. simplify_eq. simpl. right.
      rewrite Est. unfold in_use. tauto.
  - eapply cpus_ext; [intros c'; symmetry; apply Hl|]. apply cpus_out; [done..|].
    intros q _. rewrite Est. unfold parked in Hs. intuition congruence.
Qed.

Lemma wlp_set_cproc c o (Q : unit -> kst E -> Prop) s :
  valid_cpu c (klk s) ->
  (forall l, (forall c', cproc (the_cpu l c') = <[c := o]> (runs s) c') -> Q tt (s <| klk := l |>)) ->
  wlp (on_lk (modify (on_cpu c (fun u => u <| cproc := o |>)))) Q s.
Proof.
  intros Hv HQ. apply HQ. intros c'. rewrite the_on_cpu_cases, fn_insert_cases by done.
  by case_decide.
Qed.
Lemma runs_valid s c i : runs s c = Some i -> valid_cpu c (klk s).
Proof.
  unfold runs, cpu_of, the_cpu, valid_cpu. rewrite list_lookup_total_alt. intros H.
  destruct (cpus (klk s) !! c) eqn:Ec; [by apply lookup_lt_Some in Ec|done].
Qed.

Lemma wlp_sched c i k s :
  leaving c i s -> wlp (sched c k) (fun _ => tinv) s.
Proof.
  intros HL. unfold sched. kauto.
  assert (Ei : i0 = i) by (destruct HL as (_ & ? & _); congruence). subst i0.
  unfold scheduler_back. wlp_run.
  change (cproc (the_cpu (klk _) c)) with (runs s' c). rewrite H0. kauto.
  apply wlp_set_cproc; [by eapply (runs_valid s')|]. intros l Hl. kauto.
  kback. simpl. rewrite list_alter_alter_eq. apply (leaving_out c i _ s' l); [done| |done].
  intros p. unfold same_id, compose. simpl. 
  by destruct (decide (last_scheduled p <> 0)).
Qed.
#[local] Hint Resolve wlp_sched : tinv.

Lemma wlp_yield c s : tinv s -> wlp (yield c) (fun _ => tinv) s.
Proof.
  intros HI. unfold yield. kauto. eapply wlp_sched, leaving_setp; [done..|].
  intros p. split; [done|]. unfold parked. auto.
Qed.
Lemma wlp_sleep c ch lk k s : tinv s -> wlp (sleep c ch lk k) (fun _ => tinv) s.
Proof.
  intros HI. unfold sleep. kauto; (eapply wlp_sched, leaving_setp; [done..|]);
    intros p; (split; [done|]); unfold parked; auto.
Qed.
Lemma tinv_wakeup1 ch s : tinv s -> tinv (s <| ptable ::= wakeup1 ch |>).
Proof.
  intros HI. apply tinv_map; [done| |].
  - intros p. by case_bool_decide.
  - intros p. case_bool_decide as H; [|by left]. destruct H as [-> _]. unfold parked. simpl. auto.
Qed.
Lemma tinv_account tk s : tinv s -> tinv (s <| ptable ::= fmap (account tk) |>).
Proof.
  intros HI. apply tinv_map; [done| |].
  - intros p. unfold account. case_bool_decide; [|done]. by destruct (state p).
  - intros p. left. by rewrite account_state.
Qed.
Lemma wlp_wakeup c ch s : tinv s -> wlp (wakeup c ch) (fun _ => tinv) s.
Proof. intros HI. unfold wakeup. kauto. kback. by apply tinv_wakeup1. Qed.
Lemma tinv_alter_parked s i f :
  tinv s -> (forall p, same_id p (f p)) ->
  (forall p, ptable s !! i = Some p -> parked (state p) /\ parked (state (f p))) ->
  tinv (s <| ptable ::= alter f i |>).
Proof.
  intros HI Hf Hs. apply tinv_alter; [done| |].
  - intros p Hp. destruct (Hs p Hp). eapply keeps_same; [apply HI|done..|]. unfold in_use. tauto.
  - intros p Hp. destruct (Hs p Hp). unfold parked in *. intuition congruence.
Qed.
Lemma lookup_total_alter_eq (t : list proc) f i p :
  t !! i = Some p -> alter f i t !!! i = f p.
Proof. intros Hp. apply list_lookup_total_correct. by rewrite list_lookup_alter_eq, Hp. Qed.

Lemma wlp_kill c n s : tinv s -> wlp (kill c n) (fun _ => tinv) s.
Proof.
  intros HI. unfold kill. kauto; try done; kback.
  - apply tinv_alter_parked; [by apply tinv_alter_same|done|].
    intros p Hp. apply list_lookup_total_correct in Hp. rewrite Hp in e. simpl. unfold parked. auto.
  - by apply tinv_alter_same.
Qed.
Lemma wlp_setpriority c n prio s : tinv s -> wlp (setpriority c n prio) (fun _ => tinv) s.
Proof.
  intros HI. unfold setpriority. kauto; try done; kback.
  apply tinv_alter; [done| |done]. intros p Hp.
  destruct (keeps_same n1 p p _ _ (proj1 HI) Hp) as [K1 K2]; [done|by left|].
  split; simpl; [|done]. intros Hs. destruct (K1 Hs) as (? & ? & ?). 
  unfold MIN_PRIORITY, MAX_PRIORITY in *. split; [done|]. split; [done|]. lia.
Qed.
Lemma wlp_getstats c n ptr s : tinv s -> wlp (getstats c n ptr) (fun _ => tinv) s.
Proof. intros HI. unfold getstats. kauto; done. Qed.
Lemma wlp_switchuvm i (Q : unit -> kst E -> Prop) s : Q tt s -> wlp (switchuvm i) Q s.
Proof. intros HQ. unfold switchuvm. by kauto. Qed.
Lemma wlp_growproc c n s : tinv s -> wlp (growproc c n) (fun _ => tinv) s.
Proof.
  intros HI. unfold growproc. kauto; try done; apply wlp_switchuvm, wlp_ret; by apply tinv_alter_same.
Qed.
(** A statement proved to keep the invariant; the next starts from it. *)
Ltac kthen lem := eapply wlp_mono; [by apply lem|intros ? ? ?; cbn beta].
Ltac kcut := apply wlp_bind, (wlp_mono _ (fun _ => tinv)); [|intros ? ? ?; cbn beta].

(** Forget how the state was reached but for [J]. *)
Ltac kgen J := lazymatch goal with |- wlp _ _ ?s =>
  let H := fresh "HJ" in assert (H : J s); [|revert H; generalize s; intros ? H] end.

(** CPU [c] runs process [i] in the kernel. *)
Definition running c i s : Prop := tinv s /\ runs s c = Some i.
#[local] Instance framed_running c i : Framed (running c i).
Proof. intros s s' F [H1 H2]. split; [by eapply framed|]. by rewrite (fr_runs _ _ F). Qed.
Lemma running_same c i j f s :
  running c i s -> (forall p, same_id p (f p)) -> (forall p, state (f p) = state p) ->
  running c i (s <| ptable ::= alter f j |>).
Proof. intros [HI Hr] ? ?. split; [by apply tinv_alter_same|done]. Qed.
Lemma running_wakeup1 c i ch s : running c i s -> running c i (s <| ptable ::= wakeup1 ch |>).
Proof. intros [HI Hr]. split; [by apply tinv_wakeup1|done]. Qed.

Lemma wlp_reparent c i s : running c i s -> wlp (reparent i) (fun _ => running c i) s.
Proof.
  intros HI. unfold reparent. eapply (wlp_mfor _ _ (running c i)); [done| |done].
  clear s HI. intros j s _ HI. kauto; try done; [apply running_wakeup1|]; by apply running_same.
Qed.
Lemma wlp_exit c s : tinv s -> wlp (exit c) (fun _ => tinv) s.
Proof.
  intros HI. unfold exit. kauto.
  eapply (wlp_mfor _ _ (running c i)).
  - by apply running_same.
  - clear. intros fd s _ HI. kauto; [done|]. by apply running_same.
  - clear. intros s HI. do 13 kstep. kgen (running c i); [by apply running_same|].
    do 7 kstep. kgen (running c i); [by apply running_wakeup1|]. kstep.
    eapply wlp_mono; [by apply wlp_reparent|]. cbn beta. clear. intros _ s [HI Hr].
    kauto. eapply wlp_sched, leaving_setp; [done..|]. intros p. split; [done|]. unfold parked. auto.
Qed.

(** CPU [c] runs [o], if anything. *)
Definition stays c o s : Prop := tinv s /\ runs s c = o.
#[local] Instance framed_stays c o : Framed (stays c o).
Proof. intros s s' F [H1 H2]. split; [by eapply framed|]. by rewrite (fr_runs _ _ F). Qed.
Lemma stays_same c o j f s :
  stays c o s -> (forall p, same_id p (f p)) -> (forall p, state (f p) = state p) ->
  stays c o (s <| ptable ::= alter f j |>).
Proof. intros [HI Hr] ? ?. split; [by apply tinv_alter_same|done]. Qed.
Lemma wlp_wakeup_stays c o ch s : stays c o s -> wlp (wakeup c ch) (fun _ => stays c o) s.
Proof. intros [HI Hr]. unfold wakeup. kauto. kback. split; [by apply tinv_wakeup1|done]. Qed.
Lemma wlp_clock c o s : stays c o s -> wlp (clock c) (fun _ => stays c o) s.
Proof.
  intros HI. unfold clock. kstep; [|by kauto]. kauto. kthen wlp_wakeup_stays. kauto; try done.
  kback. by apply stays_same.
Qed.
(** A process that goes on to user space is not killed. *)
Definition goes_on c cs s0 (go : bool) s : Prop :=
  tinv s /\ (go = true -> frame s0 s /\
    (Z.land cs 3 = DPL_USER -> forall i, runs s c = Some i -> killed (ptable s !!! i) = false)).
Lemma wlp_kill_check c cs s : tinv s -> wlp (kill_check c cs) (goes_on c cs s) s.
Proof.
  intros HI. unfold kill_check. kstep. apply wlp_myproc. intros s1 F.
  destruct (runs s1 c) as [i|] eqn:Er; [|split; [by eapply framed|]; intros _; split; [done|]; intros; congruence].
  apply wlp_bind, wlp_getp. cbn beta. destruct (killed _ && _) eqn:Ek.
  - apply wlp_bind. eapply wlp_mono; [apply wlp_exit; by eapply framed|]. intros ? s2 H2. by split.
  - split; [by eapply framed|]. intros _. split; [done|]. intros Hu j Hj.
    replace j with i by congruence. rewrite bool_decide_true in Ek by done. by rewrite andb_true_r in Ek.
Qed.
Lemma wlp_trap_end c trapno cs s : tinv s -> wlp (trap_end c trapno cs) (goes_on c cs s) s.
Proof.
  intros HI. unfold trap_end. kstep. eapply wlp_mono; [by apply wlp_kill_check|]. intros [] s1 [H1 Hg]; [|by split].
  destruct (Hg eq_refl) as [F1 _]. cbn [negb]. apply wlp_bind, wlp_myproc. intros s2 F2.
  assert (Hk : wlp (kill_check c cs) (goes_on c cs s) s2).
  { eapply wlp_mono; [apply wlp_kill_check; by eapply framed|]. intros go s3 [H3 Hg3]. split; [done|].
    intros Eg. destruct (Hg3 Eg). split; [|done]. do 2 (eapply frame_trans; [done|]). done. }
  destruct (runs s2 c) as [i|]; [|done]. apply wlp_bind, wlp_getp. cbn beta. destruct (bool_decide _); [|done].
  apply wlp_bind. eapply wlp_mono; [apply wlp_yield; by eapply framed|]. intros ? s3 H3. by split.
Qed.
Lemma wlp_timer_tick c cs s : tinv s -> wlp (timer_tick c cs) (fun _ => tinv) s.
Proof.
  intros HI. unfold timer_tick. kcut.
  - eapply wlp_mono; [by apply (wlp_clock c (runs s c))|]. by intros ? ? [? _].
  - kstep. eapply wlp_mono; [by apply wlp_trap_end|]. by intros ? ? [? _].
Qed.

(** Reaping a zombie: the slot is unused in the end. *)
Definition unused p : proc :=
  p <| pid := 0 |> <| parent := None |> <| name := [] |> <| killed := false |> <| state := UNUSED |>.
Lemma wlp_wait_scan c cur l b s :
  running c cur s -> wlp (wait_scan c cur l b) (fun r => running c cur) s.
Proof.
  revert b s. induction l as [|i l IH]; intros b s HI; simpl wait_scan; [by kauto|].
  do 3 kstep; [by apply IH|]. kstep; [|by apply IH].
  assert (H1 : tinv_as (fun p => unused (p <| kstack := 0 |>)) i s).
  { unfold tinv_as. apply tinv_alter; [apply HI| |]; intros p Hp;
      apply list_lookup_total_correct in Hp; subst p; [by split|].
    rewrite e. by split. }
  destruct HI as [_ Hr]. do 5 kstep.
  assert (H2 : runs s' c = Some cur /\ tinv_as unused i (s' <| ptable ::= alter (fun p => p <| kstack := 0 |>) i |>))
    by (split; [done|by eapply tinv_as_alter]).
  kstep. apply wlp_on_env. intros ? s2 ? ? _ F. kauto. kback. destruct H2 as [Hr2 H2]. split.
  - by eapply framed in H2.
  - exact (eq_trans (fr_runs _ _ F c) Hr2).
Qed.
Lemma wlp_wait_loop c s : tinv s -> wlp (wait_loop c) (fun _ => tinv) s.
Proof.
  intros HI. unfold wait_loop. do 4 kstep. eapply wlp_mono; [by apply wlp_wait_scan|].
  intros [[r|] b] s1 [H1 _]; kauto; try done. by kthen wlp_sleep.
Qed.
Lemma wlp_wait c s : tinv s -> wlp (wait c) (fun _ => tinv) s.
Proof. intros HI. unfold wait. kauto. by apply wlp_wait_loop. Qed.

Lemma keeps_intena c b : lk_keeps (modify (on_cpu c (fun u => u <| intena := b |>))).
Proof. by apply keeps_on_cpu. Qed.
Lemma keeps_sti c b : lk_keeps (modify (on_cpu c (fun u => u <| FL_IF := b |>))).
Proof. by apply keeps_on_cpu. Qed.
#[local] Hint Resolve keeps_intena keeps_sti : keeps.

Lemma wlp_resume c i s : tinv s -> wlp (resume c i) (fun _ => tinv) s.
Proof.
  intros HI. unfold resume. do 2 kstep. destruct (kpt _); kauto; try done.
  - by kback.
  - kback. by apply tinv_alter_same.
  - apply wlp_wait_loop. by apply tinv_alter_same.
Qed.

Lemma wlp_schedule c s : tinv s -> runs s c = None -> valid_cpu c (klk s) ->
  wlp (schedule c) (fun _ => tinv) s.
Proof.
  intros HI Hr Hv. unfold schedule. kauto.
  - apply wlp_set_cproc; [done|]. intros l Hl. wlp_run. apply wlp_switchuvm. kauto.
    simpl. rewrite list_alter_alter_eq.
    pose proof (tinv_account (ticks s'0) _ HI) as [H1 H2]. simpl in *.
    pose proof (choose_spec (account (ticks s'0) <$> ptable s'0)) as Hc. rewrite Heqo in Hc.
    destruct Hc as (p & Hp & Hs & _). split; simpl.
    + apply slots_alter; [done|]. intros q Hq. simplify_eq.
      eapply keeps_same; [done..|]. right. unfold in_use, parked. simpl. auto.
    + eapply cpus_ext; [intros c'; symmetry; apply Hl|]. apply cpus_in; [done..|].
      exists p. split; [done|]. split; [congruence|done].
  - kback. by apply tinv_account.
Qed.
Lemma wlp_scheduler c s : tinv s -> runs s c = None -> valid_cpu c (klk s) ->
  wlp (scheduler c) (fun _ => tinv) s.
Proof.
  intros HI Hr Hv. unfold scheduler. kcut; [by apply wlp_schedule|].
  kauto; [|done]. by kthen wlp_resume.
Qed.

(** A new process is set up while its slot is EMBRYO. *)
Definition embryo i (P : proc -> Prop) s : Prop :=
  tinv s /\ exists p, ptable s !! i = Some p /\ state p = EMBRYO /\ P p.
#[local] Instance framed_embryo i P : Framed (embryo i P).
Proof. intros s s' F [H1 H2]. split; [by eapply framed|]. by rewrite (fr_table _ _ F). Qed.
Lemma embryo_setp i (P Q : proc -> Prop) f s :
  embryo i P s ->
  (forall p, state (f p) = state p /\ pid (f p) = pid p) ->
  (forall p, P p -> Q (f p)) ->
  (forall p, ptable s !! i = Some p -> MIN_PRIORITY <= priority (f p) <= MAX_PRIORITY) ->
  embryo i Q (s <| ptable ::= alter f i |>).
Proof.
  intros [HI (p & Hp & Hs & HP)] Hf HQ Hpr. destruct (Hf p) as [E1 E2]. split.
  - apply tinv_alter; [done| |]; intros q Hq; simplify_eq.
    + split; rewrite E1, Hs; [|done]. intros _. split; [congruence|]. eauto.
    + by rewrite E1.
  - exists (f p). simpl. rewrite list_lookup_alter_eq, Hp, E1. eauto.
Qed.
Lemma embryo_same i (P Q : proc -> Prop) f s :
  embryo i P s ->
  (forall p, state (f p) = state p /\ pid (f p) = pid p /\ priority (f p) = priority p) ->
  (forall p, P p -> Q (f p)) -> embryo i Q (s <| ptable ::= alter f i |>).
Proof.
  intros HE Hf HQ. eapply embryo_setp; [done| |done|].
  - intros p. by destruct (Hf p) as (? & ? & ?).
  - intros p Hp. destruct (Hf p) as (_ & _ & ->), HE as [HI (q & Hq & Hs & _)]. simplify_eq.
    eapply (si_prio _ _ (proj1 HI)); [done|congruence].
Qed.
Definition loaded (p : proc) : Prop := kstack p <> 0 /\ pgdir p <> 0.
(** Back to UNUSED when an allocation failed, or on to RUNNABLE. *)
Lemma embryo_free i P f s :
  embryo i P s -> (forall p, state (f p) = UNUSED) -> tinv (s <| ptable ::= alter f i |>).
Proof.
  intros [HI (p & Hp & Hs & HP)] Hf. apply tinv_alter; [done| |]; intros q Hq; simplify_eq.
  - split; by rewrite Hf.
  - rewrite Hs, Hf. done.
Qed.
Lemma embryo_ready i f s :
  embryo i loaded s ->
  (forall p, same_id p (f p) /\ state (f p) = RUNNABLE) -> tinv (s <| ptable ::= alter f i |>).
Proof.
  intros [HI (p & Hp & Hs & HP)] Hf. destruct (Hf p) as [Hid E1].
  destruct Hid as (E2 & E3 & E4 & E5).
  apply tinv_alter; [done| |]; intros q Hq; simplify_eq; [|by rewrite Hs, E1].
  split; [|by rewrite <- E4, <- E5]. intros _. rewrite <- E2, <- E3, Hs. split; [done|].
  split; [done|]. eapply (si_prio _ _ (proj1 HI)); [done|congruence].
Qed.

Context `{!KernelLaws E}.
Lemma wlp_allocproc c c' o s :
  tinv s -> runs s c' = o -> pids_left s ->
  wlp (allocproc c) (fun r s' => runs s' c' = o /\
    match r with None => tinv s' | Some i => embryo i (fun p => kstack p <> 0) s' end) s.
Proof.
  intros HI Hr Hn. unfold allocproc. do 6 kstep; [|by kauto]. do 9 kstep.
  apply find_slot_Some in Heqo0 as (p & Hp & Hu & _). apply bool_decide_eq_true in Hu.
  kgen (fun s => runs s c' = o /\ embryo n (fun _ => True) s).
  - destruct HI as [H1 H2]. unfold pids_left in Hn. split; [done|]. split.
    + assert (0 < nextpid s' < 2 ^ 31) by apply H1.
      split; simpl.
      * rewrite (s32_small (nextpid s' + 1)) by (unfold is_s32; lia). apply slots_alloc; [done..|].
        intros q Hq. simplify_eq. done.
      * apply cpus_alter; [done|]. intros q Hq. simplify_eq. by rewrite Hu.
    + eexists. simpl. by rewrite list_lookup_alter_eq, Hp.
  - clear Hr HI; destruct HJ as [Hr HJ]. kauto; (split; [done|]).
    + eapply embryo_same; [done|done|]. intros q _. by eapply kalloc_nonnull.
    + by eapply embryo_free.
Qed.

Lemma wlp_fork c s : tinv s -> pids_left s -> wlp (fork c) (fun _ => tinv) s.
Proof.
  intros HI Hn. unfold fork. do 4 kstep. 
  eapply wlp_mono; [by eapply wlp_allocproc|]. intros [np|] s1; [|intros [_ H1]; by kauto].
  intros [Hr1 H1]. cbn beta. 
  assert (Hpr : MIN_PRIORITY <= priority (ptable s1 !!! i) <= MAX_PRIORITY).
  { destruct H1 as [HI1 _]. destruct (ci_cpu _ _ (proj2 HI1) _ _ Hr1) as (p & Hp & Hs).
    rewrite (list_lookup_total_correct _ _ _ Hp). eapply (si_prio _ _ (proj1 HI1)); [done|congruence]. }
  do 2 kstep. revert Hpr. generalize (ptable s1 !!! i). intros p Hpr. do 4 kstep.
  - do 3 kstep. kgen (embryo np loaded).
    { eapply embryo_same; [done|done|]. intros q Hq. split; [done|]. by eapply copyuvm_nonnull. }
    clear -HJ Hpr. apply wlp_mfor with (I := embryo np loaded); [done| |].
    + clear. intros fd s _ HE. kauto; [done|]. by eapply embryo_same.
    + clear HJ. intros s HE. kauto. kback. apply embryo_ready; [kback|done].
      apply (embryo_setp np loaded); [|done|done|done].
      by do 2 (apply (embryo_same np loaded); [|done|done]).
  - kauto. by eapply embryo_free.
Qed.

Lemma wlp_userinit c s : tinv s -> pids_left s -> wlp (userinit c) (fun _ => tinv) s.
Proof.
  intros HI Hn. unfold userinit. kstep.
  eapply wlp_mono; [by eapply (wlp_allocproc c c)|]. intros [i|] s1 [_ H1]; [|by kauto].
  do 2 kstep. kgen (embryo i (fun p => kstack p <> 0)); [done|]. do 3 kstep.
  kstep; [|by kauto]. do 3 kstep. kgen (embryo i loaded).
  { eapply embryo_same; [done|done|]. intros q Hq. split; [done|]. by eapply setupkvm_nonnull. }
  kauto. kback. apply embryo_ready; [kback|done].
  apply (embryo_same i loaded); [kback|done|done].
  by do 3 (apply (embryo_same i loaded); [|done|done]).
Qed.

(** ** All CPUs

    The steps of the machine: each is one call run to completion on some CPU,
    under the lock that protects the table.  The scheduler runs on an idle
    CPU.  A call that panics stops the machine. *)
Inductive sys_call :=
| CUserinit | CFork | CExit | CWait | CYield | CSleep (ch : option channel) (lk : Z) | CWakeup (ch : option channel)
| CKill (n : Z) | CSetpriority (n prio : Z) | CGetstats (n ptr : Z) | CGrowproc (n : Z)
| CTimer (cs : Z) | CScheduler.
Definition run_call c (o : sys_call) : K (E := E) unit :=
  match o with
  | CUserinit => userinit c
  | CFork => fork c;; mret tt
  | CExit => exit c
  | CWait => wait c;; mret tt
  | CYield => yield c
  | CSleep ch lk => on_lk (acquire c lk);; sleep c ch lk (KSleep lk)
  | CWakeup ch => wakeup c ch
  | CKill n => kill c n;; mret tt
  | CSetpriority n prio => setpriority c n prio;; mret tt
  | CGetstats n ptr => getstats c n ptr;; mret tt
  | CGrowproc n => growproc c n;; mret tt
  | CTimer cs => timer_tick c cs
  | CScheduler => scheduler c
  end.
(** The pid counter is a signed int: [pids_left] bounds a run to the first
    2^31 - 2 processes. *)
Inductive sys_step : relation (kst E) :=
| sys_run c o s s' :
    valid_cpu c (klk s) -> (o = CScheduler -> runs s c = None) -> pids_left s ->
    run_call c o s = Ok (s', tt) -> sys_step s s'.

(** The machine when main() starts: nothing runs, the table is zero. *)
Definition sys_init s : Prop :=
  ptable s = replicate NPROC proc_zero /\ nextpid s = 1 /\ forall c, runs s c = None.

Lemma wlp_run_call c o s :
  tinv s -> pids_left s -> valid_cpu c (klk s) -> (o = CScheduler -> runs s c = None) ->
  wlp (run_call c o) (fun _ => tinv) s.
Proof.
  intros HI Hn Hv Hr. destruct o; simpl.
  - by apply wlp_userinit.
  - kstep. by kthen wlp_fork.
  - by apply wlp_exit.
  - kstep. by kthen wlp_wait.
  - by apply wlp_yield.
  - do 3 kstep. by apply wlp_sleep.
  - by apply wlp_wakeup.
  - kstep. by kthen wlp_kill.
  - kstep. by kthen wlp_setpriority.
  - kstep. by kthen wlp_getstats.
  - kstep. by kthen wlp_growproc.
  - by apply wlp_timer_tick.
  - apply wlp_scheduler; auto.
Qed.
Lemma sys_init_tinv s : sys_init s -> tinv s.
Proof.
  intros (Ht & Hn & Hr). split; rewrite Ht.
  - rewrite Hn. split; [done|lia|..].
    all: intros; match goal with H : replicate _ _ !! _ = Some _ |- _ =>
      apply lookup_replicate in H as [-> _] end; done.
  - split; [intros c i Hc; congruence| |intros c ? i Hc; congruence].
    intros i p Hp Hs. apply lookup_replicate in Hp as [-> _]. done.
Qed.
Lemma reachable_tinv s s' : sys_init s -> rtc sys_step s s' -> tinv s'.
Proof.
  intros Hi. apply rtc_invariant; [by apply sys_init_tinv|].
  intros s1 s2 HI Hst. destruct Hst as [c o s1 s2 Hv Hr Hn Hs].
  apply (wlp_ok (run_call c o) (fun _ => tinv) s1 s2 tt); [|done].
  by apply wlp_run_call.
Qed.

(** ** The calls, with the lock free *)

Lemma reachable_loadable s : tinv s -> loadable (ptable s).
Proof. intros [H1 _] i p Hp Hs. eapply (si_load _ _ H1); [done|congruence..]. Qed.

Lemma kready_dropped c s t :
  kready c s -> kready c (s <| klk := lk_drop c (lk_take c (klk s)) |> <| ptable := t |>).
Proof. intros Hr. destruct (k_dropped c _ (k_taken c s Hr)) as [? ? ?]. by split. Qed.

Lemma wakeup_eq c ch s :
  kready c s ->
  wakeup c ch s = Ok (s <| klk := lk_drop c (lk_take c (klk s)) |> <| ptable ::= wakeup1 ch |>, tt).
Proof.
  intros Hr. unfold wakeup, mbind, M_bind. rewrite k_acquire by done.
  unfold set_table, modify. pose proof (k_taken c s Hr) as Hh.
  rewrite k_release by (by destruct Hh; split). done.
Qed.
Lemma setpriority_eq c n prio s :
  kready c s ->
  setpriority c n prio s =
    if decide (prio < MIN_PRIORITY \/ prio > MAX_PRIORITY) then Ok (s, -1) else
    let s1 := s <| klk := lk_drop c (lk_take c (klk s)) |> in
    match find_slot (fun p => bool_decide (pid p = n)) 0 (ptable s) with
    | Some i => Ok (s1 <| ptable ::= alter (fun p => p <| priority := prio |>) i |>, 0)
    | None => Ok (s1, -1)
    end.
Proof.
  intros Hr. unfold setpriority. case_decide; [done|]. unfold mbind, M_bind. rewrite k_acquire by done.
  unfold gets. cbv beta iota zeta. pose proof (k_taken c s Hr) as Hh.
  change (ptable (s <| klk := _ |>)) with (ptable s).
  destruct (find_slot _ _ _).
  - rewrite k_setp. rewrite k_release by (by destruct Hh; split). done.
  - rewrite k_release by done. done.
Qed.
Lemma kill_eq c n s :
  kready c s ->
  kill c n s =
    let s1 := s <| klk := lk_drop c (lk_take c (klk s)) |> in
    match find_slot (fun p => bool_decide (pid p = n)) 0 (ptable s) with
    | Some i => Ok (s1 <| ptable ::= alter (fun p =>
        (if decide (state p = SLEEPING) then p <| state := RUNNABLE |> else p) <| killed := true |>) i |>, 0)
    | None => Ok (s1, -1)
    end.
Proof.
  intros Hr. unfold kill, mbind, M_bind. rewrite k_acquire by done.
  unfold gets. cbv beta iota zeta. pose proof (k_taken c s Hr) as Hh.
  change (ptable (s <| klk := _ |>)) with (ptable s).
  destruct (find_slot _ _ _) as [i|] eqn:Hf; [|by rewrite k_release].
  apply find_slot_Some in Hf as (p & Hp & _).
  rewrite k_setp. unfold getp, gets. cbv beta iota.
  match goal with |- context [ptable ?x !!! i] => assert (El : ptable x !!! i = p <| killed := true |>) end.
  { by apply lookup_total_alter_eq. }
  rewrite El. change (state (p <| killed := true |>)) with (state p).
  destruct (decide (state p = SLEEPING)) as [Es|Es].
  - rewrite k_setp. rewrite k_release by (by destruct Hh; split). unfold mret, M_ret. simpl.
    rewrite list_alter_alter_eq. do 3 f_equal. apply list_alter_ext; [|done].
    intros q Hq. simplify_eq. simpl. by rewrite decide_True.
  - unfold mret at 1, M_ret. rewrite k_release by (by destruct Hh; split). unfold mret, M_ret. simpl.
    do 3 f_equal. apply list_alter_ext; [|done].
    intros q Hq. simplify_eq. simpl. by rewrite decide_False.
Qed.

End kernel_facts.
