(* ===== verification/Scheduling.v ===== *)
(** What scheduling and the process calls guarantee (proc.c).

    The invariant of ProcFacts.v read at the reachable states of the machine,
    and the effect of schedule, yield, sleep, wakeup, kill and setpriority on
    the process table.  [toy_kernel] is a small instance of the interface of
    the other components, for the examples. *)
From S2P Require Import Prelude Spinlock Proc ProcFacts.

(** A kernel whose environment counts the pages handed out. *)
Definition toy_page (n : nat) : Z := Z.of_nat (S n) * 4096.
#[export] Instance toy_kernel : Kernel nat := {
  kalloc := fun e => Ok (S e, Some (toy_page e));
  kfree := fun _ e => Ok (e, tt);
  setupkvm := fun e => Ok (S e, Some (toy_page e));
  inituvm := fun _ e => Ok (e, tt);
  copyuvm := fun _ _ e => Ok (S e, Some (toy_page e));
  allocuvm := fun _ _ n e => Ok (e, n);
  deallocuvm := fun _ _ n e => Ok (e, n);
  freevm := fun _ e => Ok (e, tt);
  copyout_pstat := fun _ _ _ e => Ok (e, 0);
  filedup := fun f e => Ok (e, f);
  fileclose := fun _ e => Ok (e, tt);
  idup := fun i e => Ok (e, i);
  iput := fun _ e => Ok (e, tt);
  begin_op := fun e => Ok (e, tt);
  end_op := fun e => Ok (e, tt);
  namei_root := fun e => Ok (e, 1);
  fs_boot := fun e => Ok (e, tt);
}.
#[export] Instance toy_laws : KernelLaws nat.
Proof. split; simpl; unfold toy_page; intros; simplify_eq; lia. Defined.

(** One CPU, just booted, before and after userinit and the first schedule. *)
Definition boot : kst nat :=
  mkkst (mklk [mkcpu false 0 false None] ∅) (replicate NPROC proc_zero) None 1 0 true 0%nat.
Definition boot1 : kst nat := exec (userinit 0) boot.
Definition boot2 : kst nat := exec (scheduler 0) boot1.

Section props.
Context {E : Type} `{!Kernel E, !KernelLaws E}.
Implicit Types (s : kst E) (c i : nat).

(** C9: in every reachable state of the multiprocessor a process is RUNNING
    exactly when some CPU runs it, that CPU is unique, and no two live
    processes have the same pid. *)
Theorem running_on_one_cpu s s' :
  sys_init s -> rtc sys_step s s' ->
  (forall i p, ptable s' !! i = Some p ->
     state p = RUNNING <-> exists c, runs s' c = Some i) /\
  (forall c c' i, runs s' c = Some i -> runs s' c' = Some i -> c = c') /\
  (forall i j p q, ptable s' !! i = Some p -> ptable s' !! j = Some q ->
     state p <> UNUSED -> state q <> UNUSED -> pid p = pid q -> i = j).
Proof.
  intros Hi Hs. destruct (reachable_tinv _ _ Hi Hs) as [H1 [C R O]].
  split; [|split; [done|apply H1]].
  intros i p Hp. split; [by apply R|]. intros [c Hc].
  destruct (C _ _ Hc) as (q & Hq & Hst). congruence.
Qed.

(** C29: every process of a reachable state has a priority in [0, 31] and a
    positive pid that was handed out, and past EMBRYO it has a kernel stack
    and a page table, so switchuvm never panics on it. *)
Theorem reachable_slots s s' i p :
  sys_init s -> rtc sys_step s s' -> ptable s' !! i = Some p -> state p <> UNUSED ->
  MIN_PRIORITY <= priority p <= MAX_PRIORITY /\ 0 < pid p < nextpid s' /\
  (state p <> EMBRYO -> switchuvm i s' = Ok (s', tt)).
Proof.
  intros Hi Hs Hp Hu. destruct (reachable_tinv _ _ Hi Hs) as [[_ _ P _ Q D] _].
  split; [eauto|]. split; [eauto|]. intros He. destruct (D _ _ Hp Hu He) as [Hk Hg].
  unfold switchuvm, mbind, M_bind, getp, gets. rewrite (list_lookup_total_correct _ _ _ Hp).
  by rewrite !decide_False.
Qed.

(** C22: a turn of the scheduler on an idle CPU of a reachable state never
    panics.  It finds no process only when none is RUNNABLE; otherwise it
    switches to the runnable process with the least priority number, the
    lowest slot among equals, which is then RUNNING on that CPU. *)
Theorem schedule_picks_best s0 s c :
  sys_init s0 -> rtc sys_step s0 s -> kready c s -> ncli (cpu_of s c) = 0 ->
  exists s' r, schedule c s = Ok (s', r) /\
  match r with
  | None => forall j q, ptable s !! j = Some q -> state q <> RUNNABLE
  | Some i =>
      runs s' c = Some i /\ state (ptable s' !!! i) = RUNNING /\
      exists p, ptable s !! i = Some p /\ state p = RUNNABLE /\
        forall j q, ptable s !! j = Some q -> state q = RUNNABLE ->
          priority p < priority q \/ (priority p = priority q /\ (i <= j)%nat)
  end.
Proof.
  intros Hi Hs Hr Hd. pose proof (reachable_tinv _ _ Hi Hs) as HI.
  rewrite schedule_eq by (done || by apply reachable_loadable).
  pose proof (choose_spec (ptable s)) as Hc.
  destruct (choose (ptable s)) as [i|]; (eexists _, _; split; [done|]); [|done].
  pose proof Hc as (p & Hp & Hst & Hmin). split; [|split; [|done]].
  - unfold runs, cpu_of. simpl. rewrite the_on_cpu; [done|].
    unfold lk_take. do 2 apply valid_on_cpu. apply Hr.
  - simpl. unfold dispatch. erewrite lookup_total_alter_eq; [done|].
    by rewrite list_lookup_fmap, Hp.
Qed.
End props.

Lemma boot_init : sys_init boot.
Proof. split; [done|]. split; [done|]. by intros [|[|c]]. Qed.
Lemma boot_step c o s s' :
  valid_cpu c (klk s) -> (o = CScheduler -> runs s c = None) -> pids_left s ->
  run_call (E := nat) c o s = Ok (s', tt) -> sys_step s s'.
Proof. apply sys_run. Qed.
Lemma boot1_reached : rtc sys_step boot boot1.
Proof.
  eapply rtc_once, (boot_step 0 CUserinit); [by vm_compute; lia|done|by vm_compute|].
  vm_compute. reflexivity.
Qed.
Lemma boot2_reached : rtc sys_step boot boot2.
Proof.
  eapply rtc_r; [apply boot1_reached|].
  eapply (boot_step 0 CScheduler); [by vm_compute; lia|done|by vm_compute|].
  vm_compute. reflexivity.
Qed.

Lemma running_on_one_cpu_witness :
  runs boot2 0 = Some 0%nat /\ (state (ptable boot2 !!! 0%nat) = RUNNING <-> exists c, runs boot2 c = Some 0%nat).
Proof.
  split; [by vm_compute|].
  apply (proj1 (running_on_one_cpu boot boot2 boot_init boot2_reached)). by vm_compute.
Defined.
Lemma reachable_slots_witness : switchuvm 0 boot2 = Ok (boot2, tt).
Proof.
  destruct (reachable_slots boot boot2 0 (ptable boot2 !!! 0%nat) boot_init boot2_reached) as (_ & _ & H).
  - by vm_compute.
  - by vm_compute.
  - apply H. by vm_compute.
Defined.
Lemma kready_boot1 : kready 0 boot1.
Proof. split; [by vm_compute; lia|split; by vm_compute|by vm_compute]. Qed.
Lemma schedule_picks_best_witness :
  exists s' r, schedule 0 boot1 = Ok (s', r) /\ r = Some 0%nat.
Proof.
  destruct (schedule_picks_best boot boot1 0 boot_init boot1_reached) as (s' & r & H & _).
  - exact kready_boot1.
  - by vm_compute.
  - exists s', r. split; [exact H|]. vm_compute in H. by injection H as _ <-.
Defined.

(** ** Sleeping and waking up *)

Section calls.
Context {E : Type} `{!Kernel E}.
Implicit Types (s : kst E) (c i : nat).

(** CPU [c] runs [i] in the kernel holding just the lock [lk]. *)
Record holds_only c i lk s : Prop := {
  ho_valid : valid_cpu c (klk s);
  ho_depth : ncli (cpu_of s c) = 1;
  ho_if : FL_IF (cpu_of s c) = false;
  ho_holds : holds (klk s) c lk = true;
  ho_free : locked (lock_at (klk s) PTABLE_LOCK) = 0;
  ho_runs : runs s c = Some i;
}.

Lemma myproc_held c i lk s : holds_only c i lk s -> myproc c s = Ok (s, Some i).
Proof.
  intros [Hv Hd Hf Hh Hp Hr]. unfold cpu_of in *. rewrite k_myproc, Hr; [|done|split; unfold cpu_of; [lia|done]].
  do 2 f_equal. rewrite (on_cpu_ext _ noted id).
  - destruct s as [[l k]]. unfold on_cpu, id. simpl. do 2 f_equal. by apply list_alter_id.
  - unfold noted, id. destruct (the_cpu (klk s) c) as [f n b p]. simpl in *. by rewrite decide_False by lia.
Qed.

(** The lock state when sleep has exchanged [lk] for ptable.lock. *)
Definition exchanged c lk (l : lk_state) : lk_state :=
  set_lock lk (mklock 0 None) (on_cpu c popped (lk_take c l)).
Lemma sleep_exchange c i lk s :
  holds_only c i lk s -> lk <> PTABLE_LOCK ->
  (on_lk (acquire c PTABLE_LOCK);; on_lk (release c lk)) s =
    Ok (s <| klk := exchanged c lk (klk s) |>, tt) /\
  kheld c (s <| klk := exchanged c lk (klk s) |>) /\
  ncli (cpu_of (s <| klk := exchanged c lk (klk s) |>) c) = 1 /\
  runs (s <| klk := exchanged c lk (klk s) |>) c = Some i.
Proof.
  intros [Hv Hd Hf Hh Hp Hr] Hne. unfold cpu_of in *.
  assert (Hrd : kready c s) by (split; [done|split; unfold cpu_of; [lia|done]|done]).
  assert (Hu : the_cpu (exchanged c lk (klk s)) c = popped (pushed (the_cpu (klk s) c))).
  { unfold exchanged, lk_take. rewrite the_set_lock, the_on_cpu by (by apply valid_on_cpu).
    by rewrite the_set_lock, the_on_cpu. }
  split; [|split; [|split]].
  - unfold mbind, M_bind. rewrite k_acquire by done. unfold on_lk, zoom. simpl.
    rewrite release_eq; [done| | | |].
    + by apply valid_on_cpu.
    + unfold lk_take. rewrite the_set_lock, the_on_cpu by done. simpl. lia.
    + unfold lk_take. by rewrite the_set_lock, the_on_cpu.
    + unfold holds, lk_take in *. by rewrite lock_at_set_ne by done.
  - split; unfold cpu_of; simpl; rewrite ?Hu; simpl.
    + unfold exchanged. by do 2 apply valid_on_cpu.
    + lia.
    + rewrite bool_decide_false by lia. done.
    + unfold holds, exchanged, lk_take. rewrite lock_at_set_ne, lock_at_on_cpu, lock_at_set by done.
      simpl. by apply bool_decide_true.
  - unfold cpu_of. simpl. rewrite Hu. simpl. lia.
  - unfold runs, cpu_of. simpl. rewrite Hu. done.
Qed.

Lemma sleep_eq c i ch lk k s :
  holds_only c i lk s -> lk <> PTABLE_LOCK -> lk <> 0 -> (i < length (ptable s))%nat ->
  sleep c ch lk k s = Ok (sched_out c i k
    (s <| klk := exchanged c lk (klk s) |>
       <| ptable ::= alter (fun p => p <| chan := ch |> <| state := SLEEPING |>) i |>), tt).
Proof.
  intros Hh Hne H0 Hl. unfold sleep. destruct (sleep_exchange c i lk s Hh Hne) as (Hx & Hk & Hd & Hr).
  rewrite (bind_run _ _ _ _ _ (myproc_held c i lk s Hh)). rewrite decide_False, decide_True by done.
  rewrite (bind_run _ _ _ _ _ Hx). cbv beta.
  unfold mbind, M_bind. rewrite k_setp.
  apply sched_eq; [by destruct Hk; split|done|done|].
  destruct (lookup_lt_is_Some_2 _ _ Hl) as [p Hp].
  match goal with |- context [ptable ?x !!! i] => 
    assert (El : ptable x !!! i = p <| chan := ch |> <| state := SLEEPING |>) end.
  { simpl. by rewrite (lookup_total_alter_eq _ _ _ p). }
  by rewrite El.
Qed.

(** The slot and the CPU after [sched_out]. *)
Lemma sched_out_slot c i k s p :
  ptable s !! i = Some p ->
  exists q, ptable (sched_out c i k s) !! i = Some q /\ state q = state p /\
    chan q = chan p /\ priority q = priority p.
Proof.
  intros Hp. unfold sched_out. simpl. rewrite list_lookup_alter_eq, Hp. eexists. split; [done|].
  unfold charge. by case_decide.
Qed.
Lemma sched_out_cpu c i k s :
  kheld c s -> runs (sched_out c i k s) c = None /\ kready c (sched_out c i k s) /\
  ncli (cpu_of (sched_out c i k s) c) = ncli (cpu_of s c) - 1.
Proof.
  intros Hh. pose proof (kheld_cproc c s None Hh) as Hh'.
  pose proof (k_dropped c _ Hh') as Hr. destruct Hh as [Hv _ _ _].
  split; [|split].
  - unfold runs, cpu_of, sched_out. simpl. rewrite runs_drop by (by apply valid_on_cpu).
    by rewrite the_on_cpu.
  - by destruct Hr; split.
  - unfold cpu_of, sched_out, lk_drop. simpl. rewrite the_set_lock, the_on_cpu by (by apply valid_on_cpu).
    rewrite the_on_cpu by done. simpl. lia.
Qed.

(** A process that sleeps on a channel holding just the lock [lk] gives up
    the CPU without a panic: it is SLEEPING on that channel, the CPU is idle at
    depth 0, and both [lk] and ptable.lock are free again, in one step under
    ptable.lock, so no wakeup can come between. *)
Theorem sleep_parks c i ch lk s p :
  holds_only c i lk s -> lk <> PTABLE_LOCK -> lk <> 0 -> ptable s !! i = Some p ->
  exists s' q, sleep c ch lk (KSleep lk) s = Ok (s', tt) /\
    ptable s' !! i = Some q /\ state q = SLEEPING /\ chan q = ch /\
    runs s' c = None /\ ncli (cpu_of s' c) = 0 /\
    locked (lock_at (klk s') lk) = 0 /\ locked (lock_at (klk s') PTABLE_LOCK) = 0.
Proof.
  intros Hh Hne H0 Hp. destruct (sleep_exchange c i lk s Hh Hne) as (_ & Hk & Hd & Hr).
  rewrite (sleep_eq c i) by (done || by eapply lookup_lt_Some).
  set (s1 := s <| klk := _ |> <| ptable ::= _ |>).
  assert (Hp1 : ptable s1 !! i = Some (p <| chan := ch |> <| state := SLEEPING |>)).
  { simpl. by rewrite list_lookup_alter_eq, Hp. }
  destruct (sched_out_slot c i (KSleep lk) s1 _ Hp1) as (q & Hq & Hs & Hc & _).
  assert (Hk1 : kheld c s1) by (by destruct Hk; split).
  destruct (sched_out_cpu c i (KSleep lk) s1 Hk1) as (Hr1 & [_ _ Hf1] & Hn1).
  exists (sched_out c i (KSleep lk) s1), q. split; [done|]. split; [done|]. split; [done|].
  split; [done|]. split; [done|]. split; [|split; [|done]].
  - rewrite Hn1. change (cpu_of s1 c) with (cpu_of (s <| klk := exchanged c lk (klk s) |>) c). lia.
  - unfold sched_out, lk_drop. simpl. rewrite lock_at_set_ne, !lock_at_on_cpu by done.
    unfold exchanged. by rewrite lock_at_set.
Qed.

(** Wakeup makes RUNNABLE exactly the processes SLEEPING on the channel,
    changes no other process, and releases ptable.lock. *)
Theorem wakeup_exact c ch s :
  kready c s ->
  exists s', wakeup c ch s = Ok (s', tt) /\ kready c s' /\
    length (ptable s') = length (ptable s) /\
    forall i p, ptable s !! i = Some p ->
      ptable s' !! i = Some (if decide (state p = SLEEPING /\ chan p = ch)
                             then p <| state := RUNNABLE |> else p).
Proof.
  intros Hr. rewrite wakeup_eq by done. eexists. split; [done|]. split; [|split].
  - by apply (kready_dropped c s (wakeup1 ch (ptable s))).
  - unfold wakeup1. simpl. by rewrite length_fmap.
  - intros i p Hp. simpl. unfold wakeup1. rewrite list_lookup_fmap, Hp. simpl. f_equal.
    by case_decide; case_bool_decide.
Qed.

(** Setpriority fails with -1, changing no process, when the priority is
    outside [0, 31] or no slot has the pid; otherwise it returns 0 and changes
    the priority of the first such slot and nothing else. *)
Theorem setpriority_correct c n prio s :
  kready c s ->
  exists s' r, setpriority c n prio s = Ok (s', r) /\
  ((r = -1 /\ ptable s' = ptable s /\
      ((prio < 0 \/ 31 < prio) \/ forall p, p ∈ ptable s -> pid p <> n)) \/
   (r = 0 /\ 0 <= prio <= 31 /\ exists i p, ptable s !! i = Some p /\ pid p = n /\
      ptable s' = <[i := p <| priority := prio |>]> (ptable s))).
Proof.
  intros Hr. rewrite setpriority_eq by done. unfold MIN_PRIORITY, MAX_PRIORITY.
  case_decide; [eexists _, _; split; [done|left; split; [done|]; split; [done|]; lia]|].
  simpl. destruct (find_slot _ _ _) as [i|] eqn:Hf; (eexists _, _; split; [done|]).
  - right. apply find_slot_Some in Hf as (p & Hp & Hn & _). apply bool_decide_eq_true in Hn.
    split; [done|]. split; [lia|]. exists i, p. split; [done|]. split; [done|]. simpl.
    by rewrite (alter_insert _ _ _ p).
  - left. split; [done|]. split; [done|]. right. intros p [j Hj]%list_elem_of_lookup Hn.
    eapply find_slot_None in Hf; [|done]. by apply bool_decide_eq_false in Hf.
Qed.

(** The slot a new process gets. *)
Definition born (n tk : Z) (p : proc) : proc :=
  p <| state := EMBRYO |> <| pid := n |> <| priority := DEFAULT_PRIORITY |> <| wait_time := 0 |>
    <| run_time := 0 |> <| turnaround_time := 0 |> <| creation_time := s32 tk |>
    <| last_scheduled := s32 tk |>.
Lemma allocproc_eq c s :
  kready c s ->
  allocproc c s =
    let s1 := s <| klk := lk_drop c (lk_take c (klk s)) |> in
    match find_slot (fun p => bool_decide (state p = UNUSED)) 0 (ptable s) with
    | None => Ok (s1, None)
    | Some i =>
        let s2 := s1 <| ptable ::= alter (born (nextpid s) (ticks s)) i |>
                     <| nextpid := s32 (nextpid s + 1) |> in
        match kalloc (env s) with
        | Ok (e, Some a) =>
            Ok (s2 <| env := e |> <| ptable ::= alter (fun p =>
                  p <| kstack := a |> <| context := mkctx KForkret false |>) i |>, Some i)
        | Ok (e, None) =>
            Ok (s2 <| env := e |> <| ptable ::= alter (fun p =>
                  p <| kstack := 0 |> <| state := UNUSED |>) i |>, None)
        | Panic msg => Panic msg
        | Sleeps ch => Sleeps ch
        end
    end.
Proof.
  intros Hr. unfold allocproc, mbind, M_bind. rewrite k_acquire by done.
  unfold gets. cbv beta iota zeta. pose proof (k_taken c s Hr) as Hh.
  change (ptable (s <| klk := _ |>)) with (ptable s).
  destruct (find_slot _ _ _) as [i|]; [|by rewrite k_release].
  rewrite k_setp. unfold modify. rewrite k_release by (by destruct Hh; split).
  unfold on_env, zoom. simpl. by destruct (kalloc (env s)) as [[e [a|]]| |].
Qed.

(** Allocproc returns no slot exactly when every slot is taken or no page is left for
    the stack, and then no slot changes its state; otherwise it returns the
    lowest UNUSED slot, now EMBRYO with the next pid, the default priority and
    a kernel stack, and the counter has moved on. *)
Theorem allocproc_correct c s e r :
  kready c s -> is_s32 (nextpid s + 1) -> kalloc (env s) = Ok (e, r) ->
  exists s' o, allocproc c s = Ok (s', o) /\ kready c s' /\
  match o with
  | None =>
      ((forall p, p ∈ ptable s -> state p <> UNUSED) \/ r = None) /\
      (forall j q, ptable s !! j = Some q -> exists q', ptable s' !! j = Some q' /\ state q' = state q)
  | Some i =>
      exists p q a, ptable s !! i = Some p /\ state p = UNUSED /\ r = Some a /\
      (forall j q, (j < i)%nat -> ptable s !! j = Some q -> state q <> UNUSED) /\
      ptable s' = <[i := q]> (ptable s) /\ state q = EMBRYO /\ pid q = nextpid s /\
      priority q = DEFAULT_PRIORITY /\ kstack q = a /\ kpt (context q) = KForkret /\
      nextpid s' = nextpid s + 1
  end.
Proof.
  intros Hr Hn Hk. rewrite allocproc_eq by done. simpl.
  destruct (find_slot _ _ _) as [i|] eqn:Hf.
  - apply find_slot_Some in Hf as (p & Hp & Hu & Hmin). apply bool_decide_eq_true in Hu.
    rewrite Hk. destruct r as [a|]; (eexists _, _; split; [done|]; split;
      [by destruct (kready_dropped c s [] Hr); split|]).
    + exists p. eexists _, a. split; [done|]. split; [done|]. split; [done|]. split.
      { intros j q Hj Hq. specialize (Hmin j q Hj Hq). by apply bool_decide_eq_false in Hmin. }
      simpl. rewrite list_alter_alter_eq. rewrite (s32_small (nextpid s + 1)) by done.
      split; [by rewrite (alter_insert _ _ _ p)|done].
    + split; [by right|]. intros j q Hq. simpl. rewrite list_alter_alter_eq.
      destruct (decide (i = j)) as [<-|Hj].
      * rewrite list_lookup_alter_eq, Hq. eexists. split; [done|]. simpl. congruence.
      * rewrite list_lookup_alter_ne by done. eauto.
  - eexists _, _. split; [done|]. split; [by destruct (kready_dropped c s [] Hr); split|].
    split; [left|eauto]. intros p [j Hj]%list_elem_of_lookup. 
    eapply find_slot_None in Hf; [|done]. by apply bool_decide_eq_false in Hf.
Qed.

(** C40: kill(0) succeeds on a free slot, whose pid is 0: it marks the slot
    killed, and since allocproc does not clear the mark the next process
    created in that slot starts out killed. *)
Theorem kill_zero_marks_unborn c s i p e a :
  kready c s -> ptable s !! i = Some p -> state p = UNUSED -> pid p = 0 ->
  (forall j q, (j < i)%nat -> ptable s !! j = Some q -> state q <> UNUSED /\ pid q <> 0) ->
  kalloc (env s) = Ok (e, Some a) ->
  exists s1 s2 q, kill c 0 s = Ok (s1, 0) /\ allocproc c s1 = Ok (s2, Some i) /\
    ptable s2 !! i = Some q /\ state q = EMBRYO /\ killed q = true.
Proof.
  intros Hr Hp Hu H0 Hmin Hk.
  assert (F1 : find_slot (fun p => bool_decide (pid p = 0)) 0 (ptable s) = Some i).
  { apply (find_slot_first _ _ _ p); [done|by apply bool_decide_true|].
    intros j q Hj Hq. by apply bool_decide_false, (Hmin j q). }
  rewrite kill_eq by done. rewrite F1. cbv zeta. eexists.
  match goal with |- context [Ok (?x, 0)] => set (s1 := x) end.
  assert (Hp1 : ptable s1 !! i = Some (p <| killed := true |>)).
  { simpl. rewrite list_lookup_alter_eq, Hp. simpl. by rewrite decide_False by congruence. }
  assert (F2 : find_slot (fun p => bool_decide (state p = UNUSED)) 0 (ptable s1) = Some i).
  { apply (find_slot_first _ _ _ (p <| killed := true |>)); [done|by apply bool_decide_true|].
    intros j q Hj Hq. simpl in Hq. rewrite list_lookup_alter_ne in Hq by lia.
    by apply bool_decide_false, (Hmin j q). }
  assert (Hr1 : kready c s1) by (by destruct (kready_dropped c s [] Hr); split).
  rewrite (allocproc_eq c s1), F2 by done. cbv zeta. change (env s1) with (env s). rewrite Hk.
  eexists _, _. split; [done|]. split; [done|]. clearbody s1.
  simpl. rewrite !list_lookup_alter_eq, Hp1. by split.
Qed.

(** Yield does not pass the CPU on among equals: when the running process
    has the least priority number, and the lowest slot among equals, the
    scheduler picks it again, however many equals are waiting. *)
Theorem yield_reelects c i s p :
  tinv s -> kready c s -> ncli (cpu_of s c) = 0 -> runs s c = Some i ->
  ptable s !! i = Some p ->
  (forall j q, ptable s !! j = Some q -> state q = RUNNABLE ->
     priority p < priority q \/ (priority p = priority q /\ (i <= j)%nat)) ->
  exists s1 s2, yield c s = Ok (s1, tt) /\ schedule c s1 = Ok (s2, Some i).
Proof.
  intros HI Hr Hd Hi Hp Hmin. pose proof (wlp_yield c s HI) as HI1.
  rewrite (yield_eq c i) by done. unfold wlp in HI1. rewrite (yield_eq c i) in HI1 by done.
  match goal with |- context [sched_out c i KYield ?x] => set (s0 := x) in * end.
  set (s1 := sched_out c i KYield s0) in *. exists s1.
  assert (Hk : kheld c s0) by (by destruct (k_taken c s Hr); split).
  destruct (sched_out_cpu c i KYield s0 Hk) as (_ & Hr1 & Hn1).
  rewrite (schedule_eq c s1); [|done| |by apply reachable_loadable].
  - assert (Hc : choose (ptable s1) = Some i).
    { destruct (sched_out_slot c i KYield s0 (p <| state := RUNNABLE |>)) as (q & Hq & Hs & _ & Hpr).
      { simpl. by rewrite list_lookup_alter_eq, Hp. }
      apply (choose_unique _ _ q); [done|done|]. intros j q' Hq' Hs'. rewrite Hpr.
      destruct (decide (i = j)) as [<-|Hj]; [assert (q' = q) as -> by (unfold s1 in Hq'; congruence); rewrite Hpr; auto|].
      apply Hmin; [|done]. unfold s1, sched_out in Hq'. simpl in Hq'.
      by rewrite !list_lookup_alter_ne in Hq'. }
    rewrite Hc. eauto.
  - unfold s1. rewrite Hn1. unfold cpu_of, s0, lk_take. simpl.
    rewrite the_set_lock, the_on_cpu by apply Hr. unfold cpu_of in Hd. simpl. lia.
Qed.
End calls.

(** *** Examples *)

(** Process 0 runs on CPU 0 and holds the tick lock. *)
Definition boot3 : kst nat := exec (on_lk (acquire 0 TICKS_LOCK)) boot2.
Lemma sleep_parks_witness :
  exists s' q, sleep 0 (Some (AddrChan TICKS_CHAN)) TICKS_LOCK (KSleep TICKS_LOCK) boot3 = Ok (s', tt) /\
    ptable s' !! 0%nat = Some q /\ state q = SLEEPING.
Proof.
  destruct (sleep_parks 0 0 (Some (AddrChan TICKS_CHAN)) TICKS_LOCK boot3 (ptable boot3 !!! 0%nat))
    as (s' & q & H & Hq & Hs & _).
  - split; by vm_compute; try lia.
  - done.
  - done.
  - by vm_compute.
  - eauto.
Defined.
Definition boot4 : kst nat := exec (sleep 0 (Some (AddrChan TICKS_CHAN)) TICKS_LOCK (KSleep TICKS_LOCK)) boot3.
Lemma kready_boot4 : kready 0 boot4.
Proof. split; [by vm_compute; lia|split; by vm_compute|by vm_compute]. Qed.
Lemma wakeup_exact_witness :
  exists s' q, wakeup 0 (Some (AddrChan TICKS_CHAN)) boot4 = Ok (s', tt) /\
    ptable s' !! 0%nat = Some q /\ state q = RUNNABLE.
Proof.
  destruct (wakeup_exact 0 (Some (AddrChan TICKS_CHAN)) boot4 kready_boot4) as (s' & H & _ & _ & Hs).
  exists s'. eexists. split; [done|]. split; [by apply Hs; vm_compute|]. by vm_compute.
Defined.
Lemma setpriority_correct_witness :
  exists s', setpriority 0 1 5 boot4 = Ok (s', 0) /\ priority (ptable s' !!! 0%nat) = 5.
Proof.
  destruct (setpriority_correct 0 1 5 boot4 kready_boot4) as (s' & r & H & _).
  exists s'. vm_compute in H. by injection H as <- <-.
Defined.
Lemma kready_boot : kready 0 boot.
Proof. split; [by vm_compute; lia|split; by vm_compute|by vm_compute]. Qed.
Lemma allocproc_correct_witness :
  exists s' o, allocproc 0 boot = Ok (s', o) /\ o = Some 0%nat.
Proof.
  destruct (allocproc_correct 0 boot 1%nat (Some (toy_page 0)) kready_boot) as (s' & o & H & _).
  - by vm_compute.
  - done.
  - exists s', o. split; [exact H|]. vm_compute in H. by injection H as _ <-.
Defined.
Lemma kill_zero_marks_unborn_witness :
  exists s1 s2 q, kill 0 0 boot = Ok (s1, 0) /\ allocproc 0 s1 = Ok (s2, Some 0%nat) /\
    ptable s2 !! 0%nat = Some q /\ state q = EMBRYO /\ killed q = true.
Proof.
  eapply (kill_zero_marks_unborn 0 boot 0 proc_zero 1%nat (toy_page 0) kready_boot); try done.
  intros j q Hj. lia.
Defined.
(** A second process of the same priority waits in slot 1. *)
Definition boot5 : kst nat := exec (fork 0) boot2.
Lemma boot5_reached : rtc sys_step boot boot5.
Proof.
  eapply rtc_r; [apply boot2_reached|].
  eapply (boot_step 0 CFork); [by vm_compute; lia|done|by vm_compute|].
  vm_compute. reflexivity.
Qed.
Definition only_runnable_b (s : kst nat) (i : nat) : bool :=
  forallb (fun k => bool_decide (state (ptable s !!! k) <> RUNNABLE) || (k =? i)%nat)
    (seq 0 (length (ptable s))).
Lemma only_runnable s i j q :
  only_runnable_b s i = true -> ptable s !! j = Some q -> state q = RUNNABLE -> j = i.
Proof.
  intros Hb Hj Hs. unfold only_runnable_b in Hb. rewrite forallb_forall in Hb.
  specialize (Hb j). rewrite (list_lookup_total_correct _ _ _ Hj) in Hb.
  rewrite bool_decide_false in Hb by auto. apply Nat.eqb_eq, Hb.
  apply in_seq. apply lookup_lt_Some in Hj. lia.
Qed.
Lemma yield_reelects_witness :
  exists s1 s2, state (ptable boot5 !!! 1%nat) = RUNNABLE /\
    yield 0 boot5 = Ok (s1, tt) /\ schedule 0 s1 = Ok (s2, Some 0%nat).
Proof.
  destruct (yield_reelects 0 0 boot5 (ptable boot5 !!! 0%nat)) as (s1 & s2 & H1 & H2).
  - exact (reachable_tinv _ _ boot_init boot5_reached).
  - split; [by vm_compute; lia|split; by vm_compute|by vm_compute].
  - by vm_compute.
  - by vm_compute.
  - by vm_compute.
  - intros j q Hj Hs.
    assert (Hj1 : j = 1%nat) by (apply (only_runnable boot5 1 j q); [vm_compute; reflexivity|exact Hj|exact Hs]).
    subst j. vm_compute in Hj. simplify_eq. right. split; [vm_compute; reflexivity|lia].
  - exists s1, s2. split; [by vm_compute|]. split; [exact H1|exact H2].
Defined.
