(* ===== verification/Trap.v ===== *)
(** Traps and interrupts (trap.c, traps.h, the gates of mmu.h).

    [tvinit] fills the interrupt descriptor table and [trap] is the handler
    every vector comes to, with all its cases.  It runs on the kernel state of
    Proc.v.  [Devices] is the interface of the handlers it calls: the drivers,
    the local interrupt controller, the message on the console and the system
    call; [DevicesLaws] is what trap relies on, that a handler leaves the CPU
    with the process it ran.  The assembly that builds the trap frame is not
    modelled. *)
From S2P Require Import Prelude Spinlock Proc ProcFacts Scheduling.

(** ** The descriptor table *)

Definition T_SYSCALL : Z := 64.
Definition T_IRQ0 : Z := 32.
Definition IRQ_TIMER : Z := 0.
Definition IRQ_KBD : Z := 1.
Definition IRQ_COM1 : Z := 4.
Definition IRQ_IDE : Z := 14.
Definition IRQ_SPURIOUS : Z := 31.
Definition SEG_KCODE : Z := 1.
Definition STS_IG32 : Z := 14.
Definition STS_TG32 : Z := 15.

Record gatedesc : Type := mkgate {
  off_15_0 : Z; g_cs : Z; g_args : Z; g_rsv1 : Z; g_type : Z; g_s : Z; g_dpl : Z; g_p : Z; off_31_16 : Z }.
#[export] Instance gatedesc_inhabited : Inhabited gatedesc := populate (mkgate 0 0 0 0 0 0 0 0 0).
Definition SETGATE (istrap : bool) (sel off d : Z) : gatedesc :=
  mkgate (Z.land (u32 off) 65535) sel 0 0 (if istrap then STS_TG32 else STS_IG32) 0 d 1 (Z.shiftr (u32 off) 16).
(** The table of 256 gates from the entry points of vectors.S. *)
Definition tvinit (vectors : nat -> Z) : list gatedesc :=
  let idt := (fun i => SETGATE false (Z.shiftl SEG_KCODE 3) (vectors i) 0) <$> seq 0 256 in
  <[Z.to_nat T_SYSCALL := SETGATE true (Z.shiftl SEG_KCODE 3) (vectors (Z.to_nat T_SYSCALL)) DPL_USER]> idt.

(** Where the processor goes through a gate, and whether an int instruction at
    privilege level [cpl] may use it. *)
Definition gate_target (g : gatedesc) : Z := Z.lor (Z.shiftl (off_31_16 g) 16) (off_15_0 g).
Definition int_allowed (cpl : Z) (g : gatedesc) : bool := bool_decide (cpl <= g_dpl g).

Lemma halves x : 0 <= x < 2 ^ 32 -> Z.lor (Z.shiftl (Z.shiftr x 16) 16) (Z.land x 65535) = x.
Proof.
  intros Hx. change 65535 with (Z.ones 16). apply Z.bits_inj'. intros k Hk.
  rewrite Z.lor_spec, Z.land_spec, Z.shiftl_spec by done. destruct (decide (k < 16)) as [H|H].
  - rewrite Z.testbit_neg_r, Z.ones_spec_low by lia. by rewrite andb_true_r.
  - rewrite Z.shiftr_spec, Z.ones_spec_high by lia. rewrite andb_false_r, orb_false_r. f_equal. lia.
Qed.
(** Each vector enters the kernel code segment at its own entry point; a user
    program may raise the system call and nothing else, and only the system
    call leaves interrupts on. *)
Lemma tvinit_gates vectors n :
  (n < 256)%nat -> 0 <= vectors n < 2 ^ 32 ->
  exists g, tvinit vectors !! n = Some g /\ gate_target g = vectors n /\ g_cs g = 8 /\ g_p g = 1 /\
    (int_allowed DPL_USER g = true <-> n = Z.to_nat T_SYSCALL) /\ (g_type g = STS_TG32 <-> n = Z.to_nat T_SYSCALL).
Proof.
  intros Hn Hv. unfold tvinit. set (t := Z.to_nat T_SYSCALL).
  assert (Ht : forall b d, gate_target (SETGATE b (Z.shiftl SEG_KCODE 3) (vectors n) d) = vectors n).
  { intros b d. unfold gate_target, SETGATE. cbn [off_15_0 off_31_16]. rewrite u32_small by (unfold is_u32; lia). by apply halves. }
  assert (Hl : (t < 256)%nat) by (unfold t, T_SYSCALL; lia).
  destruct (decide (n = t)) as [->|Hne].
  - rewrite list_lookup_insert_eq by (rewrite length_fmap, length_seq; done).
    eexists. split; [done|]. rewrite Ht. done.
  - rewrite list_lookup_insert_ne by done. rewrite list_lookup_fmap, lookup_seq_lt by done.
    eexists. split; [done|]. cbn [fmap]. rewrite Ht. repeat split; try done; intros; exfalso; done.
Qed.

(** ** trap *)

Class Devices (E : Type) := {
  ideintr : nat -> K (E := E) unit;
  kbdintr : nat -> K (E := E) unit;
  uartintr : nat -> K (E := E) unit;
  lapiceoi : M E unit;
  trap_message : Z -> M E unit;
  (** Whether the call returns to trap; a call that sleeps or exits gives the
      CPU to another process. *)
  do_syscall : nat -> K (E := E) bool;
}.
Section trap.
Context {E : Type} `{!Kernel E, !Devices E}.
Implicit Types (s : kst E) (c i : nat).

(** The default case: a fault of the kernel stops it, a fault of a program
    kills its process. *)
Definition trap_fault (c : nat) (f : trapframe) : K (E := E) unit :=
  p ← myproc c;
  match p with
  | Some i =>
      if decide (Z.land (tf_cs f) 3 = 0) then on_env (trap_message (tf_trapno f));; panic "trap" else
      on_env (trap_message (tf_trapno f));;
      setp i (fun p => p <| killed := true |>)
  | None => on_env (trap_message (tf_trapno f));; panic "trap"
  end.
(** The switch on the trap number. *)
Definition trap_switch (c : nat) (f : trapframe) : K (E := E) unit :=
  let n := tf_trapno f in
  if decide (n = T_IRQ0 + IRQ_TIMER) then clock c;; on_env lapiceoi else
  if decide (n = T_IRQ0 + IRQ_IDE) then ideintr c;; on_env lapiceoi else
  if decide (n = T_IRQ0 + IRQ_IDE + 1) then mret tt else
  if decide (n = T_IRQ0 + IRQ_KBD) then kbdintr c;; on_env lapiceoi else
  if decide (n = T_IRQ0 + IRQ_COM1) then uartintr c;; on_env lapiceoi else
  if decide (n = T_IRQ0 + 7 \/ n = T_IRQ0 + IRQ_SPURIOUS) then on_env (trap_message n);; on_env lapiceoi else
  trap_fault c f.
(** The branch of the system call. *)
Definition trap_syscall (c : nat) (f : trapframe) : K (E := E) bool :=
  i ← curproc c;
  p ← getp i;
  if killed p then exit c;; mret false else
  i ← curproc c;
  setp i (fun p => p <| tf := f |>);;
  go ← do_syscall c;
  if negb go then mret false else
  i ← curproc c;
  p ← getp i;
  if killed p then exit c;; mret false else mret true.
(** The handler; whether it returns to the code it interrupted, with the same
    process on the CPU. *)
Definition trap (c : nat) (f : trapframe) : K (E := E) bool :=
  if decide (tf_trapno f = T_SYSCALL) then trap_syscall c f else
  trap_switch c f;;
  trap_end c (tf_trapno f) (tf_cs f).

(** The numbers with a case of their own. *)
Definition expected (n : Z) : Prop :=
  n ∈ [T_SYSCALL; T_IRQ0 + IRQ_TIMER; T_IRQ0 + IRQ_IDE; T_IRQ0 + IRQ_IDE + 1; T_IRQ0 + IRQ_KBD;
       T_IRQ0 + IRQ_COM1; T_IRQ0 + 7; T_IRQ0 + IRQ_SPURIOUS].
End trap.

(** What trap relies on. *)
Definition handler_keeps {E} (h : nat -> K (E := E) unit) : Prop :=
  forall c o s, stays c o s -> wlp (h c) (fun _ => stays c o) s.
Class DevicesLaws (E : Type) `{!Kernel E, !Devices E} := {
  ideintr_keeps : handler_keeps ideintr;
  kbdintr_keeps : handler_keeps kbdintr;
  uartintr_keeps : handler_keeps uartintr;
  do_syscall_keeps : forall c o s, stays c o s ->
    wlp (do_syscall c) (fun go s' => tinv s' /\ (go = true -> runs s' c = o)) s;
}.

(** ** What a trap guarantees *)
Section safety.
Context {E : Type} `{!Kernel E, !Devices E, !DevicesLaws E}.
Implicit Types (s : kst E) (c i : nat).

Lemma frame_stays c o s s' : frame s s' -> stays c o s -> stays c o s'.
Proof.
  intros [Ft Fn _ _ _ Fr] [[H1 H2] Hr].
  split; [split; rewrite Ft; [by rewrite Fn|by eapply cpus_ext; [|done]]|by rewrite Fr].
Qed.
Lemma wlp_env_stays {A} c o (m : M E A) s : stays c o s -> wlp (on_env m) (fun _ => stays c o) s.
Proof. intros Hs. apply wlp_on_env. intros a s' e e' _ F. by eapply frame_stays. Qed.
(** A handler, then the end of interrupt. *)
Lemma wlp_serve c o (m : K unit) (Q : unit -> kst E -> Prop) s :
  wlp m (fun _ => stays c o) s -> (forall s', stays c o s' -> Q tt s') -> wlp (m;; on_env lapiceoi) Q s.
Proof.
  intros Hm HQ. apply wlp_bind. eapply wlp_mono; [exact Hm|]. intros [] s1 H1. cbn beta.
  eapply wlp_mono; [by apply wlp_env_stays|]. intros [] s2 H2. by apply HQ.
Qed.
(** After a fault the process is marked. *)
Definition faulted c (f : trapframe) s : Prop :=
  exists i, runs s c = Some i /\ killed (ptable s !!! i) = true /\ Z.land (tf_cs f) 3 <> 0.
Lemma wlp_trap_fault c o f s :
  stays c o s -> wlp (trap_fault c f) (fun _ s' => stays c o s' /\ faulted c f s') s.
Proof.
  intros Hs. unfold trap_fault. apply wlp_bind, wlp_myproc. intros s1 F1.
  apply (frame_stays _ _ _ _ F1) in Hs. destruct (runs s1 c) as [i|] eqn:Er;
    [destruct (decide _) as [Hk|Hk]|]; apply wlp_bind; (eapply wlp_mono; [by apply wlp_env_stays|]); intros [] s2 H2; cbn beta; try done.
  apply wlp_setp. split; [by apply stays_same|]. destruct H2 as [HI Hr]. destruct Hs as [_ Hr1].
  exists i. split; [change (runs s2 c = Some i); congruence|]. split; [|done].
  destruct (ci_cpu _ _ (proj2 HI) c i) as (p & Hp & _); [congruence|].
  cbn [ptable]. erewrite list_lookup_total_correct; [|cbn; rewrite list_lookup_alter_eq, Hp; done]. done.
Qed.
Lemma wlp_trap_switch c o f s :
  stays c o s -> tf_trapno f <> T_SYSCALL ->
  wlp (trap_switch c f) (fun _ s' => stays c o s' /\ (~ expected (tf_trapno f) -> faulted c f s')) s.
Proof.
  intros Hs Hn. unfold trap_switch, expected.
  repeat case_decide;
    try (eapply wlp_serve; [first [by apply wlp_clock|by apply ideintr_keeps|by apply kbdintr_keeps|by apply uartintr_keeps|by apply wlp_env_stays]|];
         intros s' Hs'; split; [done|]; intros []; set_solver).
  - apply wlp_ret. split; [done|]. intros []. set_solver.
  - eapply wlp_mono; [by apply wlp_trap_fault|]. by intros _ s' [? ?].
Qed.
(** A trap that returns: the same process goes on, and not as a killed one. *)
Definition returns c (user : Prop) s0 (go : bool) s : Prop :=
  tinv s /\ (go = true -> runs s c = runs s0 c /\
    (user -> forall i, runs s c = Some i -> killed (ptable s !!! i) = false)).
Lemma wlp_exit_returns c u s0 s : tinv s -> wlp (exit c;; mret false) (returns c u s0) s.
Proof. intros HI. apply wlp_bind. eapply wlp_mono; [by apply wlp_exit|]. by intros ? s' H. Qed.
Lemma wlp_trap_syscall c f s : tinv s -> wlp (trap_syscall c f) (returns c True s) s.
Proof.
  intros HI. assert (Hs : stays c (runs s c) s) by done. revert Hs. generalize (runs s c) at 1 as o. intros o Hs.
  assert (Ho : runs s c = o) by apply Hs.
  unfold trap_syscall. apply wlp_bind, wlp_curproc. intros i s1 F1 Hi.
  apply (frame_stays _ _ _ _ F1) in Hs. apply wlp_bind, wlp_getp. cbn beta.
  destruct (killed _); [by apply wlp_exit_returns, Hs|].
  apply wlp_bind, wlp_curproc. intros i2 s2 F2 Hi2. apply (frame_stays _ _ _ _ F2) in Hs.
  apply wlp_bind, wlp_setp, wlp_bind. eapply wlp_mono; [by apply do_syscall_keeps, stays_same|].
  cbn beta. intros [] s3 [H3 Hr3]; [|by apply wlp_ret].
  assert (Hs3 : stays c o s3) by (split; auto). cbn [negb]. apply wlp_bind, wlp_curproc. intros i4 s4 F4 Hi4.
  apply (frame_stays _ _ _ _ F4) in Hs3. apply wlp_bind, wlp_getp. cbn beta.
  destruct (killed _) eqn:Ek; [by apply wlp_exit_returns, Hs3|].
  apply wlp_ret. split; [apply Hs3|]. intros _. split; [rewrite Ho; apply Hs3|]. intros _ j Hj. by replace j with i4 by congruence.
Qed.

End safety.

(** Drivers that only wake up, and a system call that returns. *)
#[export] Instance toy_devices : Devices nat := {
  ideintr := fun c => wakeup c (Some (AddrChan 7));
  kbdintr := fun c => wakeup c (Some (AddrChan 8));
  uartintr := fun c => wakeup c (Some (AddrChan 8));
  lapiceoi := mret tt;
  trap_message := fun _ => mret tt;
  do_syscall := fun _ => mret true;
}.
#[export] Instance toy_devices_laws : DevicesLaws nat.
Proof.
  split; simpl; try (by intros c o s; apply wlp_wakeup_stays). intros c o s [HI Hr]. by split.
Defined.
(** Init waits and its child runs; a page fault of the child in user space. *)
Definition boot6 : kst nat := exec (wait 0) boot5.
Definition boot7 : kst nat := exec (scheduler 0) boot6.
Definition page_fault : trapframe := tf_zero <| tf_trapno := 14 |> <| tf_cs := 27 |>.
Lemma boot7_reached : rtc sys_step boot boot7.
Proof.
  eapply rtc_r; [eapply rtc_r; [apply boot5_reached|]|].
  - eapply (boot_step 0 CWait boot5 boot6); [by vm_compute; lia|done|by vm_compute|]. vm_compute. reflexivity.
  - eapply (boot_step 0 CScheduler boot6 boot7); [by vm_compute; lia|by vm_compute|by vm_compute|]. vm_compute. reflexivity.
Qed.
