(* ===== verification/Ring.v ===== *)
(** Circular doubly linked lists, as the buffer cache threads its buffers
    through [prev] and [next] (bio.c).

    [nx] and [pv] are the pointer fields of all nodes; [ring nx pv h l] says
    that following [next] from the list head [h] visits [l] in order and comes
    back, and that [prev] is the inverse. *)
From S2P Require Import Prelude.

Section ring.
Implicit Types (nx pv : nat -> nat) (l : list nat) (h b x y : nat).

Fixpoint linked nx pv (l : list nat) : Prop :=
  match l with
  | x :: ((y :: _) as r) => nx x = y /\ pv y = x /\ linked nx pv r
  | _ => True
  end.
Definition ring nx pv h l : Prop := NoDup (h :: l) /\ linked nx pv (h :: l ++ [h]).

(** [next] of the last of [x :: l] in a ring with end [h] *)
Lemma linked_cons nx pv x y l :
  linked nx pv (x :: y :: l) <-> nx x = y /\ pv y = x /\ linked nx pv (y :: l).
Proof. done. Qed.
Lemma linked_app nx pv l1 x l2 :
  linked nx pv (l1 ++ x :: l2) <-> linked nx pv (l1 ++ [x]) /\ linked nx pv (x :: l2).
Proof.
  induction l1 as [|y l1 IH]; [simpl; tauto|].
  destruct l1 as [|z l1].
  - simpl. destruct l2; tauto.
  - change ((y :: z :: l1) ++ x :: l2) with (y :: z :: (l1 ++ x :: l2)).
    change ((y :: z :: l1) ++ [x]) with (y :: z :: (l1 ++ [x])).
    rewrite !linked_cons. change (z :: l1 ++ x :: l2) with ((z :: l1) ++ x :: l2).
    change (z :: l1 ++ [x]) with ((z :: l1) ++ [x]). rewrite IH. tauto.
Qed.
(** Pointers outside the list do not matter: [next] of the last element, and
    [prev] of the first. *)
Lemma linked_ext nx pv nx' pv' l :
  (forall z, z ∈ removelast l -> nx' z = nx z) -> (forall z, z ∈ tail l -> pv' z = pv z) ->
  linked nx pv l -> linked nx' pv' l.
Proof.
  induction l as [|x [|y l] IH]; intros Hn Hp; [done..|].
  rewrite !linked_cons. intros (H1 & H2 & H3). rewrite Hn, Hp by (simpl; set_solver).
  split; [done|]. split; [done|]. apply IH; [..|done].
  - intros z Hz. apply Hn. by right.
  - intros z Hz. apply Hp. by right.
Qed.

(** bio.c's four stores that put [b] behind the head. *)
Definition push_next nx h b : nat -> nat := <[h := b]> (<[b := nx h]> nx).
Definition push_prev nx pv h b : nat -> nat := <[nx h := b]> (<[b := h]> pv).
Lemma ring_push nx pv h b l :
  ring nx pv h l -> b <> h -> b ∉ l ->
  ring (push_next nx h b) (push_prev nx pv h b) h (b :: l).
Proof.
  intros [Hnd Hl] Hbh Hbl. apply NoDup_cons in Hnd as [Hh Hnd]. split.
  { repeat constructor; set_solver. }
  unfold push_next, push_prev.
  change (linked (<[h:=b]> (<[b:=nx h]> nx)) (<[nx h:=b]> (<[b:=h]> pv)) (h :: b :: (l ++ [h]))).
  rewrite linked_cons. rewrite fn_lookup_insert.
  assert (Hnb : nx h <> b) by (destruct l as [|z l]; simpl in Hl; set_solver).
  split; [done|]. rewrite fn_lookup_insert_ne, fn_lookup_insert by done. split; [done|].
  destruct l as [|z l]; simpl in Hl |- *.
  - destruct Hl as (-> & Hp & _). rewrite fn_lookup_insert_ne, fn_lookup_insert by done.
    by rewrite fn_lookup_insert.
  - destruct Hl as (Hn & Hp & Hl). rewrite Hn in *. subst z. apply NoDup_cons in Hnd as [Hz Hnd].
    rewrite (fn_lookup_insert_ne _ h), fn_lookup_insert by done.
    rewrite fn_lookup_insert. split; [done|]. split; [done|].
    refine (linked_ext nx pv _ _ (nx h :: l ++ [h]) _ _ Hl); intros w Hw.
    + change (nx h :: l ++ [h]) with ((nx h :: l) ++ [h]) in Hw. rewrite removelast_last in Hw.
      rewrite !fn_lookup_insert_ne; set_solver.
    + simpl in Hw. rewrite !fn_lookup_insert_ne; set_solver.
Qed.

(** The two stores that take [b] out. *)
Definition cut_next nx pv b : nat -> nat := <[pv b := nx b]> nx.
Definition cut_prev nx pv b : nat -> nat := <[nx b := pv b]> pv.
(** The neighbours of [b]. *)
Lemma ring_around nx pv h l1 b l2 :
  ring nx pv h (l1 ++ b :: l2) ->
  exists x y r1 r2, h :: l1 = r1 ++ [x] /\ l2 ++ [h] = y :: r2 /\ pv b = x /\ nx b = y /\
    linked nx pv (r1 ++ [x]) /\ linked nx pv (y :: r2).
Proof.
  intros [_ Hl]. destruct (exists_last (l := h :: l1)) as (r1 & x & E1); [done|].
  destruct (l2 ++ [h]) as [|y r2] eqn:E2; [by destruct l2|].
  exists x, y, r1, r2. 
  replace (h :: (l1 ++ b :: l2) ++ [h]) with (r1 ++ x :: b :: y :: r2) in Hl.
  - apply linked_app in Hl as [Hl1 Hl]. simpl in Hl. tauto.
  - rewrite <- app_assoc. simpl. rewrite E2. change (h :: l1 ++ b :: y :: r2) with ((h :: l1) ++ b :: y :: r2).
    rewrite E1, <- app_assoc. done.
Qed.
Lemma ring_cut nx pv h l1 b l2 :
  ring nx pv h (l1 ++ b :: l2) ->
  ring (cut_next nx pv b) (cut_prev nx pv b) h (l1 ++ l2).
Proof.
  intros Hr. destruct (ring_around _ _ _ _ _ _ Hr) as (x & y & r1 & r2 & E1 & E2 & Hx & Hy & L1 & L2).
  destruct Hr as [Hnd _]. rewrite app_comm_cons in Hnd. apply NoDup_app in Hnd as (N1 & Nd & N3).
  apply NoDup_cons in N3 as [_ N3].
  assert (Hh : h ∉ l1) by (by apply NoDup_cons in N1 as [? _]).
  assert (Nd' : forall z, z ∈ h :: l1 -> z ∉ l2) by (intros z Hz Hz2; eapply Nd; [done|by right]).
  clear Nd. rename Nd' into Nd. split.
  { rewrite app_comm_cons. by apply NoDup_app. }
  assert (N2 : NoDup (y :: r2)).
  { rewrite <- E2. apply NoDup_app. split; [done|]. split; [|repeat constructor; set_solver].
    intros z Hz ->%list_elem_of_singleton. eapply Nd; [left|done]. }
  assert (X : x ∈ h :: l1) by (rewrite E1; set_solver).
  assert (Y : y ∈ l2 ++ [h]) by (rewrite E2; set_solver). rewrite E1 in N1.
  unfold cut_next, cut_prev. rewrite Hx, Hy.
  replace (h :: (l1 ++ l2) ++ [h]) with (r1 ++ x :: y :: r2)
    by (rewrite <- app_assoc, E2; change (h :: l1 ++ y :: r2) with ((h :: l1) ++ y :: r2);
        by rewrite E1, <- app_assoc).
  rewrite linked_app. rewrite linked_cons, !fn_lookup_insert.
  split; [|split; [done|split; [done|]]].
  - eapply linked_ext; [| |exact L1].
    + intros w Hw. rewrite removelast_last in Hw. rewrite fn_lookup_insert_ne; [done|].
      intros ->. apply NoDup_app in N1 as (_ & N1 & _). eapply N1; [done|set_solver].
    + rewrite <- E1. simpl. intros w Hw. rewrite fn_lookup_insert_ne; [done|].
      intros ->. apply elem_of_app in Y as [Y|Y]; [eapply Nd; [|done]; set_solver|set_solver].
  - eapply linked_ext; [| |exact L2].
    + rewrite <- E2, removelast_last. intros w Hw. rewrite fn_lookup_insert_ne; [done|].
      intros ->. by eapply Nd.
    + simpl. intros w Hw. rewrite fn_lookup_insert_ne; [done|].
      intros ->. apply NoDup_cons in N2 as [N2 _]. done.
Qed.

Lemma linked_rev nx pv l : linked nx pv l -> linked pv nx (rev l).
Proof.
  induction l as [|x [|y l] IH]; [done..|]. rewrite linked_cons. intros (H1 & H2 & H3).
  specialize (IH H3). change (rev (x :: y :: l)) with ((rev l ++ [y]) ++ [x]).
  rewrite <- app_assoc. simpl. rewrite linked_app. split; [exact IH|]. by rewrite linked_cons.
Qed.
Lemma ring_rev nx pv h l : ring nx pv h l -> ring pv nx h (rev l).
Proof.
  intros [Hnd Hl]. split.
  - by rewrite <- (Permutation_rev l).
  - apply linked_rev in Hl. simpl in Hl. by rewrite rev_app_distr in Hl.
Qed.

(** A [for] loop over the ring that stops at the first node with [P]. *)
Fixpoint walk (step : nat -> nat) (P : nat -> bool) (h : nat) (fuel : nat) (b : nat) : option nat :=
  match fuel with
  | O => None
  | S fuel => if (b =? h)%nat then None else if P b then Some b else walk step P h fuel (step b)
  end.
Lemma walk_linked nx pv P h l : forall x fuel,
  h ∉ l -> linked nx pv (x :: l ++ [h]) -> (length l < fuel)%nat ->
  walk nx P h fuel (nx x) = find P l.
Proof.
  induction l as [|y l IH]; intros x [|fuel] Hh Hl Hf; simpl in Hf; try lia; simpl in Hl.
  - destruct Hl as (-> & _). simpl. by rewrite Nat.eqb_refl.
  - destruct Hl as (-> & _ & Hl). simpl. assert (y <> h) by set_solver.
    rewrite (proj2 (Nat.eqb_neq y h)) by done. destruct (P y); [done|].
    apply IH; [set_solver|exact Hl|lia].
Qed.
Lemma walk_ring nx pv P h l fuel :
  ring nx pv h l -> (length l < fuel)%nat -> walk nx P h fuel (nx h) = find P l.
Proof. intros [Hnd Hl] Hf. apply NoDup_cons in Hnd as [Hh _]. by eapply walk_linked. Qed.
End ring.
