(* ===== verification/Blocks.v ===== *)
(** What the block layer promises to log.c and fs.c.

    A [store] has the current contents of every block of the root device, what
    the disk holds, and the writes the disk was given, oldest first.  The
    clients take a buffer, read or change its data, and give it back; with the
    buffer's sleep lock held in between, each such use is one step: a read, a
    write to the disk ([bwrite] before [brelse]) or a change that stays pinned
    in the cache ([B_DIRTY] before [brelse]).  Bio.v proves that the buffer
    cache implements these steps. *)
From S2P Require Import Prelude.

Definition block_data : Type := list Z.
Record store := mkstore {
  cur : Z -> block_data; dsk : Z -> block_data; wlog : list (Z * block_data) }.
#[export] Instance eta_store : Eta store := fun s => mkstore (cur s) (dsk s) (wlog s).

(** bread(n) ... brelse: the data of block [n]. *)
Definition read_block (n : Z) : M store block_data := gets (fun s => cur s n).
(** bread(n), data = d, bwrite, brelse *)
Definition write_block (n : Z) (d : block_data) : M store unit :=
  modify (fun s => s <| cur ::= insert n d |> <| dsk ::= insert n d |>
                     <| wlog ::= fun w => w ++ [(n, d)] |>).
(** bread(n), data = d, flags |= B_DIRTY, brelse *)
Definition pin_block (n : Z) (d : block_data) : M store unit :=
  modify (fun s => s <| cur ::= insert n d |>).

(** The disk after the writes [w], from the contents [d]. *)
Definition apply_writes (w : list (Z * block_data)) (d : Z -> block_data) : Z -> block_data :=
  foldl (fun d p => <[p.1 := p.2]> d) d w.
Lemma apply_writes_app w1 w2 d :
  apply_writes (w1 ++ w2) d = apply_writes w2 (apply_writes w1 d).
Proof. unfold apply_writes. by rewrite foldl_app. Qed.
Lemma apply_writes_ne w d n : n ∉ w.*1 -> apply_writes w d n = d n.
Proof.
  revert d. induction w as [|[m v] w IH]; intros d Hn; simpl; [done|]. rewrite fmap_cons in Hn.
  unfold apply_writes in *. simpl. rewrite IH by set_solver.
  rewrite fn_lookup_insert_ne; [done|]. set_solver.
Qed.
Lemma apply_writes_in w d n v : NoDup (w.*1) -> (n, v) ∈ w -> apply_writes w d n = v.
Proof.
  revert d. induction w as [|[m u] w IH]; intros d Hnd Hin; [set_solver|]. rewrite fmap_cons in Hnd.
  apply NoDup_cons in Hnd as [Hm Hnd]. simpl in Hm. apply elem_of_cons in Hin as [Heq|Hin].
  - simplify_eq. change (apply_writes w (<[m := u]> d) m = u). rewrite apply_writes_ne by done.
    apply fn_lookup_insert.
  - change (apply_writes w (<[m := u]> d) n = v). auto.
Qed.
(** The store after writing the blocks [w] in order. *)
Definition push_writes (w : list (Z * block_data)) (s : store) : store :=
  mkstore (apply_writes w (cur s)) (apply_writes w (dsk s)) (wlog s ++ w).
Lemma push_writes_app w1 w2 s : push_writes (w1 ++ w2) s = push_writes w2 (push_writes w1 s).
Proof. unfold push_writes. simpl. by rewrite !apply_writes_app, app_assoc. Qed.
Lemma push_writes_nil s : push_writes [] s = s.
Proof. destruct s. unfold push_writes. simpl. by rewrite app_nil_r. Qed.
Lemma write_block_eq n d s : write_block n d s = Ok (push_writes [(n, d)] s, tt).
Proof. done. Qed.
