(* ===== verification/Sleeplock.v ===== *)
(** Sleep locks (sleeplock.c).

    The spin lock inside a sleep lock makes each call atomic, so a call is a
    function of the lock; the process that runs is [me], its pid.  A process
    that finds the lock taken sleeps until its holder releases it. *)
From S2P Require Import Prelude.

(** struct sleeplock: the lock and the pid of its holder. *)
Record sleeplock := mksl { slocked : bool; slpid : Z }.

Definition initsleeplock : sleeplock := mksl false 0.
(** [None]: the caller sleeps. *)
Definition acquiresleep (me : Z) (l : sleeplock) : option sleeplock :=
  if slocked l then None else Some (mksl true me).
(** The lock as it is released, with its sleepers woken. *)
Definition releasesleep : sleeplock := mksl false 0.
Definition holdingsleep (me : Z) (l : sleeplock) : bool :=
  slocked l && bool_decide (slpid l = me).

(** A sleep lock excludes: whoever acquires it holds it and nobody else
    does, another acquire sleeps until the release, and after the release the
    lock is free. *)
Theorem sleeplock_excludes me you l l' :
  acquiresleep me l = Some l' ->
  slocked l = false /\ holdingsleep me l' = true /\ (holdingsleep you l' = true -> you = me) /\
  acquiresleep you l' = None /\ acquiresleep you releasesleep = Some (mksl true you).
Proof.
  unfold acquiresleep. destruct (slocked l); [done|]. intros [= <-]. unfold holdingsleep. simpl.
  split; [done|]. split; [by apply bool_decide_true|]. split; [|done].
  intros H%bool_decide_eq_true. congruence.
Qed.
Lemma sleeplock_excludes_witness :
  slocked initsleeplock = false /\ acquiresleep 4 (mksl true 3) = None.
Proof.
  destruct (sleeplock_excludes 3 4 initsleeplock (mksl true 3) eq_refl) as (H1 & _ & _ & H2 & _).
  split; [exact H1|exact H2].
Defined.
