(* ===== verification/Bio.v ===== *)
(** The buffer cache (bio.c) and the contract of the disk driver, iderw as one
    step, which Ide.v shows the driver to implement.

    Buffers are the entries of [bufs]; the last one is [bcache.head], which
    like the others carries the [prev] and [next] pointers of the recency
    list.  A buffer is named by its index.  [bcache.lock] guards each call's
    accesses to the list, so the calls are atomic here; the sleep lock of a
    buffer is held between bread and brelse and is modelled.  [disk] is what
    the driver would read, [writes] the blocks written so far, oldest first. *)
From S2P Require Import Prelude Ring Blocks Sleeplock.

Definition NBUF : nat := 30.
Definition HEAD : nat := NBUF.
Definition FSSIZE : Z := 1000.
Definition ROOTDEV : Z := 1.
Definition BSIZE : nat := 512.

(** struct buf; [bvalid] and [bdirty] are the bits B_VALID and B_DIRTY of
    [flags]. *)
Record buf := mkbuf {
  bvalid : bool; bdirty : bool; bdev : Z; blockno : Z; block : sleeplock;
  refcnt : Z; bprev : nat; bnext : nat; bdata : list Z }.
#[export] Instance eta_buf : Eta buf := fun b =>
  mkbuf (bvalid b) (bdirty b) (bdev b) (blockno b) (block b) (refcnt b) (bprev b) (bnext b) (bdata b).
Definition buf_zero : buf :=
  mkbuf false false 0 0 (mksl false 0) 0 0 0 (replicate BSIZE 0).
#[export] Instance buf_inhabited : Inhabited buf := populate buf_zero.

Record bio := mkbio {
  bufs : list buf; disk : Z * Z -> list Z; havedisk1 : bool; writes : list (Z * Z * list Z) }.
#[export] Instance eta_bio : Eta bio := fun s => mkbio (bufs s) (disk s) (havedisk1 s) (writes s).

Definition getb (b : nat) : M bio buf := gets (fun s => bufs s !!! b).
Definition setb (b : nat) (f : buf -> buf) : M bio unit := modify (fun s => s <| bufs ::= alter f b |>).

(** One turn of binit's loop: thread [b] behind the head. *)
Definition thread (b : nat) : M bio unit :=
  h ← getb HEAD;
  setb b (fun q => q <| bnext := bnext h |>);;
  setb b (fun q => q <| bprev := HEAD |>);;
  setb b (fun q => q <| block := initsleeplock |>);;
  h ← getb HEAD;
  setb (bnext h) (fun q => q <| bprev := b |>);;
  setb HEAD (fun q => q <| bnext := b |>).
Definition binit : M bio unit :=
  setb HEAD (fun q => q <| bprev := HEAD |>);;
  setb HEAD (fun q => q <| bnext := HEAD |>);;
  mfor (seq 0 NBUF) thread.

Section calls.
(** The pid of the process that runs. *)
Context (me : Z).

(** acquiresleep, releasesleep and holdingsleep on the lock of buffer [b] *)
Definition lock_buf (b : nat) : M bio unit :=
  q ← getb b;
  match acquiresleep me (block q) with
  | None => sleeps "buffer"
  | Some l => setb b (fun q => q <| block := l |>)
  end.
Definition unlock_buf (b : nat) : M bio unit := setb b (fun q => q <| block := releasesleep |>).
Definition holds_lock (b : nat) : M bio bool := q ← getb b; mret (holdingsleep me (block q)).

(** What iderw does by the time it returns: the driver queues the request,
    the disk serves it and the interrupt handler updates the flags. *)
Definition iderw (b : nat) : M bio unit :=
  h ← holds_lock b;
  if negb h then panic "iderw: buf not locked" else
  q ← getb b;
  if bvalid q && negb (bdirty q) then panic "iderw: nothing to do" else
  have ← gets havedisk1;
  if bool_decide (bdev q <> 0) && negb have then panic "iderw: ide disk 1 not present" else
  if decide (blockno q >= FSSIZE) then panic "incorrect blockno" else
  let key := (Z.land (bdev q) 1, blockno q) in
  (if bdirty q
   then modify (fun s => s <| disk ::= insert key (bdata q) |> <| writes ::= fun w => w ++ [(key, bdata q)] |>)
   else d ← gets disk; setb b (fun q => q <| bdata := d key |>));;
  setb b (fun q => q <| bvalid := true |> <| bdirty := false |>).

Definition bget (dev bno : Z) : M bio nat :=
  t ← gets bufs;
  match walk (fun i => bnext (t !!! i))
             (fun i => bool_decide (bdev (t !!! i) = dev /\ blockno (t !!! i) = bno))
             HEAD (S NBUF) (bnext (t !!! HEAD)) with
  | Some b =>
      setb b (fun q => q <| refcnt := u32 (refcnt q + 1) |>);;
      lock_buf b;;
      mret b
  | None =>
      match walk (fun i => bprev (t !!! i))
                 (fun i => bool_decide (refcnt (t !!! i) = 0 /\ bdirty (t !!! i) = false))
                 HEAD (S NBUF) (bprev (t !!! HEAD)) with
      | Some b =>
          setb b (fun q => q <| bdev := dev |> <| blockno := bno |>
                             <| bvalid := false |> <| bdirty := false |> <| refcnt := 1 |>);;
          lock_buf b;;
          mret b
      | None => panic "bget: no buffers"
      end
  end.

Definition bread (dev bno : Z) : M bio nat :=
  b ← bget dev bno;
  q ← getb b;
  (if bvalid q then mret tt else iderw b);;
  mret b.

Definition bwrite (b : nat) : M bio unit :=
  h ← holds_lock b;
  if negb h then panic "bwrite" else
  setb b (fun q => q <| bdirty := true |>);;
  iderw b.

(** The pointer stores at the end of brelse. *)
Definition to_front (b : nat) : M bio unit :=
  q ← getb b;
  setb (bnext q) (fun r => r <| bprev := bprev q |>);;
  q ← getb b;
  setb (bprev q) (fun r => r <| bnext := bnext q |>);;
  h ← getb HEAD;
  setb b (fun r => r <| bnext := bnext h |>);;
  setb b (fun r => r <| bprev := HEAD |>);;
  h ← getb HEAD;
  setb (bnext h) (fun r => r <| bprev := b |>);;
  setb HEAD (fun r => r <| bnext := b |>).

Definition brelse (b : nat) : M bio unit :=
  h ← holds_lock b;
  if negb h then panic "brelse" else
  unlock_buf b;;
  setb b (fun q => q <| refcnt := u32 (refcnt q - 1) |>);;
  q ← getb b;
  if decide (refcnt q = 0) then to_front b else mret tt.
End calls.

(** ** The recency list *)

Definition nxt (t : list buf) (i : nat) : nat := bnext (t !!! i).
Definition prv (t : list buf) (i : nat) : nat := bprev (t !!! i).
(** The buffers in order of recency, most recent first. *)
Definition recency (t : list buf) (l : list nat) : Prop :=
  ring (nxt t) (prv t) HEAD l /\ l ≡ₚ seq 0 NBUF.

Section pointers.
Implicit Types (t : list buf) (i j b : nat).
Lemma nxt_set t i v j :
  (i < length t)%nat -> nxt (alter (fun q => q <| bnext := v |>) i t) j = <[i := v]> (nxt t) j.
Proof.
  intros Hi. unfold nxt. rewrite list_lookup_total_alter.
  destruct (decide (i = j)) as [<-|Hj].
  - rewrite decide_True by done. by rewrite fn_lookup_insert.
  - rewrite decide_False by tauto. by rewrite fn_lookup_insert_ne.
Qed.
Lemma prv_set t i v j :
  (i < length t)%nat -> prv (alter (fun q => q <| bprev := v |>) i t) j = <[i := v]> (prv t) j.
Proof.
  intros Hi. unfold prv. rewrite list_lookup_total_alter.
  destruct (decide (i = j)) as [<-|Hj].
  - rewrite decide_True by done. by rewrite fn_lookup_insert.
  - rewrite decide_False by tauto. by rewrite fn_lookup_insert_ne.
Qed.
Lemma nxt_keep f t i j : (forall q, bnext (f q) = bnext q) -> nxt (alter f i t) j = nxt t j.
Proof.
  intros Hf. unfold nxt. rewrite list_lookup_total_alter. case_decide as H; [|done].
  destruct H as [<- _]. apply Hf.
Qed.
Lemma prv_keep f t i j : (forall q, bprev (f q) = bprev q) -> prv (alter f i t) j = prv t j.
Proof.
  intros Hf. unfold prv. rewrite list_lookup_total_alter. case_decide as H; [|done].
  destruct H as [<- _]. apply Hf.
Qed.

(** The table after thread's and to_front's stores. *)
Definition push t b : list buf :=
  let t3 := alter (fun r => r <| bnext := nxt t HEAD |>) b t in
  let t4 := alter (fun r => r <| bprev := HEAD |>) b t3 in
  let t5 := alter (fun r => r <| bprev := b |>) (nxt t4 HEAD) t4 in
  alter (fun r => r <| bnext := b |>) HEAD t5.
Definition cut t b : list buf :=
  let t1 := alter (fun r => r <| bprev := prv t b |>) (nxt t b) t in
  alter (fun r => r <| bnext := nxt t1 b |>) (prv t1 b) t1.
Lemma to_front_eq b s : to_front b s = Ok (s <| bufs ::= fun t => push (cut t b) b |>, tt).
Proof. done. Qed.

(** A table with the same buffers, the pointers aside. *)
Definition same_bufs t t' : Prop :=
  length t' = length t /\
  forall i q', t' !! i = Some q' ->
    exists q, t !! i = Some q /\ q' = q <| bprev := bprev q' |> <| bnext := bnext q' |>.
Lemma same_bufs_refl t : same_bufs t t.
Proof. split; [done|]. intros i q' Hq. exists q'. split; [done|]. by destruct q'. Qed.
Lemma same_bufs_trans t1 t2 t3 : same_bufs t1 t2 -> same_bufs t2 t3 -> same_bufs t1 t3.
Proof.
  intros [L1 H1] [L2 H2]. split; [congruence|]. intros i q3 Hq3.
  destruct (H2 _ _ Hq3) as (q2 & Hq2 & E2), (H1 _ _ Hq2) as (q1 & Hq1 & E1).
  exists q1. split; [done|]. rewrite E2, E1. done.
Qed.
Lemma same_bufs_alter f i t :
  (forall q, f q = q <| bprev := bprev (f q) |> <| bnext := bnext (f q) |>) ->
  same_bufs t (alter f i t).
Proof.
  intros Hf. split; [by rewrite length_alter|].
  intros j q' Hq'. destruct (decide (i = j)) as [<-|Hj].
  - rewrite list_lookup_alter_eq in Hq'. destruct (t !! i) as [q|]; simpl in Hq'; simplify_eq. eauto.
  - rewrite list_lookup_alter_ne in Hq' by done. exists q'. split; [done|]. by destruct q'.
Qed.
Lemma push_same t b : same_bufs t (push t b).
Proof. unfold push. do 4 (eapply same_bufs_trans; [|by apply same_bufs_alter]). apply same_bufs_refl. Qed.
Lemma cut_same t b : same_bufs t (cut t b).
Proof. unfold cut. do 2 (eapply same_bufs_trans; [|by apply same_bufs_alter]). apply same_bufs_refl. Qed.

Lemma ring_ext nx pv nx' pv' h l :
  (forall i, nx' i = nx i) -> (forall i, pv' i = pv i) -> ring nx pv h l -> ring nx' pv' h l.
Proof. intros H1 H2 [Hnd Hl]. split; [done|]. eapply linked_ext; [..|done]; auto. Qed.

(** The last two stores, once [b] points behind the head. *)
Definition hook t b : list buf :=
  alter (fun r => r <| bnext := b |>) HEAD (alter (fun r => r <| bprev := b |>) (nxt t HEAD) t).
Lemma hook_ring t t4 b l :
  ring (nxt t) (prv t) HEAD l -> b <> HEAD -> b ∉ l -> (HEAD < length t)%nat ->
  (nxt t HEAD < length t)%nat -> length t4 = length t ->
  (forall i, nxt t4 i = <[b := nxt t HEAD]> (nxt t) i) ->
  (forall i, prv t4 i = <[b := HEAD]> (prv t) i) ->
  ring (nxt (hook t4 b)) (prv (hook t4 b)) HEAD (b :: l).
Proof.
  intros Hr Hb Hl HH Hn Hlen En Ep.
  assert (E4 : nxt t4 HEAD = nxt t HEAD) by (rewrite En; by rewrite fn_lookup_insert_ne).
  eapply ring_ext; [| |apply (ring_push (nxt t) (prv t) HEAD b l); done]; intros i; unfold hook; rewrite E4.
  - unfold push_next. rewrite nxt_set by (rewrite !length_alter; lia). rewrite !(fn_insert_cases _ HEAD).
    case_decide; [done|]. by rewrite nxt_keep.
  - unfold push_prev. rewrite prv_keep by done. rewrite prv_set by lia.
    rewrite !(fn_insert_cases _ (nxt t HEAD)). by case_decide.
Qed.
Lemma push_ring t b l :
  ring (nxt t) (prv t) HEAD l -> b <> HEAD -> b ∉ l -> (HEAD < length t)%nat -> (b < length t)%nat ->
  (nxt t HEAD < length t)%nat ->
  ring (nxt (push t b)) (prv (push t b)) HEAD (b :: l).
Proof.
  intros Hr Hb Hl HH Hbt Hn. apply (hook_ring t); [done..| | |].
  - by rewrite !length_alter.
  - intros i. rewrite nxt_keep by done. by rewrite nxt_set.
  - intros i. rewrite prv_set by (by rewrite length_alter). rewrite !fn_insert_cases.
    case_decide; [done|]. by apply prv_keep.
Qed.
Lemma cut_ring t b l1 l2 :
  ring (nxt t) (prv t) HEAD (l1 ++ b :: l2) -> (forall i, i ∈ HEAD :: l1 ++ b :: l2 -> (i < length t)%nat) ->
  ring (nxt (cut t b)) (prv (cut t b)) HEAD (l1 ++ l2).
Proof.
  intros Hr Hlt.
  destruct (ring_around _ _ _ _ _ _ Hr) as (x & y & r1 & r2 & E1 & E2 & Hx & Hy & _ & _).
  assert (Xl : x ∈ HEAD :: l1) by (rewrite E1; set_solver).
  assert (Yl : y ∈ l2 ++ [HEAD]) by (rewrite E2; set_solver).
  assert (X : (x < length t)%nat) by (apply Hlt; set_solver).
  assert (Y : (y < length t)%nat) by (apply Hlt; set_solver).
  assert (Yb : y <> b).
  { intros ->. destruct Hr as [Hnd _]. apply NoDup_cons in Hnd as [Hh Hnd].
    apply NoDup_app in Hnd as (_ & _ & Hnd). apply NoDup_cons in Hnd as [Hb _]. set_solver. }
  eapply ring_ext; [| |apply (ring_cut _ _ _ _ _ _ Hr)]; intros i; unfold cut, cut_next, cut_prev;
    rewrite Hx, Hy; rewrite prv_set, fn_lookup_insert_ne, Hx by done.
  - rewrite nxt_set by (by rewrite length_alter). rewrite !fn_insert_cases. case_decide.
    + by rewrite nxt_keep.
    + by apply nxt_keep.
  - rewrite prv_keep by done. by rewrite prv_set.
Qed.
Lemma recency_lt t l i : recency t l -> i ∈ l -> (i < NBUF)%nat.
Proof. intros [_ Hp] Hi. rewrite Hp in Hi. by apply elem_of_seq in Hi as [_ Hi]. Qed.
(** brelse's stores make [b] the most recent buffer. *)
Lemma front_recency t b l1 l2 :
  recency t (l1 ++ b :: l2) -> length t = S NBUF ->
  recency (push (cut t b) b) (b :: l1 ++ l2).
Proof.
  intros Hrc Hlen. pose proof Hrc as [Hr Hp].
  assert (Hlt : forall i, i ∈ HEAD :: l1 ++ b :: l2 -> (i < length t)%nat).
  { rewrite Hlen. intros i [->|Hi]%elem_of_cons; [unfold HEAD; lia|].
    pose proof (recency_lt _ _ _ Hrc Hi). lia. }
  pose proof (cut_ring _ _ _ _ Hr Hlt) as Hc.
  assert (Hlc : length (cut t b) = length t) by (unfold cut; by rewrite !length_alter).
  pose proof Hr as [Hnd _]. apply NoDup_cons in Hnd as [Hh Hnd].
  assert (Hnd' : NoDup (b :: l1 ++ l2)) by (by rewrite Permutation_middle).
  split; [|by rewrite <- Hp, Permutation_middle].
  apply push_ring; [done|..]; rewrite ?Hlc.
  - set_solver.
  - by apply NoDup_cons in Hnd' as [? _].
  - apply Hlt. set_solver.
  - apply Hlt. set_solver.
  - apply Hlt. destruct Hc as [_ Hl]. destruct (l1 ++ l2) as [|z l] eqn:El; simpl in Hl.
    + destruct Hl as (-> & _). set_solver.
    + destruct Hl as (-> & _). assert (z ∈ l1 ++ l2) by (rewrite El; set_solver). set_solver.
Qed.
End pointers.

(** binit threads the buffers in one ring, the last one first. *)
Definition threaded (t : list buf) (b : nat) : list buf :=
  hook (alter (fun q => q <| block := mksl false 0 |>) b
    (alter (fun q => q <| bprev := HEAD |>) b (alter (fun q => q <| bnext := nxt t HEAD |>) b t))) b.
Lemma thread_eq b s : thread b s = Ok (s <| bufs ::= fun t => threaded t b |>, tt).
Proof. done. Qed.
Lemma thread_ring b s l :
  ring (nxt (bufs s)) (prv (bufs s)) HEAD l -> length (bufs s) = S NBUF -> (b < NBUF)%nat -> b ∉ l ->
  (forall i, i ∈ l -> (i < NBUF)%nat) ->
  wp (thread b) (fun _ s' => ring (nxt (bufs s')) (prv (bufs s')) HEAD (b :: l) /\
    length (bufs s') = S NBUF) s.
Proof.
  intros Hr Hlen Hb Hl Hlt. unfold wp. rewrite thread_eq.
  change (ring (nxt (threaded (bufs s) b)) (prv (threaded (bufs s) b)) HEAD (b :: l) /\
    length (threaded (bufs s) b) = S NBUF).
  split; [|unfold threaded, hook; by rewrite !length_alter].
  assert (Hn : (nxt (bufs s) HEAD < length (bufs s))%nat).
  { rewrite Hlen. destruct Hr as [_ Hr]. destruct l as [|z l]; simpl in Hr; destruct Hr as (-> & _).
    - unfold HEAD. lia.
    - assert (z < NBUF)%nat by (apply Hlt; set_solver). lia. }
  assert (Hb' : b <> HEAD) by (unfold HEAD; lia).
  apply (hook_ring (bufs s)); rewrite ?Hlen; try done.
  - unfold HEAD. lia.
  - by rewrite <- Hlen.
  - by rewrite !length_alter.
  - intros i. rewrite !nxt_keep by done. rewrite nxt_set by lia. done.
  - intros i. rewrite prv_keep by done. rewrite prv_set by (rewrite length_alter; lia).
    rewrite !fn_insert_cases. case_decide; [done|]. by apply prv_keep.
Qed.
Lemma binit_recency s :
  length (bufs s) = S NBUF -> wp binit (fun _ s' => recency (bufs s') (rev (seq 0 NBUF))) s.
Proof.
  intros Hlen. unfold binit. do 2 (apply wp_bind; unfold setb; apply wp_modify).
  eapply (wp_mfor _ _ (fun todo s => exists k, todo = seq k (NBUF - k) /\ (k <= NBUF)%nat /\
    ring (nxt (bufs s)) (prv (bufs s)) HEAD (rev (seq 0 k)) /\ length (bufs s) = S NBUF)).
  - exists 0%nat. split; [done|]. split; [lia|]. split; [|simpl; by rewrite !length_alter].
    split; [repeat constructor; set_solver|].
    change (bufs _) with (alter (fun q => q <| bnext := HEAD |>) HEAD
                            (alter (fun q => q <| bprev := HEAD |>) HEAD (bufs s))).
    cbn [linked rev seq app]. rewrite nxt_set, prv_keep, prv_set by (rewrite ?length_alter; unfold HEAD; lia || done).
    by rewrite !fn_lookup_insert.
  - intros b l' s' (k & Hk & Hle & Hr & Hl).
    destruct (decide (k < NBUF)%nat); [|replace (NBUF - k)%nat with 0%nat in Hk by lia; done].
    replace (NBUF - k)%nat with (S (NBUF - S k)) in Hk by lia. injection Hk as -> ->.
    eapply wp_mono; [apply (thread_ring _ _ (rev (seq 0 k))); [done..| |]|].
    + rewrite <- (Permutation_rev (seq 0 k)). intros ?%elem_of_seq. lia.
    + intros i. rewrite <- (Permutation_rev (seq 0 k)). intros ?%elem_of_seq. lia.
    + intros _ s2 [Hr2 Hl2]. exists (S k). split; [done|]. split; [lia|]. split; [|done].
      rewrite seq_S, rev_app_distr. done.
  - intros s' (k & Hk & Hle & Hr & Hl).
    assert (k = NBUF) as ->.
    { destruct (decide (k = NBUF)); [done|]. replace (NBUF - k)%nat with (S (NBUF - S k)) in Hk by lia. done. }
    split; [done|]. by rewrite <- Permutation_rev.
Qed.

(** ** The contents

    [names q n]: the buffer is for block [n] of the root device. *)
Definition names (q : buf) (n : Z) : Prop := bdev q = ROOTDEV /\ blockno q = n.
#[export] Instance names_dec q n : Decision (names q n).
Proof. unfold names. apply _. Defined.

Record buf_ok (d : Z * Z -> list Z) (q : buf) : Prop := {
  bo_ref : 0 <= refcnt q < 2 ^ 32;
  bo_lock : slocked (block q) = true -> 0 < refcnt q;
  bo_dirty : bdirty q = true -> bvalid q = true;
  bo_valid : bvalid q = true -> bdev q = ROOTDEV /\ blockno q < FSSIZE;
  bo_clean : bvalid q = true -> bdirty q = false -> slocked (block q) = false ->
    bdata q = d (ROOTDEV, blockno q);
}.
(** One ring of all buffers, each block in at most one buffer, and every
    buffer that is neither dirty nor in use equal to the disk. *)
Record binv (s : bio) : Prop := {
  bi_len : length (bufs s) = S NBUF;
  bi_rec : exists l, recency (bufs s) l;
  bi_uniq : forall i j p q n, (i < NBUF)%nat -> (j < NBUF)%nat ->
    bufs s !! i = Some p -> bufs s !! j = Some q -> names p n -> names q n -> i = j;
  bi_buf : forall i q, (i < NBUF)%nat -> bufs s !! i = Some q -> buf_ok (disk s) q;
}.

(** What the block layer shows to its clients: the cached data, else the
    disk's. *)
Definition cached (s : bio) (n : Z) : option nat :=
  find (fun i => bool_decide (names (bufs s !!! i) n) && bvalid (bufs s !!! i)) (seq 0 NBUF).
Definition view (s : bio) (n : Z) : list Z :=
  match cached s n with Some i => bdata (bufs s !!! i) | None => disk s (ROOTDEV, n) end.

Lemma in_seq_NBUF i : In i (seq 0 NBUF) <-> (i < NBUF)%nat.
Proof. rewrite in_seq. lia. Qed.
Lemma view_cached s i q n :
  binv s -> (i < NBUF)%nat -> bufs s !! i = Some q -> names q n -> bvalid q = true ->
  view s n = bdata q.
Proof.
  intros HI Hi Hq Hn Hv. unfold view, cached.
  destruct (find _ _) as [j|] eqn:Hf.
  - apply find_some in Hf as [Hj%in_seq_NBUF Hb].
    destruct (lookup_lt_is_Some_2 (bufs s) j) as [p Hp]; [rewrite (bi_len _ HI); lia|].
    rewrite (list_lookup_total_correct _ _ _ Hp) in *. apply andb_true_iff in Hb as [Hb _].
    apply bool_decide_eq_true in Hb.
    assert (i = j) as <- by (by eapply (bi_uniq _ HI)). congruence.
  - eapply find_none in Hf; [|by apply in_seq_NBUF].
    rewrite (list_lookup_total_correct _ _ _ Hq), Hv, bool_decide_true in Hf; done.
Qed.
Lemma view_uncached s n :
  length (bufs s) = S NBUF ->
  (forall i q, (i < NBUF)%nat -> bufs s !! i = Some q -> names q n -> bvalid q = false) ->
  view s n = disk s (ROOTDEV, n).
Proof.
  intros Hl Hno. unfold view, cached. destruct (find _ _) as [j|] eqn:Hf; [|done].
  apply find_some in Hf as [Hj%in_seq_NBUF Hb]. apply andb_true_iff in Hb as [Hb Hv].
  apply bool_decide_eq_true in Hb.
  destruct (lookup_lt_is_Some_2 (bufs s) j) as [p Hp]; [lia|].
  rewrite (list_lookup_total_correct _ _ _ Hp) in *. rewrite (Hno j p) in Hv; done.
Qed.
(** Either way. *)
Lemma view_cases s n :
  binv s ->
  (exists i q, (i < NBUF)%nat /\ bufs s !! i = Some q /\ names q n /\ bvalid q = true) \/
  (forall i q, (i < NBUF)%nat -> bufs s !! i = Some q -> names q n -> bvalid q = false).
Proof.
  intros HI. destruct (cached s n) as [i|] eqn:Hc; unfold cached in Hc.
  - left. apply find_some in Hc as [Hi%in_seq_NBUF Hb].
    destruct (lookup_lt_is_Some_2 (bufs s) i) as [p Hp]; [rewrite (bi_len _ HI); lia|].
    rewrite (list_lookup_total_correct _ _ _ Hp) in Hb. apply andb_true_iff in Hb as [Hb Hv].
    apply bool_decide_eq_true in Hb. exists i, p. done.
  - right. intros i q Hi Hq Hn. eapply find_none in Hc; [|by apply in_seq_NBUF].
    rewrite (list_lookup_total_correct _ _ _ Hq), bool_decide_true in Hc by done. done.
Qed.

(** A change of one buffer that keeps its pointers. *)
Lemma recency_alter f b t l :
  (forall q, bprev (f q) = bprev q /\ bnext (f q) = bnext q) -> recency t l -> recency (alter f b t) l.
Proof.
  intros Hf [Hr Hp]. split; [|done]. eapply ring_ext; [| |exact Hr]; intros i.
  - apply nxt_keep, Hf.
  - apply prv_keep, Hf.
Qed.
Lemma binv_alter s b q f :
  binv s -> (b < NBUF)%nat -> bufs s !! b = Some q ->
  (forall q, bprev (f q) = bprev q /\ bnext (f q) = bnext q) ->
  buf_ok (disk s) (f q) ->
  (forall j p n, (j < NBUF)%nat -> j <> b -> bufs s !! j = Some p -> names p n -> ~ names (f q) n) ->
  binv (s <| bufs ::= alter f b |>).
Proof.
  intros [L [l R] U B] Hb Hq Hf Hok Hu. split; simpl.
  - by rewrite length_alter.
  - exists l. by apply recency_alter.
  - intros i j p r n Hi Hj Hp Hr Np Nr.
    destruct (decide (i = b)) as [->|Hib], (decide (j = b)) as [->|Hjb]; [done|..].
    + rewrite list_lookup_alter_eq, Hq in Hp. rewrite list_lookup_alter_ne in Hr by done.
      simpl in Hp. simplify_eq. exfalso. by eapply (Hu j r n).
    + rewrite list_lookup_alter_eq, Hq in Hr. rewrite list_lookup_alter_ne in Hp by done.
      simpl in Hr. simplify_eq. exfalso. by eapply (Hu i p n).
    + rewrite !list_lookup_alter_ne in * by done. eauto.
  - intros i r Hi Hr. destruct (decide (i = b)) as [->|Hib].
    + rewrite list_lookup_alter_eq, Hq in Hr. simpl in Hr. by simplify_eq.
    + rewrite list_lookup_alter_ne in Hr by done. eauto.
Qed.
(** The view after a change of one buffer. *)
Lemma view_alter s b q f n :
  binv s -> binv (s <| bufs ::= alter f b |>) -> (b < NBUF)%nat -> bufs s !! b = Some q ->
  (forall m, names (f q) m <-> names q m) -> bvalid (f q) = bvalid q ->
  view (s <| bufs ::= alter f b |>) n =
    if decide (names q n /\ bvalid q = true) then bdata (f q) else view s n.
Proof.
  intros HI HI' Hb Hq Hn Hv. case_decide as Hc.
  - destruct Hc as [Hc1 Hc2]. apply (view_cached _ b); [done..| | |].
    + simpl. by rewrite list_lookup_alter_eq, Hq.
    + by apply Hn.
    + congruence.
  - destruct (view_cases s n HI) as [(i & p & Hi & Hp & Np & Vp)|Hno].
    + assert (i <> b) by (intros ->; simplify_eq; tauto).
      rewrite (view_cached s i p) by done. apply (view_cached _ i); [done..| |done|done].
      simpl. by rewrite list_lookup_alter_ne.
    + rewrite (view_uncached s) by (done || apply HI).
      etransitivity; [apply view_uncached; [apply HI'|]|done].
      intros i p Hi Hp Np. simpl in Hp. destruct (decide (i = b)) as [->|Hib].
      * rewrite list_lookup_alter_eq, Hq in Hp. simpl in Hp. simplify_eq.
        rewrite Hv. eapply Hno; [done..|]. by apply Hn.
      * rewrite list_lookup_alter_ne in Hp by done. eauto.
Qed.

Section specs.
Context (me : Z).
Implicit Types (s : bio) (q : buf) (b i : nat) (n : Z).

(** Buffer [b] may be taken for another block. *)
Definition idle q : Prop := refcnt q = 0 /\ bdirty q = false.
(** The buffer a miss recycles: the least recently used idle one. *)
Definition victim s l : option nat := 
  find (fun i => bool_decide (refcnt (bufs s !!! i) = 0 /\ bdirty (bufs s !!! i) = false)) (rev l).

Lemma recency_length t l : recency t l -> length l = NBUF.
Proof. intros [_ Hp]. rewrite Hp. apply length_seq. Qed.
Lemma bget_walk s l n :
  recency (bufs s) l ->
  walk (fun i => bnext (bufs s !!! i))
    (fun i => bool_decide (bdev (bufs s !!! i) = ROOTDEV /\ blockno (bufs s !!! i) = n))
    HEAD (S NBUF) (bnext (bufs s !!! HEAD)) =
  find (fun i => bool_decide (names (bufs s !!! i) n)) l.
Proof.
  intros Hr. apply (walk_ring (nxt (bufs s)) (prv (bufs s))); [apply Hr|].
  rewrite (recency_length _ _ Hr). lia.
Qed.
Lemma bget_walk_back s l :
  recency (bufs s) l ->
  walk (fun i => bprev (bufs s !!! i))
    (fun i => bool_decide (refcnt (bufs s !!! i) = 0 /\ bdirty (bufs s !!! i) = false))
    HEAD (S NBUF) (bprev (bufs s !!! HEAD)) = victim s l.
Proof.
  intros Hr. apply (walk_ring (prv (bufs s)) (nxt (bufs s))); [apply ring_rev, Hr|].
  rewrite length_rev, (recency_length _ _ Hr). lia.
Qed.
Lemma recency_in t l i : recency t l -> In i l <-> (i < NBUF)%nat.
Proof. intros [_ Hp]. rewrite <- list_elem_of_In, Hp, elem_of_seq. lia. Qed.

Lemma lock_buf_eq b s q :
  bufs s !! b = Some q -> slocked (block q) = false ->
  lock_buf me b s = Ok (s <| bufs ::= alter (fun q => q <| block := mksl true me |>) b |>, tt).
Proof.
  intros Hq Hl. unfold lock_buf, acquiresleep, mbind, M_bind, getb, gets.
  by rewrite (list_lookup_total_correct _ _ _ Hq), Hl.
Qed.

Definition took q : buf := q <| refcnt := u32 (refcnt q + 1) |> <| block := mksl true me |>.
Lemma bget_hit s b q n :
  binv s -> (b < NBUF)%nat -> bufs s !! b = Some q -> names q n -> slocked (block q) = false ->
  bget me ROOTDEV n s = Ok (s <| bufs ::= alter took b |>, b).
Proof.
  intros HI Hb Hq Hn Hl. destruct (bi_rec _ HI) as [l Hr].
  assert (Hf : find (fun i => bool_decide (names (bufs s !!! i) n)) l = Some b).
  { destruct (find _ l) as [j|] eqn:Hf.
    - apply find_some in Hf as [Hj%(recency_in _ _ _ Hr) Hd]. apply bool_decide_eq_true in Hd.
      destruct (lookup_lt_is_Some_2 (bufs s) j) as [p Hp]; [rewrite (bi_len _ HI); lia|].
      rewrite (list_lookup_total_correct _ _ _ Hp) in Hd. f_equal. by eapply (bi_uniq _ HI).
    - eapply find_none in Hf; [|by apply (recency_in _ _ b Hr)].
      rewrite (list_lookup_total_correct _ _ _ Hq) in Hf. by apply bool_decide_eq_false in Hf. }
  unfold bget. rewrite (bind_run _ _ s s (bufs s)) by done. cbv beta.
  rewrite (bget_walk s l), Hf by done. unfold mbind, M_bind, setb, modify.
  rewrite (lock_buf_eq _ _ (q <| refcnt := u32 (refcnt q + 1) |>)); [| |done].
  - unfold mret, M_ret. simpl. by rewrite list_alter_alter_eq.
  - simpl. by rewrite list_lookup_alter_eq, Hq.
Qed.

Definition recycled n q : buf :=
  q <| bdev := ROOTDEV |> <| blockno := n |> <| bvalid := false |> <| bdirty := false |>
    <| refcnt := 1 |> <| block := mksl true me |>.
Definition uncached s n : Prop :=
  forall i q, (i < NBUF)%nat -> bufs s !! i = Some q -> ~ names q n.
Lemma bget_miss s l n :
  binv s -> recency (bufs s) l -> uncached s n ->
  bget me ROOTDEV n s =
    match victim s l with
    | Some b => Ok (s <| bufs ::= alter (recycled n) b |>, b)
    | None => Panic "bget: no buffers"
    end.
Proof.
  intros HI Hr Hno.
  assert (Hf : find (fun i => bool_decide (names (bufs s !!! i) n)) l = None).
  { destruct (find _ l) as [j|] eqn:Hf; [|done]. exfalso.
    apply find_some in Hf as [Hj%(recency_in _ _ _ Hr) Hd]. apply bool_decide_eq_true in Hd.
    destruct (lookup_lt_is_Some_2 (bufs s) j) as [p Hp]; [rewrite (bi_len _ HI); lia|].
    rewrite (list_lookup_total_correct _ _ _ Hp) in Hd. by eapply Hno. }
  unfold bget. rewrite (bind_run _ _ s s (bufs s)) by done. cbv beta.
  rewrite (bget_walk s l), Hf by done.
  rewrite (bget_walk_back s l) by done. destruct (victim s l) as [b|] eqn:Hv; [|done].
  unfold victim in Hv. apply find_some in Hv as [Hj%in_rev%(recency_in _ _ _ Hr) Hd].
  apply bool_decide_eq_true in Hd.
  destruct (lookup_lt_is_Some_2 (bufs s) b) as [q Hq]; [rewrite (bi_len _ HI); lia|].
  rewrite (list_lookup_total_correct _ _ _ Hq) in Hd.
  assert (Hl : slocked (block q) = false).
  { destruct (slocked (block q)) eqn:E; [|done]. destruct (bi_buf _ HI _ _ Hj Hq) as [_ H _ _ _].
    destruct Hd. specialize (H E). lia. }
  unfold mbind, M_bind, setb, modify. erewrite lock_buf_eq; [| |].
  - unfold mret, M_ret. simpl. by rewrite list_alter_alter_eq.
  - simpl. by rewrite list_lookup_alter_eq, Hq.
  - done.
Qed.

(** A buffer this process holds, with the contents of block [n]. *)
Record holds_buf s b q n : Prop := {
  hb_lt : (b < NBUF)%nat;
  hb_at : bufs s !! b = Some q;
  hb_names : names q n;
  hb_valid : bvalid q = true;
  hb_lock : block q = mksl true me;
}.
(** bread of [n] can get a buffer at once: the one that has [n] is not locked,
    or some buffer is idle. *)
Definition available s n : Prop :=
  (exists b q, (b < NBUF)%nat /\ bufs s !! b = Some q /\ names q n /\
     slocked (block q) = false /\ refcnt q + 1 < 2 ^ 32) \/
  (uncached s n /\ exists b q, (b < NBUF)%nat /\ bufs s !! b = Some q /\ idle q).

Lemma holding_true s b q :
  bufs s !! b = Some q -> block q = mksl true me -> holds_lock me b s = Ok (s, true).
Proof.
  intros Hq Hl. unfold holds_lock, holdingsleep, mbind, M_bind, getb, gets, mret, M_ret.
  rewrite (list_lookup_total_correct _ _ _ Hq), Hl. simpl. by rewrite bool_decide_true.
Qed.

(** iderw on a buffer that is not valid reads the block. *)
Lemma iderw_read s b q n :
  bufs s !! b = Some q -> names q n -> bvalid q = false -> bdirty q = false ->
  block q = mksl true me -> havedisk1 s = true -> n < FSSIZE ->
  iderw me b s = Ok (s <| bufs ::= alter (fun q => q <| bdata := disk s (ROOTDEV, n) |>
                                      <| bvalid := true |> <| bdirty := false |>) b |>, tt).
Proof.
  intros Hq [Hd Hn] Hv Hdi Hl Hh Hlt. unfold iderw.
  rewrite (bind_run _ _ s s true) by (by eapply holding_true). change (negb true) with false. cbv iota.
  rewrite (bind_run _ _ s s q) by (unfold getb, gets; by rewrite (list_lookup_total_correct _ _ _ Hq)).
  rewrite Hv, Hdi. simpl (_ && _). cbv iota. rewrite (bind_run _ _ s s true) by (unfold gets; by rewrite Hh).
  rewrite andb_false_r. rewrite decide_False by lia. rewrite Hd, Hn.
  unfold mbind, M_bind, gets, setb, modify. simpl. by rewrite list_alter_alter_eq.
Qed.
Lemma iderw_write s b q n :
  bufs s !! b = Some q -> names q n -> bdirty q = true ->
  block q = mksl true me -> havedisk1 s = true -> n < FSSIZE ->
  iderw me b s = Ok (s <| disk ::= insert (ROOTDEV, n) (bdata q) |>
                       <| writes ::= fun w => w ++ [(ROOTDEV, n, bdata q)] |>
                       <| bufs ::= alter (fun q => q <| bvalid := true |> <| bdirty := false |>) b |>, tt).
Proof.
  intros Hq [Hd Hn] Hdi Hl Hh Hlt. unfold iderw.
  rewrite (bind_run _ _ s s true) by (by eapply holding_true). change (negb true) with false. cbv iota.
  rewrite (bind_run _ _ s s q) by (unfold getb, gets; by rewrite (list_lookup_total_correct _ _ _ Hq)).
  rewrite Hdi, andb_false_r. rewrite (bind_run _ _ s s true) by (unfold gets; by rewrite Hh).
  rewrite andb_false_r. rewrite decide_False by lia. rewrite Hd, Hn. done.
Qed.
Lemma victim_spec s l b :
  binv s -> recency (bufs s) l -> victim s l = Some b ->
  exists q, (b < NBUF)%nat /\ bufs s !! b = Some q /\ idle q.
Proof.
  intros HI Hr Hv. unfold victim in Hv. apply find_some in Hv as [Hj%in_rev%(recency_in _ _ _ Hr) Hd].
  apply bool_decide_eq_true in Hd.
  destruct (lookup_lt_is_Some_2 (bufs s) b) as [q Hq]; [rewrite (bi_len _ HI); lia|].
  rewrite (list_lookup_total_correct _ _ _ Hq) in Hd. eauto.
Qed.
Lemma victim_exists s l b q :
  binv s -> recency (bufs s) l -> (b < NBUF)%nat -> bufs s !! b = Some q -> idle q ->
  exists b', victim s l = Some b'.
Proof.
  intros HI Hr Hb Hq Hi. destruct (victim s l) eqn:Hv; [eauto|]. exfalso. unfold victim in Hv.
  eapply find_none in Hv; [|apply in_rev; rewrite rev_involutive; by apply (recency_in _ _ b Hr)].
  rewrite (list_lookup_total_correct _ _ _ Hq), bool_decide_true in Hv; done.
Qed.

(** The state after bget: the buffer is locked and named, nothing is lost. *)
Record got s n s1 b q : Prop := {
  gt_inv : binv s1;
  gt_lt : (b < NBUF)%nat;
  gt_at : bufs s1 !! b = Some q;
  gt_names : names q n;
  gt_lock : block q = mksl true me;
  gt_clean : bvalid q = true -> bdirty q = true \/ bdata q = disk s (ROOTDEV, n);
  gt_dirty : bvalid q = false -> bdirty q = false;
  gt_view : forall m, view s1 m = view s m;
  gt_disk : disk s1 = disk s;
  gt_have : havedisk1 s1 = havedisk1 s;
  gt_writes : writes s1 = writes s;
  gt_rest : forall j, j <> b -> bufs s1 !! j = bufs s !! j;
}.
Lemma took_ok d q : buf_ok d q -> refcnt q + 1 < 2 ^ 32 -> buf_ok d (took q).
Proof.
  intros [R L D V C] Hr. unfold took. split; simpl; try done; rewrite u32_small by (unfold is_u32; lia); lia.
Qed.
Lemma bget_hit_got s b q n :
  binv s -> (b < NBUF)%nat -> bufs s !! b = Some q -> names q n -> slocked (block q) = false ->
  refcnt q + 1 < 2 ^ 32 ->
  exists s1, bget me ROOTDEV n s = Ok (s1, b) /\ got s n s1 b (took q).
Proof.
  intros HI Hb Hq Hn Hl Hr. rewrite (bget_hit s b q) by done. eexists. split; [done|].
  pose proof (bi_buf _ HI _ _ Hb Hq) as Hok.
  assert (HI1 : binv (s <| bufs ::= alter took b |>)).
  { apply (binv_alter s b q); [done..|by apply took_ok|]. intros j p m Hj Hjb Hp Np Nq.
    apply Hjb. exact (bi_uniq _ HI j b p q m Hj Hb Hp Hq Np Nq). }
  split; try done.
  - simpl. by rewrite list_lookup_alter_eq, Hq.
  - intros Hv. simpl in *. destruct (bdirty q) eqn:Hd; [by left|right].
    destruct Hok as [_ _ _ _ C]. rewrite <- (proj2 Hn). by apply C.
  - intros Hv. simpl in *. destruct (bdirty q) eqn:Hd; [|done].
    destruct Hok as [_ _ D _ _]. by rewrite D in Hv.
  - intros m. rewrite (view_alter s b q) by done. case_decide as H; [|done].
    destruct H. symmetry. by apply (view_cached s b q m).
  - intros j Hj. simpl. by rewrite list_lookup_alter_ne.
Qed.
Lemma bget_miss_got s n :
  binv s -> uncached s n -> (exists b q, (b < NBUF)%nat /\ bufs s !! b = Some q /\ idle q) ->
  exists s1 b q, bget me ROOTDEV n s = Ok (s1, b) /\ got s n s1 b q /\ bvalid q = false.
Proof.
  intros HI Hno (b0 & q0 & Hb0 & Hq0 & Hi0). destruct (bi_rec _ HI) as [l Hr].
  rewrite (bget_miss s l) by done. destruct (victim_exists s l b0 q0) as [b Hv]; [done..|]. rewrite Hv.
  destruct (victim_spec s l b) as (q & Hb & Hq & [Hrf Hdi]); [done..|].
  exists (s <| bufs ::= alter (recycled n) b |>), b, (recycled n q). split; [done|].
  assert (HI1 : binv (s <| bufs ::= alter (recycled n) b |>)).
  { apply (binv_alter s b q); [done..| |].
    - unfold recycled. split; simpl; try done; lia.
    - intros j p m Hj Hjb Hp Np [_ Nq]. simpl in Nq. subst m. by eapply Hno. }
  split; [|done]. split; try done.
  - simpl. by rewrite list_lookup_alter_eq, Hq.
  - intros m. destruct (view_cases s m HI) as [(i & p & Hi & Hp & Np & Vp)|Hnv].
    + rewrite (view_cached s i p) by done. destruct (decide (i = b)) as [->|Hib].
      * simplify_eq. destruct (bi_buf _ HI _ _ Hi Hq) as [_ L _ V C].
        etransitivity; [apply view_uncached; [apply HI1|]|].
        { intros j r Hj Hjr Nr. simpl in Hjr. destruct (decide (j = b)) as [->|Hjb].
          - rewrite list_lookup_alter_eq, Hq in Hjr. simpl in Hjr. by simplify_eq.
          - rewrite list_lookup_alter_ne in Hjr by done. exfalso. apply Hjb.
            exact (bi_uniq _ HI j b r q m Hj Hb Hjr Hq Nr Np). }
        simpl. destruct Np as [_ <-]. symmetry. apply C; [done..|].
        destruct (slocked (block q)) eqn:E; [|done]. specialize (L eq_refl). lia.
      * apply (view_cached _ i); [done..| |done|done]. simpl. by rewrite list_lookup_alter_ne.
    + rewrite (view_uncached s) by (done || apply HI).
      etransitivity; [apply view_uncached; [apply HI1|]|done].
      intros j r Hj Hjr Nr. simpl in Hjr. destruct (decide (j = b)) as [->|Hjb].
      * rewrite list_lookup_alter_eq, Hq in Hjr. simpl in Hjr. by simplify_eq.
      * rewrite list_lookup_alter_ne in Hjr by done. by eapply Hnv.
  - intros j Hj. simpl. by rewrite list_lookup_alter_ne.
Qed.

Lemma bget_got s n :
  binv s -> available s n ->
  exists s1 b q, bget me ROOTDEV n s = Ok (s1, b) /\ got s n s1 b q.
Proof.
  intros HI [(b & q & Hb & Hq & Hn & Hl & Hr)|[Hno Hid]].
  - destruct (bget_hit_got s b q n) as (s1 & H1 & H2); [done..|]. eauto.
  - destruct (bget_miss_got s n) as (s1 & b & q & H1 & H2 & _); [done..|]. eauto.
Qed.

(** The promise of bread. *)
Record bread_post s n s' b q : Prop := {
  br_inv : binv s';
  br_holds : holds_buf s' b q n;
  br_data : bdata q = view s n;
  br_clean : bdirty q = true \/ bdata q = disk s (ROOTDEV, n);
  br_view : forall m, view s' m = view s m;
  br_disk : disk s' = disk s;
  br_have : havedisk1 s' = havedisk1 s;
  br_writes : writes s' = writes s;
  br_rest : forall j, j <> b -> bufs s' !! j = bufs s !! j;
}.
Lemma bread_ok s n :
  binv s -> havedisk1 s = true -> n < FSSIZE -> available s n ->
  exists s' b q, bread me ROOTDEV n s = Ok (s', b) /\ bread_post s n s' b q.
Proof.
  intros HI Hh Hn Hav. destruct (bget_got s n HI Hav) as (s1 & b & q & Hg & G).
  destruct G as [HI1 Hb Hq Hnm Hl Hc Hd Hv Hdk Hhv Hw Hrest].
  unfold bread. rewrite (bind_run _ _ _ _ _ Hg). cbv beta.
  rewrite (bind_run _ _ s1 s1 q) by (unfold getb, gets; by rewrite (list_lookup_total_correct _ _ _ Hq)).
  destruct (bvalid q) eqn:Hvq.
  - exists s1, b, q. split; [done|]. split; try done.
    rewrite <- Hv. symmetry. by apply (view_cached s1 b q).
    by apply Hc.
  - unfold mbind, M_bind. rewrite (iderw_read s1 b q n) by (done || auto || congruence).
    set (f := fun q0 : buf => q0 <| bdata := _ |> <| bvalid := true |> <| bdirty := false |>).
    set (s2 := s1 <| bufs ::= alter f b |>).
    assert (Hq2 : bufs s2 !! b = Some (f q)) by (simpl; by rewrite list_lookup_alter_eq, Hq).
    assert (HI2 : binv s2).
    { apply (binv_alter s1 b q); [done..| |].
      - destruct (bi_buf _ HI1 _ _ Hb Hq) as [R L D V C]. destruct Hnm as [Hn1 Hn2].
        split; simpl; try done; [intros _; split; [done|congruence]|]. intros. by rewrite Hn2.
      - intros j p m Hj Hjb Hp Np Nq. apply Hjb. exact (bi_uniq _ HI1 j b p q m Hj Hb Hp Hq Np Nq). }
    assert (Hun : view s n = disk s (ROOTDEV, n)).
    { rewrite <- Hv, <- Hdk. apply view_uncached; [apply HI1|]. intros i p Hi Hp Np.
      assert (i = b) as -> by (exact (bi_uniq _ HI1 i b p q n Hi Hb Hp Hq Np Hnm)). by simplify_eq. }
    exists s2, b, (f q). split; [done|]. split; try done.
    + simpl. by rewrite Hdk.
    + right. simpl. by rewrite Hdk.
    + intros m. rewrite <- Hv. destruct (decide (m = n)) as [->|Hm].
      * rewrite (view_cached s2 b (f q) n) by done. simpl. by rewrite Hv, Hun, Hdk.
      * destruct (view_cases s1 m HI1) as [(i & p & Hi & Hp & Np & Vp)|Hno].
        -- assert (i <> b) by (intros ->; simplify_eq; congruence).
           rewrite (view_cached s1 i p) by done. apply (view_cached _ i); [done..| |done|done].
           simpl. by rewrite list_lookup_alter_ne.
        -- rewrite (view_uncached s1) by (done || apply HI1).
           etransitivity; [apply view_uncached; [apply HI2|]|done]. intros i p Hi Hp Np. simpl in Hp.
           destruct (decide (i = b)) as [->|Hib].
           ++ rewrite list_lookup_alter_eq, Hq in Hp. simpl in Hp. simplify_eq.
              destruct Np as [_ Np], Hnm as [_ Hnm]. simpl in Np. congruence.
           ++ rewrite list_lookup_alter_ne in Hp by done. eauto.
    + intros j Hj. simpl. rewrite list_lookup_alter_ne by done. auto.
Qed.

(** A held buffer may be changed in any field but its identity, its lock, its
    count and its pointers. *)
Lemma held_alter s b q n f :
  binv s -> holds_buf s b q n ->
  (forall q, bprev (f q) = bprev q /\ bnext (f q) = bnext q) ->
  (forall q, bdev (f q) = bdev q /\ blockno (f q) = blockno q /\ block (f q) = block q /\
     refcnt (f q) = refcnt q) ->
  bvalid (f q) = true ->
  binv (s <| bufs ::= alter f b |>) /\ holds_buf (s <| bufs ::= alter f b |>) b (f q) n /\
  forall m, view (s <| bufs ::= alter f b |>) m = if decide (m = n) then bdata (f q) else view s m.
Proof.
  intros HI [Hb Hq Hn Hv Hl] Hp Hf Hvf. destruct (Hf q) as (F1 & F2 & F3 & F4).
  assert (HI' : binv (s <| bufs ::= alter f b |>)).
  { apply (binv_alter s b q); [done..| |].
    - destruct (bi_buf _ HI _ _ Hb Hq) as [R L D V C].
      split; rewrite ?F1, ?F2, ?F3, ?F4, ?Hl; try done; [by rewrite <- Hl|by intros _; apply V].
    - intros j p m Hj Hjb Hpj Np Nq. apply Hjb. unfold names in Nq. rewrite F1, F2 in Nq.
      exact (bi_uniq _ HI j b p q m Hj Hb Hpj Hq Np Nq). }
  split; [done|]. split.
  - split; try done.
    + simpl. by rewrite list_lookup_alter_eq, Hq.
    + unfold names. by rewrite F1, F2.
    + by rewrite F3.
  - intros m. rewrite (view_alter s b q) by (done || congruence || (unfold names; by rewrite F1, F2)).
    destruct Hn as [Hn1 Hn2]. destruct (decide (m = n)) as [->|Hm].
    + by rewrite decide_True.
    + rewrite decide_False; [done|]. intros [[_ ?] _]. congruence.
Qed.

(** bwrite puts the data of a held buffer on the disk. *)
Lemma bwrite_ok s b q n :
  binv s -> havedisk1 s = true -> holds_buf s b q n ->
  exists s', bwrite me b s = Ok (s', tt) /\ binv s' /\
    holds_buf s' b (q <| bdirty := false |>) n /\ (forall m, view s' m = view s m) /\
    disk s' = <[(ROOTDEV, n) := bdata q]> (disk s) /\
    writes s' = writes s ++ [(ROOTDEV, n, bdata q)] /\ havedisk1 s' = true.
Proof.
  intros HI Hh H. pose proof H as [Hb Hq Hn Hv Hl].
  assert (Hlt : n < FSSIZE) by (destruct (bi_buf _ HI _ _ Hb Hq) as [_ _ _ V _], Hn as [_ <-]; by apply V).
  unfold bwrite. rewrite (bind_run _ _ s s true) by (by eapply holding_true).
  change (negb true) with false. cbv iota. unfold mbind, M_bind, setb at 1, modify.
  set (s1 := s <| bufs ::= _ |>).
  assert (Hq1 : bufs s1 !! b = Some (q <| bdirty := true |>)) by (simpl; by rewrite list_lookup_alter_eq, Hq).
  rewrite (iderw_write s1 b (q <| bdirty := true |>) n) by done.
  eexists. split; [done|].
  set (s' := s1 <| disk ::= _ |> <| writes ::= _ |> <| bufs ::= _ |>).
  destruct (held_alter s b q n (fun r => r <| bdirty := true |> <| bvalid := true |> <| bdirty := false |>))
    as (HI2 & Hh2 & Hv2); [done..|].
  assert (Eb : bufs s' = bufs (s <| bufs ::= alter (fun r => r <| bdirty := true |> <| bvalid := true |>
    <| bdirty := false |>) b |>)) by (simpl; by rewrite list_alter_alter_eq).
  assert (Hq' : bufs s' !! b = Some (q <| bdirty := false |>)).
  { rewrite Eb. simpl. rewrite list_lookup_alter_eq, Hq. simpl. f_equal. destruct q. simpl in *. by subst. }
  assert (HI' : binv s').
  { destruct HI2 as [L R U B]. split; rewrite ?Eb; try done. intros i r Hi Hr.
    specialize (B i r Hi Hr). destruct (decide (i = b)) as [->|Hib].
    - rewrite <- Eb, Hq' in Hr. simplify_eq. destruct B as [B1 B2 B3 B4 B5].
      split; try done. simpl. by rewrite Hl.
    - destruct B as [B1 B2 B3 B4 B5]. split; try done. intros E1 E2 E3.
      rewrite B5 by done. simpl. rewrite fn_lookup_insert_ne; [done|]. intros Eq. simplify_eq.
      apply Hib. eapply U; [done..| |split; [by apply B4|done]|].
      + rewrite <- Eb. exact Hq'.
      + exact Hn. }
  split; [done|]. split; [by split|]. split; [|done].
  intros m. destruct (decide (m = n)) as [->|Hm].
  - rewrite (view_cached s' b (q <| bdirty := false |>) n), (view_cached s b q n) by done. done.
  - assert (Ev : view s' m = view (s <| bufs ::= alter (fun r => r <| bdirty := true |> <| bvalid := true |>
      <| bdirty := false |>) b |>) m).
    { unfold view, cached. rewrite Eb. destruct (find _ _); [done|]. simpl.
      rewrite fn_lookup_insert_ne; [done|]. congruence. }
    rewrite Ev, Hv2. by rewrite decide_False.
Qed.

(** Relinking changes neither the invariant nor the view. *)
Lemma relink s t :
  binv s -> same_bufs (bufs s) t -> (exists l, recency t l) ->
  binv (s <| bufs := t |>) /\ forall m, view (s <| bufs := t |>) m = view s m.
Proof.
  intros HI [Hlen Hsame] Hrec. pose proof HI as [L R U B].
  assert (Hf : forall i q', t !! i = Some q' -> exists q, bufs s !! i = Some q /\
    bvalid q' = bvalid q /\ bdirty q' = bdirty q /\ bdev q' = bdev q /\ blockno q' = blockno q /\
    block q' = block q /\ refcnt q' = refcnt q /\ bdata q' = bdata q).
  { intros i q' Hq'. destruct (Hsame i q' Hq') as (q & Hq & E). exists q. rewrite E. done. }
  assert (HI' : binv (s <| bufs := t |>)).
  { split; simpl; [congruence|done| |].
    - intros i j p q n Hi Hj Hp Hq Np Nq.
      destruct (Hf _ _ Hp) as (p0 & Hp0 & _ & _ & P1 & P2 & _), (Hf _ _ Hq) as (q0 & Hq0 & _ & _ & Q1 & Q2 & _).
      unfold names in *. rewrite P1, P2 in Np. rewrite Q1, Q2 in Nq. by eapply (U i j p0 q0 n).
    - intros i q Hi Hq. destruct (Hf _ _ Hq) as (q0 & Hq0 & E1 & E2 & E3 & E4 & E5 & E6 & E7).
      destruct (B i q0 Hi Hq0) as [B1 B2 B3 B4 B5].
      split; rewrite ?E1, ?E2, ?E3, ?E4, ?E5, ?E6, ?E7; done. }
  split; [done|]. intros m.
  destruct (view_cases _ m HI') as [(i & q & Hi & Hq & Nq & Vq)|Hno].
  - rewrite (view_cached _ i q) by done. simpl in Hq.
    destruct (Hf _ _ Hq) as (q0 & Hq0 & E1 & _ & E3 & E4 & _ & _ & ->). symmetry.
    apply (view_cached s i q0); [done..| |congruence]. unfold names in *. by rewrite <- E3, <- E4.
  - rewrite (view_uncached (s <| bufs := t |>)) by (done || apply HI').
    rewrite (view_uncached s m); [done|done|].
    intros i q Hi Hq Nq.
    destruct (lookup_lt_is_Some_2 t i) as [q' Hq']; [rewrite Hlen; lia|].
    destruct (Hf _ _ Hq') as (q0 & Hq0 & E1 & _ & E3 & E4 & _). simplify_eq. rewrite <- E1.
    eapply Hno; [done..|]. unfold names in *. by rewrite E3, E4.
Qed.

(** Unlocking a buffer that is dirty or agrees with the disk. *)
Definition let_go q : buf := q <| block := mksl false 0 |> <| refcnt := u32 (refcnt q - 1) |>.
Lemma let_go_ok s b q n :
  binv s -> holds_buf s b q n -> bdirty q = true \/ bdata q = disk s (ROOTDEV, n) ->
  binv (s <| bufs ::= alter let_go b |>) /\
  (forall m, view (s <| bufs ::= alter let_go b |>) m = view s m) /\ refcnt (let_go q) = refcnt q - 1.
Proof.
  intros HI [Hb Hq Hn Hv Hl] Hc. pose proof (bi_buf _ HI _ _ Hb Hq) as [R L D V C].
  assert (Hr : refcnt (let_go q) = refcnt q - 1).
  { unfold let_go. simpl. rewrite Hl in L. specialize (L eq_refl). apply u32_small. unfold is_u32. lia. }
  rewrite Hl in L. specialize (L eq_refl).
  assert (HI' : binv (s <| bufs ::= alter let_go b |>)).
  { apply (binv_alter s b q); [done..| |].
    - split; [rewrite Hr; lia|done|done|done|]. simpl. intros _ Hd _. destruct Hn as [_ ->].
      destruct Hc; congruence.
    - intros j p m Hj Hjb Hpj Np Nq. apply Hjb. exact (bi_uniq _ HI j b p q m Hj Hb Hpj Hq Np Nq). }
  split; [done|]. split; [|done]. intros m. rewrite (view_alter s b q) by done.
  case_decide as H; [|done]. destruct H. symmetry. by apply (view_cached s b q).
Qed.
(** The promise of brelse: the buffer is unlocked, and when nobody waits for it
    it becomes the most recent one. *)
Record brelse_post s b q n s' : Prop := {
  rl_inv : binv s';
  rl_view : forall m, view s' m = view s m;
  rl_slot : exists q', bufs s' !! b = Some q' /\ block q' = mksl false 0 /\
    refcnt q' = refcnt q - 1 /\ bdirty q' = bdirty q /\ names q' n;
  rl_disk : disk s' = disk s;
  rl_writes : writes s' = writes s;
  rl_have : havedisk1 s' = havedisk1 s;
  rl_rest : forall j p', j <> b -> bufs s' !! j = Some p' -> exists p, bufs s !! j = Some p /\
    bdirty p' = bdirty p /\ refcnt p' = refcnt p /\ block p' = block p /\ bdev p' = bdev p /\
    blockno p' = blockno p;
  rl_front : refcnt q = 1 -> forall l1 l2,
    recency (bufs s) (l1 ++ b :: l2) -> recency (bufs s') (b :: l1 ++ l2);
}.
Lemma brelse_ok s b q n :
  binv s -> holds_buf s b q n -> bdirty q = true \/ bdata q = disk s (ROOTDEV, n) ->
  exists s', brelse me b s = Ok (s', tt) /\ brelse_post s b q n s'.
Proof.
  intros HI H Hc. destruct (let_go_ok s b q n HI H Hc) as (HI1 & Hv1 & Hr1).
  pose proof H as [Hb Hq Hn Hv Hl]. unfold brelse.
  rewrite (bind_run _ _ s s true) by (by eapply holding_true). change (negb true) with false. cbv iota.
  unfold mbind, M_bind, unlock_buf, setb, modify.
  set (s1 := s <| bufs ::= alter let_go b |>).
  match goal with |- context [getb b ?x] => replace x with s1 by (simpl; by rewrite list_alter_alter_eq) end.
  assert (Hq1 : bufs s1 !! b = Some (let_go q)) by (simpl; by rewrite list_lookup_alter_eq, Hq).
  unfold getb, gets. rewrite (list_lookup_total_correct _ _ _ Hq1), Hr1.
  destruct (decide (refcnt q - 1 = 0)) as [Hz|Hz].
  - rewrite to_front_eq. eexists. split; [done|].
    assert (Hrec : forall l1 l2, recency (bufs s1) (l1 ++ b :: l2) ->
      recency (push (cut (bufs s1) b) b) (b :: l1 ++ l2)).
    { intros l1 l2 Hl12. apply front_recency; [done|apply HI1]. }
    assert (Hs : same_bufs (bufs s1) (push (cut (bufs s1) b) b))
      by (eapply same_bufs_trans; [apply cut_same|apply push_same]).
    destruct (relink s1 (push (cut (bufs s1) b) b) HI1 Hs) as [HI2 Hv2].
    { destruct (bi_rec _ HI1) as [l Hl0]. pose proof Hb as Hin. apply (recency_in _ l b Hl0) in Hin.
      apply in_split in Hin as (l1 & l2 & ->). eauto. }
    destruct Hs as [Hlen Hs]. split; try done.
    + intros m. etransitivity; [apply Hv2|apply Hv1].
    + destruct (lookup_lt_is_Some_2 (push (cut (bufs s1) b) b) b) as [q' Hq'].
      { rewrite Hlen. pose proof (bi_len _ HI1). unfold s1. lia. }
      exists q'. split; [exact Hq'|]. destruct (Hs _ _ Hq') as (q0 & Hq0 & ->). simplify_eq. done.
    + intros j p' Hj Hp'. destruct (Hs _ _ Hp') as (p & Hp & ->).
      simpl in Hp. rewrite list_lookup_alter_ne in Hp by done. eauto 10.
    + intros _ l1 l2 Hl12. apply Hrec. by apply recency_alter.
  - exists s1. split; [done|]. split; try done.
    + exists (let_go q). done.
    + intros j p' Hj Hp'. simpl in Hp'. rewrite list_lookup_alter_ne in Hp' by done. eauto 10.
    + lia.
Qed.
End specs.

(** ** The cache implements the block store *)

Record refines (s : bio) (a : store) : Prop := {
  rf_inv : binv s;
  rf_have : havedisk1 s = true;
  rf_cur : forall n, cur a n = view s n;
  rf_dsk : forall n, dsk a n = disk s (ROOTDEV, n);
  rf_wlog : writes s = (fun w => (ROOTDEV, w.1, w.2)) <$> wlog a;
}.

(** The clients' use of a buffer, as log.c and fs.c write it. *)
Definition use_read (me n : Z) : M bio (list Z) :=
  b ← bread me ROOTDEV n; q ← getb b; brelse me b;; mret (bdata q).
Definition use_write (me n : Z) (d : list Z) : M bio unit :=
  b ← bread me ROOTDEV n; setb b (fun q => q <| bdata := d |>);; bwrite me b;; brelse me b.
Definition use_pin (me n : Z) (d : list Z) : M bio unit :=
  b ← bread me ROOTDEV n; setb b (fun q => q <| bdata := d |>);;
  setb b (fun q => q <| bdirty := true |>);; brelse me b.

Section refinement.
Context (me : Z).

(** Reading a block through the cache returns the current contents and is
    invisible to everybody else, whether it hits, or recycles a buffer and
    reads the disk. *)
Theorem use_read_refines s a n :
  refines s a -> n < FSSIZE -> available s n ->
  exists s', use_read me n s = Ok (s', cur a n) /\ read_block n a = Ok (a, cur a n) /\ refines s' a.
Proof.
  intros [HI Hh Hc Hd Hw] Hn Hav. destruct (bread_ok me s n HI Hh Hn Hav) as (s1 & b & q & Hb & P).
  destruct P as [I1 H1 D1 C1 V1 K1 A1 W1 _]. unfold use_read. rewrite (bind_run _ _ _ _ _ Hb). cbv beta.
  rewrite (bind_run _ _ s1 s1 q) by (unfold getb, gets; by rewrite (list_lookup_total_correct _ _ _ (hb_at _ _ _ _ _ H1))).
  destruct (brelse_ok me s1 b q n I1 H1) as (s2 & Hr & [I2 V2 _ K2 W2 A2 _ _]); [by rewrite K1|].
  rewrite (bind_run _ _ _ _ _ Hr). exists s2. split; [unfold mret, M_ret; by rewrite Hc, D1|].
  split; [done|]. split; try congruence.
Qed.

(** C20: a block changed and written through the cache has the new contents in
    the cache and on the disk, the disk got exactly this write, and no other
    block changed. *)
Theorem use_write_refines s a n d :
  refines s a -> n < FSSIZE -> available s n ->
  exists s' a', use_write me n d s = Ok (s', tt) /\ write_block n d a = Ok (a', tt) /\ refines s' a'.
Proof.
  intros [HI Hh Hc Hd Hw] Hn Hav. destruct (bread_ok me s n HI Hh Hn Hav) as (s1 & b & q & Hb & P).
  destruct P as [I1 H1 D1 C1 V1 K1 A1 W1 _]. unfold use_write. rewrite (bind_run _ _ _ _ _ Hb). cbv beta.
  destruct (held_alter me s1 b q n (fun q => q <| bdata := d |>)) as (I2 & H2 & V2); [done..|by apply H1|].
  unfold mbind, M_bind, setb at 1, modify. set (s2 := s1 <| bufs ::= _ |>).
  destruct (bwrite_ok me s2 b (q <| bdata := d |>) n I2) as (s3 & Hbw & I3 & H3 & V3 & K3 & W3 & A3); [by rewrite <- Hh, <- A1|done|].
  rewrite Hbw.
  destruct (brelse_ok me s3 b _ n I3 H3) as (s4 & Hr & [I4 V4 _ K4 W4 A4 _ _]).
  { right. rewrite K3. by rewrite fn_lookup_insert. }
  rewrite Hr. exists s4. eexists. split; [done|]. split; [done|]. split; simpl; try congruence.
  - intros m. rewrite V4, V3, V2, V1, fn_insert_cases. simpl. rewrite Hc.
    destruct (decide (m = n)) as [->|]; [by rewrite decide_True|by rewrite decide_False by congruence].
  - intros m. rewrite K4, K3. change (disk s2) with (disk s1). rewrite K1, !fn_insert_cases.
    destruct (decide (n = m)) as [->|]; [by rewrite decide_True|].
    rewrite decide_False by congruence. apply Hd.
  - rewrite W4, W3. change (writes s2) with (writes s1). rewrite W1, Hw, fmap_app. done.
Qed.

(** A block changed and pinned in the cache has the new contents for every
    later read while the disk keeps the old ones, and its buffer is dirty, so
    bget does not recycle it. *)
Theorem use_pin_refines s a n d :
  refines s a -> n < FSSIZE -> available s n ->
  exists s' a' b q, use_pin me n d s = Ok (s', tt) /\ pin_block n d a = Ok (a', tt) /\ refines s' a' /\
    bufs s' !! b = Some q /\ names q n /\ bdirty q = true /\ ~ idle q.
Proof.
  intros [HI Hh Hc Hd Hw] Hn Hav. destruct (bread_ok me s n HI Hh Hn Hav) as (s1 & b & q & Hb & P).
  destruct P as [I1 H1 D1 C1 V1 K1 A1 W1 _]. unfold use_pin. rewrite (bind_run _ _ _ _ _ Hb). cbv beta.
  destruct (held_alter me s1 b q n (fun q => q <| bdata := d |> <| bdirty := true |>)) as (I2 & H2 & V2);
    [done..|by apply H1|].
  unfold mbind, M_bind, setb, modify.
  match goal with |- context [brelse me b ?x] =>
    replace x with (s1 <| bufs ::= alter (fun q => q <| bdata := d |> <| bdirty := true |>) b |>)
      by (simpl; by rewrite list_alter_alter_eq) end.
  set (s2 := s1 <| bufs ::= _ |>) in *.
  destruct (brelse_ok me s2 b _ n I2 H2) as (s4 & Hr & [I4 V4 (q' & Q1 & Q2 & Q3 & Q4 & Q5) K4 W4 A4 _ _]); [by left|].
  rewrite Hr. exists s4. eexists. exists b, q'. split; [done|]. split; [done|]. split; [|].
  - split; simpl; try congruence.
    + rewrite A4. change (havedisk1 s2) with (havedisk1 s1). congruence.
    + intros m. rewrite V4, V2, V1, fn_insert_cases. simpl. rewrite Hc.
      destruct (decide (m = n)) as [->|]; [by rewrite decide_True|by rewrite decide_False by congruence].
    + intros m. rewrite K4. change (disk s2) with (disk s1). by rewrite K1.
    + rewrite W4. change (writes s2) with (writes s1). congruence.
  - split; [done|]. split; [done|]. split; [done|]. intros [_ Hdi]. rewrite Q4 in Hdi. done.
Qed.

(** A miss recycles the least recently used buffer that is neither
    referenced nor dirty, and panics exactly when there is none; a dirty
    buffer, which the log has not committed yet, is never recycled. *)
Theorem bget_recycles_lru s l n :
  binv s -> recency (bufs s) l -> uncached s n ->
  (exists b l1 l2 s', l = l1 ++ b :: l2 /\ idle (bufs s !!! b) /\
     Forall (fun j => ~ idle (bufs s !!! j)) l2 /\
     bget me ROOTDEV n s = Ok (s', b) /\ (forall j, j <> b -> bufs s' !! j = bufs s !! j)) \/
  (Forall (fun j => ~ idle (bufs s !!! j)) l /\ bget me ROOTDEV n s = Panic "bget: no buffers").
Proof.
  intros HI Hr Hno. rewrite (bget_miss me s l) by done. destruct (victim s l) as [b|] eqn:Hv.
  - left. unfold victim in Hv. apply find_split in Hv as (l1 & l2 & El & Hb & Hl).
    exists b, (rev l2), (rev l1). eexists. split; [|split; [|split; [|split; [done|]]]].
    + rewrite <- (rev_involutive l), El, rev_app_distr. simpl. by rewrite <- app_assoc.
    + by apply bool_decide_eq_true in Hb.
    + rewrite <- (Permutation_rev l1). eapply Forall_impl; [exact Hl|]. intros j Hj.
      by apply bool_decide_eq_false in Hj.
    + intros j Hj. simpl. by rewrite list_lookup_alter_ne.
  - right. split; [|done]. apply Forall_forall. intros j Hj. unfold victim in Hv.
    eapply find_none in Hv; [|apply in_rev; rewrite rev_involutive; by apply list_elem_of_In].
    by apply bool_decide_eq_false in Hv.
Qed.
End refinement.

(** The table of zeroed buffers, and the state binit leaves. *)
Definition bio_zero (d : Z * Z -> list Z) : bio := mkbio (replicate (S NBUF) buf_zero) d true [].
(** A buffer that was never used. *)
Definition fresh q : Prop :=
  bvalid q = false /\ bdirty q = false /\ bdev q = 0 /\ refcnt q = 0 /\ block q = mksl false 0.
Definition all_fresh (d : Z * Z -> list Z) (s : bio) : Prop :=
  Forall fresh (bufs s) /\ length (bufs s) = S NBUF /\ disk s = d /\ havedisk1 s = true /\ writes s = [].
Lemma fresh_setb d b f s :
  (forall q, fresh q -> fresh (f q)) -> all_fresh d s -> wp (setb b f) (fun _ => all_fresh d) s.
Proof.
  intros Hf (H1 & H2 & H3). split; [|split; [simpl; by rewrite length_alter|done]].
  apply Forall_alter; [done|auto].
Qed.
Lemma fresh_thread d b s : all_fresh d s -> wp (thread b) (fun _ => all_fresh d) s.
Proof.
  intros H. unfold thread, getb.
  repeat (first [wp_step | eapply wp_mono; [apply fresh_setb; [|eassumption]; by intros q (?&?&?&?&?)|];
    clear H; intros ? ? H; cbn beta in H]; cbn beta).
  exact H.
Qed.
Lemma binit_refines d :
  wp binit (fun _ s => refines s (mkstore (fun n => d (ROOTDEV, n)) (fun n => d (ROOTDEV, n)) []))
    (bio_zero d).
Proof.
  assert (H0 : all_fresh d (bio_zero d)).
  { split; [by apply Forall_replicate|]. done. }
  eapply wp_mono; [apply wp_conj; [apply (binit_recency (bio_zero d)); done|
    instantiate (1 := fun _ => all_fresh d)]|].
  - unfold binit. do 2 (apply wp_bind; eapply wp_mono;
      [apply fresh_setb; [by intros q (?&?&?&?&?)|eassumption]|]; clear H0; intros ? ? H0; cbn beta in H0).
    eapply (wp_mfor _ _ (fun _ => all_fresh d)); [done| |done]. intros b _ s2 Hs2. by apply fresh_thread.
  - intros _ s' [Hr (Hf & Hl & Hd & Hh & Hw)]. rewrite Forall_lookup in Hf.
    assert (HI : binv s').
    { split; [done|eauto| |].
      - intros i j p q n _ _ Hp _ [Hdev _] _. destruct (Hf _ _ Hp) as (_ & _ & E & _). by rewrite E in Hdev.
      - intros i q _ Hq. destruct (Hf _ _ Hq) as (E1 & E2 & E3 & E4 & E5).
        split; rewrite ?E1, ?E2, ?E4, ?E5; done. }
    split; [done|done| | |by rewrite Hw].
    + intros n. simpl. symmetry. rewrite <- Hd. apply view_uncached; [done|].
      intros i q _ Hq _. by destruct (Hf _ _ Hq) as (E1 & _).
    + intros n. by rewrite Hd.
Qed.

(** *** Examples *)
Definition disk0 : Z * Z -> list Z := fun p => replicate BSIZE (p.2 mod 256).
Definition bio1 : bio := exec binit (bio_zero disk0).
Definition store1 : store := mkstore (fun n => disk0 (ROOTDEV, n)) (fun n => disk0 (ROOTDEV, n)) [].
Lemma bio1_refines : refines bio1 store1.
Proof. exact (wp_exec binit (fun s => refines s store1) (bio_zero disk0) (binit_refines disk0)). Qed.
Lemma uncached_dec s n :
  forallb (fun i => negb (bool_decide (names (bufs s !!! i) n))) (seq 0 NBUF) = true -> uncached s n.
Proof.
  intros H i q Hi Hq Hn. rewrite forallb_forall in H. specialize (H i (proj2 (in_seq_NBUF i) Hi)).
  rewrite (list_lookup_total_correct _ _ _ Hq), bool_decide_true in H; done.
Qed.
Lemma bio1_uncached : uncached bio1 7.
Proof. apply uncached_dec. vm_compute. reflexivity. Qed.
Lemma bio1_available : available bio1 7.
Proof.
  right. split; [exact bio1_uncached|].
  exists 0%nat, (bufs bio1 !!! 0%nat). split; [unfold NBUF; lia|]. split; [vm_compute; reflexivity|].
  split; vm_compute; reflexivity.
Qed.
Lemma use_read_refines_witness :
  exists s', use_read 1 7 bio1 = Ok (s', cur store1 7) /\ refines s' store1.
Proof.
  destruct (use_read_refines 1 bio1 store1 7 bio1_refines) as (s' & H1 & _ & H2).
  - unfold FSSIZE. lia.
  - exact bio1_available.
  - exists s'. split; [exact H1|exact H2].
Defined.
Lemma use_write_refines_witness :
  exists s' a', use_write 1 7 [1; 2] bio1 = Ok (s', tt) /\ refines s' a' /\ dsk a' 7 = [1; 2].
Proof.
  destruct (use_write_refines 1 bio1 store1 7 [1; 2] bio1_refines) as (s' & a' & H1 & Ha & H2).
  - unfold FSSIZE. lia.
  - exact bio1_available.
  - exists s', a'. split; [exact H1|]. split; [exact H2|]. injection Ha as <-. reflexivity.
Defined.
Lemma use_pin_refines_witness :
  exists s' a', use_pin 1 7 [1; 2] bio1 = Ok (s', tt) /\ refines s' a' /\ cur a' 7 = [1; 2].
Proof.
  destruct (use_pin_refines 1 bio1 store1 7 [1; 2] bio1_refines) as (s' & a' & b & q & H1 & Ha & H2 & _).
  - unfold FSSIZE. lia.
  - exact bio1_available.
  - exists s', a'. split; [exact H1|]. split; [exact H2|]. injection Ha as <-. reflexivity.
Defined.
Lemma bio1_bget :
  match bget 1 ROOTDEV 7 bio1 with Ok (_, b) => b = 0%nat | _ => False end.
Proof. vm_compute. reflexivity. Qed.
Lemma bget_recycles_lru_witness :
  exists l b s', recency (bufs bio1) l /\ bget 1 ROOTDEV 7 bio1 = Ok (s', b) /\ b = 0%nat.
Proof.
  destruct (bi_rec _ (rf_inv _ _ bio1_refines)) as [l Hl].
  exists l, 0%nat.
  destruct (bget_recycles_lru 1 bio1 l 7 (rf_inv _ _ bio1_refines) Hl bio1_uncached)
    as [(b & l1 & l2 & s' & _ & _ & _ & H & _)|[_ H]].
  - exists s'. split; [exact Hl|].
    pose proof bio1_bget as Hb. rewrite H in Hb. subst b. split; [exact H|reflexivity].
  - exfalso. pose proof bio1_bget as Hb. rewrite H in Hb. exact Hb.
Defined.
