(* ===== verification/Ide.v ===== *)
(** The disk driver (ide.c): requests in a queue, the registers of the
    controller, and the interrupt at the end of each.

    [ide] is the buffer cache of Bio with the driver's queue, the controller
    and the processes that sleep in iderw on a buffer.  Bio has iderw as one
    step; the theorem here is that the driver implements it.  idelock makes a
    call of iderw up to its sleep, and an interrupt, atomic.  The waits for the
    controller to be ready are not modelled. *)
From S2P Require Import Prelude Cstring Sleeplock Blocks Bio.

(** The registers of the controller, the command it works on (0 for none) and
    the data it was sent. *)
Record device : Type := mkdev { r_count : Z; r_lba0 : Z; r_lba1 : Z; r_lba2 : Z; r_drive : Z; r_cmd : Z; d_sent : list Z }.
#[export] Instance eta_device : Eta device := fun d =>
  mkdev (r_count d) (r_lba0 d) (r_lba1 d) (r_lba2 d) (r_drive d) (r_cmd d) (d_sent d).
Definition IDE_CMD_READ : Z := 32.
Definition IDE_CMD_WRITE : Z := 48.
Definition IDE_CMD_RDMUL : Z := 196.
Definition IDE_CMD_WRMUL : Z := 197.
Definition SECTOR_SIZE : Z := 512.
Definition outb (port v : Z) (d : device) : device :=
  if decide (port = 498) then d <| r_count := u8 v |>
  else if decide (port = 499) then d <| r_lba0 := u8 v |>
  else if decide (port = 500) then d <| r_lba1 := u8 v |>
  else if decide (port = 501) then d <| r_lba2 := u8 v |>
  else if decide (port = 502) then d <| r_drive := u8 v |>
  else if decide (port = 503) then d <| r_cmd := u8 v |>
  else d.
(** The drive and the sector that the registers name. *)
Definition addressed (d : device) : Z * Z :=
  (Z.land (Z.shiftr (r_drive d) 4) 1,
   r_lba0 d + 2 ^ 8 * r_lba1 d + 2 ^ 16 * r_lba2 d + 2 ^ 24 * Z.land (r_drive d) 15).

Record ide : Type := mkide {
  cache : bio; idequeue : option nat; qnext : nat -> option nat; dev : device; asleep : list (Z * nat) }.
#[export] Instance eta_ide : Eta ide := fun s => mkide (cache s) (idequeue s) (qnext s) (dev s) (asleep s).
Definition out (port v : Z) : M ide unit := modify (fun s => s <| dev ::= outb port v |>).
Definition get_buf (b : nat) : M ide buf := gets (fun s => bufs (cache s) !!! b).
Definition set_buf (b : nat) (f : buf -> buf) : M ide unit := modify (fun s => s <| cache ::= fun c => c <| bufs ::= alter f b |> |>).

Definition idestart (b : nat) : M ide unit :=
  q ← get_buf b;
  if decide (blockno q >= FSSIZE) then panic "incorrect blockno" else
  let sector_per_block := Z.of_nat BSIZE / SECTOR_SIZE in
  let sector := s32 (blockno q * sector_per_block) in
  let read_cmd := if decide (sector_per_block = 1) then IDE_CMD_READ else IDE_CMD_RDMUL in
  let write_cmd := if decide (sector_per_block = 1) then IDE_CMD_WRITE else IDE_CMD_WRMUL in
  if decide (sector_per_block > 7) then panic "idestart" else
  out 1014 0;;
  out 498 sector_per_block;;
  out 499 (Z.land sector 255);;
  out 500 (Z.land (Z.shiftr sector 8) 255);;
  out 501 (Z.land (Z.shiftr sector 16) 255);;
  out 502 (Z.lor (Z.lor 224 (Z.shiftl (Z.land (bdev q) 1) 4)) (Z.land (Z.shiftr sector 24) 15));;
  if bdirty q then out 503 write_cmd;; modify (fun s => s <| dev ::= fun d => d <| d_sent := bdata q |> |>)
  else out 503 read_cmd.
(** The for loop of iderw: the last buffer of the queue from [b] on. *)
Fixpoint queue_end (fuel : nat) (qn : nat -> option nat) (b : nat) : nat :=
  match fuel with
  | O => b
  | S fuel => match qn b with None => b | Some c => queue_end fuel qn c end
  end.
Definition set_qnext (b : nat) (n : option nat) : M ide unit := modify (fun s => s <| qnext ::= fun f => <[b := n]> f |>).
(** iderw of process [me] up to its sleep: a request always sleeps, as its
    flags are not those of a finished one. *)
Definition iderw_queue (me : Z) (b : nat) : M ide unit :=
  q ← get_buf b;
  if negb (holdingsleep me (block q)) then panic "iderw: buf not locked" else
  if bvalid q && negb (bdirty q) then panic "iderw: nothing to do" else
  have ← gets (fun s => havedisk1 (cache s));
  if bool_decide (bdev q <> 0) && negb have then panic "iderw: ide disk 1 not present" else
  set_qnext b None;;
  h ← gets idequeue;
  match h with
  | None => modify (fun s => s <| idequeue := Some b |>)
  | Some h => qn ← gets qnext; set_qnext (queue_end NBUF qn h) (Some b)
  end;;
  h ← gets idequeue;
  (if decide (h = Some b) then idestart b else mret tt);;
  modify (fun s => s <| asleep ::= fun l => l ++ [(me, b)] |>).
(** ideintr; [err] is an error in the controller's status. *)
Definition ideintr (err : bool) : M ide unit :=
  h ← gets idequeue;
  match h with
  | None => mret tt
  | Some b =>
      qn ← gets qnext;
      modify (fun s => s <| idequeue := qn b |>);;
      q ← get_buf b;
      data ← gets (fun s => disk (cache s) (addressed (dev s)));
      (if negb (bdirty q) && negb err then set_buf b (fun q => q <| bdata := data |>) else mret tt);;
      set_buf b (fun q => q <| bvalid := true |> <| bdirty := false |>);;
      modify (fun s => s <| asleep ::= filter (fun x => x.2 <> b) |>);;
      h ← gets idequeue;
      match h with Some b => idestart b | None => mret tt end
  end.
(** The controller finishes its command: a write reaches the disk. *)
Definition finish (s : ide) : ide :=
  let d := dev s in
  (if decide (r_cmd d = IDE_CMD_WRITE)
   then s <| cache ::= fun c => c <| disk ::= insert (addressed d) (d_sent d) |> <| writes ::= fun w => w ++ [(addressed d, d_sent d)] |> |>
   else s) <| dev ::= fun d => d <| r_cmd := 0 |> |>.

(** ** The driver and its requests *)

(** The disk and block that a buffer is for. *)
Definition key_of (q : buf) : Z * Z := (Z.land (bdev q) 1, blockno q).
(** The controller works on the request of a buffer. *)
Definition working (d : device) (q : buf) : Prop :=
  r_cmd d = (if bdirty q then IDE_CMD_WRITE else IDE_CMD_READ) /\ addressed d = key_of q /\ (bdirty q = true -> d_sent d = bdata q).
(** The queue from its head through qnext. *)
Fixpoint chain (qn : nat -> option nat) (l : list nat) : Prop :=
  match l with [] => True | b :: l => qn b = head l /\ chain qn l end.
(** A request that the driver accepts, whose process holds the lock. *)
Definition request (c : bio) (b : nat) : Prop :=
  let q := bufs c !!! b in
  (b < NBUF)%nat /\ 0 <= blockno q < FSSIZE /\ bvalid q && negb (bdirty q) = false /\
  bool_decide (bdev q <> 0) && negb (havedisk1 c) = false /\ slocked (block q) = true.
Definition sleeper (c : bio) (b : nat) : Z * nat := (slpid (block (bufs c !!! b)), b).
Record DInv (s : ide) (q : list nat) : Prop := mkDInv {
  d_bufs : length (bufs (cache s)) = S NBUF;
  d_head : idequeue s = head q;
  d_chain : chain (qnext s) q;
  d_nodup : NoDup q;
  d_req : Forall (request (cache s)) q;
  d_sleep : asleep s = sleeper (cache s) <$> q;
  d_pids : NoDup (asleep s).*1;
  d_work : match q with b :: _ => working (dev s) (bufs (cache s) !!! b) | [] => r_cmd (dev s) = 0 end;
}.
(** What may change in a queued buffer meanwhile: its count and place in the
    cache's list. *)
Definition same_request (q q' : buf) : Prop :=
  bvalid q' = bvalid q /\ bdirty q' = bdirty q /\ bdev q' = bdev q /\ blockno q' = blockno q /\ block q' = block q /\ bdata q' = bdata q.
(** The system: a process that is not asleep in iderw calls it for a block of
    the disk; the controller finishes and interrupts; it interrupts without a
    command; the other processes use the cache. *)
Inductive istep : ide -> ide -> Prop :=
| i_request me b s s' :
    ~ me ∈ (asleep s).*1 -> (b < NBUF)%nat -> 0 <= blockno (bufs (cache s) !!! b) < FSSIZE ->
    iderw_queue me b s = Ok (s', tt) -> istep s s'
| i_done s s' : r_cmd (dev s) <> 0 -> ideintr false (finish s) = Ok (s', tt) -> istep s s'
| i_spurious err s s' : r_cmd (dev s) = 0 -> ideintr err s = Ok (s', tt) -> istep s s'
| i_cache c s :
    length (bufs c) = length (bufs (cache s)) -> havedisk1 c = havedisk1 (cache s) ->
    (forall b, b ∈ (asleep s).*2 -> same_request (bufs (cache s) !!! b) (bufs c !!! b)) ->
    istep s (s <| cache := c |>).
Definition idle (s : ide) : Prop :=
  length (bufs (cache s)) = S NBUF /\ idequeue s = None /\ asleep s = [] /\ r_cmd (dev s) = 0.

Lemma addressed_start d q :
  0 <= blockno q < FSSIZE ->
  addressed (outb 502 (Z.lor (Z.lor 224 (Z.shiftl (Z.land (bdev q) 1) 4)) (Z.land (Z.shiftr (s32 (blockno q * (Z.of_nat BSIZE / SECTOR_SIZE))) 24) 15))
    (outb 501 (Z.land (Z.shiftr (s32 (blockno q * (Z.of_nat BSIZE / SECTOR_SIZE))) 16) 255)
    (outb 500 (Z.land (Z.shiftr (s32 (blockno q * (Z.of_nat BSIZE / SECTOR_SIZE))) 8) 255)
    (outb 499 (Z.land (s32 (blockno q * (Z.of_nat BSIZE / SECTOR_SIZE))) 255) d)))) = key_of q.
Proof.
  intros H. change (Z.of_nat BSIZE / SECTOR_SIZE) with 1. rewrite Z.mul_1_r. unfold FSSIZE in H. rewrite (s32_small (blockno q)) by (unfold is_s32; lia). unfold key_of.
  rewrite (Z.shiftr_div_pow2 _ 24), (Z.shiftr_div_pow2 _ 16), (Z.shiftr_div_pow2 _ 8) by lia.
  rewrite (Z.div_small _ (2 ^ 24)), (Z.div_small _ (2 ^ 16)) by lia. change 255 with (Z.ones 8). rewrite !Z.land_ones by lia.
  assert (Hd : Z.land (bdev q) 1 = 0 \/ Z.land (bdev q) 1 = 1).
  { pose proof (Z.land_ones (bdev q) 1 ltac:(lia)) as E. change (Z.ones 1) with 1 in E. rewrite E. pose proof (Z.mod_pos_bound (bdev q) (2 ^ 1)). lia. }
  unfold outb, addressed. simpl. unfold u8. f_equal.
  - by destruct Hd as [-> | ->].
  - rewrite !Zmod_mod. assert (E : forall x, x = 0 \/ x = 1 -> Z.land (Z.lor (Z.lor 224 (Z.shiftl x 4)) 0 mod 2 ^ 8) 15 = 0) by (intros x [-> | ->]; done).
    change (Z.land 0 15) with 0. rewrite E by done. rewrite (Z.mod_small (blockno q / 2 ^ 8)) by (split; [apply Z.div_pos; lia|apply Z.div_lt_upper_bound; lia]).
    change (0 mod 2 ^ 8) with 0. pose proof (Z.div_mod (blockno q) (2 ^ 8)). lia.
Qed.
(** idestart programs the controller for the buffer and does nothing else. *)
Lemma idestart_ok s b :
  0 <= blockno (bufs (cache s) !!! b) < FSSIZE ->
  exists d, idestart b s = Ok (s <| dev := d |>, tt) /\ working d (bufs (cache s) !!! b).
Proof.
  intros H. unfold idestart, get_buf, mbind, M_bind, gets. cbn [fst snd]. set (q := bufs (cache s) !!! b) in *.
  rewrite decide_False by (unfold FSSIZE in *; lia). rewrite decide_False by (vm_compute; done).
  pose proof (addressed_start (outb 498 (Z.of_nat BSIZE / SECTOR_SIZE) (outb 1014 0 (dev s))) q H) as Ea.
  destruct (bdirty q) eqn:Ed; eexists; (split; [reflexivity|]); split; rewrite ?Ed; try done.
Qed.
Lemma chain_ext qn qn' l : (forall b, b ∈ l -> qn' b = qn b) -> chain qn l -> chain qn' l.
Proof. induction l as [|b l IH]; simpl; [done|]. intros H [H1 H2]. split; [rewrite H by set_solver; done|]. apply IH; [set_solver|done]. Qed.
Lemma chain_snoc qn l e b : NoDup (l ++ [e]) -> ~ b ∈ l ++ [e] -> chain qn (l ++ [e]) -> chain (<[e := Some b]> (<[b := None]> qn)) (l ++ [e; b]).
Proof.
  induction l as [|c l IH]; simpl; intros Hn Hb Hc.
  - rewrite fn_lookup_insert. split; [done|]. rewrite fn_lookup_insert_ne by set_solver. by rewrite fn_lookup_insert.
  - apply NoDup_cons in Hn as [Hc' Hn]. rewrite !fn_lookup_insert_ne by set_solver. destruct Hc as [H1 H2]. split; [|by apply IH; [|set_solver|]].
    rewrite H1. by destruct l.
Qed.
Lemma queue_end_last qn l e : forall fuel h, head (l ++ [e]) = Some h -> chain qn (l ++ [e]) -> (length l < fuel)%nat -> queue_end fuel qn h = e.
Proof.
  induction l as [|c l IH]; intros [|fuel] h Hh Hc Hf; simpl in *; try lia; injection Hh as <-; destruct Hc as [H1 H2].
  - by rewrite H1.
  - rewrite H1. destruct (head (l ++ [e])) as [x|] eqn:E; [by apply IH; [|done|lia]|by destruct l].
Qed.
Lemma request_length c q : Forall (request c) q -> NoDup q -> (length q <= NBUF)%nat.
Proof.
  intros Hr Hn. rewrite <- (length_seq NBUF 0). apply submseteq_length, NoDup_submseteq; [done|]. intros b Hb.
  rewrite Forall_forall in Hr. destruct (Hr b Hb) as [? _]. apply elem_of_seq. lia.
Qed.
(** The cache and disk once the request of [b] has been served. *)
Definition served (c : bio) (b : nat) : bio :=
  let q := bufs c !!! b in
  (if bdirty q
   then c <| disk ::= insert (key_of q) (bdata q) |> <| writes ::= fun w => w ++ [(key_of q, bdata q)] |>
   else c <| bufs ::= alter (fun q' => q' <| bdata := disk c (key_of q) |>) b |>)
  <| bufs ::= alter (fun q => q <| bvalid := true |> <| bdirty := false |>) b |>.
Lemma iderw_served c b : request c b -> iderw (slpid (block (bufs c !!! b))) b c = Ok (served c b, tt).
Proof.
  intros (_ & Hn & Hv & Hh & Hl). unfold iderw, holds_lock, getb, setb, mbind, M_bind, mret, M_ret, gets, modify. cbn [fst snd].
  unfold holdingsleep. rewrite Hl, bool_decide_eq_true_2 by done. cbn [andb negb]. rewrite Hv, Hh. rewrite decide_False by lia.
  unfold served. by destruct (bdirty (bufs c !!! b)).
Qed.
Lemma served_other c b x : x <> b -> bufs (served c b) !!! x = bufs c !!! x.
Proof.
  intros H. unfold served. destruct (bdirty _); simpl; rewrite ?list_lookup_total_alter_ne by done; done.
Qed.
Lemma served_length c b : length (bufs (served c b)) = length (bufs c).
Proof. unfold served. destruct (bdirty _); simpl; by rewrite ?length_alter. Qed.
Lemma served_have c b : havedisk1 (served c b) = havedisk1 c.
Proof. unfold served. by destruct (bdirty _). Qed.
Lemma request_other c b x : x <> b -> request c x -> request (served c b) x.
Proof. intros Hx. unfold request. by rewrite served_other, served_have. Qed.
Lemma sleepers_other c b (q : list nat) : ~ b ∈ q -> sleeper (served c b) <$> q = sleeper c <$> q.
Proof.
  intros H. apply list_fmap_ext. intros i x Hx. unfold sleeper. rewrite served_other; [done|]. intros ->. apply H. by eapply list_elem_of_lookup_2.
Qed.
Lemma filter_sleepers c b (q : list nat) : ~ b ∈ q -> filter (fun x : Z * nat => x.2 <> b) (sleeper c <$> q) = sleeper c <$> q.
Proof. intros H. apply filter_id. apply Forall_fmap, Forall_forall. intros x Hx. simpl. intros ->. done. Qed.
#[local] Arguments served : simpl never.
(** The interrupt serves the first request and starts the next. *)
Lemma interrupt_serves s b q :
  DInv s (b :: q) -> exists s', ideintr false (finish s) = Ok (s', tt) /\ cache s' = served (cache s) b /\ DInv s' q.
Proof.
  intros [Hlen Hhead Hch Hnd Hreq Hsl Hp [Hcmd [Hadr Hsent]]]. apply NoDup_cons in Hnd as [Hb Hnd]. apply Forall_cons in Hreq as [Hrb Hreq].
  set (s1 := mkide (served (cache s) b) (head q) (qnext s) ((dev s) <| r_cmd := 0 |>) (sleeper (cache s) <$> q)).
  assert (Efil : filter (fun x : Z * nat => x.2 <> b) (asleep s) = sleeper (cache s) <$> q).
  { rewrite Hsl. simpl fmap. rewrite filter_cons_False by (intros H; by apply H). by apply filter_sleepers. }
  assert (E : ideintr false (finish s) = match head q with Some b => idestart b | None => mret tt end s1).
  { unfold ideintr, get_buf, set_buf, mbind, M_bind, mret, M_ret, gets, modify. cbn [fst snd].
    destruct Hch as [Hq _]. unfold finish. rewrite Hcmd. unfold s1, served.
    destruct (bdirty (bufs (cache s) !!! b)) eqn:Ed.
    - rewrite decide_True by done. simpl. rewrite Hhead. simpl. rewrite Ed. simpl. rewrite Hq, Hadr, Hsent, Efil by done. done.
    - rewrite decide_False by done. simpl. rewrite Hhead. simpl. rewrite Ed. simpl. rewrite Hq, Efil. 
      rewrite <- Hadr. done. }
  assert (HC : length (bufs (served (cache s) b)) = S NBUF /\ Forall (request (served (cache s) b)) q /\
    sleeper (served (cache s) b) <$> q = sleeper (cache s) <$> q).
  { split; [by rewrite served_length|]. split; [|by rewrite sleepers_other].
    rewrite Forall_forall in Hreq |- *. intros x Hx. apply request_other; [by intros ->|by apply Hreq]. }
  clear Efil. revert E HC. unfold s1. clear s1. generalize (served (cache s) b). intros C E (HC1 & HC2 & HC3).
  set (s1 := mkide C _ _ _ _) in E.
  assert (Hinv : forall d, match q with b :: _ => working d (bufs C !!! b) | [] => r_cmd d = 0 end -> DInv (s1 <| dev := d |>) q).
  { intros d Hd. split; simpl; try done; [apply Hch|]. rewrite Hsl in Hp. simpl in Hp. by apply NoDup_cons in Hp as [_ ?]. }
  rewrite E. destruct q as [|x q].
  - exists s1. split; [done|]. split; [done|]. by apply (Hinv (dev s1)).
  - apply Forall_cons in HC2 as [(_ & Hn & _) _]. destruct (idestart_ok s1 x) as (d & Ed & Hw); [done|].
    exists (s1 <| dev := d |>). split; [exact Ed|]. split; [done|]. by apply Hinv.
Qed.
#[local] Arguments queue_end : simpl never.
(** A new request goes to the end of the queue. *)
Lemma request_queues s q me b s' :
  DInv s q -> ~ me ∈ (asleep s).*1 -> (b < NBUF)%nat -> 0 <= blockno (bufs (cache s) !!! b) < FSSIZE ->
  iderw_queue me b s = Ok (s', tt) -> cache s' = cache s /\ asleep s' = asleep s ++ [(me, b)] /\ DInv s' (q ++ [b]).
Proof.
  intros HI Hme Hb Hn E. pose proof HI as [Hlen Hhead Hch Hnd Hreq Hsl Hp Hw]. unfold iderw_queue, get_buf, mbind, M_bind, mret, M_ret, gets in E. cbn [fst snd] in E.
  destruct (holdingsleep me (block (bufs (cache s) !!! b))) eqn:Eh; [|done]. cbn [negb] in E. destruct (bvalid _ && _) eqn:Ev; [done|].
  destruct (bool_decide (bdev _ <> 0) && _) eqn:Ed; [done|]. unfold holdingsleep in Eh. apply andb_true_iff in Eh as [El Em%bool_decide_eq_true].
  assert (Hbq : ~ b ∈ q).
  { intros Hin. apply Hme. rewrite Hsl, <- list_fmap_compose. apply list_elem_of_fmap. exists b. by rewrite <- Em. }
  assert (Hrb : request (cache s) b) by done. assert (Hqb : NoDup (q ++ [b])) by (apply NoDup_app; split; [done|]; split; [set_solver|apply NoDup_singleton]).
  assert (Hadd : forall h qn d, h = head (q ++ [b]) -> chain qn (q ++ [b]) -> (match q ++ [b] with b :: _ => working d (bufs (cache s) !!! b) | [] => r_cmd d = 0 end) ->
    DInv (mkide (cache s) h qn d (asleep s ++ [(me, b)])) (q ++ [b])).
  { intros h qn d Hh Hc Hd. split; simpl; try done.
    - apply Forall_app. split; [done|]. by constructor.
    - rewrite fmap_app, Hsl. simpl. unfold sleeper at 3. by rewrite Em.
    - rewrite fmap_app. apply NoDup_app. split; [done|]. split; [set_solver|apply NoDup_singleton]. }
  destruct q as [|h q _] using rev_ind.
  - simpl in Hhead. unfold set_qnext, modify in E. simpl in E. rewrite Hhead in E. simpl in E. rewrite decide_True in E by done.
    destruct (idestart_ok (mkide (cache s) (Some b) (<[b := None]> (qnext s)) (dev s) (asleep s)) b Hn) as (d & E' & Hwd). simpl in Hwd.
    match type of E with match ?x with _ => _ end = _ => replace x with (Ok (mkide (cache s) (Some b) (<[b := None]> (qnext s)) d (asleep s), tt) : result (ide * unit)) in E end.
    injection E as <-. split; [done|]. split; [done|]. apply Hadd; [done| |done]. simpl. by rewrite fn_lookup_insert.
  - destruct (head (q ++ [h])) as [h0|] eqn:Eh0; [|by destruct q]. assert (Hne : h0 <> b).
    { intros ->. apply Hbq. destruct q; simpl in Eh0; injection Eh0 as ->; set_solver. }
    unfold set_qnext, modify in E. simpl in E. rewrite Hhead in E. simpl in E.
    assert (Hch' : chain (<[b := None]> (qnext s)) (q ++ [h])).
    { eapply chain_ext; [|exact Hch]. intros x Hx. apply fn_lookup_insert_ne. intros ->. done. }
    pose proof (request_length _ _ Hreq Hnd) as Hql. rewrite length_app in Hql. simpl in Hql.
    rewrite (queue_end_last _ q h NBUF h0 Eh0 Hch') in E by lia. rewrite decide_False in E by congruence. injection E as <-.
    split; [done|]. split; [done|]. apply Hadd.
    + rewrite <- Eh0. by destruct q.
    + rewrite <- app_assoc. by apply chain_snoc.
    + by destruct q.
Qed.
Lemma cache_use s q c :
  DInv s q -> length (bufs c) = length (bufs (cache s)) -> havedisk1 c = havedisk1 (cache s) ->
  (forall b, b ∈ (asleep s).*2 -> same_request (bufs (cache s) !!! b) (bufs c !!! b)) -> DInv (s <| cache := c |>) q.
Proof.
  intros [Hlen Hhead Hch Hnd Hreq Hsl Hp Hw] Hl Hh Hs. assert (Eq : (asleep s).*2 = q).
  { rewrite Hsl, <- list_fmap_compose. apply list_fmap_id. }
  rewrite Eq in Hs. split; simpl; try done; [congruence| | |].
  - rewrite Forall_forall in Hreq |- *. intros b Hb. destruct (Hs b Hb) as (E1 & E2 & E3 & E4 & E5 & E6). destruct (Hreq b Hb) as (H1 & H2 & H3 & H4 & H5).
    unfold request. by rewrite E1, E2, E3, E4, E5, Hh.
  - rewrite Hsl. apply list_fmap_ext. intros i b Hb%list_elem_of_lookup_2. destruct (Hs b Hb) as (_ & _ & _ & _ & E5 & _). unfold sleeper. by rewrite E5.
  - destruct q as [|b q]; [done|]. destruct (Hs b) as (E1 & E2 & E3 & E4 & E5 & E6); [set_solver|].
    destruct Hw as (W1 & W2 & W3). unfold working, key_of in *. by rewrite E2, E3, E4, E6.
Qed.
Lemma istep_inv s s' q : DInv s q -> istep s s' -> exists q', DInv s' q'.
Proof.
  intros HI Hs. destruct Hs as [me b s s' Hme Hb Hn E|s s' Hc E|err s s' Hc E|c s Hl Hh Hr].
  - destruct (request_queues s q me b s' HI Hme Hb Hn E) as (_ & _ & H). eauto.
  - destruct q as [|b q]; [by destruct HI|]. destruct (interrupt_serves s b q HI) as (s1 & E1 & _ & H). rewrite E1 in E. injection E as <-. eauto.
  - destruct q as [|b q]; [|destruct HI as [_ _ _ _ _ _ _ [Hw _]]; rewrite Hc in Hw; by destruct (bdirty _)].
    exists []. unfold ideintr, mbind, M_bind, gets in E. simpl in E. rewrite (d_head _ _ HI) in E. by injection E as <-.
  - exists q. by apply cache_use.
Qed.

(** C18: the driver implements iderw as the buffer cache uses it: in every state
    that requests, interrupts and other uses of the cache lead to, the processes
    asleep in iderw are those of the queued buffers in the order of their
    requests, and while there is one the controller works on the first; its
    interrupt leaves the cache and the disk as one undivided iderw by that
    process, wakes that process and no other, and goes on with the next. *)
Theorem ide_refines s0 s :
  idle s0 -> rtc istep s0 s ->
  match asleep s with
  | [] => idequeue s = None /\ r_cmd (dev s) = 0
  | (me, b) :: rest =>
      idequeue s = Some b /\ working (dev s) (bufs (cache s) !!! b) /\
      exists s', ideintr false (finish s) = Ok (s', tt) /\ iderw me b (cache s) = Ok (cache s', tt) /\ asleep s' = rest
  end.
Proof.
  intros (Hl & Hq & Ha & Hc) Hr. assert (exists q, DInv s q) as [q HI].
  { apply (rtc_invariant istep (fun s => exists q, DInv s q) s0); [| |done].
    - exists []. split; try done; try (by constructor). rewrite Ha. constructor.
    - intros x y [q HI] Hst. by eapply istep_inv. }
  pose proof (d_sleep _ _ HI) as Hsl. destruct q as [|b q]; simpl in Hsl; rewrite Hsl; unfold sleeper; [by destruct HI|].
  split; [apply HI|]. split; [apply HI|]. destruct (interrupt_serves s b q HI) as (s' & E & Hc' & HI'). exists s'. split; [done|]. rewrite Hc'.
  pose proof (d_req _ _ HI) as Hreq. apply Forall_cons in Hreq as [Hrb _]. split; [by apply iderw_served|].
  rewrite (d_sleep _ _ HI'), Hc'. apply sleepers_other. pose proof (d_nodup _ _ HI) as Hn. by apply NoDup_cons in Hn as [? _].
Qed.
(** Process 3 writes block 7 from buffer 0; process 4 reads block 8 meanwhile. *)
Definition two_bufs : bio := mkbio
  (buf_zero <| bdirty := true |> <| bvalid := true |> <| bdev := 1 |> <| blockno := 7 |> <| block := mksl true 3 |> ::
   buf_zero <| bdev := 1 |> <| blockno := 8 |> <| block := mksl true 4 |> :: replicate 29 buf_zero)
  (fun _ => []) true [].
Definition quiet_ide : ide := mkide two_bufs None (fun _ => None) (mkdev 0 0 0 0 0 0 []) [].
Definition run_ide (m : M ide unit) (s : ide) : ide := match m s with Ok (s, _) => s | _ => s end.
Definition one_asleep : ide := run_ide (iderw_queue 3 0) quiet_ide.
Definition two_asleep : ide := run_ide (iderw_queue 4 1) one_asleep.
Lemma ide_refines_witness :
  asleep two_asleep = [(3, 0%nat); (4, 1%nat)] /\
  exists s', ideintr false (finish two_asleep) = Ok (s', tt) /\ iderw 3 0 two_bufs = Ok (cache s', tt) /\ asleep s' = [(4, 1%nat)].
Proof.
  assert (E : asleep two_asleep = [(3, 0%nat); (4, 1%nat)]) by (vm_compute; reflexivity). split; [exact E|].
  assert (Ec : cache two_asleep = two_bufs) by (vm_compute; reflexivity).
  assert (H1 : idle quiet_ide) by (split_and!; reflexivity).
  assert (H2 : rtc istep quiet_ide two_asleep).
  { eapply rtc_l; [|eapply rtc_l; [|apply rtc_refl]].
    - apply (i_request 3 0 quiet_ide one_asleep); [set_solver|vm_compute; lia|vm_compute; split; congruence|vm_compute; reflexivity].
    - apply (i_request 4 1 one_asleep two_asleep); [vm_compute; set_solver|vm_compute; lia|vm_compute; split; congruence|vm_compute; reflexivity]. }
  pose proof (ide_refines quiet_ide two_asleep H1 H2) as H. rewrite E, Ec in H. destruct H as (_ & _ & H). exact H.
Defined.
(** A read that the controller reports as failed leaves the buffer as it was but
    valid: the error is lost. *)
Lemma read_error_lost s b q :
  DInv s (b :: q) -> bdirty (bufs (cache s) !!! b) = false ->
  exists s', ideintr true (finish s) = Ok (s', tt) /\
    bufs (cache s') = alter (fun q => q <| bvalid := true |> <| bdirty := false |>) b (bufs (cache s)).
Proof.
  intros HI Ed. destruct HI as [Hlen Hhead Hch Hnd Hreq Hsl Hp [Hcmd _]]. rewrite Ed in Hcmd. destruct Hch as [Hq _].
  unfold ideintr, get_buf, set_buf, mbind, M_bind, mret, M_ret, gets, modify. cbn [fst snd]. unfold finish. rewrite Hcmd, decide_False by done.
  simpl. rewrite Hhead. simpl. rewrite Ed. simpl. rewrite Hq. destruct q as [|x q]; simpl; [eexists; by split|].
  apply Forall_cons in Hreq as [_ Hreq]. apply Forall_cons in Hreq as [(_ & Hn & _) _]. assert (Hx : x <> b) by (intros ->; apply NoDup_cons in Hnd as [Hnd _]; set_solver).
  match goal with |- exists s', idestart x ?t = _ /\ _ => destruct (idestart_ok t x) as (d & -> & _) end; [simpl; by rewrite list_lookup_total_alter_ne|].
  eexists. by split.
Qed.

(** ** The disk in memory *)

Module memide.
(** The buffers, the image of the file system and its size in blocks. *)
Record mide : Type := mkmide { mbufs : list buf; memdisk : mem; disksize : Z }.
#[export] Instance eta_mide : Eta mide := fun s => mkmide (mbufs s) (memdisk s) (disksize s).
Definition set_mbuf (b : nat) (f : buf -> buf) : M mide unit := modify (fun s => s <| mbufs ::= alter f b |>).
Definition iderw (me : Z) (b : nat) : M mide unit :=
  q ← gets (fun s => mbufs s !!! b);
  if negb (holdingsleep me (block q)) then panic "iderw: buf not locked" else
  if bvalid q && negb (bdirty q) then panic "iderw: nothing to do" else
  if decide (bdev q <> 1) then panic "iderw: request not for disk 1" else
  n ← gets disksize;
  if decide (blockno q >= n) then panic "iderw: block out of range" else
  let p := blockno q * Z.of_nat BSIZE in
  (if bdirty q then
     set_mbuf b (fun q => q <| bdirty := false |>);;
     modify (fun s => s <| memdisk ::= fun m => put_bytes m p (bdata q) |>)
   else
     m ← gets memdisk;
     set_mbuf b (fun q => q <| bdata := bytes_at m p BSIZE |>));;
  set_mbuf b (fun q => q <| bvalid := true |>).
End memide.
(** The image holds the blocks of disk 1. *)
Definition same_disk (c : bio) (s : memide.mide) : Prop :=
  bufs c = memide.mbufs s /\ havedisk1 c = true /\ memide.disksize s <= FSSIZE /\
  forall n, 0 <= n -> disk c (1, n) = bytes_at (memide.memdisk s) (n * Z.of_nat BSIZE) BSIZE.
(** The driver of the disk in memory does what the other promises. *)
Lemma memide_same me b c s c' :
  same_disk c s -> length (bdata (bufs c !!! b)) = BSIZE -> bdev (bufs c !!! b) = 1 -> 0 <= blockno (bufs c !!! b) < memide.disksize s ->
  iderw me b c = Ok (c', tt) -> exists s', memide.iderw me b s = Ok (s', tt) /\ same_disk c' s'.
Proof.
  intros (Hb & Hh & Hs & Hd) Hlen Hdev Hn. unfold iderw, memide.iderw, holds_lock, getb, setb, memide.set_mbuf, mbind, M_bind, mret, M_ret, gets, modify.
  cbn [fst snd]. rewrite <- Hb. destruct (holdingsleep me _); [|done]. cbn [negb]. destruct (bvalid _ && _); [done|]. rewrite Hh, andb_false_r.
  rewrite decide_False by lia. rewrite (decide_False (P := bdev _ <> 1)) by lia. rewrite (decide_False (P := blockno _ >= memide.disksize s)) by lia.
  set (q := bufs c !!! b) in *. rewrite Hdev. change (Z.land 1 1) with 1. destruct (bdirty q) eqn:Edi; simpl; intros [= <-]; eexists; (split; [reflexivity|]); split_and!; simpl; try done.
  - rewrite <- Hb. apply list_eq. intros j. destruct (decide (j = b)) as [->|Hj]; [|by rewrite !list_lookup_alter_ne].
    rewrite !list_lookup_alter_eq. by destruct (bufs c !! b).
  - intros n Hn'. destruct (decide (n = blockno q)) as [->|Hne].
    + rewrite fn_lookup_insert, <- Hlen. symmetry. apply bytes_at_put.
    + rewrite fn_lookup_insert_ne by congruence. rewrite Hd by done. apply bytes_at_ext. intros x Hx. unfold put_bytes.
      rewrite decide_False; [done|]. rewrite Hlen. unfold BSIZE in *. lia.
  - rewrite <- Hb. apply list_eq. intros j. destruct (decide (j = b)) as [->|Hj]; [|by rewrite !list_lookup_alter_ne].
    rewrite !list_lookup_alter_eq, Hd by lia. destruct (bufs c !! b) as [q0|] eqn:E; [|done]. apply list_lookup_total_correct in E.
    change (q = q0) in E. subst q0. simpl. by rewrite Edi.
Qed.
