(* ===== verification/Log.v ===== *)
(** The write-ahead log (log.c).

    [lstate] is the block store of Blocks.v with struct log.  The functions
    are those of log.c; where they take a buffer, change its data and write or
    pin it, they use the store's steps.  A crash keeps the disk and loses
    everything else: [disk_after] is the disk once some of the writes have
    reached it. *)
From S2P Require Import Prelude Blocks.

Definition MAXOPBLOCKS : Z := 10.
Definition LOGSIZE : nat := 30.
Definition BSIZE : nat := 512.

(** struct log; [lhn] and [lhblock] are the in-memory header [lh]. *)
Record log := mklog {
  lstart : Z; lsize : Z; outstanding : Z; committing : bool; ldev : Z;
  lhn : Z; lhblock : list Z }.
#[export] Instance eta_log : Eta log := fun l =>
  mklog (lstart l) (lsize l) (outstanding l) (committing l) (ldev l) (lhn l) (lhblock l).
Record lstate := mkls { st : store; lg : log }.
#[export] Instance eta_ls : Eta lstate := fun s => mkls (st s) (lg s).

Definition on_st {A} (m : M store A) : M lstate A := zoom st (fun t s => s <| st := t |>) m.
Definition on_lg (f : log -> log) : M lstate unit := modify (fun s => s <| lg ::= f |>).

(** The on-disk header: [n], then the block numbers. *)
Definition head_n (b : list Z) : Z := s32 (get32 b 0).
Definition head_block (b : list Z) (i : nat) : Z := s32 (get32 b (4 + 4 * i)).
Definition put_head (b : list Z) (n : Z) (blocks : list Z) : list Z :=
  foldl (fun b i => set32 b (4 + 4 * i) (blocks !!! i)) (set32 b 0 n) (seq 0 (Z.to_nat n)).

Definition install_trans : M lstate unit :=
  n ← gets (fun s => lhn (lg s));
  mfor (seq 0 (Z.to_nat n)) (fun tail =>
    l ← gets lg;
    lbuf ← on_st (read_block (lstart l + Z.of_nat tail + 1));
    on_st (read_block (lhblock l !!! tail));;
    on_st (write_block (lhblock l !!! tail) lbuf)).

(** A header with more than LOGSIZE entries would be copied past the end of
    [lh.block]. *)
Definition read_head : M lstate unit :=
  l ← gets lg;
  b ← on_st (read_block (lstart l));
  on_lg (fun l => l <| lhn := head_n b |>);;
  if decide (head_n b > Z.of_nat LOGSIZE) then panic "undefined: log header too long" else
  mfor (seq 0 (Z.to_nat (head_n b))) (fun i =>
    on_lg (fun l => l <| lhblock ::= insert i (head_block b i) |>)).

Definition write_head : M lstate unit :=
  l ← gets lg;
  b ← on_st (read_block (lstart l));
  on_st (write_block (lstart l) (put_head b (lhn l) (lhblock l))).

Definition recover_from_log : M lstate unit :=
  read_head;;
  install_trans;;
  on_lg (fun l => l <| lhn := 0 |>);;
  write_head.

(** initlog, with the fields of the superblock it reads from block 1. *)
Definition initlog (dev : Z) : M lstate unit :=
  if decide (4 * (1 + Z.of_nat LOGSIZE) >= Z.of_nat BSIZE) then panic "initlog: too big logheader" else
  sb ← on_st (read_block 1);
  on_lg (fun l => l <| lstart := s32 (get32 sb 16) |> <| lsize := s32 (get32 sb 12) |> <| ldev := dev |>);;
  recover_from_log.

Definition begin_op : M lstate unit :=
  l ← gets lg;
  if committing l then sleeps "log" else
  if decide (lhn l + (outstanding l + 1) * MAXOPBLOCKS > Z.of_nat LOGSIZE) then sleeps "log" else
  on_lg (fun l => l <| outstanding := outstanding l + 1 |>).

Definition write_log : M lstate unit :=
  n ← gets (fun s => lhn (lg s));
  mfor (seq 0 (Z.to_nat n)) (fun tail =>
    l ← gets lg;
    on_st (read_block (lstart l + Z.of_nat tail + 1));;
    from ← on_st (read_block (lhblock l !!! tail));
    on_st (write_block (lstart l + Z.of_nat tail + 1) from)).

Definition commit : M lstate unit :=
  n ← gets (fun s => lhn (lg s));
  if decide (n > 0) then
    write_log;;
    write_head;;
    install_trans;;
    on_lg (fun l => l <| lhn := 0 |>);;
    write_head
  else mret tt.

Definition end_op : M lstate unit :=
  on_lg (fun l => l <| outstanding := outstanding l - 1 |>);;
  l ← gets lg;
  if committing l then panic "log.committing" else
  if decide (outstanding l = 0) then
    on_lg (fun l => l <| committing := true |>);;
    commit;;
    on_lg (fun l => l <| committing := false |>)
  else mret tt.

(** The search of log_write for the block in the header. *)
Fixpoint absorb (n : Z) (blocks : list Z) (i : nat) (fuel : nat) : nat :=
  match fuel with
  | O => i
  | S fuel => if decide (blocks !!! i = n) then i else absorb n blocks (S i) fuel
  end.
(** log_write of a buffer of block [n] whose data is now [d]. *)
Definition log_write (n : Z) (d : block_data) : M lstate unit :=
  l ← gets lg;
  if decide (lhn l >= Z.of_nat LOGSIZE \/ lhn l >= lsize l - 1) then panic "too big a transaction" else
  if decide (outstanding l < 1) then panic "log_write outside of trans" else
  let i := absorb n (lhblock l) 0 (Z.to_nat (lhn l)) in
  on_lg (fun l => l <| lhblock ::= insert i n |>);;
  (if decide (Z.of_nat i = lhn l) then on_lg (fun l => l <| lhn := lhn l + 1 |>) else mret tt);;
  on_st (pin_block n d).

(** ** The header *)

Section header.
Implicit Types (b blocks : list Z) (n : Z) (i k : nat).
Definition HEADLEN : nat := 4 + 4 * LOGSIZE.

Definition put_blocks b blocks k : list Z :=
  foldl (fun b i => set32 b (4 + 4 * i) (blocks !!! i)) b (seq 0 k).
Lemma put_blocks_S b blocks k :
  put_blocks b blocks (S k) = set32 (put_blocks b blocks k) (4 + 4 * k) (blocks !!! k).
Proof. unfold put_blocks. by rewrite seq_S, foldl_app. Qed.
Lemma put_blocks_length b blocks k :
  (4 + 4 * k <= length b)%nat -> length (put_blocks b blocks k) = length b.
Proof.
  induction k as [|k IH]; intros Hk; [done|]. rewrite put_blocks_S, set32_length; rewrite IH; lia.
Qed.
Lemma put_blocks_n b blocks k :
  (4 + 4 * k <= length b)%nat -> get32 (put_blocks b blocks k) 0 = get32 b 0.
Proof.
  induction k as [|k IH]; intros Hk; [done|]. rewrite put_blocks_S, get32_set32_ne.
  - apply IH. lia.
  - rewrite put_blocks_length; lia.
  - lia.
Qed.
Lemma put_blocks_get b blocks k i :
  (4 + 4 * k <= length b)%nat -> (i < k)%nat ->
  get32 (put_blocks b blocks k) (4 + 4 * i) = u32 (blocks !!! i).
Proof.
  induction k as [|k IH]; intros Hk Hi; [lia|]. rewrite put_blocks_S.
  destruct (decide (i = k)) as [->|Hne].
  - apply get32_set32. rewrite put_blocks_length; lia.
  - rewrite get32_set32_ne; [apply IH; lia|rewrite put_blocks_length; lia|lia].
Qed.
Lemma put_head_n b n blocks :
  0 <= n <= Z.of_nat LOGSIZE -> (HEADLEN <= length b)%nat -> head_n (put_head b n blocks) = n.
Proof.
  intros Hn Hl. unfold head_n, put_head. fold (put_blocks (set32 b 0 n) blocks (Z.to_nat n)).
  unfold HEADLEN, LOGSIZE in *.
  assert (L : length (set32 b 0 n) = length b) by (apply set32_length; lia).
  rewrite put_blocks_n by lia. rewrite get32_set32 by lia. rewrite s32_u32. apply s32_small. unfold is_s32. lia.
Qed.
Lemma put_head_block b n blocks i :
  0 <= n <= Z.of_nat LOGSIZE -> (HEADLEN <= length b)%nat -> (i < Z.to_nat n)%nat ->
  is_s32 (blocks !!! i) -> head_block (put_head b n blocks) i = blocks !!! i.
Proof.
  intros Hn Hl Hi Hb. unfold head_block, put_head. fold (put_blocks (set32 b 0 n) blocks (Z.to_nat n)).
  unfold HEADLEN, LOGSIZE in *.
  assert (L : length (set32 b 0 n) = length b) by (apply set32_length; lia).
  rewrite put_blocks_get by lia. rewrite s32_u32. by apply s32_small.
Qed.
Lemma put_head_length b n blocks :
  0 <= n <= Z.of_nat LOGSIZE -> (HEADLEN <= length b)%nat -> length (put_head b n blocks) = length b.
Proof.
  intros Hn Hl. unfold put_head. fold (put_blocks (set32 b 0 n) blocks (Z.to_nat n)).
  unfold HEADLEN, LOGSIZE in *.
  assert (L : length (set32 b 0 n) = length b) by (apply set32_length; lia).
  rewrite put_blocks_length; lia.
Qed.
End header.

(** ** The loops as lists of writes *)

Definition wrote (w : list (Z * block_data)) (s : lstate) : lstate := s <| st ::= push_writes w |>.
Lemma wrote_app w1 w2 s : wrote (w1 ++ w2) s = wrote w2 (wrote w1 s).
Proof. unfold wrote. simpl. by rewrite push_writes_app. Qed.
Lemma wrote_nil s : wrote [] s = s.
Proof. unfold wrote. simpl. rewrite push_writes_nil. by destruct s. Qed.

Lemma loop_writes (w : nat -> Z * block_data) (body : nat -> M lstate unit) k s :
  (forall i, (i < k)%nat -> body i (wrote (w <$> seq 0 i) s) = Ok (wrote (w <$> seq 0 (S i)) s, tt)) ->
  mfor (seq 0 k) body s = Ok (wrote (w <$> seq 0 k) s, tt).
Proof.
  intros Hb.
  assert (Hgen : forall m j, (j + m <= k)%nat ->
    mfor (seq j m) body (wrote (w <$> seq 0 j) s) = Ok (wrote (w <$> seq 0 (j + m)) s, tt)).
  { induction m as [|m IH]; intros j Hj; simpl; [by rewrite Nat.add_0_r|].
    rewrite (bind_run _ _ _ _ _ (Hb j ltac:(lia))). rewrite IH by lia. by rewrite Nat.add_succ_r. }
  specialize (Hgen k 0%nat). simpl in Hgen. rewrite wrote_nil in Hgen. by apply Hgen.
Qed.

Section writes.
Implicit Types (s : lstate).
(** The blocks of the transaction, the log's blocks and their contents. *)
Definition txn s : list Z := take (Z.to_nat (lhn (lg s))) (lhblock (lg s)).
Definition slot (start : Z) (i : nat) : Z := start + Z.of_nat i + 1.
Definition log_area (l : log) (n : Z) : Prop := lstart l <= n < lstart l + lsize l.
Definition log_writes s : list (Z * block_data) :=
  (fun i => (slot (lstart (lg s)) i, cur (st s) (lhblock (lg s) !!! i))) <$> seq 0 (Z.to_nat (lhn (lg s))).
Definition home_writes s : list (Z * block_data) :=
  (fun i => (lhblock (lg s) !!! i, cur (st s) (slot (lstart (lg s)) i))) <$> seq 0 (Z.to_nat (lhn (lg s))).
Definition head_write s : Z * block_data :=
  (lstart (lg s), put_head (cur (st s) (lstart (lg s))) (lhn (lg s)) (lhblock (lg s))).

(** The log area holds the transaction, whose blocks are distinct and outside. *)
Record log_ok s : Prop := {
  lo_n : 0 <= lhn (lg s) <= Z.of_nat LOGSIZE;
  lo_fit : lhn (lg s) < lsize (lg s);
  lo_len : length (lhblock (lg s)) = LOGSIZE;
  lo_nodup : NoDup (txn s);
  lo_out : forall n, n ∈ txn s -> ~ log_area (lg s) n;
  lo_range : forall n, n ∈ txn s -> is_s32 n;
  lo_head : (HEADLEN <= length (cur (st s) (lstart (lg s))))%nat;
}.

Lemma txn_lookup s i : log_ok s -> (i < Z.to_nat (lhn (lg s)))%nat -> txn s !! i = Some (lhblock (lg s) !!! i).
Proof.
  intros H Hi. unfold txn. rewrite lookup_take_lt by done.
  destruct (lookup_lt_is_Some_2 (lhblock (lg s)) i) as [x Hx].
  { rewrite (lo_len _ H). pose proof (lo_n _ H). unfold LOGSIZE in *. lia. }
  by rewrite Hx, (list_lookup_total_correct _ _ _ Hx).
Qed.
Lemma txn_in s i : log_ok s -> (i < Z.to_nat (lhn (lg s)))%nat -> lhblock (lg s) !!! i ∈ txn s.
Proof. intros H Hi. eapply list_elem_of_lookup_2. by apply txn_lookup. Qed.
Lemma slot_area s i : log_ok s -> (i < Z.to_nat (lhn (lg s)))%nat -> log_area (lg s) (slot (lstart (lg s)) i).
Proof. intros H Hi. pose proof (lo_n _ H). pose proof (lo_fit _ H). unfold log_area, slot. lia. Qed.
Lemma slot_ne_home s i n :
  log_ok s -> (i < Z.to_nat (lhn (lg s)))%nat -> n ∈ txn s -> n <> slot (lstart (lg s)) i.
Proof. intros H Hi Hn ->. by apply (lo_out _ H _ Hn), slot_area. Qed.
Lemma head_area s : log_ok s -> log_area (lg s) (lstart (lg s)).
Proof. intros H. pose proof (lo_n _ H). pose proof (lo_fit _ H). unfold log_area. lia. Qed.

Lemma keys_log_writes s : (log_writes s).*1 = slot (lstart (lg s)) <$> seq 0 (Z.to_nat (lhn (lg s))).
Proof. unfold log_writes. rewrite <- list_fmap_compose. done. Qed.
Lemma keys_home_writes s : log_ok s -> (home_writes s).*1 = txn s.
Proof.
  intros H. unfold home_writes. rewrite <- list_fmap_compose. apply list_eq. intros i.
  rewrite list_lookup_fmap. destruct (decide (i < Z.to_nat (lhn (lg s)))%nat).
  - rewrite lookup_seq_lt by done. rewrite txn_lookup by done. done.
  - rewrite lookup_seq_ge by lia. unfold txn. symmetry. apply lookup_take_ge. lia.
Qed.

Lemma write_log_eq s : log_ok s -> write_log s = Ok (wrote (log_writes s) s, tt).
Proof.
  intros H. unfold write_log. rewrite (bind_run _ _ s s (lhn (lg s))) by done. cbv beta.
  apply loop_writes. intros i Hi. rewrite seq_S, fmap_app, wrote_app.
  set (s1 := wrote _ s).
  change (lhblock (lg s)) with (lhblock (lg s1)). change (lstart (lg s)) with (lstart (lg s1)).
  assert (Ec : cur (st s1) (lhblock (lg s1) !!! i) = cur (st s) (lhblock (lg s1) !!! i)).
  { unfold s1. simpl. rewrite apply_writes_ne; [done|].
    rewrite <- list_fmap_compose. intros (j & Hj & Hjin)%list_elem_of_fmap. apply elem_of_seq in Hjin.
    simpl in Hj. eapply (slot_ne_home s j); [done|lia| |exact Hj]. by apply txn_in. }
  rewrite list_fmap_singleton, Nat.add_0_l, <- Ec. done.
Qed.
Lemma install_trans_eq s : log_ok s -> install_trans s = Ok (wrote (home_writes s) s, tt).
Proof.
  intros H. unfold install_trans. rewrite (bind_run _ _ s s (lhn (lg s))) by done. cbv beta.
  apply loop_writes. intros i Hi. rewrite seq_S, fmap_app, wrote_app.
  set (s1 := wrote _ s).
  change (lhblock (lg s)) with (lhblock (lg s1)). change (lstart (lg s)) with (lstart (lg s1)).
  assert (Ec : cur (st s1) (slot (lstart (lg s1)) i) = cur (st s) (slot (lstart (lg s1)) i)).
  { unfold s1. simpl. rewrite apply_writes_ne; [done|].
    rewrite <- list_fmap_compose. intros (j & Hj & Hjin)%list_elem_of_fmap. apply elem_of_seq in Hjin.
    simpl in Hj. eapply (slot_ne_home s i); [done|lia| |symmetry; exact Hj]. apply txn_in; [done|lia]. }
  rewrite list_fmap_singleton, Nat.add_0_l, <- Ec. done.
Qed.
Lemma write_head_eq s : write_head s = Ok (wrote [head_write s] s, tt).
Proof. done. Qed.
End writes.

(** ** Commit *)

Section commit.
Implicit Types (s : lstate) (d T : Z -> block_data) (l : log).

Definition head_on s : Z * block_data :=
  (lstart (lg s), put_head (cur (st s) (lstart (lg s))) (lhn (lg s)) (lhblock (lg s))).
Definition installs s : list (Z * block_data) :=
  (fun i => (lhblock (lg s) !!! i, cur (st s) (lhblock (lg s) !!! i))) <$> seq 0 (Z.to_nat (lhn (lg s))).
Definition head_off s : Z * block_data :=
  (lstart (lg s), put_head (head_on s).2 0 (lhblock (lg s))).
(** The disk writes of commit(), in order: log blocks, header, home blocks,
    empty header. *)
Definition commit_writes s : list (Z * block_data) :=
  log_writes s ++ head_on s :: installs s ++ [head_off s].

Lemma keys_installs s : log_ok s -> (installs s).*1 = txn s.
Proof. intros H. rewrite <- keys_home_writes by done. unfold installs, home_writes. by rewrite <- !list_fmap_compose. Qed.
Lemma slots_nodup start k : NoDup (slot start <$> seq 0 k).
Proof. apply NoDup_fmap_2_strong; [|apply NoDup_seq]. unfold slot. intros. lia. Qed.
Lemma slot_start start i : slot start i <> start.
Proof. unfold slot. lia. Qed.
Lemma start_notin_slots start k : start ∉ slot start <$> seq 0 k.
Proof. intros (i & Hi & _)%list_elem_of_fmap. symmetry in Hi. by apply slot_start in Hi. Qed.
Lemma start_notin_txn s : log_ok s -> lstart (lg s) ∉ txn s.
Proof. intros H Hin. by apply (lo_out _ H _ Hin), head_area. Qed.

(** A log block after write_log. *)
Lemma log_writes_slot s d i :
  (i < Z.to_nat (lhn (lg s)))%nat ->
  apply_writes (log_writes s) d (slot (lstart (lg s)) i) = cur (st s) (lhblock (lg s) !!! i).
Proof.
  intros Hi. apply apply_writes_in.
  - rewrite keys_log_writes. apply slots_nodup.
  - apply list_elem_of_fmap. exists i. split; [done|]. apply elem_of_seq. lia.
Qed.
Lemma log_writes_other s d n :
  log_ok s -> (~ log_area (lg s) n \/ n = lstart (lg s)) -> apply_writes (log_writes s) d n = d n.
Proof.
  intros H Hn. apply apply_writes_ne. rewrite keys_log_writes.
  destruct Hn as [Hn| ->]; [|apply start_notin_slots].
  intros (i & -> & Hi)%list_elem_of_fmap. apply elem_of_seq in Hi. apply Hn, slot_area; [done|lia].
Qed.

(** The log's geometry and blocks are those of [s] after writes. *)
Lemma log_ok_wrote s w :
  log_ok s -> (HEADLEN <= length (apply_writes w (cur (st s)) (lstart (lg s))))%nat -> log_ok (wrote w s).
Proof. intros [N F L D O R H] Hl. by split. Qed.

Lemma commit_eq s :
  log_ok s -> 0 < lhn (lg s) ->
  commit s = Ok ((wrote (commit_writes s) s) <| lg ::= fun l => l <| lhn := 0 |> |>, tt).
Proof.
  intros H Hn. unfold commit. rewrite (bind_run _ _ s s (lhn (lg s))) by done. cbv beta.
  rewrite decide_True by lia. rewrite (bind_run _ _ _ _ _ (write_log_eq s H)). cbv beta.
  set (s1 := wrote (log_writes s) s).
  assert (E1 : cur (st s1) (lstart (lg s)) = cur (st s) (lstart (lg s))).
  { unfold s1. simpl. apply log_writes_other; [done|by right]. }
  rewrite (bind_run _ _ _ _ _ (write_head_eq s1)). cbv beta.
  assert (Eh : head_write s1 = head_on s) by (unfold head_write, head_on; by rewrite <- E1).
  rewrite Eh. set (s2 := wrote [head_on s] s1).
  assert (H2 : log_ok s2).
  { apply log_ok_wrote; [apply log_ok_wrote; [done|]|].
    - change (HEADLEN <= length (cur (st s1) (lstart (lg s))))%nat. rewrite E1. apply H.
    - rewrite (apply_writes_in _ _ _ (head_on s).2); [|repeat constructor; set_solver|set_solver].
      simpl. rewrite put_head_length; [apply H..]. }
  rewrite (bind_run _ _ _ _ _ (install_trans_eq s2 H2)). cbv beta.
  assert (Ei : home_writes s2 = installs s).
  { unfold home_writes, installs. apply list_fmap_ext. intros k i Hi. apply lookup_seq in Hi as [-> Hi].
    f_equal. unfold s2. simpl. rewrite fn_lookup_insert_ne by (apply not_eq_sym, slot_start).
    by apply log_writes_slot. }
  rewrite Ei. unfold on_lg, modify, mbind, M_bind. rewrite write_head_eq.
  set (s3 := (wrote (installs s) s2) <| lg ::= _ |>).
  assert (Eo : head_write s3 = head_off s).
  { unfold head_write, head_off. simpl. f_equal. f_equal.
    rewrite apply_writes_ne by (rewrite keys_installs by done; by apply start_notin_txn).
    by rewrite fn_lookup_insert. }
  rewrite Eo. unfold commit_writes, s3, s2, s1. do 2 f_equal.
  change (head_on s :: installs s ++ [head_off s]) with ([head_on s] ++ installs s ++ [head_off s]).
  by rewrite !wrote_app.
Qed.
End commit.

(** ** Crashes *)

Section crash.
Implicit Types (s : lstate) (d T : Z -> block_data) (l : log).

(** The disk [d] has an empty log and the contents [T] in the home blocks. *)
Record clean l d T : Prop := {
  cl_head : head_n (d (lstart l)) = 0;
  cl_len : (HEADLEN <= length (d (lstart l)))%nat;
  cl_home : forall n, ~ log_area l n -> d n = T n;
}.
(** The log of [d] has a transaction that makes the home blocks [T]. *)
Record committed l d T : Prop := {
  cm_n : 0 < head_n (d (lstart l)) <= Z.of_nat LOGSIZE;
  cm_fit : head_n (d (lstart l)) < lsize l;
  cm_len : (HEADLEN <= length (d (lstart l)))%nat;
  cm_nodup : NoDup (head_block (d (lstart l)) <$> seq 0 (Z.to_nat (head_n (d (lstart l)))));
  cm_out : forall i, (i < Z.to_nat (head_n (d (lstart l))))%nat ->
    ~ log_area l (head_block (d (lstart l)) i) /\ d (slot (lstart l) i) = T (head_block (d (lstart l)) i);
  cm_home : forall n, ~ log_area l n ->
    n ∉ (head_block (d (lstart l)) <$> seq 0 (Z.to_nat (head_n (d (lstart l))))) -> d n = T n;
}.
Definition safe l d T : Prop := clean l d T \/ committed l d T.

(** Between transactions of file-system calls: the disk's log is empty and the
    cache differs from the disk in the logged blocks only. *)
Record quiet s : Prop := {
  q_log : log_ok s;
  q_head : head_n (dsk (st s) (lstart (lg s))) = 0;
  q_same : forall n, n ∉ txn s -> cur (st s) n = dsk (st s) n;
}.
Lemma quiet_len s : quiet s -> (HEADLEN <= length (dsk (st s) (lstart (lg s))))%nat.
Proof.
  intros [H _ Hs]. rewrite <- Hs by (by apply start_notin_txn). apply H.
Qed.

Lemma head_on_blocks s :
  log_ok s ->
  head_block (head_on s).2 <$> seq 0 (Z.to_nat (lhn (lg s))) = txn s.
Proof.
  intros H. apply list_eq. intros i. rewrite list_lookup_fmap.
  destruct (decide (i < Z.to_nat (lhn (lg s)))%nat).
  - rewrite lookup_seq_lt by done. rewrite txn_lookup by done. simpl. f_equal.
    apply put_head_block; [apply H..|done|]. apply (lo_range _ H). by apply txn_in.
  - rewrite lookup_seq_ge by lia. unfold txn. symmetry. apply lookup_take_ge. lia.
Qed.
Lemma head_on_len s : log_ok s -> (HEADLEN <= length (head_on s).2)%nat.
Proof. intros H. unfold head_on. cbn [snd]. rewrite put_head_length; apply H. Qed.
Lemma prefix_notin {A B} (w p : list (A * B)) (n : A) : p `prefix_of` w -> n ∉ w.*1 -> n ∉ p.*1.
Proof. intros [k ->]. rewrite fmap_app. set_solver. Qed.

(** Before the header is written nothing has happened. *)
Lemma crash_log s p :
  quiet s -> p `prefix_of` log_writes s -> clean (lg s) (apply_writes p (dsk (st s))) (dsk (st s)).
Proof.
  intros Hq Hp. pose proof (q_log _ Hq) as H.
  assert (Hk : forall n, (~ log_area (lg s) n \/ n = lstart (lg s)) -> apply_writes p (dsk (st s)) n = dsk (st s) n).
  { intros n Hn. apply apply_writes_ne. eapply prefix_notin; [done|]. rewrite keys_log_writes.
    destruct Hn as [Hn| ->]; [|apply start_notin_slots].
    intros (i & -> & Hi)%list_elem_of_fmap. apply elem_of_seq in Hi. apply Hn, slot_area; [done|lia]. }
  split; [rewrite Hk by auto; apply Hq|rewrite Hk by auto; by apply quiet_len|auto].
Qed.
(** The disk once the header is written and some of the home blocks. *)
Definition mid_disk s p : Z -> block_data :=
  apply_writes p (<[lstart (lg s) := (head_on s).2]> (apply_writes (log_writes s) (dsk (st s)))).
Lemma crash_mid_start s p :
  log_ok s -> p `prefix_of` installs s -> mid_disk s p (lstart (lg s)) = (head_on s).2.
Proof.
  intros H Hp. unfold mid_disk. rewrite apply_writes_ne; [apply fn_lookup_insert|].
  eapply prefix_notin; [done|]. rewrite keys_installs by done. by apply start_notin_txn.
Qed.
Lemma crash_mid s p :
  quiet s -> 0 < lhn (lg s) -> p `prefix_of` installs s -> committed (lg s) (mid_disk s p) (cur (st s)).
Proof.
  intros Hq Hn Hp. pose proof (q_log _ Hq) as H. pose proof (lo_n _ H) as Hn2.
  pose proof (crash_mid_start s p H Hp) as E.
  assert (En : head_n (head_on s).2 = lhn (lg s)) by (apply put_head_n; apply H).
  split; rewrite E, ?En.
  - lia.
  - apply H.
  - by apply head_on_len.
  - rewrite head_on_blocks by done. apply H.
  - intros i Hi.
    assert (Eb : head_block (head_on s).2 i = lhblock (lg s) !!! i).
    { apply put_head_block; [apply H..|done|]. apply (lo_range _ H). by apply txn_in. }
    rewrite Eb. split; [apply (lo_out _ H); by apply txn_in|].
    unfold mid_disk. rewrite apply_writes_ne.
    + rewrite fn_lookup_insert_ne by (apply not_eq_sym, slot_start). by apply log_writes_slot.
    + eapply prefix_notin; [done|]. rewrite keys_installs by done. intros Hin.
      by eapply (slot_ne_home s i).
  - rewrite head_on_blocks by done. intros n Hn1 Hn3. unfold mid_disk. rewrite apply_writes_ne.
    + rewrite fn_lookup_insert_ne by (intros <-; by apply Hn1, head_area).
      rewrite log_writes_other by auto. symmetry. by apply Hq.
    + eapply prefix_notin; [done|]. by rewrite keys_installs.
Qed.
(** Whatever the home blocks were, commit leaves the current contents. *)
Lemma commit_home s d n :
  log_ok s -> (n ∉ txn s -> d n = cur (st s) n) -> ~ log_area (lg s) n ->
  apply_writes (commit_writes s) d n = cur (st s) n.
Proof.
  intros H Hd Hn. unfold commit_writes.
  rewrite apply_writes_app. change (head_on s :: ?l) with ([head_on s] ++ l).
  rewrite !apply_writes_app. change (apply_writes [?p] ?d) with (<[p.1 := p.2]> d). simpl.
  assert (Hs : lstart (lg s) <> n) by (intros <-; by apply Hn, head_area).
  rewrite fn_lookup_insert_ne by done. destruct (decide (n ∈ txn s)) as [Hin|Hin].
  - apply apply_writes_in; [rewrite keys_installs by done; apply H|].
    apply list_elem_of_lookup in Hin as [i Hi].
    assert (Hlt : (i < Z.to_nat (lhn (lg s)))%nat).
    { apply lookup_lt_Some in Hi. unfold txn in Hi. rewrite length_take in Hi. lia. }
    rewrite txn_lookup in Hi by done. simplify_eq. apply list_elem_of_fmap. exists i.
    split; [done|]. apply elem_of_seq. lia.
  - rewrite apply_writes_ne by (by rewrite keys_installs). rewrite fn_lookup_insert_ne by done.
    rewrite log_writes_other by auto. auto.
Qed.
(** At the end the transaction is installed and the log is empty. *)
Lemma crash_end s :
  quiet s ->
  clean (lg s) (apply_writes (commit_writes s) (dsk (st s))) (cur (st s)).
Proof.
  intros Hq. pose proof (q_log _ Hq) as H.
  assert (Es : apply_writes (commit_writes s) (dsk (st s)) (lstart (lg s)) = (head_off s).2).
  { unfold commit_writes. rewrite apply_writes_app. change (head_on s :: ?l) with ([head_on s] ++ l).
    rewrite !apply_writes_app. apply fn_lookup_insert. }
  split; rewrite ?Es.
  - apply put_head_n; [lia|]. by apply head_on_len.
  - unfold head_off. cbn [snd]. rewrite put_head_length; [by apply head_on_len|lia|by apply head_on_len].
  - intros n Hn. apply commit_home; [done| |done]. intros Hin. symmetry. by apply Hq.
Qed.
End crash.

(** ** Recovery *)

Definition insert_all {A} (f : nat -> A) (k : nat) (l : list A) : list A :=
  foldl (fun l i => <[i := f i]> l) l (seq 0 k).
Lemma insert_all_S {A} (f : nat -> A) k l : insert_all f (S k) l = <[k := f k]> (insert_all f k l).
Proof. unfold insert_all. by rewrite seq_S, foldl_app. Qed.
Lemma insert_all_length {A} (f : nat -> A) k l : length (insert_all f k l) = length l.
Proof. induction k; [done|]. by rewrite insert_all_S, length_insert. Qed.
Lemma insert_all_lookup {A} (f : nat -> A) k l i :
  (i < k)%nat -> (k <= length l)%nat -> insert_all f k l !! i = Some (f i).
Proof.
  induction k as [|k IH]; intros Hi Hk; [lia|]. rewrite insert_all_S.
  destruct (decide (i = k)) as [->|Hne].
  - apply list_lookup_insert_eq. rewrite insert_all_length. lia.
  - rewrite list_lookup_insert_ne by done. apply IH; lia.
Qed.

Section recovery.
Implicit Types (s r : lstate) (d T : Z -> block_data) (l : log).

(** The state after read_head. *)
Definition loaded s : lstate :=
  let b := cur (st s) (lstart (lg s)) in
  s <| lg ::= fun l => l <| lhn := head_n b |>
                        <| lhblock ::= insert_all (head_block b) (Z.to_nat (head_n b)) |> |>.
Lemma read_head_eq s :
  head_n (cur (st s) (lstart (lg s))) <= Z.of_nat LOGSIZE -> read_head s = Ok (loaded s, tt).
Proof.
  intros Hn. unfold read_head, mbind, M_bind, gets, on_st, zoom, read_block, gets, on_lg, modify.
  cbv beta iota. set (b := cur (st s) (lstart (lg s))) in *.
  rewrite decide_False by lia. set (s0 := _ <| lg ::= _ |>).
  assert (Hgen : forall m j s1, 
    mfor (seq j m) (fun i s => Ok (s <| lg ::= fun l => l <| lhblock ::= insert i (head_block b i) |> |>, tt)) s1 =
    Ok (s1 <| lg ::= fun l => l <| lhblock ::= fun x =>
          foldl (fun x i => <[i := head_block b i]> x) x (seq j m) |> |>, tt)).
  { induction m as [|m IH]; intros j s1; simpl; [by destruct s1 as [? []]|].
    unfold mbind, M_bind. rewrite IH. done. }
  rewrite Hgen. done.
Qed.

(** The machine after a crash with the disk [d]: an empty cache, and the log's
    place from the superblock. *)
Record booted l d r : Prop := {
  bt_cur : cur (st r) = d;
  bt_dsk : dsk (st r) = d;
  bt_start : lstart (lg r) = lstart l;
  bt_size : lsize (lg r) = lsize l;
  bt_len : length (lhblock (lg r)) = LOGSIZE;
}.
Lemma loaded_block l d r i :
  booted l d r -> (i < Z.to_nat (head_n (d (lstart l))))%nat -> head_n (d (lstart l)) <= Z.of_nat LOGSIZE ->
  lhblock (lg (loaded r)) !!! i = head_block (d (lstart l)) i.
Proof.
  intros [E1 E2 E3 E4 E5] Hi Hn. unfold loaded. simpl. rewrite E1, E3.
  apply list_lookup_total_correct, insert_all_lookup; [done|]. rewrite E5. unfold LOGSIZE in *. lia.
Qed.
Lemma loaded_txn l d r :
  booted l d r -> head_n (d (lstart l)) <= Z.of_nat LOGSIZE ->
  txn (loaded r) = head_block (d (lstart l)) <$> seq 0 (Z.to_nat (head_n (d (lstart l)))).
Proof.
  intros B Hn. apply list_eq. intros i. rewrite list_lookup_fmap. unfold txn.
  assert (En : lhn (lg (loaded r)) = head_n (d (lstart l))).
  { unfold loaded. simpl. by rewrite (bt_cur _ _ _ B), (bt_start _ _ _ B). }
  rewrite En. destruct (decide (i < Z.to_nat (head_n (d (lstart l))))%nat).
  - rewrite lookup_take_lt, lookup_seq_lt by done. simpl. rewrite <- (loaded_block l d r) by done.
    apply list_lookup_lookup_total_lt. unfold loaded. simpl. rewrite insert_all_length, (bt_len _ _ _ B).
    unfold LOGSIZE in *. lia.
  - rewrite lookup_seq_ge by lia. apply lookup_take_ge. lia.
Qed.
Definition recover_writes r : list (Z * block_data) :=
  home_writes (loaded r) ++
  [(lstart (lg r), put_head (cur (st r) (lstart (lg r))) 0 (lhblock (lg (loaded r))))].
Lemma recover_eq r :
  log_ok (loaded r) -> head_n (cur (st r) (lstart (lg r))) <= Z.of_nat LOGSIZE ->
  recover_from_log r = Ok ((wrote (recover_writes r) (loaded r)) <| lg ::= fun l => l <| lhn := 0 |> |>, tt).
Proof.
  intros H Hn. unfold recover_from_log. rewrite (bind_run _ _ _ _ _ (read_head_eq r Hn)). cbv beta.
  rewrite (bind_run _ _ _ _ _ (install_trans_eq _ H)). cbv beta.
  unfold mbind, M_bind, on_lg at 1, modify. rewrite write_head_eq. unfold recover_writes.
  rewrite wrote_app. do 2 f_equal. unfold head_write. simpl.
  rewrite apply_writes_ne; [done|]. rewrite keys_home_writes by done. by apply (start_notin_txn (loaded r)).
Qed.
Lemma committed_log_ok l d T r :
  booted l d r -> committed l d T -> log_ok (loaded r).
Proof.
  intros B [N F L D O Hm]. pose proof (loaded_txn l d r B ltac:(lia)) as Et.
  pose proof B as [E1 E2 E3 E4 E5].
  split; rewrite ?Et; unfold loaded; simpl; rewrite ?E1, ?E3, ?E4; try done; [lia| | |].
  - by rewrite insert_all_length.
  - intros n (i & -> & Hi)%list_elem_of_fmap. apply elem_of_seq in Hi.
    unfold log_area in *. simpl. rewrite ?E3, ?E4. apply O. lia.
  - intros n (i & -> & Hi)%list_elem_of_fmap. apply s32_range.
Qed.

Lemma clean_log_ok l d T r : booted l d r -> clean l d T -> 0 < lsize l -> log_ok (loaded r).
Proof.
  intros B [N L Hm] Hsz. assert (Hn : head_n (d (lstart l)) <= Z.of_nat LOGSIZE) by (rewrite N; lia).
  pose proof (loaded_txn l d r B Hn) as Et. rewrite N in Et. simpl in Et.
  pose proof B as [E1 E2 E3 E4 E5].
  split; rewrite ?Et; unfold loaded; simpl; rewrite ?E1, ?E3, ?E4, ?N; try done; try set_solver.
  constructor.
Qed.
Lemma clean_no_home l d T r : booted l d r -> clean l d T -> home_writes (loaded r) = [].
Proof.
  intros [E1 _ E3 _ _] C. unfold home_writes, loaded. simpl. rewrite E1, E3. by destruct C as [-> _ _].
Qed.
(** The home writes of recovery are the transaction of the log. *)
Lemma recover_home l d T r :
  booted l d r -> committed l d T ->
  home_writes (loaded r) =
    (fun i => (head_block (d (lstart l)) i, T (head_block (d (lstart l)) i)))
      <$> seq 0 (Z.to_nat (head_n (d (lstart l)))).
Proof.
  intros B C. pose proof B as [E1 E2 E3 E4 E5]. unfold home_writes.
  assert (En : lhn (lg (loaded r)) = head_n (d (lstart l))) by (unfold loaded; simpl; by rewrite E1, E3).
  rewrite En. apply list_fmap_ext. intros k i Hi. apply lookup_seq in Hi as [-> Hi]. simpl in *.
  rewrite (loaded_block l d r) by (done || apply C). f_equal.
  rewrite E1, E3. by apply (cm_out _ _ _ C).
Qed.

(** Some of the home blocks are installed: still committed. *)
Lemma committed_prefix l d T w :
  committed l d T -> log_area l (lstart l) ->
  w `prefix_of` ((fun i => (head_block (d (lstart l)) i, T (head_block (d (lstart l)) i)))
      <$> seq 0 (Z.to_nat (head_n (d (lstart l))))) ->
  committed l (apply_writes w d) T.
Proof.
  intros [N F L D O Hm] Ha Hw.
  set (B := head_block (d (lstart l)) <$> seq 0 (Z.to_nat (head_n (d (lstart l))))) in *.
  assert (Hk : forall n, n ∉ B -> apply_writes w d n = d n).
  { intros n Hn. apply apply_writes_ne. eapply prefix_notin; [done|]. by rewrite <- list_fmap_compose. }
  assert (HB : forall n, n ∈ B -> ~ log_area l n).
  { intros n (i & -> & Hi)%list_elem_of_fmap. apply elem_of_seq in Hi. apply O. lia. }
  assert (Es : apply_writes w d (lstart l) = d (lstart l)) by (apply Hk; intros Hin; by apply HB in Hin).
  split; rewrite Es; try done.
  - intros i Hi. split; [by apply O|]. rewrite Hk; [by apply O|]. intros Hin. apply HB in Hin. apply Hin.
    unfold log_area, slot. lia.
  - intros n Hn Hin. rewrite Hk by done. by apply Hm.
Qed.
(** All are, and the header is cleared. *)
Lemma committed_done l d T blocks :
  committed l d T -> log_area l (lstart l) ->
  clean l (<[lstart l := put_head (d (lstart l)) 0 blocks]>
    (apply_writes ((fun i => (head_block (d (lstart l)) i, T (head_block (d (lstart l)) i)))
      <$> seq 0 (Z.to_nat (head_n (d (lstart l))))) d)) T.
Proof.
  intros [N F L D O Hm] Ha. split.
  - rewrite fn_lookup_insert. apply put_head_n; [lia|done].
  - rewrite fn_lookup_insert, put_head_length; [done|lia|done].
  - intros n Hn. rewrite fn_lookup_insert_ne by (intros <-; done).
    destruct (decide (n ∈ head_block (d (lstart l)) <$> seq 0 (Z.to_nat (head_n (d (lstart l)))))) as [Hin|Hin].
    + apply apply_writes_in; [by rewrite <- list_fmap_compose|].
      apply list_elem_of_fmap in Hin as (i & -> & Hi). apply list_elem_of_fmap. eauto.
    + rewrite apply_writes_ne by (by rewrite <- list_fmap_compose). by apply Hm.
Qed.

(** What recovery does from a safe disk, crashes included. *)
Lemma recover_safe l d T r :
  booted l d r -> safe l d T -> 0 < lsize l ->
  exists r', recover_from_log r = Ok (r', tt) /\
    dsk (st r') = apply_writes (recover_writes r) d /\ cur (st r') = dsk (st r') /\
    clean l (dsk (st r')) T /\ lhn (lg r') = 0 /\
    forall w, w `prefix_of` recover_writes r -> safe l (apply_writes w d) T.
Proof.
  intros B S Hsz. pose proof B as [E1 E2 E3 E4 E5].
  assert (Ha : log_area l (lstart l)) by (unfold log_area; lia).
  assert (Hok : log_ok (loaded r)) by (destruct S; [by eapply clean_log_ok|by eapply committed_log_ok]).
  assert (Hn : head_n (cur (st r) (lstart (lg r))) <= Z.of_nat LOGSIZE).
  { rewrite E1, E3. destruct S as [[-> _ _]|C]; [unfold LOGSIZE; lia|apply C]. }
  rewrite recover_eq by done. eexists. split; [done|]. simpl. rewrite E1, E2.
  split; [done|]. split; [done|].
  unfold recover_writes. rewrite E1, E3. set (blocks := lhblock _).
  assert (Hend : clean l (apply_writes (home_writes (loaded r) ++ [(lstart l, put_head (d (lstart l)) 0 blocks)]) d) T).
  { rewrite apply_writes_app. destruct S as [C|C].
    - rewrite (clean_no_home l d T) by done. destruct C as [C1 C2 C3]. split; simpl.
      + rewrite fn_lookup_insert. apply put_head_n; [lia|done].
      + rewrite fn_lookup_insert, put_head_length; [done|lia|done].
      + intros n Hn1. rewrite fn_lookup_insert_ne by (intros <-; done). auto.
    - rewrite (recover_home l d T) by done. by apply committed_done. }
  split; [done|]. split; [done|]. intros w Hw.
  apply prefix_app_inv in Hw as [Hw|(w' & -> & Hw)].
  - destruct S as [C|C].
    + rewrite (clean_no_home l d T) in Hw by done. apply prefix_nil_inv in Hw as ->. by left.
    + right. rewrite (recover_home l d T) in Hw by done. by apply committed_prefix.
  - destruct w' as [|x w'].
    + rewrite app_nil_r. destruct S as [C|C].
      * rewrite (clean_no_home l d T) by done. by left.
      * right. rewrite (recover_home l d T) by done. by apply committed_prefix.
    + assert (x = (lstart l, put_head (d (lstart l)) 0 blocks)) as -> by (by eapply prefix_cons_inv_1).
      apply prefix_cons_inv_2, prefix_nil_inv in Hw as ->. by left.
Qed.
End recovery.

(** ** Transactions *)

Section transactions.
Implicit Types (s : lstate) (n : Z).

Lemma absorb_spec n blocks fuel : forall i,
  let j := absorb n blocks i fuel in
  (i <= j <= i + fuel)%nat /\ (forall k, (i <= k < j)%nat -> blocks !!! k <> n) /\
  ((j < i + fuel)%nat -> blocks !!! j = n).
Proof.
  induction fuel as [|fuel IH]; intros i; simpl; [split; [lia|]; split; lia|].
  case_decide as Hd; [split; [lia|]; split; [lia|done]|].
  destruct (IH (S i)) as (H1 & H2 & H3). split; [lia|]. split.
  - intros k Hk. destruct (decide (k = i)) as [->|]; [done|]. apply H2. lia.
  - intros Hj. apply H3. lia.
Qed.
(** The transaction with block [n] in it. *)
Definition add_block n (t : list Z) : list Z := if decide (n ∈ t) then t else t ++ [n].

Lemma log_write_eq s n d :
  log_ok s -> lhn (lg s) < Z.of_nat LOGSIZE -> lhn (lg s) < lsize (lg s) - 1 -> 1 <= outstanding (lg s) ->
  exists s', log_write n d s = Ok (s', tt) /\ txn s' = add_block n (txn s) /\
    st s' = (st s) <| cur ::= insert n d |> /\ length (lhblock (lg s')) = LOGSIZE /\
    lhn (lg s') = Z.of_nat (length (txn s')) /\
    lstart (lg s') = lstart (lg s) /\ lsize (lg s') = lsize (lg s) /\
    outstanding (lg s') = outstanding (lg s) /\ committing (lg s') = committing (lg s).
Proof.
  intros H Hn Hs Ho. pose proof (lo_n _ H) as H0. pose proof (lo_len _ H) as Hl.
  unfold log_write. rewrite (bind_run _ _ s s (lg s)) by done. cbv beta.
  rewrite decide_False by lia. rewrite decide_False by lia. cbv zeta.
  destruct (absorb_spec n (lhblock (lg s)) (Z.to_nat (lhn (lg s))) 0) as (A1 & A2 & A3).
  set (j := absorb n (lhblock (lg s)) 0 (Z.to_nat (lhn (lg s)))) in *.
  assert (Hlt : length (txn s) = Z.to_nat (lhn (lg s))).
  { unfold txn. rewrite length_take, Hl. unfold LOGSIZE in *. lia. }
  unfold mbind, M_bind, on_lg, modify, on_st, zoom, pin_block, modify.
  destruct (decide (Z.of_nat j = lhn (lg s))) as [Hj|Hj].
  - eexists. split; [done|]. unfold txn. simpl.
    assert (Hno : n ∉ txn s).
    { intros [k Hk]%list_elem_of_lookup. assert (Hkl : (k < Z.to_nat (lhn (lg s)))%nat) by (apply lookup_lt_Some in Hk; lia).
      rewrite txn_lookup in Hk by done. simplify_eq. eapply (A2 k); [lia|done]. }
    assert (Et : take (Z.to_nat (lhn (lg s) + 1)) (<[j := n]> (lhblock (lg s))) = add_block n (txn s)).
    { unfold add_block. rewrite decide_False by done. unfold txn.
      replace (Z.to_nat (lhn (lg s) + 1)) with (S j) by lia.
      rewrite (take_S_r _ _ n) by (apply list_lookup_insert_eq; rewrite Hl; unfold LOGSIZE in *; lia).
      rewrite take_insert_ge by lia. f_equal. f_equal. lia. }
    rewrite Et. rewrite length_insert. split; [done|]. split; [done|]. split; [done|].
    split; [|done]. unfold add_block. rewrite decide_False by done. rewrite length_app. simpl. lia.
  - eexists. split; [done|]. unfold txn. simpl.
    assert (Hjl : (j < Z.to_nat (lhn (lg s)))%nat) by lia.
    assert (Ej : lhblock (lg s) !!! j = n) by (apply A3; lia).
    assert (Hin : n ∈ txn s) by (rewrite <- Ej; by apply txn_in).
    assert (Ei : <[j := n]> (lhblock (lg s)) = lhblock (lg s)).
    { apply list_insert_id. rewrite <- Ej. apply list_lookup_lookup_total_lt. rewrite Hl. unfold LOGSIZE in *. lia. }
    rewrite Ei. fold (txn s). unfold add_block. rewrite decide_True by done.
    split; [done|]. split; [done|]. split; [done|]. split; [lia|done].
Qed.
(** Logging a home block keeps the state quiet. *)
Lemma log_write_quiet s n d :
  quiet s -> lhn (lg s) < Z.of_nat LOGSIZE -> lhn (lg s) < lsize (lg s) - 1 -> 1 <= outstanding (lg s) ->
  ~ log_area (lg s) n -> is_s32 n ->
  wp (log_write n d) (fun _ s' => quiet s' /\ txn s' = add_block n (txn s) /\
    cur (st s') = <[n := d]> (cur (st s)) /\ dsk (st s') = dsk (st s)) s.
Proof.
  intros Hq Hn Hs Ho Ha Hr. pose proof (q_log _ Hq) as H.
  destruct (log_write_eq s n d) as (s' & Hw & Et & Es & El & En & E1 & E2 & E3 & E4); [done..|].
  unfold wp. rewrite Hw.
  assert (Hlen : Z.of_nat (length (txn s')) <= lhn (lg s) + 1).
  { rewrite Et. unfold add_block. assert (length (txn s) <= Z.to_nat (lhn (lg s)))%nat.
    { unfold txn. rewrite length_take. lia. }
    pose proof (lo_n _ H). case_decide; [lia|]. rewrite length_app. simpl. lia. }
  assert (Hh : lstart (lg s) <> n) by (intros <-; by apply Ha, head_area).
  assert (Hok : log_ok s').
  { split; rewrite ?En, ?E1, ?E2; try done; try lia; rewrite ?Et.
    - unfold add_block. case_decide as Hin; [apply H|]. apply NoDup_app. split; [apply H|].
      split; [|repeat constructor; set_solver]. intros x Hx ->%list_elem_of_singleton. done.
    - intros x. unfold add_block, log_area. rewrite E1, E2.
      case_decide; [apply H|]. intros [Hx|Hx%list_elem_of_singleton]%elem_of_app; [by apply H|by subst].
    - intros x. unfold add_block.
      case_decide; [apply H|]. intros [Hx|Hx%list_elem_of_singleton]%elem_of_app; [by apply H|by subst].
    - rewrite Es. simpl. rewrite fn_lookup_insert_ne by done. apply H. }
  split; [|by rewrite Es]. split; [done| |].
  - rewrite E1, Es. simpl. apply Hq.
  - intros m Hm. rewrite Es. simpl.
    assert (m <> n /\ m ∉ txn s) as [Hm1 Hm2].
    { rewrite Et in Hm. unfold add_block in Hm. case_decide; set_solver. }
    rewrite fn_lookup_insert_ne by done. by apply Hq.
Qed.
End transactions.

(** ** Log space

    The store steps leave struct log alone. *)
Section space.
Implicit Types (s : lstate) (n : Z).
Definition keeps_lg {A} (m : M lstate A) : Prop := forall s, wlp m (fun _ s' => lg s' = lg s) s.
Lemma keeps_on_st {A} (m : M store A) : keeps_lg (on_st m).
Proof. intros s. unfold wlp, on_st, zoom. by destruct (m (st s)) as [[]| |]. Qed.
Lemma lkeeps_bind {A B} (m : M lstate A) (f : A -> M lstate B) :
  keeps_lg m -> (forall a, keeps_lg (f a)) -> keeps_lg (mbind f m).
Proof.
  intros Hm Hf s. apply wlp_bind. eapply wlp_mono; [apply Hm|]. simpl. intros a s1 E1.
  eapply wlp_mono; [apply Hf|]. simpl. congruence.
Qed.
Lemma lkeeps_gets {A} (f : lstate -> A) : keeps_lg (gets f).
Proof. by intros s. Qed.
Lemma keeps_mfor {A} (l : list A) (body : A -> M lstate unit) :
  (forall x, keeps_lg (body x)) -> keeps_lg (mfor l body).
Proof. intros Hb. induction l; simpl; [by intros s|]. by apply lkeeps_bind. Qed.
Lemma keeps_write_log : keeps_lg write_log.
Proof.
  apply lkeeps_bind; [apply lkeeps_gets|]. intros n. apply keeps_mfor. intros i.
  repeat (apply lkeeps_bind; [apply lkeeps_gets || apply keeps_on_st|intros ?]). apply keeps_on_st.
Qed.
Lemma keeps_install_trans : keeps_lg install_trans.
Proof.
  apply lkeeps_bind; [apply lkeeps_gets|]. intros n. apply keeps_mfor. intros i.
  repeat (apply lkeeps_bind; [apply lkeeps_gets || apply keeps_on_st|intros ?]). apply keeps_on_st.
Qed.
Lemma keeps_write_head : keeps_lg write_head.
Proof. repeat (apply lkeeps_bind; [apply lkeeps_gets || apply keeps_on_st|intros ?]). apply keeps_on_st. Qed.
Lemma wlp_commit s :
  wlp commit (fun _ s' => lg s' = if decide (lhn (lg s) > 0) then (lg s) <| lhn := 0 |> else lg s) s.
Proof.
  unfold commit. wlp_run. destruct (decide (lhn (lg s) > 0)) as [H|H]; [|by apply wlp_ret].
  apply wlp_bind. eapply wlp_mono; [apply keeps_write_log|]. simpl. intros _ s1 E1.
  apply wlp_bind. eapply wlp_mono; [apply keeps_write_head|]. simpl. intros _ s2 E2.
  apply wlp_bind. eapply wlp_mono; [apply keeps_install_trans|]. simpl. intros _ s3 E3.
  apply wlp_bind, wlp_modify. eapply wlp_mono; [apply keeps_write_head|]. simpl. intros _ s4 ->.
  simpl. by rewrite E3, E2, E1.
Qed.

(** File-system calls in progress, each with the number of blocks it may still
    log. *)
Inductive op_step : relation (lstate * list nat) :=
| op_begin s s' bs : begin_op s = Ok (s', tt) -> op_step (s, bs) (s', Z.to_nat MAXOPBLOCKS :: bs)
| op_write s s' bs1 b bs2 n d :
    log_write n d s = Ok (s', tt) -> op_step (s, bs1 ++ S b :: bs2) (s', bs1 ++ b :: bs2)
| op_end s s' bs1 b bs2 :
    end_op s = Ok (s', tt) -> op_step (s, bs1 ++ b :: bs2) (s', bs1 ++ bs2).
Record space_inv (size : Z) (p : lstate * list nat) : Prop := {
  sp_out : outstanding (lg p.1) = Z.of_nat (length p.2);
  sp_lo : 0 <= lhn (lg p.1);
  sp_hi : lhn (lg p.1) + Z.of_nat (sum_list p.2) <= Z.of_nat LOGSIZE;
  sp_size : lsize (lg p.1) = size;
  sp_each : Forall (fun b => b <= Z.to_nat MAXOPBLOCKS)%nat p.2;
}.
Lemma begin_op_ok s s' :
  begin_op s = Ok (s', tt) ->
  s' = s <| lg ::= fun l => l <| outstanding := outstanding l + 1 |> |> /\
  lhn (lg s) + (outstanding (lg s) + 1) * MAXOPBLOCKS <= Z.of_nat LOGSIZE.
Proof. unfold begin_op. intros H. inv_ok. unfold on_lg in H. apply modify_ok in H. split; [done|lia]. Qed.
Lemma log_write_ok s s' n d :
  log_write n d s = Ok (s', tt) ->
  outstanding (lg s') = outstanding (lg s) /\ lsize (lg s') = lsize (lg s) /\
  lhn (lg s) <= lhn (lg s') <= lhn (lg s) + 1.
Proof.
  unfold log_write, mbind, M_bind, gets. do 2 (case_decide; [done|]). unfold on_lg, modify, mret, M_ret.
  case_decide; unfold on_st, zoom, pin_block, modify; intros ?; simplify_eq/=; lia.
Qed.
Lemma end_op_ok s s' :
  end_op s = Ok (s', tt) ->
  outstanding (lg s') = outstanding (lg s) - 1 /\ lsize (lg s') = lsize (lg s) /\
  (0 <= lhn (lg s) -> 0 <= lhn (lg s') <= lhn (lg s)).
Proof.
  unfold end_op, mbind, M_bind, gets, on_lg, modify, mret, M_ret. simpl. destruct (committing (lg s)); [done|].
  case_decide; [|intros; simplify_eq/=; split; [done|]; split; [done|lia]].
  match goal with |- context [commit ?x] => pose proof (wlp_commit x) as Hw; destruct (commit x) as [[s1 []]| |] eqn:Hc end;
    [|done..].
  unfold wlp in Hw. rewrite Hc in Hw. intros ?; simplify_eq/=. rewrite Hw.
  case_decide; simpl; split; try done; split; try done; lia.
Qed.
Lemma sum_bound bs k : Forall (fun b => b <= k)%nat bs -> (sum_list bs <= length bs * k)%nat.
Proof. induction 1; simpl; lia. Qed.
Lemma space_step size p q : space_inv size p -> op_step p q -> space_inv size q.
Proof.
  intros [O L H Z B] Hs. destruct Hs as [s s' bs Hb|s s' bs1 b bs2 n d Hw|s s' bs1 b bs2 He]; simpl in *.
  - apply begin_op_ok in Hb as [-> Hb]. apply sum_bound in B as B2. unfold MAXOPBLOCKS in *.
    split; simpl; [lia..|done|]. by constructor.
  - apply log_write_ok in Hw as (E1 & E2 & E3). apply Forall_app in B as [B1 B2]. inversion_clear B2.
    rewrite length_app, sum_list_with_app in *. simpl in *.
    split; simpl; rewrite ?length_app, ?sum_list_with_app; simpl; [lia..|].
    apply Forall_app. split; [done|]. constructor; [lia|done].
  - apply end_op_ok in He as (E1 & E2 & E3). apply Forall_app in B as [B1 B2]. inversion_clear B2.
    rewrite length_app, sum_list_with_app in *. simpl in *.
    split; simpl; rewrite ?length_app, ?sum_list_with_app; simpl; [lia..|]. by apply Forall_app.
Qed.
End space.

(** ** Properties *)

Section props.
Implicit Types (s r : lstate) (d T : Z -> block_data) (l : log).

(** C1: commit is atomic.  Wherever a crash stops the disk writes of commit(),
    booting with an empty cache and recovering gives home blocks that are all
    as before the transaction, or all as after it. *)
Theorem commit_crash_atomic s :
  quiet s -> 0 < lhn (lg s) ->
  exists s' W, commit s = Ok (s', tt) /\ wlog (st s') = wlog (st s) ++ W /\
    (forall n, ~ log_area (lg s) n -> dsk (st s') n = cur (st s) n) /\
    forall w r, w `prefix_of` W -> booted (lg s) (apply_writes w (dsk (st s))) r ->
      exists r', recover_from_log r = Ok (r', tt) /\
        ((forall n, ~ log_area (lg s) n -> dsk (st r') n = dsk (st s) n) \/
         (forall n, ~ log_area (lg s) n -> dsk (st r') n = cur (st s) n)).
Proof.
  intros Hq Hn. pose proof (q_log _ Hq) as H. pose proof (lo_n _ H). pose proof (lo_fit _ H).
  rewrite commit_eq by done. eexists _, (commit_writes s). split; [done|]. split; [done|].
  split; [apply (crash_end s Hq)|]. intros w r Hw B.
  assert (Hs : safe (lg s) (apply_writes w (dsk (st s))) (dsk (st s)) \/
               safe (lg s) (apply_writes w (dsk (st s))) (cur (st s))).
  { unfold commit_writes in Hw. apply prefix_app_inv in Hw as [Hw|(w' & -> & Hw)].
    - left. left. by apply crash_log.
    - destruct w' as [|x w']; [left; left; rewrite app_nil_r; by apply crash_log|].
      right. assert (x = head_on s) as -> by (by eapply prefix_cons_inv_1).
      apply prefix_cons_inv_2, prefix_app_inv in Hw as [Hw|(w2 & -> & Hw)].
      + right. rewrite apply_writes_app. by apply (crash_mid s w').
      + destruct w2 as [|y w2].
        * right. rewrite app_nil_r, apply_writes_app. by apply (crash_mid s (installs s)).
        * assert (y = head_off s) as -> by (by eapply prefix_cons_inv_1).
          apply prefix_cons_inv_2, prefix_nil_inv in Hw as ->. left. by apply crash_end. }
  destruct Hs as [Hs|Hs]; destruct (recover_safe _ _ _ r B Hs ltac:(lia)) as (r' & Hr & _ & _ & C & _);
    exists r'; (split; [done|]); [left|right]; apply C.
Qed.

(** C6: recovery may itself be interrupted any number of times: from a disk
    that is clean or holds a committed transaction, recovery returns with an
    empty log and the home blocks [T], and wherever a crash stops its writes
    the disk is again one from which recovery gives [T]. *)
Theorem recovery_repeatable l d T r :
  booted l d r -> safe l d T -> 0 < lsize l ->
  exists r' W, recover_from_log r = Ok (r', tt) /\ wlog (st r') = wlog (st r) ++ W /\
    clean l (dsk (st r')) T /\ cur (st r') = dsk (st r') /\
    forall w, w `prefix_of` W -> safe l (apply_writes w d) T.
Proof.
  intros B S Hsz. destruct (recover_safe l d T r B S Hsz) as (r' & Hr & _ & Hc & C & _ & Hw).
  exists r', (recover_writes r). split; [done|]. split; [|by split].
  assert (Hn : head_n (cur (st r) (lstart (lg r))) <= Z.of_nat LOGSIZE).
  { rewrite (bt_cur _ _ _ B), (bt_start _ _ _ B). destruct S as [[-> _ _]|C2]; [unfold LOGSIZE; lia|apply C2]. }
  rewrite recover_eq in Hr; [by simplify_eq| |done].
  destruct S; [by eapply clean_log_ok|by eapply committed_log_ok].
Qed.

(** Logging a home block inside a call absorbs a block that the
    transaction already has and appends a new one; the cache sees the new
    contents, the disk nothing, and the state stays between commits. *)
Theorem log_write_absorbs s n v :
  quiet s -> lhn (lg s) < Z.of_nat LOGSIZE -> lhn (lg s) < lsize (lg s) - 1 -> 1 <= outstanding (lg s) ->
  ~ log_area (lg s) n -> is_s32 n ->
  exists s', log_write n v s = Ok (s', tt) /\ quiet s' /\
    txn s' = (if decide (n ∈ txn s) then txn s else txn s ++ [n]) /\
    cur (st s') = <[n := v]> (cur (st s)) /\ dsk (st s') = dsk (st s).
Proof.
  intros Hq H1 H2 H3 H4 H5. pose proof (log_write_quiet s n v Hq H1 H2 H3 H4 H5) as Hw.
  apply wp_ok in Hw as (s' & [] & Hw & Hq' & Ht & Hc & Hd). eauto 10.
Qed.

(** The end of the last call in progress commits: the home blocks of the
    disk are the current ones, the transaction is empty and the log is ready
    for the next call. *)
Theorem end_op_commits s :
  quiet s -> outstanding (lg s) = 1 -> committing (lg s) = false ->
  exists s', end_op s = Ok (s', tt) /\ outstanding (lg s') = 0 /\ committing (lg s') = false /\
    lhn (lg s') = 0 /\
    (forall n, ~ log_area (lg s) n -> dsk (st s') n = cur (st s) n /\ cur (st s') n = cur (st s) n).
Proof.
  intros Hq Ho Hc. pose proof (q_log _ Hq) as H.
  unfold end_op, mbind, M_bind, gets, on_lg, modify. simpl. rewrite Hc, Ho. simpl.
  match goal with |- context [commit ?x] => set (s1 := x) end.
  assert (Hq1 : quiet s1) by (destruct Hq as [H1 H2 H3]; split; [by destruct H1; split|done|done]).
  destruct (decide (0 < lhn (lg s1))) as [Hn|Hn].
  - rewrite commit_eq by (done || apply Hq1). eexists. split; [done|]. simpl.
    split; [done|]. split; [done|]. split; [done|]. intros n Ha.
    split; apply (commit_home s1); [apply Hq1| |done|apply Hq1|done|done].
    intros Hin. symmetry. by apply Hq1.
  - eexists. unfold commit. rewrite (bind_run _ _ s1 s1 (lhn (lg s1))) by done. cbv beta.
    rewrite decide_False by lia. split; [done|]. simpl. pose proof (lo_n _ H). simpl in Hn.
    split; [done|]. split; [done|]. split; [lia|]. intros n _. split; [|done]. symmetry. apply Hq.
    unfold txn. replace (lhn (lg s)) with 0 by lia. set_solver.
Qed.

(** With a log of more than LOGSIZE blocks the reservation of begin_op is
    enough: in every state reached by calls that log at most MAXOPBLOCKS
    blocks each, a call that has not used up its share can log any block. *)
Theorem reservation_suffices s0 s bs1 b bs2 n v :
  outstanding (lg s0) = 0 -> lhn (lg s0) = 0 -> Z.of_nat LOGSIZE < lsize (lg s0) ->
  rtc op_step (s0, []) (s, bs1 ++ S b :: bs2) ->
  exists s', log_write n v s = Ok (s', tt).
Proof.
  intros Ho Hn Hs Hr.
  assert (HI : space_inv (lsize (lg s0)) (s, bs1 ++ S b :: bs2)).
  { eapply rtc_invariant; [|intros ? ?; apply space_step|exact Hr].
    split; simpl; rewrite ?Hn; try done. }
  destruct HI as [O L H Z _]. simpl in *. rewrite length_app, sum_list_with_app in *. simpl in *.
  unfold log_write. rewrite (bind_run _ _ s s (lg s)) by done. cbv beta.
  rewrite decide_False by lia. rewrite decide_False by lia.
  unfold mbind, M_bind, on_lg, modify. case_decide; eexists; done.
Qed.

(** The log as mkfs lays it out: nlog = LOGSIZE blocks from block 2. *)
Definition log_boot : lstate :=
  mkls (mkstore (fun _ => replicate BSIZE 0) (fun _ => replicate BSIZE 0) [])
       (mklog 2 (Z.of_nat LOGSIZE) 0 false 1 0 (replicate LOGSIZE 0)).
End props.

(** *** Examples *)
Definition log_big : lstate := log_boot <| lg ::= fun l => l <| lsize := 31 |> |>.
Definition log_open : lstate := exec begin_op log_boot.
Definition log_one : lstate := exec (log_write 100 (replicate BSIZE 7)) log_open.
Lemma quiet_log_open : quiet log_open.
Proof.
  assert (Ht : txn log_open = []) by (vm_compute; reflexivity).
  split; [split|..]; rewrite ?Ht.
  - vm_compute. split; discriminate.
  - vm_compute. reflexivity.
  - vm_compute. reflexivity.
  - constructor.
  - intros n Hn. by apply not_elem_of_nil in Hn.
  - intros n Hn. by apply not_elem_of_nil in Hn.
  - apply Nat.leb_le. vm_compute. reflexivity.
  - vm_compute. reflexivity.
  - intros n _. reflexivity.
Qed.
Lemma home_100 : ~ log_area (lg log_open) 100.
Proof. vm_compute. intros [_ H]. discriminate H. Qed.
Lemma quiet_log_one : quiet log_one.
Proof.
  apply (wp_exec (log_write 100 (replicate BSIZE 7)) quiet log_open).
  eapply wp_mono; [apply log_write_quiet; [exact quiet_log_open|vm_compute; reflexivity|vm_compute; reflexivity|
    vm_compute; discriminate|exact home_100|vm_compute; split; [discriminate|reflexivity]]|].
  by intros _ s' [H _].
Qed.
Lemma log_write_absorbs_witness :
  exists s', log_write 100 (replicate BSIZE 7) log_open = Ok (s', tt) /\ quiet s' /\ txn s' = [100].
Proof.
  destruct (log_write_absorbs log_open 100 (replicate BSIZE 7) quiet_log_open) as (s' & H1 & H2 & H3 & _).
  - vm_compute. reflexivity.
  - vm_compute. reflexivity.
  - vm_compute. discriminate.
  - exact home_100.
  - vm_compute. split; [discriminate|reflexivity].
  - exists s'. split; [exact H1|]. split; [exact H2|]. rewrite H3. vm_compute. reflexivity.
Defined.
Lemma commit_crash_atomic_witness :
  exists s' W, commit log_one = Ok (s', tt) /\ wlog (st s') = [] ++ W /\
    dsk (st s') 100 = cur (st log_one) 100.
Proof.
  destruct (commit_crash_atomic log_one quiet_log_one) as (s' & W & H1 & H2 & H3 & _).
  - vm_compute. reflexivity.
  - exists s', W. split; [exact H1|]. split; [exact H2|]. apply H3. vm_compute. intros [_ H]. discriminate H.
Defined.
Lemma end_op_commits_witness :
  exists s', end_op log_one = Ok (s', tt) /\ lhn (lg s') = 0.
Proof.
  destruct (end_op_commits log_one quiet_log_one) as (s' & H1 & _ & _ & H2 & _).
  - vm_compute. reflexivity.
  - vm_compute. reflexivity.
  - exists s'. split; [exact H1|exact H2].
Defined.
Lemma recovery_repeatable_witness :
  exists r' W, recover_from_log log_boot = Ok (r', tt) /\ wlog (st r') = [] ++ W.
Proof.
  destruct (recovery_repeatable (lg log_boot) (dsk (st log_boot)) (dsk (st log_boot)) log_boot)
    as (r' & W & H1 & H2 & _).
  - split; reflexivity.
  - left. split; [vm_compute; reflexivity| |reflexivity]. apply Nat.leb_le. vm_compute. reflexivity.
  - vm_compute. reflexivity.
  - exists r', W. split; [exact H1|exact H2].
Defined.
Lemma reservation_suffices_witness :
  exists s', log_write 5 [] (exec begin_op log_big) = Ok (s', tt).
Proof.
  apply (reservation_suffices log_big (exec begin_op log_big) [] 9 [] 5 []).
  - reflexivity.
  - reflexivity.
  - vm_compute. reflexivity.
  - apply rtc_once, (op_begin log_big). vm_compute. reflexivity.
Defined.
