(* ===== verification/Fs.v ===== *)
(** The file system (fs.c): block allocator, inodes, file contents,
    directories and path names.

    [fs] has the current contents of the blocks of the root device, as the
    block layer shows them ([cur] of Blocks.v), the blocks the running call has
    logged, the inode cache and the superblock.  A [struct inode *] is an index
    into the cache.  Where the code takes a buffer, changes its data and calls
    log_write before brelse, the model reads the block and logs the changed
    contents; Log.v models what log_write does with them. *)
From S2P Require Import Prelude Sleeplock Cstring.

Definition BSIZE : nat := 512.
Definition BPB : Z := 4096.
Definition IPB : Z := 8.
Definition ROOTDEV : Z := 1.
Definition ROOTINO : Z := 1.
Definition NINODE : nat := 50.
Definition NDIRECT : nat := 12.
Definition NINDIRECT : nat := 128.
Definition MAXFILE : nat := NDIRECT + NINDIRECT.
Definition NDEV : Z := 10.
Definition DIRSIZ : nat := 14.
Definition DIRENT : Z := 16.
Definition T_DIR : Z := 1.
Definition T_FILE : Z := 2.
Definition T_DEV : Z := 3.

Record superblock := mksb {
  sb_size : Z; sb_nblocks : Z; sb_ninodes : Z; sb_nlog : Z; sb_logstart : Z;
  sb_inodestart : Z; sb_bmapstart : Z }.
(** The fields of struct inode; [iaddrs] has NDIRECT+1 entries. *)
Record inode := mkinode {
  idev : Z; inum : Z; iref : Z; ilk : sleeplock; ivalid : bool;
  itype : Z; imajor : Z; iminor : Z; inlink : Z; isize : Z; iaddrs : list Z }.
#[export] Instance eta_inode : Eta inode := fun i =>
  mkinode (idev i) (inum i) (iref i) (ilk i) (ivalid i) (itype i) (imajor i) (iminor i)
    (inlink i) (isize i) (iaddrs i).
Definition inode_zero : inode :=
  mkinode 0 0 0 initsleeplock false 0 0 0 0 0 (replicate (S NDIRECT) 0).
#[export] Instance inode_inhabited : Inhabited inode := populate inode_zero.

Record fs := mkfs {
  blocks : Z -> list Z; logged : list Z; icache : list inode; sb : superblock }.
#[export] Instance eta_fs : Eta fs := fun s => mkfs (blocks s) (logged s) (icache s) (sb s).

(** ** Blocks *)

Definition bread (dev n : Z) : M fs (list Z) :=
  if decide (dev = ROOTDEV) then gets (fun s => blocks s n) else panic "iderw: no such disk".
Definition log_write (n : Z) (d : list Z) : M fs unit :=
  modify (fun s => s <| blocks ::= insert n d |>
                     <| logged ::= fun l => if decide (n ∈ l) then l else l ++ [n] |>).

Definition decode_sb (b : list Z) : superblock :=
  mksb (get32 b 0) (get32 b 4) (get32 b 8) (get32 b 12) (get32 b 16) (get32 b 20) (get32 b 24).
Definition readsb (dev : Z) : M fs superblock := b ← bread dev 1; mret (decode_sb b).

Definition bzero (dev bno : Z) : M fs unit :=
  bread dev bno;; log_write bno (replicate BSIZE 0).

Definition BBLOCK (b : Z) (sb : superblock) : Z := b / BPB + sb_bmapstart sb.
Definition IBLOCK (i : Z) (sb : superblock) : Z := i / IPB + sb_inodestart sb.

(** Bit [bi] of a bitmap block. *)
Definition bit_mask (bi : nat) : Z := Z.shiftl 1 (Z.of_nat (bi mod 8)).
Definition bit_free (d : list Z) (bi : nat) : bool := bool_decide (Z.land (d !!! (bi / 8)%nat) (bit_mask bi) = 0).
Definition bit_mark (d : list Z) (bi : nat) : list Z :=
  <[(bi / 8)%nat := u8 (Z.lor (d !!! (bi / 8)%nat) (bit_mask bi))]> d.
Definition bit_clear (d : list Z) (bi : nat) : list Z :=
  <[(bi / 8)%nat := u8 (Z.land (d !!! (bi / 8)%nat) (Z.lnot (bit_mask bi)))]> d.

(** The loop of balloc over the bitmap blocks, from block number [b]. *)
Fixpoint balloc_from (dev : Z) (fuel : nat) (b : Z) : M fs Z :=
  match fuel with
  | O => panic "balloc: out of blocks"
  | S fuel =>
      s ← gets sb;
      if decide (b >= sb_size s) then panic "balloc: out of blocks" else
      bp ← bread dev (BBLOCK b s);
      match find (bit_free bp) (seq 0 (Z.to_nat (Z.min BPB (sb_size s - b)))) with
      | Some bi =>
          log_write (BBLOCK b s) (bit_mark bp bi);;
          bzero dev (b + Z.of_nat bi);;
          mret (b + Z.of_nat bi)
      | None => balloc_from dev fuel (b + BPB)
      end
  end.
Definition balloc (dev : Z) : M fs Z :=
  s ← gets sb;
  balloc_from dev (S (Z.to_nat (sb_size s / BPB))) 0.

Definition bfree (dev b : Z) : M fs unit :=
  s ← gets sb;
  bp ← bread dev (BBLOCK b s);
  let bi := Z.to_nat (b mod BPB) in
  if bit_free bp bi then panic "freeing free block" else
  log_write (BBLOCK b s) (bit_clear bp bi).

(** ** Inodes *)

(** The on-disk inode at byte [o] of its block. *)
Definition get_type (b : list Z) (o : nat) : Z := s16 (get16 b o).
Definition get_addrs (b : list Z) (o : nat) : list Z :=
  (fun k => get32 b (o + 12 + 4 * k)) <$> seq 0 (S NDIRECT).
Definition put_addrs (b : list Z) (o : nat) (a : list Z) : list Z :=
  splice b (o + 12) (mjoin (le_enc 4 <$> a)).
Definition dinode_at (inum : Z) : nat := 64 * Z.to_nat (inum mod IPB).
Definition put_dinode (b : list Z) (o : nat) (ip : inode) : list Z :=
  let b := set16 b o (itype ip) in
  let b := set16 b (o + 2) (imajor ip) in
  let b := set16 b (o + 4) (iminor ip) in
  let b := set16 b (o + 6) (inlink ip) in
  let b := set32 b (o + 8) (isize ip) in
  put_addrs b o (iaddrs ip).
Definition get_dinode (b : list Z) (o : nat) (ip : inode) : inode :=
  ip <| itype := get_type b o |> <| imajor := s16 (get16 b (o + 2)) |>
     <| iminor := s16 (get16 b (o + 4)) |> <| inlink := s16 (get16 b (o + 6)) |>
     <| isize := get32 b (o + 8) |> <| iaddrs := get_addrs b o |>.

Definition geti (i : nat) : M fs inode := gets (fun s => icache s !!! i).
Definition seti (i : nat) (f : inode -> inode) : M fs unit :=
  modify (fun s => s <| icache ::= alter f i |>).

Definition iinit (dev : Z) : M fs unit :=
  mfor (seq 0 NINODE) (fun i => seti i (fun ip => ip <| ilk := initsleeplock |>));;
  s ← readsb dev;
  modify (fun t => t <| sb := s |>).

Definition iget (dev n : Z) : M fs nat :=
  l ← gets icache;
  match list_find (fun ip => iref ip > 0 /\ idev ip = dev /\ inum ip = n) l with
  | Some (i, _) => seti i (fun ip => ip <| iref := s32 (iref ip + 1) |>);; mret i
  | None =>
      match list_find (fun ip => iref ip = 0) l with
      | None => panic "iget: no inodes"
      | Some (i, _) =>
          seti i (fun ip => ip <| idev := dev |> <| inum := n |> <| iref := 1 |> <| ivalid := false |>);;
          mret i
      end
  end.

(** ialloc's loop over the inode numbers, from [n]. *)
Fixpoint ialloc_from (dev type : Z) (fuel : nat) (n : Z) : M fs nat :=
  match fuel with
  | O => panic "ialloc: no inodes"
  | S fuel =>
      s ← gets sb;
      if decide (n >= sb_ninodes s) then panic "ialloc: no inodes" else
      bp ← bread dev (IBLOCK n s);
      let o := dinode_at n in
      if decide (get_type bp o = 0) then
        log_write (IBLOCK n s) (set16 (splice bp o (replicate 64 0)) o type);;
        iget dev n
      else ialloc_from dev type fuel (n + 1)
  end.
Definition ialloc (dev type : Z) : M fs nat :=
  s ← gets sb;
  ialloc_from dev type (Z.to_nat (sb_ninodes s)) 1.

Definition iupdate (i : nat) : M fs unit :=
  ip ← geti i;
  s ← gets sb;
  bp ← bread (idev ip) (IBLOCK (inum ip) s);
  log_write (IBLOCK (inum ip) s) (put_dinode bp (dinode_at (inum ip)) ip).

Definition idup (i : nat) : M fs nat :=
  seti i (fun ip => ip <| iref := s32 (iref ip + 1) |>);; mret i.

Section calls.
(** The process that runs: its pid and its current directory; and the device
    switch: the read and write functions of a major number. *)
Context (me : Z) (cwd : nat).
Context (devread : Z -> option (nat -> Z -> M fs (Z * list Z))).
Context (devwrite : Z -> option (nat -> list Z -> M fs Z)).

Definition lock_inode (i : nat) : M fs unit :=
  ip ← geti i;
  match acquiresleep me (ilk ip) with
  | None => sleeps "inode"
  | Some l => seti i (fun ip => ip <| ilk := l |>)
  end.
Definition unlock_inode (i : nat) : M fs unit := seti i (fun ip => ip <| ilk := releasesleep |>).

Definition ilock (i : nat) : M fs unit :=
  ip ← geti i;
  if decide (iref ip < 1) then panic "ilock" else
  lock_inode i;;
  ip ← geti i;
  if ivalid ip then mret tt else
  s ← gets sb;
  bp ← bread (idev ip) (IBLOCK (inum ip) s);
  seti i (get_dinode bp (dinode_at (inum ip)));;
  seti i (fun ip => ip <| ivalid := true |>);;
  ip ← geti i;
  if decide (itype ip = 0) then panic "ilock: no type" else mret tt.

Definition iunlock (i : nat) : M fs unit :=
  ip ← geti i;
  if negb (holdingsleep me (ilk ip)) || bool_decide (iref ip < 1) then panic "iunlock" else
  unlock_inode i.

(** ** File contents *)

Definition bmap (i : nat) (bn : Z) : M fs Z :=
  ip ← geti i;
  if decide (bn < Z.of_nat NDIRECT) then
    let addr := iaddrs ip !!! Z.to_nat bn in
    if decide (addr = 0) then
      addr ← balloc (idev ip);
      seti i (fun ip => ip <| iaddrs ::= insert (Z.to_nat bn) addr |>);;
      mret addr
    else mret addr
  else
    let bn := bn - Z.of_nat NDIRECT in
    if decide (bn < Z.of_nat NINDIRECT) then
      addr ← (let addr := iaddrs ip !!! NDIRECT in
              if decide (addr = 0) then
                addr ← balloc (idev ip);
                seti i (fun ip => ip <| iaddrs ::= insert NDIRECT addr |>);;
                mret addr
              else mret addr);
      bp ← bread (idev ip) addr;
      let a := get32 bp (4 * Z.to_nat bn) in
      if decide (a = 0) then
        a ← balloc (idev ip);
        log_write addr (set32 bp (4 * Z.to_nat bn) a);;
        mret a
      else mret a
    else panic "bmap: out of range".

Definition itrunc (i : nat) : M fs unit :=
  mfor (seq 0 NDIRECT) (fun k =>
    ip ← geti i;
    let a := iaddrs ip !!! k in
    if decide (a = 0) then mret tt else
    bfree (idev ip) a;;
    seti i (fun ip => ip <| iaddrs ::= insert k 0 |>));;
  ip ← geti i;
  (let a := iaddrs ip !!! NDIRECT in
   if decide (a = 0) then mret tt else
   bp ← bread (idev ip) a;
   mfor (seq 0 NINDIRECT) (fun j =>
     let b := get32 bp (4 * j) in
     if decide (b = 0) then mret tt else bfree (idev ip) b);;
   bfree (idev ip) a;;
   seti i (fun ip => ip <| iaddrs ::= insert NDIRECT 0 |>));;
  seti i (fun ip => ip <| isize := 0 |>);;
  iupdate i.

Definition iput (i : nat) : M fs unit :=
  lock_inode i;;
  ip ← geti i;
  (if ivalid ip && bool_decide (inlink ip = 0) then
     if decide (iref ip = 1) then
       itrunc i;;
       seti i (fun ip => ip <| itype := 0 |>);;
       iupdate i;;
       seti i (fun ip => ip <| ivalid := false |>)
     else mret tt
   else mret tt);;
  unlock_inode i;;
  seti i (fun ip => ip <| iref := s32 (iref ip - 1) |>).
Definition iunlockput (i : nat) : M fs unit := iunlock i;; iput i.

Record stat := mkstat { st_type : Z; st_dev : Z; st_ino : Z; st_nlink : Z; st_size : Z }.
Definition stati (i : nat) : M fs stat :=
  ip ← geti i; mret (mkstat (itype ip) (s32 (idev ip)) (inum ip) (inlink ip) (isize ip)).

(** The loop of readi: [n] bytes are left from [off]; the bytes read. *)
Fixpoint readi_loop (fuel : nat) (i : nat) (off n : Z) : M fs (list Z) :=
  match fuel with
  | O => mret []
  | S fuel =>
      if decide (n <= 0) then mret [] else
      ip ← geti i;
      b ← bmap i (off / Z.of_nat BSIZE);
      bp ← bread (idev ip) b;
      let m := Z.min n (Z.of_nat BSIZE - off mod Z.of_nat BSIZE) in
      rest ← readi_loop fuel i (off + m) (n - m);
      mret (slice bp (Z.to_nat (off mod Z.of_nat BSIZE)) (Z.to_nat m) ++ rest)
  end.
(** The number of turns: one per block touched. *)
Definition turns (n : Z) : nat := S (S (Z.to_nat (n / Z.of_nat BSIZE))).
Definition readi (i : nat) (off n : Z) : M fs (Z * list Z) :=
  ip ← geti i;
  if decide (itype ip = T_DEV) then
    match (if decide (imajor ip < 0 \/ imajor ip >= NDEV) then None else devread (imajor ip)) with
    | None => mret (-1, [])
    | Some rd => rd i n
    end
  else
  if decide (off > isize ip \/ u32 (off + n) < off) then mret (-1, []) else
  let n := if decide (off + n > isize ip) then isize ip - off else n in
  bs ← readi_loop (turns n) i off n;
  mret (n, bs).

(** The loop of writei: the bytes still to write; the offset it ends at. *)
Fixpoint writei_loop (fuel : nat) (i : nat) (off : Z) (src : list Z) : M fs Z :=
  match fuel with
  | O => mret off
  | S fuel =>
      match src with
      | [] => mret off
      | _ =>
          ip ← geti i;
          b ← bmap i (off / Z.of_nat BSIZE);
          bp ← bread (idev ip) b;
          let m := Z.to_nat (Z.min (Z.of_nat (length src)) (Z.of_nat BSIZE - off mod Z.of_nat BSIZE)) in
          log_write b (splice bp (Z.to_nat (off mod Z.of_nat BSIZE)) (take m src));;
          writei_loop fuel i (off + Z.of_nat m) (drop m src)
      end
  end.
Definition writei (i : nat) (src : list Z) (off : Z) : M fs Z :=
  let n := Z.of_nat (length src) in
  ip ← geti i;
  if decide (itype ip = T_DEV) then
    match (if decide (imajor ip < 0 \/ imajor ip >= NDEV) then None else devwrite (imajor ip)) with
    | None => mret (-1)
    | Some wr => wr i src
    end
  else
  if decide (off > isize ip \/ u32 (off + n) < off) then mret (-1) else
  if decide (off + n > Z.of_nat (MAXFILE * BSIZE)) then mret (-1) else
  off' ← writei_loop (turns n) i off src;
  ip ← geti i;
  (if bool_decide (n > 0 /\ off' > isize ip) then
     seti i (fun ip => ip <| isize := off' |>);; iupdate i
   else mret tt);;
  mret n.

(** ** Directories *)

(** Two strings in one memory, for the string routines. *)
Definition two (s t : list Z) : mem := fun x =>
  if decide (x < 1000) then default 0 (s !! Z.to_nat x) else default 0 (t !! Z.to_nat (x - 1000)).
Definition namecmp (s t : list Z) : Z := string_c.strncmp (two s t) 0 1000 DIRSIZ.
(** strncpy(de.name, name, DIRSIZ) *)
Definition dirname (name : list Z) : list Z :=
  bytes_at (string_c.strncpy (two [] name) 0 1000 DIRSIZ) 0 DIRSIZ.
Definition de_inum (de : list Z) : Z := get16 de 0.
Definition de_name (de : list Z) : list Z := drop 2 de.
Definition mkdirent (n : Z) (name : list Z) : list Z := le_enc 2 n ++ dirname name.

(** dirlookup's loop from [off]: the inode and the offset of the entry. *)
Fixpoint dirlookup_from (fuel : nat) (dp : nat) (name : list Z) (off : Z) : M fs (option (nat * Z)) :=
  match fuel with
  | O => mret None
  | S fuel =>
      d ← geti dp;
      if decide (off >= isize d) then mret None else
      r ← readi dp off DIRENT;
      if decide (r.1 <> DIRENT) then panic "dirlookup read" else
      let de := r.2 in
      if decide (de_inum de <> 0 /\ namecmp name (de_name de) = 0) then
        ip ← iget (idev d) (de_inum de);
        mret (Some (ip, off))
      else dirlookup_from fuel dp name (u32 (off + DIRENT))
  end.
Definition dirlookup (dp : nat) (name : list Z) : M fs (option (nat * Z)) :=
  d ← geti dp;
  if decide (itype d <> T_DIR) then panic "dirlookup not DIR" else
  dirlookup_from (S (Z.to_nat (isize d / DIRENT))) dp name 0.

(** dirlink's search for an empty entry. *)
Fixpoint dirlink_slot (fuel : nat) (dp : nat) (off : Z) : M fs Z :=
  match fuel with
  | O => mret off
  | S fuel =>
      d ← geti dp;
      if decide (off >= isize d) then mret off else
      r ← readi dp off DIRENT;
      if decide (r.1 <> DIRENT) then panic "dirlink read" else
      if decide (de_inum r.2 = 0) then mret off else dirlink_slot fuel dp (off + DIRENT)
  end.
Definition dirlink (dp : nat) (name : list Z) (n : Z) : M fs Z :=
  r ← dirlookup dp name;
  match r with
  | Some (ip, _) => iput ip;; mret (-1)
  | None =>
      d ← geti dp;
      off ← dirlink_slot (S (Z.to_nat (isize d / DIRENT))) dp 0;
      w ← writei dp (mkdirent n name) off;
      if decide (w <> DIRENT) then panic "dirlink" else mret 0
  end.

(** ** Paths *)

Definition SLASH : Z := 47.
Fixpoint skip_slashes (p : list Z) : list Z :=
  match p with
  | c :: p' => if decide (c = SLASH) then skip_slashes p' else p
  | [] => []
  end.
(** The element at the front of [p] and what follows it. *)
Fixpoint elem_end (p : list Z) : list Z * list Z :=
  match p with
  | c :: p' => if decide (c = SLASH) then ([], p) else let r := elem_end p' in (c :: r.1, r.2)
  | [] => ([], [])
  end.
(** A path is its characters before the NUL; [None] is the null pointer. *)
Definition skipelem (path : list Z) : option (list Z * list Z) :=
  match skip_slashes path with
  | [] => None
  | p => let r := elem_end p in
         Some ((if decide (DIRSIZ <= length r.1)%nat then take DIRSIZ r.1 else r.1), skip_slashes r.2)
  end.

(** namex's loop: the inode reached, with the last element for nameiparent. *)
Fixpoint namex_loop (fuel : nat) (ip : nat) (path : list Z) (parent : bool) (name : list Z) :
    M fs (option (nat * list Z)) :=
  match fuel with
  | O => mret None
  | S fuel =>
      match skipelem path with
      | None => if parent then iput ip;; mret None else mret (Some (ip, name))
      | Some (name, path) =>
          ilock ip;;
          d ← geti ip;
          if decide (itype d <> T_DIR) then iunlockput ip;; mret None else
          if parent && bool_decide (path = []) then iunlock ip;; mret (Some (ip, name)) else
          r ← dirlookup ip name;
          match r with
          | None => iunlockput ip;; mret None
          | Some (next, _) => iunlockput ip;; namex_loop fuel next path parent name
          end
      end
  end.
Definition namex (path : list Z) (parent : bool) : M fs (option (nat * list Z)) :=
  ip ← (match path with
        | c :: _ => if decide (c = SLASH) then iget ROOTDEV ROOTINO else idup cwd
        | [] => idup cwd
        end);
  namex_loop (S (length path)) ip path parent [].
Definition namei (path : list Z) : M fs (option nat) :=
  r ← namex path false; mret (fst <$> r).
Definition nameiparent (path : list Z) : M fs (option (nat * list Z)) := namex path true.
End calls.
