(* ===== verification/FsFacts.v ===== *)
(** The block allocator of Fs.v against the set of free blocks, and the
    encoding of inodes on disk. *)
From S2P Require Import Prelude Sleeplock Cstring Fs.

(** ** The bitmap *)

Section bits.
Implicit Types (d : list Z) (bi bj : nat).

Lemma land_mask x k : 0 <= k -> Z.land x (Z.shiftl 1 k) = 0 <-> Z.testbit x k = false.
Proof.
  intros Hk. split.
  - intros H. destruct (Z.testbit x k) eqn:E; [|done].
    assert (Hb : Z.testbit (Z.land x (Z.shiftl 1 k)) k = true).
    { rewrite Z.land_spec, Z.shiftl_spec, Z.sub_diag, E by lia. done. }
    by rewrite H, Z.bits_0 in Hb.
  - intros H. apply Z.bits_inj_0. intros j. rewrite Z.land_spec.
    destruct (decide (0 <= j)); [|by rewrite Z.testbit_neg_r by lia].
    rewrite Z.shiftl_spec by done. destruct (decide (j = k)) as [->|Hj]; [by rewrite H|].
    destruct (decide (j < k)); [rewrite (Z.testbit_neg_r 1) by lia; apply andb_false_r|].
    rewrite (Z.bits_above_log2 1) by (simpl; lia). apply andb_false_r.
Qed.
Lemma bit_free_testbit d bi :
  bit_free d bi = negb (Z.testbit (d !!! (bi / 8)%nat) (Z.of_nat (bi mod 8))).
Proof.
  unfold bit_free, bit_mask. destruct (Z.testbit _ _) eqn:E; cbn [negb].
  - apply bool_decide_false. rewrite land_mask by lia. by rewrite E.
  - apply bool_decide_true. by apply land_mask; [lia|].
Qed.
Lemma u8_testbit x k : 0 <= k < 8 -> Z.testbit (u8 x) k = Z.testbit x k.
Proof. intros Hk. unfold u8. apply Z.mod_pow2_bits_low. lia. Qed.
Lemma mask_testbit bi k : 0 <= k -> Z.testbit (bit_mask bi) k = bool_decide (k = Z.of_nat (bi mod 8)).
Proof.
  intros Hk. unfold bit_mask. rewrite Z.shiftl_spec by done.
  destruct (Z.lt_trichotomy k (Z.of_nat (bi mod 8))) as [H|[->|H]].
  - rewrite (Z.testbit_neg_r 1) by lia. by rewrite bool_decide_false by lia.
  - rewrite Z.sub_diag. by rewrite bool_decide_true.
  - rewrite (Z.bits_above_log2 1) by (rewrite ?Z.log2_1; lia). by rewrite bool_decide_false by lia.
Qed.
Lemma bit_index bi bj : (bi / 8 = bj / 8)%nat -> (bi mod 8 = bj mod 8)%nat -> bi = bj.
Proof. intros. rewrite (Nat.div_mod_eq bi 8), (Nat.div_mod_eq bj 8). congruence. Qed.

(** Updating byte [bi/8] with [g], which sets bit [k] to [v k]. *)
Lemma bit_update d bi bj x v :
  (bi / 8 < length d)%nat ->
  (forall k, 0 <= k < 8 -> Z.testbit x k = if decide (k = Z.of_nat (bi mod 8)) then v
                                       else Z.testbit (d !!! (bi / 8)%nat) k) ->
  bit_free (<[(bi / 8)%nat := u8 x]> d) bj = if decide (bi = bj) then negb v else bit_free d bj.
Proof.
  intros Hl Hx. rewrite !bit_free_testbit.
  assert (Hm : forall n, 0 <= Z.of_nat (n mod 8) < 8).
  { intros n. pose proof (Nat.mod_upper_bound n 8). lia. }
  destruct (decide (bi / 8 = bj / 8)%nat) as [E|E].
  - rewrite <- E, list_lookup_total_insert_eq by done. rewrite u8_testbit, Hx by done.
    case_decide as Hk.
    + rewrite decide_True; [done|]. apply bit_index; [done|]. lia.
    + rewrite decide_False; [done|]. intros ->. done.
  - rewrite list_lookup_total_insert_ne by done. rewrite decide_False; [done|]. intros ->. done.
Qed.
Lemma bit_mark_free d bi bj :
  (bi / 8 < length d)%nat ->
  bit_free (bit_mark d bi) bj = if decide (bi = bj) then false else bit_free d bj.
Proof.
  intros Hl. unfold bit_mark. rewrite (bit_update d bi bj _ true); [done|done|].
  intros k Hk. rewrite Z.lor_spec, mask_testbit by lia. case_decide as E.
  - subst k. rewrite bool_decide_true by done. apply orb_true_r.
  - rewrite bool_decide_false by done. apply orb_false_r.
Qed.
Lemma bit_clear_free d bi bj :
  (bi / 8 < length d)%nat ->
  bit_free (bit_clear d bi) bj = if decide (bi = bj) then true else bit_free d bj.
Proof.
  intros Hl. unfold bit_clear. rewrite (bit_update d bi bj _ false); [done|done|].
  intros k Hk. rewrite Z.land_spec, Z.lnot_spec, mask_testbit by lia. case_decide as E.
  - subst k. rewrite bool_decide_true by done. apply andb_false_r.
  - rewrite bool_decide_false by done. apply andb_true_r.
Qed.
Lemma bit_mark_clear d bi :
  (bi / 8 < length d)%nat -> Forall is_u8 d -> bit_free d bi = true -> bit_clear (bit_mark d bi) bi = d.
Proof.
  intros Hl Hd Hf. unfold bit_clear, bit_mark. rewrite list_lookup_total_insert_eq by done.
  rewrite list_insert_insert_eq. apply list_insert_id.
  destruct (lookup_lt_is_Some_2 d (bi / 8)%nat Hl) as [x Hx]. rewrite Hx. f_equal.
  rewrite (list_lookup_total_correct _ _ _ Hx).
  assert (Hx8 : is_u8 x) by (eapply Forall_lookup_1; done). unfold is_u8 in Hx8.
  rewrite bit_free_testbit, (list_lookup_total_correct _ _ _ Hx) in Hf. apply negb_true_iff in Hf.
  apply Z.bits_inj'. intros k Hk. destruct (decide (k < 8)).
  - rewrite u8_testbit, Z.land_spec, Z.lnot_spec, u8_testbit, Z.lor_spec, mask_testbit by lia.
    destruct (decide (k = Z.of_nat (bi mod 8))) as [->|Hne].
    + rewrite Hf, bool_decide_true by done. done.
    + rewrite bool_decide_false by done. simpl. rewrite orb_false_r. by rewrite andb_true_r.
  - unfold u8. rewrite Z.mod_pow2_bits_high by lia. destruct (decide (x = 0)) as [->|]; [apply Z.bits_0|].
    apply Z.bits_above_log2; [lia|]. assert (Z.log2 x < 8) by (apply Z.log2_lt_pow2; lia). lia.
Qed.
End bits.

(** ** The block allocator *)

Section balloc.
Implicit Types (s : fs) (b n : Z).
Definition bit_of b : nat := Z.to_nat (b mod BPB).
(** Block [b] is marked free. *)
Definition free s b : bool := bit_free (blocks s (BBLOCK b (sb s))) (bit_of b).
(** The first block behind the bitmap. *)
Definition data_start (sb : superblock) : Z := BBLOCK (sb_size sb - 1) sb + 1.

(** The layout mkfs makes: blocks of BSIZE bytes; the inode blocks before the
    bitmap, the bitmap before the data, and only data blocks free. *)
Record fs_ok s : Prop := {
  fk_size : 0 < sb_size (sb s) < 2 ^ 31;
  fk_len : forall n, length (blocks s n) = BSIZE;
  fk_bytes : forall n, Forall is_u8 (blocks s n);
  fk_start : 0 < sb_inodestart (sb s) <= sb_bmapstart (sb s);
  fk_ino : forall n, 0 <= n < sb_ninodes (sb s) -> IBLOCK n (sb s) < sb_bmapstart (sb s);
  fk_meta : forall b, 0 <= b < sb_size (sb s) -> free s b = true -> data_start (sb s) <= b;
}.
Definition in_data s b : Prop := 0 < b /\ data_start (sb s) <= b < sb_size (sb s).
Lemma data_start_pos s : fs_ok s -> sb_bmapstart (sb s) < data_start (sb s).
Proof.
  intros H. pose proof (fk_size _ H). unfold data_start, BBLOCK.
  pose proof (Z.div_pos (sb_size (sb s) - 1) BPB). unfold BPB in *. lia.
Qed.
Lemma free_in_data s b : fs_ok s -> 0 <= b < sb_size (sb s) -> free s b = true -> in_data s b.
Proof.
  intros H Hb Hf. pose proof (data_start_pos s H). pose proof (fk_start _ H).
  pose proof (fk_meta _ H b Hb Hf). split; lia.
Qed.

Lemma bitmap_before_data s b : 0 <= b < sb_size (sb s) -> BBLOCK b (sb s) < data_start (sb s).
Proof.
  intros Hb. unfold data_start, BBLOCK. assert (b / BPB <= (sb_size (sb s) - 1) / BPB); [|lia].
  apply Z.div_le_mono; unfold BPB; lia.
Qed.

(** The state after [b] was allocated: marked and zeroed. *)
Definition add_logged n (l : list Z) : list Z := if decide (n ∈ l) then l else l ++ [n].
Definition logs n d s : fs := s <| blocks ::= insert n d |> <| logged ::= add_logged n |>.
Lemma logs_run n d s : log_write n d s = Ok (logs n d s, tt).
Proof. done. Qed.
Definition allocated b s : fs :=
  logs b (replicate BSIZE 0)
    (logs (BBLOCK b (sb s)) (bit_mark (blocks s (BBLOCK b (sb s))) (bit_of b)) s).

Lemma balloc_from_spec s fuel : forall b,
  0 <= b -> b mod BPB = 0 -> sb_size (sb s) - b < Z.of_nat fuel * BPB ->
  (forall b', 0 <= b' < b -> b' < sb_size (sb s) -> free s b' = false) ->
  (exists r, 0 <= r < sb_size (sb s) /\ free s r = true /\ (forall b', 0 <= b' < r -> free s b' = false) /\
     balloc_from ROOTDEV fuel b s = Ok (allocated r s, r)) \/
  ((forall b', 0 <= b' < sb_size (sb s) -> free s b' = false) /\
   balloc_from ROOTDEV fuel b s = Panic "balloc: out of blocks").
Proof.
  induction fuel as [|fuel IH]; intros b Hb Hm Hf Hlo; cbn [balloc_from].
  - right. split; [|done]. intros b' Hb'. apply Hlo; lia.
  - rewrite (bind_run _ _ s s (sb s)) by done. cbv beta. case_decide as Hge.
    { right. split; [|done]. intros b' Hb'. apply Hlo; lia. }
    unfold bread. rewrite decide_True by done.
    rewrite (bind_run _ _ s s (blocks s (BBLOCK b (sb s)))) by done. cbv beta.
    assert (Hblk : forall i, 0 <= i < BPB -> BBLOCK (b + i) (sb s) = BBLOCK b (sb s) /\ (b + i) mod BPB = i).
    { intros i Hi. assert (E : b = BPB * (b / BPB)) by (pose proof (Z.div_mod b BPB); unfold BPB in *; lia).
      unfold BBLOCK. rewrite E, Z.mul_comm. split.
      - rewrite Z.div_add_l, Z.div_mul by (unfold BPB; lia). rewrite (Z.div_small i) by lia. lia.
      - rewrite Z.add_comm, Z.mod_add by (unfold BPB; lia). by apply Z.mod_small. }
    assert (Hfree : forall i, 0 <= i < BPB -> free s (b + i) = bit_free (blocks s (BBLOCK b (sb s))) (Z.to_nat i)).
    { intros i Hi. unfold free, bit_of. by destruct (Hblk i Hi) as [-> ->]. }
    set (k := Z.to_nat (Z.min BPB (sb_size (sb s) - b))).
    pose proof (find_seq (bit_free (blocks s (BBLOCK b (sb s)))) k 0) as Hs.
    destruct (find _ (seq 0 k)) as [bi|].
    + destruct Hs as (H1 & H2 & H3). left. exists (b + Z.of_nat bi).
      assert (Hbi : 0 <= Z.of_nat bi < BPB) by lia. destruct (Hblk _ Hbi) as [E1 E2].
      split; [lia|]. split; [rewrite Hfree by done; by rewrite Nat2Z.id|]. split.
      * intros b' Hb'. destruct (decide (b' < b)); [apply Hlo; lia|].
        replace b' with (b + (b' - b)) by lia. rewrite Hfree by lia. apply H3. lia.
      * unfold allocated, bit_of. rewrite E1, E2, Nat2Z.id. done.
    + assert (Hall : forall i, 0 <= i < BPB -> b + i < sb_size (sb s) -> free s (b + i) = false).
      { intros i Hi Hlt. rewrite Hfree by done. apply Hs. lia. }
      apply IH; [unfold BPB; lia|rewrite <- Z.add_mod_idemp_l, Hm by (unfold BPB; lia); done|lia|].
      intros b' Hb' Hlt. destruct (decide (b' < b)); [apply Hlo; lia|].
      replace b' with (b + (b' - b)) by lia. apply Hall; lia.
Qed.
Lemma balloc_spec s :
  fs_ok s ->
  (exists r, 0 <= r < sb_size (sb s) /\ free s r = true /\ (forall b', 0 <= b' < r -> free s b' = false) /\
     balloc ROOTDEV s = Ok (allocated r s, r)) \/
  ((forall b', 0 <= b' < sb_size (sb s) -> free s b' = false) /\
   balloc ROOTDEV s = Panic "balloc: out of blocks").
Proof.
  intros H. unfold balloc. rewrite (bind_run _ _ s s (sb s)) by done. cbv beta.
  apply balloc_from_spec; [lia|done| |lia].
  pose proof (Z.div_mod (sb_size (sb s)) BPB). pose proof (Z.mod_pos_bound (sb_size (sb s)) BPB).
  pose proof (fk_size _ H). assert (0 <= sb_size (sb s) / BPB) by (apply Z.div_pos; unfold BPB; lia).
  unfold BPB in *. lia.
Qed.

(** What allocating a data block changes. *)
Lemma allocated_blocks s r n :
  blocks (allocated r s) n =
    if decide (n = r) then replicate BSIZE 0 else
    if decide (n = BBLOCK r (sb s)) then bit_mark (blocks s (BBLOCK r (sb s))) (bit_of r) else blocks s n.
Proof.
  unfold allocated, logs. simpl. rewrite !fn_insert_cases.
  repeat case_decide; congruence.
Qed.
Lemma bit_of_lt b : (bit_of b / 8 < BSIZE)%nat.
Proof.
  unfold bit_of. pose proof (Z.mod_pos_bound b BPB). assert (b mod BPB < 4096) by (unfold BPB in *; lia).
  apply Nat.Div0.div_lt_upper_bound. unfold BSIZE. lia.
Qed.
Lemma allocated_free s r b :
  fs_ok s -> 0 <= r < sb_size (sb s) -> free s r = true -> 0 <= b < sb_size (sb s) ->
  free (allocated r s) b = if decide (b = r) then false else free s b.
Proof.
  intros H Hr Hf Hb. unfold free. change (sb (allocated r s)) with (sb s).
  assert (Hd : data_start (sb s) <= r) by (by apply H).
  pose proof (bitmap_before_data s b Hb).
  rewrite allocated_blocks, decide_False by lia. case_decide as E.
  - rewrite E, bit_mark_free by (rewrite (fk_len _ H); apply bit_of_lt).
    destruct (decide (b = r)) as [->|Hne]; [by rewrite decide_True|].
    rewrite decide_False; [done|]. intros Hbit. apply Hne.
    assert (E2 : b / BPB = r / BPB) by (unfold BBLOCK in E; lia).
    assert (E3 : b mod BPB = r mod BPB).
    { unfold bit_of in Hbit. pose proof (Z.mod_pos_bound b BPB). pose proof (Z.mod_pos_bound r BPB). unfold BPB in *. lia. }
    rewrite (Z.div_mod b BPB), (Z.div_mod r BPB) by done. congruence.
  - rewrite decide_False; [done|]. intros ->. done.
Qed.

Lemma bit_mark_bytes (d : list Z) bi : Forall is_u8 d -> Forall is_u8 (bit_mark d bi).
Proof. intros H. unfold bit_mark. apply Forall_insert; [done|]. apply Z.mod_pos_bound. lia. Qed.
Lemma bit_mark_length (d : list Z) bi : length (bit_mark d bi) = length d.
Proof. apply length_insert. Qed.
Lemma splice_bytes (l bs : list Z) o : Forall is_u8 l -> Forall is_u8 bs -> Forall is_u8 (splice l o bs).
Proof.
  intros Hl Hb. unfold splice. rewrite !Forall_app. split; [by apply Forall_take|].
  split; [done|by apply Forall_drop].
Qed.
Lemma words_bytes (a : list Z) : Forall is_u8 (mjoin (le_enc 4 <$> a)).
Proof.
  induction a as [|x a IH]; [constructor|].
  change (Forall is_u8 (le_enc 4 x ++ mjoin (le_enc 4 <$> a))). apply Forall_app. split; [apply le_enc_bytes|done].
Qed.
Lemma zeros_bytes k : Forall is_u8 (replicate k 0).
Proof. apply Forall_replicate. unfold is_u8. lia. Qed.
(** Writing a data block or an inode block, with BSIZE bytes, keeps the layout. *)
Lemma logs_ok s n d :
  fs_ok s -> (in_data s n \/ n < sb_bmapstart (sb s)) -> length d = BSIZE -> Forall is_u8 d ->
  fs_ok (logs n d s) /\ forall b, 0 <= b < sb_size (sb s) -> free (logs n d s) b = free s b.
Proof.
  intros H Hn Hd Hu.
  assert (Hfree : forall b, 0 <= b < sb_size (sb s) -> free (logs n d s) b = free s b).
  { intros b Hb. unfold free. simpl. rewrite fn_insert_cases, decide_False; [done|].
    pose proof (bitmap_before_data s b Hb). destruct Hn as [(_ & Hn & _)|Hn]; [lia|].
    unfold BBLOCK. pose proof (Z.div_pos b BPB). unfold BPB in *. lia. }
  split; [|done]. split; simpl; try apply H.
  - intros m. rewrite fn_insert_cases. case_decide; [done|]. apply H.
  - intros m. rewrite fn_insert_cases. case_decide; [done|]. apply H.
  - intros b Hb. rewrite Hfree by done. by apply H.
Qed.
Lemma allocated_ok s r :
  fs_ok s -> 0 <= r < sb_size (sb s) -> free s r = true -> fs_ok (allocated r s).
Proof.
  intros H Hr Hf. split; try apply H.
  - intros n. rewrite allocated_blocks. repeat case_decide; [done| |apply H].
    rewrite bit_mark_length. apply H.
  - intros n. rewrite allocated_blocks. repeat case_decide; [apply zeros_bytes| |apply H].
    apply bit_mark_bytes, H.
  - intros b Hb. rewrite allocated_free by done. case_decide; [done|]. by apply H.
Qed.

Lemma fs_ok_icache s f : fs_ok s -> fs_ok (s <| icache ::= f |>).
Proof. intros H. destruct H. by split. Qed.

(** The number of free blocks. *)
Definition nfree s : nat := length (filter (fun b => free s b = true) (seqZ 0 (sb_size (sb s)))).
Lemma nfree_pos s b : 0 <= b < sb_size (sb s) -> free s b = true -> (0 < nfree s)%nat.
Proof.
  intros Hb Hf. unfold nfree. destruct (filter _ _) as [|x l] eqn:E; [|simpl; lia].
  assert (Hin : b ∈ filter (fun b => free s b = true) (seqZ 0 (sb_size (sb s)))).
  { apply list_elem_of_filter. split; [done|]. apply elem_of_seqZ. lia. }
  rewrite E in Hin. by apply elem_of_nil in Hin.
Qed.
Lemma nfree_ext s s' :
  sb s' = sb s -> (forall b, 0 <= b < sb_size (sb s) -> free s' b = free s b) -> nfree s' = nfree s.
Proof.
  intros Hsb Hf. unfold nfree. rewrite Hsb. 
  assert (E : forall l, Forall (fun b => 0 <= b < sb_size (sb s)) l ->
    length (filter (fun b => free s' b = true) l) = length (filter (fun b => free s b = true) l)).
  { induction 1 as [|b l Hb _ IH]; [done|]. rewrite !filter_cons, Hf by done. case_decide; simpl; lia. }
  apply E, Forall_forall. intros b Hb. apply elem_of_seqZ in Hb. lia.
Qed.
Lemma nfree_allocated s r :
  fs_ok s -> 0 <= r < sb_size (sb s) -> free s r = true -> nfree s = S (nfree (allocated r s)).
Proof.
  intros H Hr Hf. unfold nfree. change (sb (allocated r s)) with (sb s).
  assert (E : filter (fun b => free s b = true) (seqZ 0 (sb_size (sb s))) ≡ₚ
          r :: filter (fun b => free (allocated r s) b = true) (seqZ 0 (sb_size (sb s)))).
  { apply NoDup_Permutation.
    - apply NoDup_filter, NoDup_seqZ.
    - constructor; [|apply NoDup_filter, NoDup_seqZ]. rewrite list_elem_of_filter.
      rewrite allocated_free by done. rewrite decide_True by done. by intros [? _].
    - intros b. rewrite elem_of_cons, !list_elem_of_filter, elem_of_seqZ. split.
      + intros [Hb Hr']. rewrite allocated_free by (done || lia). case_decide; [by left|by right].
      + intros [->|[Hb Hr']]; [split; [done|lia]|].
        rewrite allocated_free in Hb by (done || lia). case_decide; [done|]. by split. }
  by rewrite E.
Qed.
Lemma nfree_exists s : (0 < nfree s)%nat -> exists b, 0 <= b < sb_size (sb s) /\ free s b = true.
Proof.
  unfold nfree. destruct (filter _ _) as [|b l] eqn:E; simpl; [lia|]. intros _.
  assert (Hin : b ∈ filter (fun b => free s b = true) (seqZ 0 (sb_size (sb s)))) by (rewrite E; by left).
  apply list_elem_of_filter in Hin as [? Hin]. apply elem_of_seqZ in Hin. exists b. split; [lia|done].
Qed.
Lemma balloc_run s :
  fs_ok s -> (0 < nfree s)%nat ->
  exists r, 0 <= r < sb_size (sb s) /\ free s r = true /\ balloc ROOTDEV s = Ok (allocated r s, r).
Proof.
  intros H Hn. destruct (balloc_spec s H) as [(r & ? & ? & _ & ?)|[Hno _]]; [by exists r|].
  destruct (nfree_exists s Hn) as (b & Hb & Hf). rewrite Hno in Hf; done.
Qed.

(** Freeing what balloc returned gives the old bitmap back. *)
Lemma bfree_allocated s r :
  fs_ok s -> 0 <= r < sb_size (sb s) -> free s r = true ->
  bfree ROOTDEV r (allocated r s) =
    Ok (logs (BBLOCK r (sb s)) (blocks s (BBLOCK r (sb s))) (allocated r s), tt).
Proof.
  intros H Hr Hf. unfold bfree. rewrite (bind_run _ _ _ (allocated r s) (sb s)) by done. cbv beta.
  pose proof (bitmap_before_data s r Hr). assert (data_start (sb s) <= r) by (by apply H).
  unfold bread. rewrite decide_True by done.
  rewrite (bind_run _ _ _ (allocated r s) (bit_mark (blocks s (BBLOCK r (sb s))) (bit_of r))).
  2:{ unfold gets. rewrite allocated_blocks, decide_False, decide_True by (done || lia). done. }
  cbv beta zeta. fold (bit_of r).
  assert (Hl : (bit_of r / 8 < length (blocks s (BBLOCK r (sb s))))%nat) by (rewrite (fk_len _ H); apply bit_of_lt).
  rewrite bit_mark_free, decide_True by done.
  rewrite bit_mark_clear; [done|done|apply H|done].
Qed.
Lemma bfree_free s b : 0 <= b -> free s b = true -> bfree ROOTDEV b s = Panic "freeing free block".
Proof.
  intros Hb Hf. unfold bfree. rewrite (bind_run _ _ s s (sb s)) by done. cbv beta.
  unfold bread. rewrite decide_True by done.
  rewrite (bind_run _ _ s s (blocks s (BBLOCK b (sb s)))) by done. cbv beta zeta.
  unfold free, bit_of in Hf. by rewrite Hf.
Qed.
End balloc.

(** ** Inodes on disk *)

Section dinodes.
Implicit Types (b : list Z) (o : nat) (ip : inode).
(** The 64 bytes of an on-disk inode. *)
Definition enc_dinode ip : list Z :=
  le_enc 2 (itype ip) ++ le_enc 2 (imajor ip) ++ le_enc 2 (iminor ip) ++ le_enc 2 (inlink ip) ++
  le_enc 4 (isize ip) ++ mjoin (le_enc 4 <$> iaddrs ip).
Definition is_s16 (z : Z) : Prop := - 2 ^ 15 <= z < 2 ^ 15.
Record inode_range ip : Prop := {
  ir_type : is_s16 (itype ip); ir_major : is_s16 (imajor ip); ir_minor : is_s16 (iminor ip);
  ir_nlink : is_s16 (inlink ip); ir_size : is_u32 (isize ip);
  ir_len : length (iaddrs ip) = S NDIRECT; ir_addrs : Forall is_u32 (iaddrs ip) }.

Lemma enc_dinode_length ip : length (iaddrs ip) = S NDIRECT -> length (enc_dinode ip) = 64%nat.
Proof. intros H. unfold enc_dinode. rewrite !length_app, !le_enc_length, words_length, H. done. Qed.
Lemma put_dinode_splice b o ip : (o + 12 <= length b)%nat -> put_dinode b o ip = splice b o (enc_dinode ip).
Proof.
  intros Hl. unfold put_dinode, put_addrs, set16, set32. cbv zeta.
  rewrite !(splice_adjacent b) by (rewrite ?length_app, ?le_enc_length; lia).
  unfold enc_dinode. by rewrite <- !app_assoc.
Qed.
Lemma s16_u16 z : is_s16 z -> s16 (u16 z) = z.
Proof. unfold is_s16. zarith. Qed.
Lemma s16_is z : is_s16 (s16 z).
Proof. unfold is_s16. zarith. Qed.
Lemma get16_enc b o bs k v pre :
  (o + length bs <= length b)%nat -> (exists post, bs = pre ++ le_enc 2 v ++ post) -> k = (o + length pre)%nat ->
  get16 (splice b o bs) k = u16 v.
Proof.
  intros Hl [post ->] ->. rewrite !length_app, le_enc_length in Hl. unfold get16.
  rewrite slice_in_splice by (rewrite !length_app, le_enc_length; lia).
  rewrite <- (Nat.add_0_r (length pre)), slice_app_r, slice_app_l by (rewrite le_enc_length; lia).
  pose proof (slice_full (le_enc 2 v)) as E. rewrite le_enc_length in E. rewrite E. apply (le_dec_enc 2).
Qed.
Lemma enc_dinode_bytes ip : Forall is_u8 (enc_dinode ip).
Proof.
  unfold enc_dinode. rewrite !Forall_app. repeat split; try apply le_enc_bytes. apply words_bytes.
Qed.
Ltac enc_side :=
  match goal with
  | |- exists _, _ => eexists; unfold enc_dinode; rewrite <- ?app_assoc; reflexivity
  | |- _ => first [done | rewrite ?length_app, ?le_enc_length; simpl; lia]
  end.
Lemma get_put_dinode b o ip :
  (o + 64 <= length b)%nat -> inode_range ip -> get_dinode (put_dinode b o ip) o ip = ip.
Proof.
  intros Hl R. pose proof (enc_dinode_length ip (ir_len _ R)) as He.
  rewrite put_dinode_splice by lia. unfold get_dinode, get_type.
  assert (Hb : (o + length (enc_dinode ip) <= length b)%nat) by lia.
  rewrite (get16_enc b o _ o (itype ip) []) by enc_side.
  rewrite (get16_enc b o _ (o + 2) (imajor ip) (le_enc 2 (itype ip))) by enc_side.
  rewrite (get16_enc b o _ (o + 4) (iminor ip) (le_enc 2 (itype ip) ++ le_enc 2 (imajor ip)))
    by enc_side.
  rewrite (get16_enc b o _ (o + 6) (inlink ip) (le_enc 2 (itype ip) ++ le_enc 2 (imajor ip) ++ le_enc 2 (iminor ip)))
    by enc_side.
  rewrite !s16_u16 by apply R.
  set (pre := le_enc 2 (itype ip) ++ le_enc 2 (imajor ip) ++ le_enc 2 (iminor ip) ++ le_enc 2 (inlink ip)).
  assert (E : enc_dinode ip = pre ++ le_enc 4 (isize ip) ++ mjoin (le_enc 4 <$> iaddrs ip)).
  { unfold enc_dinode, pre. by rewrite <- !app_assoc. }
  assert (Hp : length pre = 8%nat) by (unfold pre; rewrite !length_app, !le_enc_length; done).
  assert (Es : get32 (splice b o (enc_dinode ip)) (o + 8) = isize ip).
  { unfold get32. rewrite slice_in_splice by lia. rewrite E.
    change 8%nat with (8 + 0)%nat. rewrite <- Hp, slice_app_r, slice_app_l by (rewrite le_enc_length; lia).
    pose proof (slice_full (le_enc 4 (isize ip))) as E4. rewrite le_enc_length in E4. rewrite E4, le_dec_enc.
    apply Z.mod_small, R. }
  assert (Ea : get_addrs (splice b o (enc_dinode ip)) o = iaddrs ip).
  { apply list_eq. intros k. unfold get_addrs. rewrite list_lookup_fmap.
    destruct (decide (k < S NDIRECT)%nat) as [Hk|Hk].
    - rewrite lookup_seq_lt by done. unfold fmap, option_fmap, option_map, get32. rewrite Nat.add_0_l.
      replace (o + 12 + 4 * k)%nat with (o + (8 + (4 + 4 * k)))%nat by lia.
      rewrite slice_in_splice by (rewrite He; change NDIRECT with 12%nat in Hk; lia).
      rewrite E, <- Hp, slice_app_r. rewrite <- (le_enc_length 4 (isize ip)) at 2.
      rewrite slice_app_r, slice_words by (rewrite (ir_len _ R); lia). rewrite le_dec_enc.
      rewrite <- (ir_len _ R) in Hk. rewrite list_lookup_lookup_total_lt by done. f_equal.
      apply Z.mod_small. by apply (Forall_lookup_total_1 _ _ _ (ir_addrs _ R)).
    - rewrite lookup_seq_ge by lia. simpl. symmetry. apply lookup_ge_None. rewrite (ir_len _ R). lia. }
  rewrite Es, Ea. by destruct ip.
Qed.
End dinodes.

(** C25: the allocator hands out free blocks only: balloc returns the lowest
    free block, now marked used and zeroed, and changes nothing else but its
    bitmap block; bfree of that block gives the old bitmap back; balloc panics
    when no block is free, and bfree when the block is free already. *)
Theorem balloc_correct s :
  fs_ok s ->
  match balloc ROOTDEV s with
  | Ok (s', r) =>
      0 <= r < sb_size (sb s) /\ free s r = true /\ (forall b, 0 <= b < r -> free s b = false) /\
      (forall b, 0 <= b < sb_size (sb s) -> free s' b = free s b && bool_decide (b <> r)) /\
      blocks s' r = replicate BSIZE 0 /\
      (forall n, n <> r -> n <> BBLOCK r (sb s) -> blocks s' n = blocks s n) /\
      fs_ok s' /\
      exists s2, bfree ROOTDEV r s' = Ok (s2, tt) /\
        (forall b, 0 <= b < sb_size (sb s) -> free s2 b = free s b) /\
        bfree ROOTDEV r s2 = Panic "freeing free block"
  | Panic msg => msg = "balloc: out of blocks"%string /\ forall b, 0 <= b < sb_size (sb s) -> free s b = false
  | Sleeps _ => False
  end.
Proof.
  intros H. destruct (balloc_spec s H) as [(r & Hr & Hf & Hlow & ->)|[Hno ->]]; [|done].
  pose proof (allocated_ok s r H Hr Hf) as Hok. pose proof (bitmap_before_data s r Hr) as Hb.
  pose proof (fk_meta _ H r Hr Hf) as Hd.
  split; [done|]. split; [done|]. split; [done|]. split.
  { intros b Hbr. rewrite allocated_free by done. case_decide; case_bool_decide; simplify_eq/=; auto using andb_false_r.
    by rewrite andb_true_r. }
  split; [by rewrite allocated_blocks, decide_True|]. split.
  { intros n H1 H2. by rewrite allocated_blocks, !decide_False. }
  split; [done|]. eexists. split; [by apply bfree_allocated|].
  assert (Hfr : forall b, 0 <= b < sb_size (sb s) ->
    free (logs (BBLOCK r (sb s)) (blocks s (BBLOCK r (sb s))) (allocated r s)) b = free s b).
  { intros b Hbr. pose proof (bitmap_before_data s b Hbr). unfold free. simpl.
    rewrite !fn_insert_cases. repeat case_decide; congruence || lia. }
  split; [done|]. apply bfree_free; [lia|]. by rewrite Hfr.
Qed.

(** A small disk: 60 blocks of which 0 to 9 are in use, 16 inodes, and inode 1
    with its [sz] bytes in block 7. *)
Definition sb_small : superblock := mksb 60 53 16 2 2 4 6.
Definition node_small (ty sz : Z) : inode :=
  mkinode ROOTDEV 1 1 initsleeplock true ty 0 0 1 sz (7 :: replicate 12 0).
Definition blocks_small (ty sz : Z) (data : list Z) (n : Z) : list Z :=
  if decide (n = 6) then 255 :: 3 :: replicate 510 0 else
  if decide (n = 7) then data ++ replicate (BSIZE - length data) 0 else
  if decide (n = 4) then put_dinode (replicate BSIZE 0) 64 (node_small ty sz) else replicate BSIZE 0.
Definition fs_small (ty sz : Z) (data : list Z) : fs :=
  mkfs (blocks_small ty sz data) [] [node_small ty sz] sb_small.
Definition fs_hi : fs := fs_small T_FILE 3 [104; 105; 10].

Section small.
Context (ty sz : Z) (data : list Z).
Context (Hlen : (length data <= BSIZE)%nat) (Hdata : Forall is_u8 data).
Lemma blocks_small_ok n : length (blocks_small ty sz data n) = BSIZE /\ Forall is_u8 (blocks_small ty sz data n).
Proof.
  unfold blocks_small. repeat case_decide.
  - split; [done|]. constructor; [done|]. constructor; [done|]. apply zeros_bytes.
  - split; [rewrite length_app, length_replicate; lia|]. apply Forall_app. split; [done|apply zeros_bytes].
  - rewrite put_dinode_splice by (rewrite length_replicate; unfold BSIZE; lia). split.
    + rewrite splice_length, length_replicate; [done|]. rewrite enc_dinode_length by done.
      rewrite length_replicate. unfold BSIZE. lia.
    + apply splice_bytes; [apply zeros_bytes|apply enc_dinode_bytes].
  - split; [apply length_replicate|apply zeros_bytes].
Qed.
Lemma free_small b : 0 <= b < 60 -> free (fs_small ty sz data) b = bool_decide (10 <= b).
Proof.
  clear Hlen Hdata. intros Hb. assert (Hall : Forall (fun b => bit_free (255 :: 3 :: replicate 510 0) (bit_of b) = bool_decide (10 <= b)) (seqZ 0 60)).
  { apply (bool_decide_unpack _). vm_compute. exact I. }
  rewrite Forall_forall in Hall. unfold free. rewrite <- Hall by (apply elem_of_seqZ; lia).
  replace (BBLOCK b (sb (fs_small ty sz data))) with 6; [done|].
  unfold BBLOCK. simpl. rewrite Z.div_small by (unfold BPB; lia). done.
Qed.
Lemma fs_small_ok : fs_ok (fs_small ty sz data).
Proof.
  split; try (cbn; lia).
  - intros n. apply blocks_small_ok.
  - intros n. apply blocks_small_ok.
  - intros n Hn. unfold IBLOCK. cbn in *. assert (n / IPB <= 1); [|lia].
    apply Z.lt_succ_r, Z.div_lt_upper_bound; unfold IPB; lia.
  - intros b Hb Hf. rewrite free_small in Hf by done. apply bool_decide_eq_true in Hf.
    change (data_start _) with 7. lia.
Qed.
End small.
Lemma fs_hi_ok : fs_ok fs_hi.
Proof. apply fs_small_ok; [cbn; unfold BSIZE; lia|]. repeat constructor; done. Qed.
Lemma balloc_correct_witness :
  match balloc ROOTDEV fs_hi with Ok (s', r) => r = 10 /\ free s' 10 = false | _ => False end.
Proof.
  pose proof (balloc_correct fs_hi fs_hi_ok) as H.
  assert (E : match balloc ROOTDEV fs_hi with Ok (_, r) => r = 10 | _ => False end) by (vm_compute; reflexivity).
  destruct (balloc ROOTDEV fs_hi) as [[s' r]| |]; [|exact E|exact E].
  destruct H as (_ & _ & _ & H & _). subst r. split; [reflexivity|].
  rewrite (H 10) by (cbn; lia).
  apply andb_false_r.
Defined.
