(* ===== verification/FsFile.v ===== *)
(** File contents (bmap, readi and writei of fs.c): a file is the sequence of
    its bytes, which the blocks it points to hold. *)
From S2P Require Import Prelude Sleeplock Cstring Fs FsFacts.

(** ** The blocks of a file *)

Section file.
Implicit Types (s : fs) (n k r : Z) (i : nat).
Abbreviation node s i := (icache s !!! i).
Abbreviation IND := (Z.of_nat MAXFILE).

(** Pointer [k] of inode [i]: the block that holds its part [k], and for
    [k = IND] the indirect block; 0 where there is none. *)
Definition ind s i : Z := iaddrs (node s i) !!! NDIRECT.
Definition addr_of s i (k : Z) : Z :=
  if decide (k < Z.of_nat NDIRECT) then iaddrs (node s i) !!! Z.to_nat k else
  if decide (ind s i = 0) then 0 else get32 (blocks s (ind s i)) (4 * Z.to_nat (k - Z.of_nat NDIRECT)).
Definition ptr s i (k : Z) : Z := if decide (k = IND) then ind s i else addr_of s i k.
Definition owned s i n : Prop := n <> 0 /\ exists k, 0 <= k <= IND /\ ptr s i k = n.

(** A file in good order: every block it points to is a data block, in use,
    and pointed to once; every part below its size has a block. *)
Lemma BSIZE_Z : Z.of_nat BSIZE = 512.
Proof. done. Qed.
Lemma MAXFILE_Z : Z.of_nat MAXFILE = 140.
Proof. done. Qed.
#[local] Opaque MAXFILE BSIZE.
Record file_ok s i : Prop := {
  fi_fs : fs_ok s;
  fi_lt : (i < length (icache s))%nat;
  fi_dev : idev (node s i) = ROOTDEV;
  fi_inum : 0 <= inum (node s i) < sb_ninodes (sb s);
  fi_len : length (iaddrs (node s i)) = S NDIRECT;
  fi_own : forall n, owned s i n -> in_data s n /\ free s n = false;
  fi_inj : forall k k', 0 <= k <= IND -> 0 <= k' <= IND -> ptr s i k <> 0 -> ptr s i k = ptr s i k' -> k = k';
  fi_size : 0 <= isize (node s i) <= Z.of_nat (MAXFILE * BSIZE);
  fi_full : forall k, 0 <= k -> k * Z.of_nat BSIZE < isize (node s i) -> addr_of s i k <> 0;
}.

(** What a step of a write to file [i] may change: the block pointers of the
    inode in memory, the blocks the file owns, and free blocks, which it may
    take. *)
Record extends i s s' : Prop := {
  ex_sb : sb s' = sb s;
  ex_len : length (icache s') = length (icache s);
  ex_other : forall j, j <> i -> icache s' !! j = icache s !! j;
  ex_node : exists a, node s' i = (node s i) <| iaddrs := a |>;
  ex_blk : forall n, in_data s n -> free s n = false -> ~ owned s i n -> blocks s' n = blocks s n;
  ex_low : forall n, n < sb_bmapstart (sb s) -> blocks s' n = blocks s n;
  ex_used : forall n, 0 <= n < sb_size (sb s) -> free s n = false -> free s' n = false;
  ex_own : forall n, owned s' i n -> owned s i n \/ 0 <= n < sb_size (sb s) /\ free s n = true;
  ex_map : forall k, 0 <= k < IND -> addr_of s i k <> 0 -> addr_of s' i k = addr_of s i k;
}.
#[export] Instance extends_refl i : Reflexive (extends i).
Proof. intros s. split; auto. exists (iaddrs (node s i)). by destruct (node s i). Qed.
#[export] Instance extends_trans i : Transitive (extends i).
Proof.
  intros s1 s2 s3 A B. split.
  - by rewrite (ex_sb _ _ _ B), (ex_sb _ _ _ A).
  - by rewrite (ex_len _ _ _ B), (ex_len _ _ _ A).
  - intros j Hj. by rewrite (ex_other _ _ _ B), (ex_other _ _ _ A).
  - destruct (ex_node _ _ _ A) as [a Ha], (ex_node _ _ _ B) as [b Hb]. exists b. by rewrite Hb, Ha.
  - intros n Hn Hu Ho. pose proof Hn as (Hp & _ & Hs).
    rewrite (ex_blk _ _ _ B), (ex_blk _ _ _ A); try done.
    + unfold in_data. by rewrite (ex_sb _ _ _ A).
    + apply A; [lia|done].
    + intros Ho2. destruct (ex_own _ _ _ A n Ho2) as [|[]]; [done|congruence].
  - intros n Hn. rewrite (ex_low _ _ _ B), (ex_low _ _ _ A); [done|done|by rewrite (ex_sb _ _ _ A)].
  - intros n Hn Hu. apply B; [by rewrite (ex_sb _ _ _ A)|]. by apply A.
  - intros n Ho. destruct (ex_own _ _ _ B n Ho) as [H|[Hn H]]; [by apply A|].
    rewrite (ex_sb _ _ _ A) in Hn. destruct (free s1 n) eqn:E; [by right|].
    rewrite (ex_used _ _ _ A) in H; done.
  - intros k Hk Ha. rewrite (ex_map _ _ _ B), (ex_map _ _ _ A); try done. by rewrite (ex_map _ _ _ A).
Qed.

(** The parts a run of the allocator does not touch. *)
Lemma ptr_ext s s' i k :
  iaddrs (node s' i) = iaddrs (node s i) ->
  (ind s i <> 0 -> blocks s' (ind s i) = blocks s (ind s i)) -> ptr s' i k = ptr s i k.
Proof.
  intros Ha Hb. assert (E : ind s' i = ind s i) by (unfold ind; by rewrite Ha).
  unfold ptr, addr_of. rewrite E, Ha. repeat case_decide; try done. by rewrite Hb.
Qed.
Lemma addr_ptr s i k : k <> IND -> addr_of s i k = ptr s i k.
Proof. intros. unfold ptr. by rewrite decide_False. Qed.
Lemma ind_ptr s i : ind s i = ptr s i IND.
Proof. unfold ptr. by rewrite decide_True. Qed.
Lemma owned_ptr s i k : 0 <= k <= IND -> ptr s i k <> 0 -> owned s i (ptr s i k).
Proof. intros. split; [done|by exists k]. Qed.
Lemma allocated_keeps s r n :
  fs_ok s -> 0 <= r < sb_size (sb s) -> free s r = true -> in_data s n -> free s n = false ->
  blocks (allocated r s) n = blocks s n.
Proof.
  intros H Hr Hf (_ & Hn & _) Hu. pose proof (bitmap_before_data s r Hr).
  rewrite allocated_blocks, !decide_False by (lia || congruence). done.
Qed.
Lemma ptr_allocated s i r k :
  file_ok s i -> 0 <= r < sb_size (sb s) -> free s r = true -> ptr (allocated r s) i k = ptr s i k.
Proof.
  intros H Hr Hf. apply ptr_ext; [done|]. intros Hi.
  destruct (fi_own _ _ H (ind s i)) as [Hd Hu]; [rewrite ind_ptr in *; apply owned_ptr; [lia|done]|].
  apply allocated_keeps; try done. apply H.
Qed.

(** Pointer [k0], which was 0, is set to block [r]. *)
Lemma link_ok s s' i k0 r :
  file_ok s i -> fs_ok s' -> sb s' = sb s ->
  (forall b, 0 <= b < sb_size (sb s) -> b <> r -> free s' b = free s b) ->
  (i < length (icache s'))%nat ->
  (exists a, node s' i = (node s i) <| iaddrs := a |> /\ length a = S NDIRECT) ->
  0 <= k0 <= IND -> ptr s i k0 = 0 -> in_data s r -> free s' r = false -> ~ owned s i r ->
  (forall k, 0 <= k <= IND -> ptr s' i k = if decide (k = k0) then r else ptr s i k) ->
  file_ok s' i.
Proof.
  intros H Hok Hsb Hfr Hlt (a & Hnode & Ha) Hk0 Hz Hd Hu Hno Hptr.
  split; rewrite ?Hnode; try done; try apply H.
  - rewrite Hsb. apply H.
  - intros n [Hn (k & Hk & Hp)]. unfold in_data. rewrite Hsb. rewrite Hptr in Hp by done.
    case_decide; [by subst|].
    assert (Ho : owned s i n) by (split; [done|by exists k]).
    destruct (fi_own _ _ H n Ho) as [Hin Hf]. pose proof Hin as (? & _ & ?).
    split; [done|]. rewrite Hfr; [done|lia|by intros ->].
  - intros k k' Hk Hk' Hne Heq. rewrite !Hptr in * by done.
    destruct (decide (k = k0)) as [->|], (decide (k' = k0)) as [->|]; try done.
    + destruct Hno. split; [done|]. by exists k'.
    + destruct Hno. rewrite <- Heq. by apply owned_ptr.
    + by apply (fi_inj _ _ H).
  - intros k Hk Hlt'. pose proof (fi_size _ _ H) as Hsz. change (isize _) with (isize (node s i)) in Hlt'.
    assert (k < IND) by (rewrite Nat2Z.inj_mul in Hsz; nia).
    pose proof (fi_full _ _ H k Hk Hlt') as Hf.
    rewrite addr_ptr, Hptr by lia. rewrite addr_ptr in Hf by lia.
    case_decide; [|done]. destruct Hd. lia.
Qed.
Lemma link_extends s s' i k0 r :
  file_ok s i -> sb s' = sb s -> length (icache s') = length (icache s) ->
  (forall j, j <> i -> icache s' !! j = icache s !! j) ->
  (exists a, node s' i = (node s i) <| iaddrs := a |>) ->
  (forall n, in_data s n -> free s n = false -> ~ owned s i n -> blocks s' n = blocks s n) ->
  (forall n, n < sb_bmapstart (sb s) -> blocks s' n = blocks s n) ->
  (forall b, 0 <= b < sb_size (sb s) -> b <> r -> free s' b = free s b) ->
  0 <= r < sb_size (sb s) -> free s r = true -> ptr s i k0 = 0 ->
  (forall k, 0 <= k <= IND -> ptr s' i k = if decide (k = k0) then r else ptr s i k) ->
  extends i s s'.
Proof.
  intros H Hsb Hlen Hoth Hnode Hblk Hlow Hfr Hr Hf Hz Hptr. split; try done.
  - intros n Hn Hu. rewrite Hfr; [done|done|]. intros ->. congruence.
  - intros n [Hn (k & Hk & Hp)]. rewrite Hptr in Hp by done. case_decide; [by subst; right|].
    left. split; [done|by exists k].
  - intros k Hk Hne. rewrite addr_ptr in Hne by lia. rewrite !addr_ptr by lia. rewrite Hptr by lia.
    case_decide; [congruence|done].
Qed.

Definition credit s i : nat := nfree s + if decide (ind s i = 0) then 0 else 1.
(** A step that allocates one block for pointer [k0]. *)
Record took i k0 r s s' : Prop := {
  tk_ok : file_ok s' i;
  tk_ext : extends i s s';
  tk_ptr : forall k, 0 <= k <= IND -> ptr s' i k = if decide (k = k0) then r else ptr s i k;
  tk_blk : forall n, owned s i n -> n <> ind s i -> blocks s' n = blocks s n;
  tk_free : nfree s = S (nfree s');
  tk_new : in_data s r;
}.

Lemma free_not_owned s i r : file_ok s i -> free s r = true -> ~ owned s i r.
Proof. intros H Hf Ho. destruct (fi_own _ _ H r Ho) as [_ Hu]. congruence. Qed.
Lemma zeros_get32 o : get32 (replicate BSIZE 0) o = 0.
Proof.
  unfold get32, slice. generalize 4%nat BSIZE. intros m z. rewrite drop_replicate, take_replicate.
  generalize (m `min` (z - o))%nat. intros n. induction n as [|n IH]; simpl; [done|]. by rewrite IH.
Qed.

(** The inode's own pointer [j] gets block [r]. *)
Definition take_direct i (j : nat) r s : fs :=
  (allocated r s) <| icache ::= alter (fun ip => ip <| iaddrs ::= insert j r |>) i |>.
Definition slot_of (j : nat) : Z := if decide (j = NDIRECT) then IND else Z.of_nat j.
Lemma take_direct_node s i j r :
  (i < length (icache s))%nat ->
  node (take_direct i j r s) i = (node s i) <| iaddrs := <[j := r]> (iaddrs (node s i)) |>.
Proof.
  intros Hi. unfold take_direct. simpl. destruct (lookup_lt_is_Some_2 _ _ Hi) as [x Hx].
  apply list_lookup_total_correct. rewrite list_lookup_alter_eq, Hx.
  rewrite (list_lookup_total_correct _ _ _ Hx). done.
Qed.
Lemma take_direct_ptr s i j r k :
  file_ok s i -> 0 <= r < sb_size (sb s) -> free s r = true -> (j <= NDIRECT)%nat ->
  ptr s i (slot_of j) = 0 -> 0 <= k <= IND ->
  ptr (take_direct i j r s) i k = if decide (k = slot_of j) then r else ptr s i k.
Proof.
  intros H Hr Hf Hj Hz Hk. pose proof (take_direct_node s i j r (fi_lt _ _ H)) as Hn.
  pose proof MAXFILE_Z as HM. pose proof (fi_len _ _ H) as Hl.
  assert (HN : NDIRECT = 12%nat) by done.
  unfold slot_of in *. destruct (decide (j = NDIRECT)) as [->|Hne].
  - assert (Ei : ind (take_direct i NDIRECT r s) i = r).
    { unfold ind. rewrite Hn. simpl. apply list_lookup_total_insert_eq. lia. }
    unfold ptr. case_decide; [done|]. unfold addr_of. rewrite Ei, Hn. case_decide.
    { simpl. apply list_lookup_total_insert_ne. lia. }
    rewrite <- ind_ptr in Hz. rewrite Hz, (decide_True (P := 0 = 0)) by done. case_decide; [done|].
    change (blocks (take_direct i NDIRECT r s) r) with (blocks (allocated r s) r).
    rewrite allocated_blocks, decide_True by done. apply zeros_get32.
  - assert (Ei : ind (take_direct i j r s) i = ind s i).
    { unfold ind. rewrite Hn. simpl. apply list_lookup_total_insert_ne. lia. }
    destruct (decide (k = Z.of_nat j)) as [->|Hkj].
    + rewrite <- addr_ptr by lia. unfold addr_of. rewrite decide_True by lia. rewrite Hn. simpl.
      rewrite Nat2Z.id. apply list_lookup_total_insert_eq. lia.
    + rewrite <- (ptr_allocated s i r k H Hr Hf). unfold ptr, addr_of. rewrite Ei, Hn.
      change (ind (allocated r s) i) with (ind s i). simpl. repeat case_decide; try done.
      apply list_lookup_total_insert_ne. lia.
Qed.
Lemma take_direct_took s i j r :
  file_ok s i -> 0 <= r < sb_size (sb s) -> free s r = true -> (j <= NDIRECT)%nat ->
  ptr s i (slot_of j) = 0 -> took i (slot_of j) r s (take_direct i j r s).
Proof.
  intros H Hr Hf Hj Hz. pose proof (take_direct_node s i j r (fi_lt _ _ H)) as Hn.
  pose proof (fi_fs _ _ H) as Hok. pose proof MAXFILE_Z.
  assert (Hptr := fun k => take_direct_ptr s i j r k H Hr Hf Hj Hz).
  assert (Hslot : 0 <= slot_of j <= IND) by (unfold slot_of; change NDIRECT with 12%nat in *; case_decide; lia).
  assert (Hfr : forall b, 0 <= b < sb_size (sb s) ->
            free (take_direct i j r s) b = if decide (b = r) then false else free s b).
  { intros b Hb. exact (allocated_free s r b Hok Hr Hf Hb). }
  split.
  - eapply (link_ok s _ i (slot_of j) r H); try done.
    + apply (fs_ok_icache (allocated r s)), (allocated_ok s r Hok Hr Hf).
    + intros b Hb Hne. rewrite Hfr, decide_False by done. done.
    + simpl. rewrite length_alter. apply H.
    + exists (<[j := r]> (iaddrs (node s i))). split; [done|]. rewrite length_insert. apply H.
    + by apply free_in_data.
    + rewrite Hfr, decide_True by done. done.
    + by apply free_not_owned.
  - eapply (link_extends s _ i (slot_of j) r H); try done.
    + simpl. by rewrite length_alter.
    + intros j' Hj'. simpl. by rewrite list_lookup_alter_ne.
    + eauto.
    + intros n Hn' Hu _. by apply (allocated_keeps s r n).
    + intros n Hlow. change (blocks (take_direct i j r s)) with (blocks (allocated r s)).
      rewrite allocated_blocks, !decide_False; [done| |].
      * unfold BBLOCK. pose proof (Z.div_pos r BPB). unfold BPB in *. lia.
      * destruct (free_in_data s r Hok Hr Hf). pose proof (data_start_pos s Hok). lia.
    + intros b Hb Hne. rewrite Hfr, decide_False by done. done.
  - done.
  - intros n Ho _. destruct (fi_own _ _ H n Ho). by apply (allocated_keeps s r n).
  - rewrite (nfree_allocated s r) by done. done.
  - by apply free_in_data.
Qed.

(** Entry [k] of the indirect block gets block [r]. *)
Definition take_indirect i k r s : fs :=
  logs (ind s i) (set32 (blocks s (ind s i)) (4 * Z.to_nat (k - Z.of_nat NDIRECT)) r) (allocated r s).
Lemma ind_ok s i : file_ok s i -> ind s i <> 0 -> owned s i (ind s i) /\ in_data s (ind s i) /\ free s (ind s i) = false.
Proof.
  intros H Hi. assert (Ho : owned s i (ind s i)) by (rewrite ind_ptr in *; apply owned_ptr; [lia|done]).
  split; [done|]. by apply H.
Qed.
Lemma take_indirect_ptr s i k0 r k :
  file_ok s i -> 0 <= r < sb_size (sb s) -> free s r = true -> Z.of_nat NDIRECT <= k0 < IND ->
  ind s i <> 0 -> 0 <= k <= IND ->
  ptr (take_indirect i k0 r s) i k = if decide (k = k0) then r else ptr s i k.
Proof.
  intros H Hr Hf Hk0 Hi Hk. pose proof MAXFILE_Z as HM. pose proof BSIZE_Z as HB.
  pose proof (fk_size _ (fi_fs _ _ H)). pose proof (fk_len _ (fi_fs _ _ H) (ind s i)) as Hl.
  unfold ptr, addr_of. change (ind (take_indirect i k0 r s) i) with (ind s i).
  change (node (take_indirect i k0 r s) i) with (node s i).
  assert (E : blocks (take_indirect i k0 r s) (ind s i) = set32 (blocks s (ind s i)) (4 * Z.to_nat (k0 - Z.of_nat NDIRECT)) r).
  { unfold take_indirect, logs. simpl. by rewrite fn_insert_cases, decide_True. }
  rewrite E. change (Z.of_nat NDIRECT) with 12 in *.
  case_decide; [by rewrite decide_False by lia|].
  destruct (decide (k < 12)); [by rewrite decide_False by lia|].
  rewrite !(decide_False (P := ind s i = 0)) by done. case_decide as Ek.
  - subst k0. rewrite get32_set32 by lia. apply u32_small. unfold is_u32. lia.
  - apply get32_set32_ne; lia.
Qed.
Lemma take_indirect_took s i k0 r :
  file_ok s i -> 0 <= r < sb_size (sb s) -> free s r = true -> Z.of_nat NDIRECT <= k0 < IND ->
  ind s i <> 0 -> ptr s i k0 = 0 -> took i k0 r s (take_indirect i k0 r s).
Proof.
  intros H Hr Hf Hk0 Hi Hz. pose proof (fi_fs _ _ H) as Hok. pose proof MAXFILE_Z as HM. pose proof BSIZE_Z as HB.
  assert (Hptr := fun k => take_indirect_ptr s i k0 r k H Hr Hf Hk0 Hi).
  destruct (ind_ok s i H Hi) as (Hio & Hid & Hiu). change (Z.of_nat NDIRECT) with 12 in *.
  destruct (logs_ok (allocated r s) (ind s i) (set32 (blocks s (ind s i)) (4 * Z.to_nat (k0 - Z.of_nat NDIRECT)) r))
    as [Hok' Hfr0].
  { by apply allocated_ok. }
  { by left. }
  { rewrite set32_length; [apply Hok|]. rewrite (fk_len _ Hok). change (Z.of_nat NDIRECT) with 12. lia. }
  { apply splice_bytes; [apply Hok|apply le_enc_bytes]. }
  fold (take_indirect i k0 r s) in Hok', Hfr0.
  assert (Hfr : forall b, 0 <= b < sb_size (sb s) ->
            free (take_indirect i k0 r s) b = if decide (b = r) then false else free s b).
  { intros b Hb. rewrite Hfr0 by done. by apply allocated_free. }
  assert (Hblk : forall n, n <> ind s i -> blocks (take_indirect i k0 r s) n = blocks (allocated r s) n).
  { intros n Hn. unfold take_indirect, logs. simpl. by rewrite fn_insert_cases, decide_False by congruence. }
  assert (Hnode : node (take_indirect i k0 r s) i = (node s i) <| iaddrs := iaddrs (node s i) |>).
  { change (node (take_indirect i k0 r s) i) with (node s i). by destruct (node s i). }
  split.
  - eapply (link_ok s _ i k0 r H); try done; try lia.
    + intros b Hb Hne. rewrite Hfr, decide_False by done. done.
    + apply H.
    + eexists. split; [exact Hnode|]. apply H.
    + by apply free_in_data.
    + rewrite Hfr, decide_True by done. done.
    + by apply free_not_owned.
  - eapply (link_extends s _ i k0 r H); try done.
    + eauto.
    + intros n Hn' Hu Hno. rewrite Hblk by (by intros ->). by apply allocated_keeps.
    + intros n Hlow. pose proof (data_start_pos s Hok).
      rewrite Hblk by (destruct Hid as (_ & ? & _); lia). rewrite allocated_blocks, !decide_False; [done| |].
      * unfold BBLOCK. pose proof (Z.div_pos r BPB). unfold BPB in *. lia.
      * destruct (free_in_data s r Hok Hr Hf). lia.
    + intros b Hb Hne. rewrite Hfr, decide_False by done. done.
  - done.
  - intros n Ho Hne. destruct (fi_own _ _ H n Ho). rewrite Hblk by done. by apply allocated_keeps.
  - rewrite (nfree_allocated s r) by done. f_equal. symmetry. by apply nfree_ext.
  - by apply free_in_data.
Qed.

(** ** bmap *)

Record mapped i k s a s' : Prop := {
  mp_ok : file_ok s' i;
  mp_ext : extends i s s';
  mp_addr : a = addr_of s' i k /\ a <> 0;
  mp_blk : forall n, owned s i n -> n <> ind s i -> blocks s' n = blocks s n;
  mp_credit : (credit s i <= S (credit s' i))%nat;
  mp_hit : addr_of s i k <> 0 -> s' = s;
}.
Lemma mapped_hit i k s : file_ok s i -> addr_of s i k <> 0 -> mapped i k s (addr_of s i k) s.
Proof. intros H Ha. split; [done|reflexivity|done|done|lia|done]. Qed.
Lemma took_ind i k r s s' : k <> IND -> took i k r s s' -> ind s' i = ind s i.
Proof.
  intros Hk T. rewrite !ind_ptr, (tk_ptr _ _ _ _ _ T) by lia. by rewrite decide_False by done.
Qed.
Lemma took_mapped i k r s s' : 0 <= k < IND -> ptr s i k = 0 -> took i k r s s' -> mapped i k s r s'.
Proof.
  intros Hk Hz T. pose proof (took_ind i k r s s' ltac:(lia) T) as Hi.
  destruct T as [Hok Hext Hptr Hblk Hfree [Hpos _]]. split; try done.
  - rewrite addr_ptr, Hptr, (decide_True (P := k = k)) by lia. split; [done|lia].
  - unfold credit. rewrite Hfree, Hi. lia.
  - intros Ha. rewrite addr_ptr in Ha by lia. done.
Qed.
(** The indirect block is taken first. *)
Lemma mapped_after_ind i k r s s1 a s2 :
  0 <= k < IND -> addr_of s i k = 0 -> ind s i = 0 -> file_ok s i ->
  took i IND r s s1 -> mapped i k s1 a s2 -> mapped i k s a s2.
Proof.
  intros Hk Ha Hi H T P. pose proof P as [Hok Hext Haddr Hblk Hcr _].
  assert (Hi1 : ind s1 i = r) by (rewrite ind_ptr, (tk_ptr _ _ _ _ _ T), decide_True; (done || lia)).
  split; try done.
  - transitivity s1; [exact (tk_ext _ _ _ _ _ T)|done].
  - intros n Ho Hne. rewrite Hblk; [by apply (tk_blk _ _ _ _ _ T)| |].
    + destruct Ho as [Hn (k' & Hk' & Hp)]. split; [done|]. exists k'. split; [done|].
      rewrite (tk_ptr _ _ _ _ _ T) by done. case_decide; [|done]. subst k'.
      rewrite <- ind_ptr in Hp. congruence.
    + rewrite Hi1. intros ->. pose proof (tk_ok _ _ _ _ _ T) as Hok1.
      destruct Ho as [Hn (k' & Hk' & Hp)].
      assert (k' <> IND) by (intros ->; rewrite <- ind_ptr in Hp; congruence).
      assert (k' = IND); [|done]. apply (fi_inj _ _ Hok1); [lia|lia| |].
      * rewrite (tk_ptr _ _ _ _ _ T), decide_False by (done || lia). congruence.
      * rewrite !(tk_ptr _ _ _ _ _ T) by lia. rewrite (decide_True (P := IND = IND)) by done.
        by rewrite decide_False by done.
  - unfold credit in *. rewrite Hi1 in Hcr. rewrite Hi, decide_True by done.
    rewrite (tk_free _ _ _ _ _ T). rewrite decide_False in Hcr; [lia|]. destruct (tk_new _ _ _ _ _ T). lia.
Qed.

Lemma geti_run i s B (f : inode -> M fs B) : (x ← geti i; f x) s = f (node s i) s.
Proof. done. Qed.
Lemma bread_run n s B (f : list Z -> M fs B) : (x ← bread ROOTDEV n; f x) s = f (blocks s n) s.
Proof. done. Qed.
(** The part of bmap behind the indirect block. *)
Lemma bmap_indirect s i k :
  file_ok s i -> Z.of_nat NDIRECT <= k < IND -> ind s i <> 0 -> (0 < nfree s)%nat ->
  wp (bp ← bread ROOTDEV (ind s i);
      let a := get32 bp (4 * Z.to_nat (k - Z.of_nat NDIRECT)) in
      if decide (a = 0) then
        a ← balloc ROOTDEV;
        log_write (ind s i) (set32 bp (4 * Z.to_nat (k - Z.of_nat NDIRECT)) a);;
        mret a
      else mret a) (mapped i k s) s.
Proof.
  intros H Hk Hi Hn. unfold wp. rewrite bread_run. cbv zeta.
  assert (E : addr_of s i k = get32 (blocks s (ind s i)) (4 * Z.to_nat (k - Z.of_nat NDIRECT))).
  { unfold addr_of. by rewrite decide_False, decide_False by lia. }
  rewrite <- E. case_decide as Ha.
  - destruct (balloc_run s (fi_fs _ _ H) Hn) as (r & Hr & Hf & Hrun).
    rewrite (bind_run _ _ _ _ _ Hrun). cbv beta.
    change (mapped i k s r (take_indirect i k r s)).
    rewrite addr_ptr in Ha by lia. apply took_mapped; [lia|done|]. by apply take_indirect_took.
  - by apply mapped_hit.
Qed.
Lemma bmap_spec s i k :
  file_ok s i -> 0 <= k < IND -> (1 < credit s i)%nat -> wp (bmap i k) (mapped i k s) s.
Proof.
  intros H Hk Hc. pose proof MAXFILE_Z as HM. unfold wp, bmap. rewrite geti_run, (fi_dev _ _ H).
  case_decide as Hd.
  - assert (E : addr_of s i k = iaddrs (node s i) !!! Z.to_nat k) by (unfold addr_of; by rewrite decide_True).
    cbv zeta. rewrite <- E. case_decide as Ha; [|by apply mapped_hit].
    destruct (balloc_run s (fi_fs _ _ H)) as (r & Hr & Hf & Hrun); [unfold credit in Hc; case_decide; lia|].
    rewrite (bind_run _ _ _ _ _ Hrun). cbv beta.
    change (mapped i k s r (take_direct i (Z.to_nat k) r s)).
    rewrite addr_ptr in Ha by lia. apply took_mapped; [lia|done|].
    assert (Es : slot_of (Z.to_nat k) = k) by (unfold slot_of; rewrite decide_False; lia).
    rewrite <- Es at 1. apply take_direct_took; try done; [lia|]. by rewrite Es.
  - change (Z.of_nat NDIRECT) with 12 in *. rewrite decide_True by (change (Z.of_nat NINDIRECT) with 128; lia).
    cbv zeta. fold (ind s i). destruct (decide (ind s i = 0)) as [Hi|Hi].
    + destruct (balloc_run s (fi_fs _ _ H)) as (r & Hr & Hf & Hrun); [unfold credit in Hc; case_decide; lia|].
      assert (T : took i IND r s (take_direct i NDIRECT r s)).
      { assert (Es : slot_of NDIRECT = IND) by done. rewrite <- Es.
        by apply take_direct_took. }
      set (s1 := take_direct i NDIRECT r s) in *.
      assert (Hi1 : ind s1 i = r) by (rewrite ind_ptr, (tk_ptr _ _ _ _ _ T), decide_True; (done || lia)).
      rewrite (bind_run _ _ s s1 (ind s1 i)).
      2:{ rewrite (bind_run _ _ _ _ _ Hrun), Hi1. done. }
      eapply wp_mono; [apply (bmap_indirect s1 i k)|].
      * apply T.
      * change (Z.of_nat NDIRECT) with 12. lia.
      * rewrite Hi1. destruct (tk_new _ _ _ _ _ T). lia.
      * unfold credit in Hc. rewrite decide_True in Hc by done. rewrite (tk_free _ _ _ _ _ T) in Hc. lia.
      * intros a s2 P. eapply mapped_after_ind; [done| |done|done|exact T|exact P].
        unfold addr_of. by rewrite decide_False, decide_True by done.
    + rewrite (bind_run _ _ s s (ind s i)) by done. apply (bmap_indirect s i k); try done.
      * change (Z.of_nat NDIRECT) with 12. lia.
      * unfold credit in Hc. case_decide; [done|lia].
Qed.
Lemma bmap_hit s i k :
  file_ok s i -> 0 <= k < IND -> addr_of s i k <> 0 -> bmap i k s = Ok (s, addr_of s i k).
Proof.
  intros H Hk Ha. unfold bmap. rewrite geti_run, (fi_dev _ _ H). revert Ha. unfold addr_of.
  case_decide; [intros Ha; cbv zeta; by rewrite decide_False|]. case_decide as Hi; [done|]. intros Ha.
  rewrite MAXFILE_Z in Hk.
  rewrite decide_True by (change (Z.of_nat NINDIRECT) with 128; change (Z.of_nat NDIRECT) with 12; lia).
  cbv zeta. fold (ind s i). rewrite (decide_False (P := ind s i = 0)) by done.
  rewrite (bind_run _ _ s s (ind s i)) by done. rewrite bread_run. by rewrite decide_False.
Qed.

(** ** Reading *)

(** Byte [x] of the file, and its contents. *)
Definition byte s i (x : Z) : Z := blocks s (addr_of s i (x / Z.of_nat BSIZE)) !!! Z.to_nat (x mod Z.of_nat BSIZE).
Definition contents s i : list Z := byte s i <$> seqZ 0 (isize (node s i)).

Lemma block_range (x m : Z) :
  0 <= x -> 0 < m <= Z.of_nat BSIZE - x mod Z.of_nat BSIZE ->
  forall y, x <= y < x + m -> y / Z.of_nat BSIZE = x / Z.of_nat BSIZE /\
    y mod Z.of_nat BSIZE = x mod Z.of_nat BSIZE + (y - x).
Proof.
  rewrite BSIZE_Z. intros Hx Hm y Hy. pose proof (Z.div_mod x 512). pose proof (Z.mod_pos_bound x 512).
  assert (E : y = 512 * (x / 512) + (x mod 512 + (y - x))) by lia.
  split; [symmetry; eapply Z.div_unique_pos; [|exact E]; lia|symmetry; eapply Z.mod_unique_pos; [|exact E]; lia].
Qed.
Lemma slice_block s i x m :
  fs_ok s -> 0 <= x -> 0 < m <= Z.of_nat BSIZE - x mod Z.of_nat BSIZE ->
  slice (blocks s (addr_of s i (x / Z.of_nat BSIZE))) (Z.to_nat (x mod Z.of_nat BSIZE)) (Z.to_nat m) =
    byte s i <$> seqZ x m.
Proof.
  intros H Hx Hm. pose proof BSIZE_Z as HB. pose proof (Z.mod_pos_bound x (Z.of_nat BSIZE) ltac:(lia)).
  apply list_eq. intros j. rewrite slice_lookup, list_lookup_fmap. case_decide as Hj.
  - rewrite lookup_seqZ_lt by lia. simpl. unfold byte.
    destruct (block_range x m Hx Hm (x + Z.of_nat j)) as [-> ->]; [lia|].
    rewrite list_lookup_lookup_total_lt by (rewrite (fk_len _ H); lia). do 2 f_equal. lia.
  - rewrite lookup_seqZ_ge by lia. done.
Qed.
Lemma readi_loop_spec s i fuel : forall off n,
  file_ok s i -> 0 <= off -> 0 <= n -> off + n <= isize (node s i) ->
  n <= 0 \/ n + off mod Z.of_nat BSIZE <= Z.of_nat fuel * Z.of_nat BSIZE ->
  readi_loop fuel i off n s = Ok (s, byte s i <$> seqZ off n).
Proof.
  induction fuel as [|fuel IH]; intros off n H Hoff Hn Hsz Hfuel; simpl.
  { pose proof BSIZE_Z as HB. pose proof (Z.mod_pos_bound off (Z.of_nat BSIZE) ltac:(lia)).
    by assert (n = 0) as -> by lia. }
  case_decide as Hz; [by assert (n = 0) as -> by lia|].
  pose proof BSIZE_Z as HB. pose proof (Z.mod_pos_bound off (Z.of_nat BSIZE) ltac:(lia)) as Hmod.
  pose proof (fi_size _ _ H) as HS. rewrite Nat2Z.inj_mul, MAXFILE_Z in HS.
  pose proof (Z.div_mod off (Z.of_nat BSIZE) ltac:(lia)) as Hdm.
  pose proof (Z.div_pos off (Z.of_nat BSIZE) Hoff ltac:(lia)) as Hdp.
  set (m := Z.min n (Z.of_nat BSIZE - off mod Z.of_nat BSIZE)).
  rewrite (bind_run _ _ s s (node s i)) by done.
  assert (Ha : addr_of s i (off / Z.of_nat BSIZE) <> 0) by (apply H; lia).
  rewrite (bind_run _ _ s s (addr_of s i (off / Z.of_nat BSIZE))) 
    by (apply bmap_hit; [done|split; [done|apply Z.div_lt_upper_bound; rewrite ?MAXFILE_Z; lia]|done]).
  rewrite (fi_dev _ _ H), bread_run. cbv zeta. fold m.
  rewrite (bind_run _ _ s s (byte s i <$> seqZ (off + m) (n - m))).
  - unfold mret, M_ret. rewrite slice_block by (apply H || lia).
    rewrite <- fmap_app, <- seqZ_app by lia. by replace (m + (n - m)) with n by lia.
  - apply IH; [done|lia|lia|lia|]. destruct (decide (n = m)); [left; lia|right].
    assert (E : (off + m) mod Z.of_nat BSIZE = 0).
    { symmetry. apply (Z.mod_unique_pos _ _ (off / Z.of_nat BSIZE + 1)); lia. }
    rewrite E. lia.
Qed.
Lemma turns_enough (off n : Z) :
  0 <= off -> 0 <= n -> n + off mod Z.of_nat BSIZE <= Z.of_nat (turns n) * Z.of_nat BSIZE.
Proof.
  intros Hoff Hn. unfold turns. rewrite BSIZE_Z. pose proof (Z.mod_pos_bound off 512).
  pose proof (Z.div_mod n 512). pose proof (Z.mod_pos_bound n 512). pose proof (Z.div_pos n 512). lia.
Qed.

(** ** Writing *)

(** Block [k] of the file gets contents [d]. *)
Definition put_part i k d s : fs := logs (addr_of s i k) d s.
Lemma put_part_ptr s i k d k' :
  file_ok s i -> 0 <= k < IND -> addr_of s i k <> 0 -> ptr (put_part i k d s) i k' = ptr s i k'.
Proof.
  intros H Hk Ha. apply ptr_ext; [done|]. intros Hi. unfold put_part, logs. simpl.
  rewrite fn_insert_cases, decide_False; [done|]. intros E.
  rewrite addr_ptr in E, Ha by lia. rewrite ind_ptr in E.
  assert (k = IND); [|lia]. apply (fi_inj _ _ H); (done || lia).
Qed.
Lemma put_part_ok s i k d :
  file_ok s i -> 0 <= k < IND -> addr_of s i k <> 0 -> length d = BSIZE -> Forall is_u8 d ->
  file_ok (put_part i k d s) i /\ extends i s (put_part i k d s) /\
  credit (put_part i k d s) i = credit s i.
Proof.
  intros H Hk Ha Hl Hd. pose proof (fi_fs _ _ H) as Hok.
  assert (Ho : owned s i (addr_of s i k)) by (rewrite addr_ptr in * by lia; apply owned_ptr; [lia|done]).
  destruct (fi_own _ _ H _ Ho) as [Hin Hu].
  destruct (logs_ok s (addr_of s i k) d Hok (or_introl Hin) Hl Hd) as [Hok' Hfr].
  fold (put_part i k d s) in Hok', Hfr.
  assert (Hptr := fun k' => put_part_ptr s i k d k' H Hk Ha).
  assert (Haddr : forall k', k' <> IND -> addr_of (put_part i k d s) i k' = addr_of s i k').
  { intros k' Hk'. rewrite !addr_ptr by done. apply Hptr. }
  assert (Hown : forall n, owned (put_part i k d s) i n <-> owned s i n).
  { intros n. unfold owned. by setoid_rewrite Hptr. }
  split; [|split].
  - split; try done; try apply H.
    + intros n Hn%Hown. destruct (fi_own _ _ H n Hn) as [Hd1 Hf1]. split; [exact Hd1|].
      destruct Hd1 as (? & ? & ?). rewrite Hfr by lia. done.
    + intros k1 k2. rewrite !Hptr. apply H.
    + intros k' Hk' Hlt. pose proof (fi_size _ _ H) as HS. rewrite Nat2Z.inj_mul in HS.
      change (node (put_part i k d s) i) with (node s i) in Hlt.
      rewrite Haddr by (pose proof BSIZE_Z; nia). by apply H.
  - split; try done.
    + exists (iaddrs (node s i)). change (node (put_part i k d s) i) with (node s i). by destruct (node s i).
    + intros n Hn Hnu Hno. unfold put_part, logs. simpl. rewrite fn_insert_cases, decide_False; [done|].
      by intros <-.
    + intros n Hn. unfold put_part, logs. simpl. rewrite fn_insert_cases, decide_False; [done|].
      pose proof (data_start_pos s Hok). destruct Hin as (_ & ? & _). lia.
    + intros n Hn Hf. by rewrite Hfr.
    + intros n Hn%Hown. by left.
    + intros k' Hk' _. apply Haddr. lia.
  - unfold credit. rewrite (nfree_ext s (put_part i k d s)) by done. done.
Qed.
Lemma put_part_byte s i k d x :
  file_ok s i -> 0 <= k < IND -> addr_of s i k <> 0 -> 0 <= x / Z.of_nat BSIZE < IND ->
  byte (put_part i k d s) i x =
    if decide (x / Z.of_nat BSIZE = k) then d !!! Z.to_nat (x mod Z.of_nat BSIZE) else byte s i x.
Proof.
  intros H Hk Ha Hx. unfold byte.
  assert (E : addr_of (put_part i k d s) i (x / Z.of_nat BSIZE) = addr_of s i (x / Z.of_nat BSIZE)).
  { rewrite !addr_ptr by lia. by apply put_part_ptr. }
  rewrite E. unfold put_part, logs. simpl. rewrite fn_insert_cases. case_decide as E1; case_decide as E2; try done.
  - rewrite !addr_ptr in * by lia. destruct E2. symmetry. apply (fi_inj _ _ H); (done || lia).
  - by rewrite E2 in E1.
Qed.

(** What the loop of writei has done: [src] lies at [off]. *)
Record written i off (src : list Z) s s' : Prop := {
  wr_ok : file_ok s' i;
  wr_ext : extends i s s';
  wr_new : forall x, off <= x < off + Z.of_nat (length src) -> byte s' i x = src !!! Z.to_nat (x - off);
  wr_old : forall x, 0 <= x / Z.of_nat BSIZE < IND -> ~ off <= x < off + Z.of_nat (length src) ->
             addr_of s i (x / Z.of_nat BSIZE) <> 0 -> byte s' i x = byte s i x;
  wr_map : forall x, off <= x < off + Z.of_nat (length src) -> addr_of s' i (x / Z.of_nat BSIZE) <> 0;
  wr_sync : iaddrs (node s' i) = iaddrs (node s i) \/ isize (node s i) < off + Z.of_nat (length src);
}.
Lemma written_nil i off s : file_ok s i -> written i off [] s s.
Proof. intros H. split; simpl; try done; try lia; try reflexivity. by left. Qed.
Lemma mapped_byte i k s a s1 x :
  file_ok s i -> mapped i k s a s1 -> 0 <= x / Z.of_nat BSIZE < IND ->
  addr_of s i (x / Z.of_nat BSIZE) <> 0 -> byte s1 i x = byte s i x.
Proof.
  intros H P Hx Ha. unfold byte. rewrite (ex_map _ _ _ (mp_ext _ _ _ _ _ P)) by done. f_equal.
  rewrite addr_ptr in * by lia. apply (mp_blk _ _ _ _ _ P); [apply owned_ptr; [lia|done]|].
  rewrite ind_ptr. intros E. assert (x / Z.of_nat BSIZE = IND); [|lia]. apply (fi_inj _ _ H); (done || lia).
Qed.
(** One turn of the loop: bmap, then the block with the bytes [bs] put in. *)
Definition turn_state i off (bs : list Z) a s1 : fs :=
  put_part i (off / Z.of_nat BSIZE) (splice (blocks s1 a) (Z.to_nat (off mod Z.of_nat BSIZE)) bs) s1.
Lemma turn_state_logs i off bs a s1 s :
  mapped i (off / Z.of_nat BSIZE) s a s1 ->
  turn_state i off bs a s1 = logs a (splice (blocks s1 a) (Z.to_nat (off mod Z.of_nat BSIZE)) bs) s1.
Proof. intros P. destruct (mp_addr _ _ _ _ _ P) as [Ha _]. unfold turn_state, put_part. by rewrite <- Ha. Qed.
Lemma written_one i off (bs : list Z) s a s1 :
  file_ok s i -> 0 <= off -> Forall is_u8 bs -> (0 < length bs)%nat ->
  Z.of_nat (length bs) <= Z.of_nat BSIZE - off mod Z.of_nat BSIZE ->
  off / Z.of_nat BSIZE < IND -> mapped i (off / Z.of_nat BSIZE) s a s1 ->
  written i off bs s (turn_state i off bs a s1) /\ credit (turn_state i off bs a s1) i = credit s1 i.
Proof.
  intros H Hoff Hbs Hpos Hlen Hlt P. pose proof P as [Hok Hext [Ha Hne] Hblk Hcr Hhit].
  pose proof BSIZE_Z as HB. set (k := off / Z.of_nat BSIZE) in *.
  pose proof (Z.mod_pos_bound off (Z.of_nat BSIZE) ltac:(lia)) as Hmod.
  assert (Hdm : off = Z.of_nat BSIZE * k + off mod Z.of_nat BSIZE) by (apply Z.div_mod; lia).
  assert (Hk : 0 <= k < IND) by (split; [apply Z.div_pos; lia|done]).
  rewrite Ha in Hne. unfold turn_state. fold k. rewrite Ha.
  set (d := splice (blocks s1 (addr_of s1 i k)) (Z.to_nat (off mod Z.of_nat BSIZE)) bs).
  pose proof (fk_len _ (fi_fs _ _ Hok) (addr_of s1 i k)) as Hbl.
  destruct (put_part_ok s1 i k d Hok Hk Hne) as (Hok2 & Hext2 & Hcr2).
  { unfold d. rewrite splice_length; lia. }
  { apply splice_bytes; [apply (fi_fs _ _ Hok)|done]. }
  split; [|done]. split.
  - done.
  - by transitivity s1.
  - intros x Hx. destruct (block_range off (Z.of_nat (length bs)) Hoff ltac:(lia) x Hx) as [E1 E2].
    rewrite put_part_byte by (done || (rewrite E1; done)). rewrite decide_True by done. rewrite E2. unfold d.
    apply list_lookup_total_correct. rewrite splice_lookup by lia. rewrite decide_True by lia.
    rewrite <- list_lookup_lookup_total_lt by lia. f_equal. lia.
  - intros x Hx Hout Hax. rewrite put_part_byte by done. case_decide as E; [|by eapply mapped_byte].
    rewrite <- (mapped_byte i k s a s1 x) by done. unfold byte. rewrite E. unfold d.
    rewrite !list_lookup_total_alt. rewrite splice_lookup by lia.
    rewrite decide_False; [done|]. intros Hin. apply Hout.
    pose proof (Z.div_mod x (Z.of_nat BSIZE) ltac:(lia)) as Hxm. rewrite E in Hxm. pose proof (Z.mod_pos_bound x (Z.of_nat BSIZE) ltac:(lia)). lia.
  - intros x Hx. destruct (block_range off (Z.of_nat (length bs)) Hoff ltac:(lia) x Hx) as [E1 E2].
    rewrite E1. fold k. rewrite addr_ptr, put_part_ptr, <- addr_ptr by (done || lia). done.
  - destruct (decide (addr_of s i k = 0)) as [Hz|Hz].
    + right. destruct (decide (k * Z.of_nat BSIZE < isize (node s i))) as [Hlt'|Hge].
      { destruct (fi_full _ _ H k); (done || lia). }
      lia.
    + left. by rewrite (Hhit Hz).
Qed.
Lemma extends_size i s s' : extends i s s' -> isize (node s' i) = isize (node s i).
Proof. intros [_ _ _ [a Ha] _ _ _ _ _]. by rewrite Ha. Qed.
Lemma written_app i off bs1 bs2 s s1 s2 :
  0 <= off -> off + Z.of_nat (length (bs1 ++ bs2)) <= Z.of_nat (MAXFILE * BSIZE) ->
  written i off bs1 s s1 -> written i (off + Z.of_nat (length bs1)) bs2 s1 s2 -> written i off (bs1 ++ bs2) s s2.
Proof.
  intros Hoff Hmax A B. rewrite length_app, Nat2Z.inj_add in *. pose proof BSIZE_Z as HB.
  assert (Hdiv : forall x, 0 <= x < Z.of_nat (MAXFILE * BSIZE) -> 0 <= x / Z.of_nat BSIZE < IND).
  { intros x Hx. split; [apply Z.div_pos; lia|apply Z.div_lt_upper_bound; lia]. }
  split; try rewrite length_app, Nat2Z.inj_add in *.
  - apply B.
  - transitivity s1; [apply A|apply B].
  - intros x Hx. destruct (decide (x < off + Z.of_nat (length bs1))) as [Hlt|Hge].
    + rewrite (wr_old _ _ _ _ _ B) by (try apply (wr_map _ _ _ _ _ A); try apply Hdiv; lia).
      rewrite (wr_new _ _ _ _ _ A) by lia. symmetry. apply lookup_total_app_l. lia.
    + rewrite (wr_new _ _ _ _ _ B) by lia. rewrite lookup_total_app_r by lia. f_equal. lia.
  - intros x Hx Hout Hax. rewrite (wr_old _ _ _ _ _ B); [apply (wr_old _ _ _ _ _ A); (done || lia)|done|lia|].
    rewrite (ex_map _ _ _ (wr_ext _ _ _ _ _ A)); done.
  - intros x Hx. destruct (decide (x < off + Z.of_nat (length bs1))) as [Hlt|Hge].
    + pose proof (wr_map _ _ _ _ _ A x ltac:(lia)) as Hm.
      rewrite (ex_map _ _ _ (wr_ext _ _ _ _ _ B)); [done|apply Hdiv; lia|done].
    + apply (wr_map _ _ _ _ _ B). lia.
  - pose proof (extends_size _ _ _ (wr_ext _ _ _ _ _ A)) as Hs.
    destruct (wr_sync _ _ _ _ _ A) as [E1|]; [|right; lia].
    destruct (wr_sync _ _ _ _ _ B) as [E2|]; [left; congruence|right; lia].
Qed.
Lemma writei_loop_spec i fuel : forall off src s,
  file_ok s i -> 0 <= off -> off + Z.of_nat (length src) <= Z.of_nat (MAXFILE * BSIZE) -> Forall is_u8 src ->
  src = [] \/ Z.of_nat (length src) + off mod Z.of_nat BSIZE <= Z.of_nat fuel * Z.of_nat BSIZE ->
  (fuel < credit s i)%nat ->
  wp (writei_loop fuel i off src) (fun off' s' => off' = off + Z.of_nat (length src) /\ written i off src s s') s.
Proof.
  induction fuel as [|fuel IH]; intros off src s H Hoff Hmax Hu Hfuel Hc; cbn [writei_loop].
  { pose proof BSIZE_Z as HB. pose proof (Z.mod_pos_bound off (Z.of_nat BSIZE) ltac:(lia)).
    assert (src = []) as -> by (destruct Hfuel as [|Hf]; [done|]; destruct src; [done|simpl length in Hf; lia]).
    apply wp_ret. split; [simpl; lia|by apply written_nil]. }
  destruct (decide (src = [])) as [->|Hne].
  { apply wp_ret. split; [simpl; lia|by apply written_nil]. }
  assert (Hlen : (0 < length src)%nat) by (destruct src; [done|simpl; lia]).
  destruct Hfuel as [|Hfuel]; [done|].
  pose proof BSIZE_Z as HB. pose proof (Z.mod_pos_bound off (Z.of_nat BSIZE) ltac:(lia)) as Hmod.
  pose proof (Z.div_mod off (Z.of_nat BSIZE) ltac:(lia)) as Hdm.
  set (m := Z.to_nat (Z.min (Z.of_nat (length src)) (Z.of_nat BSIZE - off mod Z.of_nat BSIZE))).
  assert (Hm : length (take m src) = m) by (rewrite length_take; lia).
  assert (Hk : off / Z.of_nat BSIZE < IND) by (apply Z.div_lt_upper_bound; lia).
  assert (Hcase : forall X Y : M fs Z, match src with [] => X | _ :: _ => Y end = Y) by (destruct src; done).
  rewrite Hcase. apply wp_bind, wp_gets. rewrite (fi_dev _ _ H). apply wp_bind.
  eapply wp_mono; [apply (bmap_spec s i); [done|split; [apply Z.div_pos; lia|done]|lia]|].
  intros a s1 P. apply wp_bind. unfold bread. rewrite decide_True by done. apply wp_gets.
  fold m. apply wp_bind. unfold log_write. apply wp_modify.
  change (wp (writei_loop fuel i (off + Z.of_nat m) (drop m src)) (fun off' s' => off' = off + Z.of_nat (length src) /\ written i off src s s')
    (logs a (splice (blocks s1 a) (Z.to_nat (off mod Z.of_nat BSIZE)) (take m src)) s1)).
  rewrite <- (turn_state_logs i off (take m src) a s1 s P).
  destruct (written_one i off (take m src) s a s1 H Hoff) as [W Hcr]; try done; try lia.
  { by apply Forall_take. }
  pose proof (mp_credit _ _ _ _ _ P).
  eapply wp_mono; [apply IH|].
  - apply W.
  - lia.
  - rewrite length_drop. lia.
  - by apply Forall_drop.
  - rewrite length_drop. destruct (decide (m = length src)) as [->|Hmne]; [left; by rewrite drop_all|right].
    assert (E : (off + Z.of_nat m) mod Z.of_nat BSIZE = 0).
    { symmetry. apply (Z.mod_unique_pos _ _ (off / Z.of_nat BSIZE + 1)); lia. }
    rewrite E. lia.
  - lia.
  - intros off' s' [-> W2]. split; [rewrite length_drop; lia|].
    rewrite <- (take_drop m src). eapply written_app; [done| |exact W|].
    + rewrite take_drop. done.
    + by rewrite Hm.
Qed.

(** ** The inode on disk *)

(** The disk has the inode as it is in memory. *)
Definition synced s i : Prop :=
  get_dinode (blocks s (IBLOCK (inum (node s i)) (sb s))) (dinode_at (inum (node s i))) (node s i) = node s i.
Definition dinode_bytes s (j : Z) : list Z := slice (blocks s (IBLOCK j (sb s))) (dinode_at j) 64.
Definition flush i s : fs :=
  logs (IBLOCK (inum (node s i)) (sb s))
    (put_dinode (blocks s (IBLOCK (inum (node s i)) (sb s))) (dinode_at (inum (node s i))) (node s i)) s.
Lemma iupdate_run s i : idev (node s i) = ROOTDEV -> iupdate i s = Ok (flush i s, tt).
Proof. intros H. unfold iupdate. rewrite geti_run, H. done. Qed.

Lemma addrs_range s i : file_ok s i -> Forall is_u32 (iaddrs (node s i)).
Proof.
  intros H. pose proof (fk_size _ (fi_fs _ _ H)). apply Forall_lookup. intros j a Ha.
  pose proof (lookup_lt_Some _ _ _ Ha) as Hj. rewrite (fi_len _ _ H) in Hj.
  assert (E : ptr s i (slot_of j) = a).
  { apply list_lookup_total_correct in Ha. rewrite <- Ha. unfold slot_of. pose proof MAXFILE_Z.
    change NDIRECT with 12%nat in *. case_decide; [by subst; rewrite <- ind_ptr|].
    rewrite <- addr_ptr by lia. unfold addr_of. change NDIRECT with 12%nat. rewrite decide_True by lia.
    by rewrite Nat2Z.id. }
  destruct (decide (a = 0)) as [->|Hne]; [unfold is_u32; lia|].
  assert (Ho : owned s i a).
  { split; [done|]. exists (slot_of j). split; [|done]. pose proof MAXFILE_Z. unfold slot_of.
    change NDIRECT with 12%nat in *. case_decide; lia. }
  destruct (fi_own _ _ H a Ho) as [(? & ? & ?) _]. unfold is_u32. lia.
Qed.
(** An inode that was read from disk has its 16-bit fields in range. *)
Lemma synced_range s s' i a z :
  synced s i -> node s' i = (node s i) <| iaddrs := a |> <| isize := z |> -> file_ok s' i ->
  inode_range (node s' i).
Proof.
  intros Hs Hn H. unfold synced in Hs. pose proof (addrs_range s' i H) as Ha. pose proof (fi_len _ _ H) as Hl.
  assert (Hsz : is_u32 (isize (node s' i))).
  { pose proof (fi_size _ _ H) as HS. rewrite Nat2Z.inj_mul, MAXFILE_Z, BSIZE_Z in HS. unfold is_u32. lia. }
  rewrite Hn in *. rewrite <- Hs in *. split; try done; apply s16_is.
Qed.
Lemma dinode_at_lt j : (dinode_at j + 64 <= BSIZE)%nat.
Proof.
  unfold dinode_at. pose proof (Z.mod_pos_bound j IPB). pose proof BSIZE_Z. unfold IPB in *. lia.
Qed.
(** Writing a block below the bitmap changes no file contents. *)
Lemma low_block s i n d :
  file_ok s i -> n < sb_bmapstart (sb s) -> length d = BSIZE -> Forall is_u8 d ->
  file_ok (logs n d s) i /\ (forall k, ptr (logs n d s) i k = ptr s i k) /\
  (forall b, in_data s b -> blocks (logs n d s) b = blocks s b) /\
  (forall b, 0 <= b < sb_size (sb s) -> free (logs n d s) b = free s b).
Proof.
  intros H Hn Hl Hd. pose proof (fi_fs _ _ H) as Hok. pose proof (data_start_pos s Hok) as Hds.
  destruct (logs_ok s n d Hok (or_intror Hn) Hl Hd) as [Hok' Hfr].
  assert (Hblk : forall b, in_data s b -> blocks (logs n d s) b = blocks s b).
  { intros b (_ & Hb & _). unfold logs. simpl. rewrite fn_insert_cases, decide_False by lia. done. }
  assert (Hptr : forall k, ptr (logs n d s) i k = ptr s i k).
  { intros k. apply ptr_ext; [done|]. intros Hi. apply Hblk. by apply (ind_ok s i H Hi). }
  split; [|done]. split; try done; try apply H.
  - intros b Hb. assert (Ho : owned s i b) by (unfold owned in *; by setoid_rewrite Hptr in Hb).
    destruct (fi_own _ _ H b Ho) as [Hin Hf]. split; [exact Hin|]. destruct Hin as (? & _ & ?).
    by rewrite Hfr by lia.
  - intros k k'. rewrite !Hptr. apply H.
  - intros k Hk Hlt. pose proof (fi_size _ _ H) as HS. rewrite Nat2Z.inj_mul in HS.
    change (node (logs n d s) i) with (node s i) in Hlt. pose proof BSIZE_Z.
    rewrite addr_ptr, Hptr, <- addr_ptr by nia. by apply H.
Qed.
Lemma inode_block_low s i : file_ok s i -> IBLOCK (inum (node s i)) (sb s) < sb_bmapstart (sb s).
Proof. intros H. apply (fi_fs _ _ H), H. Qed.
Lemma flush_ok s i :
  file_ok s i -> inode_range (node s i) ->
  file_ok (flush i s) i /\ synced (flush i s) i /\ (forall k, ptr (flush i s) i k = ptr s i k) /\
  (forall b, in_data s b -> blocks (flush i s) b = blocks s b) /\
  (forall b, 0 <= b < sb_size (sb s) -> free (flush i s) b = free s b) /\
  (forall j, 0 <= j -> j <> inum (node s i) -> dinode_bytes (flush i s) j = dinode_bytes s j).
Proof.
  intros H R. pose proof (fi_fs _ _ H) as Hok. set (n := inum (node s i)).
  pose proof (dinode_at_lt n) as Hat. pose proof (fk_len _ Hok (IBLOCK n (sb s))) as Hlen.
  pose proof (enc_dinode_length _ (ir_len _ R)) as He.
  destruct (low_block s i (IBLOCK n (sb s)) (put_dinode (blocks s (IBLOCK n (sb s))) (dinode_at n) (node s i)))
    as (Hok' & Hptr & Hblk & Hfr).
  { done. }
  { by apply inode_block_low. }
  { rewrite put_dinode_splice, splice_length by lia. done. }
  { rewrite put_dinode_splice by lia. apply splice_bytes; [apply Hok|apply enc_dinode_bytes]. }
  change (logs _ _ s) with (flush i s) in *.
  split; [done|]. split; [|split; [done|split; [done|split; [done|]]]].
  - unfold synced, flush, logs. simpl. fold n. rewrite fn_insert_cases, decide_True by done.
    apply get_put_dinode; [lia|done].
  - intros j Hj Hne. unfold dinode_bytes, flush, logs. simpl. fold n. rewrite fn_insert_cases.
    case_decide as E; [|done]. rewrite <- E, put_dinode_splice by lia.
    apply slice_splice_disjoint; [lia|]. rewrite He. unfold dinode_at.
    assert (Hmod : j mod IPB <> n mod IPB).
    { intros Em. destruct Hne. rewrite (Z.div_mod j IPB), (Z.div_mod n IPB) by done.
      unfold IBLOCK in E. replace (j / IPB) with (n / IPB) by lia. by rewrite Em. }
    pose proof (Z.mod_pos_bound j IPB). pose proof (Z.mod_pos_bound n IPB). unfold IPB in *. lia.
Qed.

(** ** writei and readi *)

Lemma contents_length s i : length (contents s i) = Z.to_nat (isize (node s i)).
Proof. unfold contents. by rewrite length_fmap, length_seqZ. Qed.
Lemma contents_splice s s' i off (src : list Z) :
  0 <= off <= isize (node s i) ->
  isize (node s' i) = Z.max (isize (node s i)) (off + Z.of_nat (length src)) ->
  (forall x, off <= x < off + Z.of_nat (length src) -> byte s' i x = src !!! Z.to_nat (x - off)) ->
  (forall x, 0 <= x < isize (node s i) -> ~ off <= x < off + Z.of_nat (length src) -> byte s' i x = byte s i x) ->
  contents s' i = splice (contents s i) (Z.to_nat off) src.
Proof.
  intros Hoff Hsz Hnew Hold. apply list_eq. intros j.
  rewrite splice_lookup_ext by (rewrite contents_length; lia).
  unfold contents. rewrite !list_lookup_fmap. case_decide as Hj.
  - rewrite lookup_seqZ_lt by lia. simpl. rewrite Hnew by lia.
    rewrite list_lookup_lookup_total_lt by lia. do 2 f_equal. lia.
  - destruct (decide (Z.of_nat j < isize (node s i))).
    + rewrite !lookup_seqZ_lt by lia. simpl. rewrite Hold; (done || lia).
    + by rewrite !lookup_seqZ_ge by lia.
Qed.

(** The size in memory is set and the inode written to disk. *)
Definition resized i z s : fs := s <| icache ::= alter (fun ip => ip <| isize := z |>) i |>.
Lemma resized_node s i z :
  (i < length (icache s))%nat -> node (resized i z s) i = (node s i) <| isize := z |>.
Proof.
  intros Hi. unfold resized. simpl. destruct (lookup_lt_is_Some_2 _ _ Hi) as [x Hx].
  apply list_lookup_total_correct. rewrite list_lookup_alter_eq, Hx.
  by rewrite (list_lookup_total_correct _ _ _ Hx).
Qed.
Lemma resized_ptr s i z k : (i < length (icache s))%nat -> ptr (resized i z s) i k = ptr s i k.
Proof. intros Hi. apply ptr_ext; [|done]. by rewrite resized_node. Qed.
Lemma resized_ok s i z :
  file_ok s i -> 0 <= z <= Z.of_nat (MAXFILE * BSIZE) ->
  (forall k, 0 <= k -> k * Z.of_nat BSIZE < z -> addr_of s i k <> 0) -> file_ok (resized i z s) i.
Proof.
  intros H Hz Hfull. pose proof (fi_lt _ _ H) as Hlt. pose proof (resized_node s i z Hlt) as Hn.
  assert (Hptr := fun k => resized_ptr s i z k Hlt).
  split; rewrite ?Hn; try done; try apply H.
  - apply (fs_ok_icache s), H.
  - unfold resized. simpl. by rewrite length_alter.
  - intros n Ho. unfold owned in Ho. setoid_rewrite Hptr in Ho. by apply H.
  - intros k k'. rewrite !Hptr. apply H.
  - intros k Hk Hlt'. rewrite Nat2Z.inj_mul in Hz. pose proof BSIZE_Z. change (isize _) with z in Hlt'.
    rewrite addr_ptr, Hptr, <- addr_ptr by nia. by apply Hfull.
Qed.

(** What a call of writei leaves behind. *)
Record wrote_file i off (src : list Z) s s' : Prop := {
  wf_ok : file_ok s' i;
  wf_synced : synced s' i;
  wf_contents : contents s' i = splice (contents s i) (Z.to_nat off) src;
  wf_used : forall n, in_data s n -> free s n = false -> free s' n = false;
  wf_other : forall n, in_data s n -> free s n = false -> ~ owned s i n -> blocks s' n = blocks s n;
  wf_dinodes : forall j, 0 <= j < sb_ninodes (sb s) -> j <> inum (node s i) -> dinode_bytes s' j = dinode_bytes s j;
  wf_type : itype (node s' i) = itype (node s i);
  wf_icache : forall j, j <> i -> icache s' !! j = icache s !! j;
}.
Lemma written_other i off src s s' :
  written i off src s s' -> forall n, in_data s n -> free s n = false -> ~ owned s i n -> blocks s' n = blocks s n.
Proof. intros W. apply (ex_blk _ _ _ (wr_ext _ _ _ _ _ W)). Qed.
Lemma written_dinodes i off src s s' j :
  fs_ok s -> written i off src s s' -> 0 <= j < sb_ninodes (sb s) -> dinode_bytes s' j = dinode_bytes s j.
Proof.
  intros H W Hj. pose proof (wr_ext _ _ _ _ _ W) as X. unfold dinode_bytes.
  rewrite (ex_sb _ _ _ X), (ex_low _ _ _ X); [done|by apply H].
Qed.
Lemma byte_mapped s i x :
  file_ok s i -> 0 <= x < isize (node s i) ->
  0 <= x / Z.of_nat BSIZE < IND /\ addr_of s i (x / Z.of_nat BSIZE) <> 0.
Proof.
  intros H Hx. pose proof (fi_size _ _ H) as HS. rewrite Nat2Z.inj_mul in HS. pose proof BSIZE_Z as HB.
  assert (Hd : 0 <= x / Z.of_nat BSIZE) by (apply Z.div_pos; lia).
  pose proof (Z.div_mod x (Z.of_nat BSIZE) ltac:(lia)). pose proof (Z.mod_pos_bound x (Z.of_nat BSIZE) ltac:(lia)).
  split; [split; [done|apply Z.div_lt_upper_bound; lia]|]. apply H; lia.
Qed.
(** The file did not grow. *)
Lemma wrote_inside i off src s s' :
  file_ok s i -> synced s i -> 0 <= off -> off + Z.of_nat (length src) <= isize (node s i) ->
  written i off src s s' -> wrote_file i off src s s'.
Proof.
  intros H Hs Hoff Hin W. pose proof (wr_ext _ _ _ _ _ W) as X. split.
  - apply W.
  - destruct (wr_sync _ _ _ _ _ W) as [E|]; [|lia]. unfold synced.
    assert (En : node s' i = node s i).
    { destruct (ex_node _ _ _ X) as [a Ha]. rewrite Ha in *. simpl in E. subst a. by destruct (node s i). }
    rewrite En, (ex_sb _ _ _ X), (ex_low _ _ _ X); [done|by apply inode_block_low].
  - apply contents_splice.
    + lia.
    + rewrite (extends_size _ _ _ X). lia.
    + apply W.
    + intros x Hx Hout. destruct (byte_mapped s i x H Hx). by apply (wr_old _ _ _ _ _ W).
  - intros n (? & _ & ?) Hu. apply (ex_used _ _ _ X); [lia|done].
  - by eapply written_other.
  - intros j Hj _. eapply written_dinodes; [apply H|done|done].
  - destruct (ex_node _ _ _ X) as [a ->]. done.
  - apply X.
Qed.
(** The file grew to [z]. *)
Lemma grown_full i off src s s1 :
  file_ok s i -> 0 <= off <= isize (node s i) -> written i off src s s1 ->
  isize (node s i) < off + Z.of_nat (length src) ->
  forall k, 0 <= k -> k * Z.of_nat BSIZE < off + Z.of_nat (length src) -> addr_of s1 i k <> 0.
Proof.
  intros H Hoff W Hgt k Hk Hlt. pose proof (wr_ext _ _ _ _ _ W) as X. pose proof BSIZE_Z as HB.
  destruct (decide (k * Z.of_nat BSIZE < isize (node s i))) as [Hl|Hg].
  - apply (wr_ok _ _ _ _ _ W); [done|]. by rewrite (extends_size _ _ _ X).
  - pose proof (wr_map _ _ _ _ _ W (k * Z.of_nat BSIZE) ltac:(lia)) as Hm.
    rewrite Z.div_mul in Hm by lia. done.
Qed.
Lemma grown_byte s i z x :
  file_ok (resized i z s) i -> inode_range (node (resized i z s) i) -> (i < length (icache s))%nat ->
  0 <= x / Z.of_nat BSIZE < IND -> addr_of s i (x / Z.of_nat BSIZE) <> 0 ->
  byte (flush i (resized i z s)) i x = byte s i x.
Proof.
  intros H R Hi Hx Ha. destruct (flush_ok _ _ H R) as (_ & _ & Hptr & Hblk & _).
  assert (E : addr_of (flush i (resized i z s)) i (x / Z.of_nat BSIZE) = addr_of s i (x / Z.of_nat BSIZE)).
  { rewrite !addr_ptr, Hptr, resized_ptr by (done || lia). done. }
  unfold byte. rewrite E. rewrite Hblk; [done|]. apply (fi_own _ _ H).
  rewrite addr_ptr in * by lia. rewrite <- (resized_ptr s i z) by done.
  apply owned_ptr; [lia|]. by rewrite resized_ptr.
Qed.
Lemma wrote_grown i off src s s1 :
  file_ok s i -> synced s i -> 0 <= off <= isize (node s i) ->
  off + Z.of_nat (length src) <= Z.of_nat (MAXFILE * BSIZE) -> isize (node s i) < off + Z.of_nat (length src) ->
  written i off src s s1 -> wrote_file i off src s (flush i (resized i (off + Z.of_nat (length src)) s1)).
Proof.
  intros H Hs Hoff Hmax Hgt W. set (z := off + Z.of_nat (length src)) in *.
  pose proof (wr_ext _ _ _ _ _ W) as X. pose proof (wr_ok _ _ _ _ _ W) as Hok1.
  pose proof (fi_lt _ _ Hok1) as Hlt. pose proof (resized_node s1 i z Hlt) as Hn.
  assert (Hfull := grown_full i off src s s1 H Hoff W Hgt).
  assert (Hok2 : file_ok (resized i z s1) i) by (apply resized_ok; [done|lia|exact Hfull]).
  destruct (ex_node _ _ _ X) as [a Ha].
  assert (R : inode_range (node (resized i z s1) i)).
  { eapply synced_range; [exact Hs|by rewrite Hn, Ha|done]. }
  destruct (flush_ok _ _ Hok2 R) as (Hok3 & Hsy & Hptr & Hblk & Hfr & Hdi).
  assert (Hb := fun x => grown_byte s1 i z x Hok2 R Hlt).
  split.
  - done.
  - done.
  - apply contents_splice.
    + done.
    + change (node (flush i (resized i z s1)) i) with (node (resized i z s1) i). rewrite Hn. simpl. lia.
    + intros x Hx. rewrite Hb; [by apply (wr_new _ _ _ _ _ W)| |by apply (wr_map _ _ _ _ _ W)].
      rewrite Nat2Z.inj_mul in Hmax. pose proof BSIZE_Z.
      split; [apply Z.div_pos; lia|apply Z.div_lt_upper_bound; lia].
    + intros x Hx Hout. destruct (byte_mapped s i x H Hx) as [Hr Hax].
      rewrite Hb; [by apply (wr_old _ _ _ _ _ W)|done|]. by rewrite (ex_map _ _ _ X).
  - intros n (? & _ & ?) Hu. change (sb (resized i z s1)) with (sb s1) in Hfr. rewrite (ex_sb _ _ _ X) in Hfr.
    rewrite Hfr by lia. apply (ex_used _ _ _ X); [lia|done].
  - intros n Hin Hu Hno. rewrite Hblk; [by apply (written_other _ _ _ _ _ W)|].
    unfold in_data in *. change (sb (resized i z s1)) with (sb s1). by rewrite (ex_sb _ _ _ X).
  - intros j Hj Hne. rewrite Hdi; [|lia|rewrite Hn, Ha; done].
    change (dinode_bytes (resized i z s1) j) with (dinode_bytes s1 j). eapply written_dinodes; [apply H|done|done].
  - change (node (flush i (resized i z s1)) i) with (node (resized i z s1) i). by rewrite Hn, Ha.
  - intros j Hj. unfold flush, logs, resized. simpl. rewrite list_lookup_alter_ne by done. by apply X.
Qed.

Section calls.
Context (devread : Z -> option (nat -> Z -> M fs (Z * list Z))).
Context (devwrite : Z -> option (nat -> list Z -> M fs Z)).

(** Enough free blocks for a write of [n] bytes. *)
Definition room n s : Prop := (turns n < nfree s)%nat.
Lemma writei_spec s i src off :
  file_ok s i -> synced s i -> itype (node s i) <> T_DEV -> Forall is_u8 src ->
  0 <= off <= isize (node s i) -> off + Z.of_nat (length src) <= Z.of_nat (MAXFILE * BSIZE) ->
  room (Z.of_nat (length src)) s ->
  wp (writei devwrite i src off) (fun r s' => r = Z.of_nat (length src) /\ wrote_file i off src s s') s.
Proof.
  intros H Hs Hty Hu Hoff Hmax Hroom. unfold writei. apply wp_bind, wp_gets.
  rewrite (decide_False (P := itype _ = T_DEV)) by done.
  pose proof Hmax as Hmax'. rewrite Nat2Z.inj_mul, BSIZE_Z, MAXFILE_Z in Hmax'.
  rewrite decide_False.
  2:{ rewrite u32_small by (unfold is_u32; lia). lia. }
  rewrite decide_False by lia. apply wp_bind.
  eapply wp_mono; [apply writei_loop_spec; try done; try lia|].
  { right. apply turns_enough; lia. }
  { unfold room, credit in *. lia. }
  intros off' s1 [-> W]. pose proof (extends_size _ _ _ (wr_ext _ _ _ _ _ W)) as Hsz.
  pose proof (wr_ok _ _ _ _ _ W) as Hok1.
  apply wp_bind, wp_gets. apply wp_bind. case_bool_decide as Hg.
  - apply wp_bind, wp_modify. fold (resized i (off + Z.of_nat (length src)) s1).
    unfold wp at 1. rewrite iupdate_run by (rewrite resized_node by apply Hok1; apply Hok1).
    apply wp_ret. split; [done|]. apply wrote_grown; (done || lia).
  - apply wp_ret, wp_ret. split; [done|]. apply wrote_inside; try done; [lia|].
    destruct src; [simpl; lia|]. simpl length in *. lia.
Qed.
Lemma readi_spec s i off n :
  file_ok s i -> itype (node s i) <> T_DEV -> 0 <= off <= isize (node s i) -> 0 <= n -> off + n < 2 ^ 32 ->
  exists k, k = Z.min n (isize (node s i) - off) /\
  readi devread i off n s = Ok (s, (k, slice (contents s i) (Z.to_nat off) (Z.to_nat k))).
Proof.
  intros H Hty Hoff Hn Hov. eexists. split; [reflexivity|].
  unfold readi. rewrite geti_run, (decide_False (P := itype _ = T_DEV)) by done.
  rewrite decide_False by (rewrite u32_small by (unfold is_u32; lia); lia).
  set (k := Z.min n (isize (node s i) - off)).
  replace (if decide (off + n > isize (node s i)) then isize (node s i) - off else n) with k by (case_decide; lia).
  rewrite (bind_run _ _ s s (byte s i <$> seqZ off k)).
  - unfold mret, M_ret. do 3 f_equal. apply list_eq. intros j.
    rewrite slice_lookup. unfold contents. rewrite !list_lookup_fmap. case_decide.
    + rewrite !lookup_seqZ_lt by lia. simpl. do 2 f_equal. lia.
    + by rewrite lookup_seqZ_ge by lia.
  - apply readi_loop_spec; try done; try lia. right. apply turns_enough; lia.
Qed.

(** C8: a write to a file of [src] at [off] within the file and the largest
    file size returns the number of bytes, makes the contents the old ones with
    [src] laid over them, so that readi gives [src] back, leaves the inode on
    disk as it is in memory, and changes no block in use that is not the
    file's, no other on-disk inode and no other cached inode; otherwise it
    returns -1 and changes nothing. *)
Theorem writei_correct s i src off :
  file_ok s i -> synced s i -> itype (node s i) <> T_DEV -> Forall is_u8 src -> 0 <= off ->
  room (Z.of_nat (length src)) s ->
  if decide (off <= isize (node s i) /\ off + Z.of_nat (length src) <= Z.of_nat (MAXFILE * BSIZE)) then
    wp (writei devwrite i src off) (fun r s' =>
      r = Z.of_nat (length src) /\ wrote_file i off src s s' /\
      readi devread i off (Z.of_nat (length src)) s' = Ok (s', (Z.of_nat (length src), src))) s
  else writei devwrite i src off s = Ok (s, -1).
Proof.
  intros H Hs Hty Hu Hoff Hroom. case_decide as Hc.
  - destruct Hc as [Hle Hmax]. eapply wp_mono; [by apply writei_spec|].
    intros r s' [-> W]. split; [done|]. split; [done|].
    assert (Hlen : isize (node s' i) = Z.max (isize (node s i)) (off + Z.of_nat (length src))).
    { pose proof (wf_contents _ _ _ _ _ W) as E. apply (f_equal length) in E.
      unfold splice in E. rewrite !length_app, length_take, length_drop, !contents_length in E.
      pose proof (fi_size _ _ (wf_ok _ _ _ _ _ W)). pose proof (fi_size _ _ H). lia. }
    rewrite Nat2Z.inj_mul, BSIZE_Z, MAXFILE_Z in Hmax.
    destruct (readi_spec s' i off (Z.of_nat (length src))) as (k & -> & ->); try lia; try apply W.
    { intros E. apply Hty. rewrite <- E. symmetry. apply (wf_type _ _ _ _ _ W). }
    rewrite Hlen. replace (Z.min _ _) with (Z.of_nat (length src)) by lia.
    rewrite (wf_contents _ _ _ _ _ W), Nat2Z.id. do 3 f_equal. apply list_eq. intros j.
    rewrite slice_lookup, splice_lookup_ext by (rewrite contents_length; lia).
    case_decide; [rewrite decide_True by lia; f_equal; lia|]. symmetry. apply lookup_ge_None. lia.
  - unfold writei. rewrite geti_run, (decide_False (P := itype _ = T_DEV)) by done.
    case_decide as H1; [done|]. rewrite decide_True; [done|]. lia.
Qed.

(** C24: a read of [n] bytes at [off] returns the bytes of the contents there,
    cut at the end of the file, and changes nothing; an offset behind the end
    or a range that wraps around gives -1. *)
Theorem readi_correct s i off n :
  file_ok s i -> itype (node s i) <> T_DEV -> is_u32 off -> is_u32 n ->
  readi devread i off n s =
    if decide (off <= isize (node s i) /\ off + n < 2 ^ 32) then
      let k := Z.min n (isize (node s i) - off) in
      Ok (s, (k, slice (contents s i) (Z.to_nat off) (Z.to_nat k)))
    else Ok (s, (-1, [])).
Proof.
  intros H Hty Ho Hn. unfold is_u32 in *. case_decide as Hc.
  - destruct (readi_spec s i off n) as (k & -> & ->); (done || lia).
  - unfold readi. rewrite geti_run, (decide_False (P := itype _ = T_DEV)) by done.
    rewrite decide_True; [done|]. destruct (decide (off > isize (node s i))); [by left|right].
    unfold u32. rewrite <- (Z.mod_unique_pos (off + n) (2 ^ 32) 1 (off + n - 2 ^ 32)); lia.
Qed.
End calls.

Section small.
Context (ty sz : Z) (data : list Z).
Context (Hlen : (length data <= BSIZE)%nat) (Hdata : Forall is_u8 data) (Hsz : 0 <= sz <= 512).
Abbreviation S0 := (fs_small ty sz data).
Lemma small_ptr k : 0 <= k <= IND -> ptr S0 0 k = if decide (k = 0) then 7 else 0.
Proof.
  intros Hk. pose proof MAXFILE_Z. unfold ptr. case_decide as E.
  - rewrite E, decide_False by lia. done.
  - unfold addr_of. change (Z.of_nat NDIRECT) with 12. case_decide as Hd.
    2:{ rewrite (decide_False (P := k = 0)) by lia. done. }
    assert (Hall : Forall (fun k => (7 :: replicate 12 0) !!! Z.to_nat k = if decide (k = 0) then 7 else 0) (seqZ 0 12)).
    { apply (bool_decide_unpack _). vm_compute. exact I. }
    rewrite Forall_forall in Hall. apply Hall. apply elem_of_seqZ. lia.
Qed.
Lemma small_file : file_ok S0 0.
Proof.
  split; try done.
  - by apply fs_small_ok.
  - cbn. lia.
  - intros n [Hn (k & Hk & Hp)]. rewrite small_ptr in Hp by done. case_decide; [|done]. subst n.
    split; [unfold in_data; change (data_start _) with 7; cbn; lia|]. by rewrite free_small by lia.
  - intros k k' Hk Hk'. rewrite !small_ptr by done. repeat case_decide; by subst.
  - change (isize _) with sz. rewrite Nat2Z.inj_mul, BSIZE_Z, MAXFILE_Z. lia.
  - intros k Hk Hlt. rewrite BSIZE_Z in Hlt. change (isize _) with sz in Hlt. assert (k = 0) as -> by lia.
    rewrite addr_ptr, small_ptr by (rewrite ?MAXFILE_Z; lia). done.
Qed.
Lemma small_nfree : nfree S0 = 50%nat.
Proof.
  clear Hlen Hdata Hsz. unfold nfree. change (sb_size (sb S0)) with 60.
  assert (E : forall l, Forall (fun b => 0 <= b < 60) l ->
    length (filter (fun b => free S0 b = true) l) = length (filter (fun b => bool_decide (10 <= b) = true) l)).
  { induction 1 as [|b l Hb _ IH]; [done|]. rewrite !filter_cons, free_small by done. case_decide; simpl; lia. }
  rewrite E; [vm_compute; reflexivity|]. apply Forall_forall. intros b Hb. apply elem_of_seqZ in Hb. lia.
Qed.
Lemma small_room n : 0 <= n < 20000 -> room n S0.
Proof.
  clear Hlen Hdata Hsz. intros Hn. unfold room, turns. rewrite small_nfree, BSIZE_Z.
  assert (n / 512 < 40) by (apply Z.div_lt_upper_bound; lia).
  pose proof (Z.div_pos n 512). lia.
Qed.
End small.
Lemma hi_file : file_ok fs_hi 0.
Proof. apply small_file; [cbn; pose proof BSIZE_Z; lia|repeat constructor; done|lia]. Qed.
Lemma hi_synced : synced fs_hi 0.
Proof. vm_compute. reflexivity. Qed.
Lemma writei_correct_witness :
  match writei (fun _ => None) 0 [33; 33] 3 fs_hi with
  | Ok (s', r) => r = 2 /\ contents s' 0 = [104; 105; 10; 33; 33]
  | _ => False end.
Proof.
  pose proof (writei_correct (fun _ => None) (fun _ => None) fs_hi 0 [33; 33] 3 hi_file hi_synced
    ltac:(discriminate) ltac:(repeat constructor; done) ltac:(lia) (small_room _ _ _ 2 ltac:(lia))) as H.
  rewrite decide_True in H by (cbn [length]; rewrite Nat2Z.inj_mul, BSIZE_Z, MAXFILE_Z; change (isize _) with 3; lia).
  unfold wp in H. destruct (writei _ 0 [33; 33] 3 fs_hi) as [[s' r]| |]; [|exact H|exact H].
  destruct H as (-> & W & _). split; [reflexivity|]. rewrite (wf_contents _ _ _ _ _ W). vm_compute. reflexivity.
Defined.
Lemma readi_correct_witness : readi (fun _ => None) 0 1 10 fs_hi = Ok (fs_hi, (2, [105; 10])).
Proof.
  rewrite (readi_correct (fun _ => None) fs_hi 0 1 10 hi_file ltac:(discriminate)
    ltac:(unfold is_u32; lia) ltac:(unfold is_u32; lia)).
  rewrite decide_True by (change (isize _) with 3; lia). vm_compute. reflexivity.
Defined.
End file.
