(* ===== verification/FsDir.v ===== *)
(** Directories (fs.c): a directory is the sequence of its entries. *)
From S2P Require Import Prelude Sleeplock Cstring Fs FsFacts FsFile.
Abbreviation node s i := (icache s !!! i).

(** ** Names *)

Section names.
Implicit Types (l t : list Z).
(** A name as the directory code sees it: up to its NUL, at most DIRSIZ bytes. *)
Definition cname l : list Z := strn (two l []) 0 DIRSIZ.

Lemma two_left l t x : 0 <= x < Z.of_nat DIRSIZ -> two l t x = two l [] x.
Proof. intros Hx. unfold two. change (Z.of_nat DIRSIZ) with 14 in Hx. by rewrite !decide_True by lia. Qed.
Lemma strn_two_right l t k n : 0 <= k -> strn (two l t) (1000 + k) n = strn (fun x => default 0 (t !! Z.to_nat x)) k n.
Proof.
  revert k. induction n as [|n IH]; intros k Hk; cbn [strn]; [done|].
  assert (E : two l t (1000 + k) = default 0 (t !! Z.to_nat k)).
  { unfold two. rewrite decide_False by lia. do 2 f_equal. f_equal. lia. }
  rewrite E. case_decide; [done|]. f_equal. replace (1000 + k + 1) with (1000 + (k + 1)) by lia. apply IH. lia.
Qed.
Lemma cname_alt l : cname l = strn (fun x => default 0 (l !! Z.to_nat x)) 0 DIRSIZ.
Proof.
  apply strn_ext. intros x Hx. change (Z.of_nat DIRSIZ) with 14 in Hx. unfold two. by rewrite decide_True by lia.
Qed.
Lemma two_bytes l t : Forall is_u8 l -> Forall is_u8 t -> forall x, is_u8 (two l t x).
Proof.
  intros Hl Ht x. unfold two. case_decide.
  - destruct (l !! Z.to_nat x) as [c|] eqn:E; simpl; [|unfold is_u8; lia]. exact (Forall_lookup_1 _ _ _ _ Hl E).
  - destruct (t !! Z.to_nat (x - 1000)) as [c|] eqn:E; simpl; [|unfold is_u8; lia].
    exact (Forall_lookup_1 _ _ _ _ Ht E).
Qed.
(** namecmp compares names. *)
Lemma namecmp_zero l t : Forall is_u8 l -> Forall is_u8 t -> namecmp l t = 0 <-> cname l = cname t.
Proof.
  intros Hl Ht. unfold namecmp. rewrite strncmp_zero_iff by (by apply two_bytes).
  assert (E1 : strn (two l t) 0 DIRSIZ = cname l) by (apply strn_ext; intros x Hx; apply two_left; lia).
  assert (E2 : strn (two l t) 1000 DIRSIZ = cname t).
  { rewrite cname_alt. apply (strn_two_right l t 0). lia. }
  by rewrite E1, E2.
Qed.
(** What dirlink stores is the name, padded to DIRSIZ bytes. *)
Lemma dirname_spec l : dirname l = take DIRSIZ (cname l ++ replicate DIRSIZ 0).
Proof.
  apply list_eq. intros j. unfold dirname. rewrite bytes_at_lookup.
  assert (E : strn (two [] l) 1000 DIRSIZ = cname l) by (rewrite cname_alt; apply (strn_two_right [] l 0); lia).
  case_decide as Hj.
  - rewrite lookup_take_lt by lia. rewrite strncpy_spec by (unfold disjoint; change (Z.of_nat DIRSIZ) with 14; lia).
    rewrite decide_True by lia. rewrite E. rewrite list_lookup_lookup_total_lt by (rewrite length_app, length_replicate; lia).
    do 2 f_equal. lia.
  - rewrite lookup_take_ge by lia. done.
Qed.
Lemma dirname_length l : length (dirname l) = DIRSIZ.
Proof. rewrite dirname_spec, length_take, length_app, length_replicate. lia. Qed.
Lemma cname_dirname l : cname (dirname l) = cname l.
Proof.
  rewrite cname_alt. apply strn_padded; [apply strn_length|apply strn_nonzero|].
  intros j Hj. rewrite Z.add_0_l, Nat2Z.id. rewrite dirname_spec, lookup_take_lt by done.
  rewrite list_lookup_lookup_total_lt by (rewrite length_app, length_replicate; lia). done.
Qed.
Lemma cname_bytes l : Forall is_u8 l -> Forall is_u8 (cname l).
Proof. intros H. apply strn_bytes, two_bytes; [done|constructor]. Qed.
Lemma dirname_bytes l : Forall is_u8 l -> Forall is_u8 (dirname l).
Proof.
  intros H. rewrite dirname_spec. apply Forall_take, Forall_app. split; [by apply cname_bytes|apply zeros_bytes].
Qed.
End names.

(** ** Directories *)

Section dirs.
Implicit Types (s : fs) (dp j : nat) (name : list Z).
Context (devread : Z -> option (nat -> Z -> M fs (Z * list Z))).
Context (devwrite : Z -> option (nat -> list Z -> M fs Z)).

Record dir_ok s dp : Prop := {
  dk_file : file_ok s dp;
  dk_type : itype (node s dp) = T_DIR;
  dk_size : isize (node s dp) mod DIRENT = 0;
}.
Definition nent s dp : nat := Z.to_nat (isize (node s dp) / DIRENT).
Definition entry s dp j : list Z := slice (contents s dp) (16 * j) 16.
Definition matches name (e : list Z) : bool := bool_decide (de_inum e <> 0 /\ cname name = cname (de_name e)).
(** The first entry with the name. *)
Definition dir_find s dp name : option nat := find (fun j => matches name (entry s dp j)) (seq 0 (nent s dp)).

Lemma dir_size s dp : dir_ok s dp -> isize (node s dp) = 16 * Z.of_nat (nent s dp) /\ (nent s dp <= 4480)%nat.
Proof.
  intros H. pose proof (dk_size _ _ H) as Hm. pose proof (fi_size _ _ (dk_file _ _ H)) as HS.
  rewrite Nat2Z.inj_mul, MAXFILE_Z, BSIZE_Z in HS. unfold nent.
  pose proof (Z.div_mod (isize (node s dp)) DIRENT ltac:(done)) as Hd. rewrite Hm in Hd.
  pose proof (Z.div_pos (isize (node s dp)) DIRENT). unfold DIRENT in *. lia.
Qed.
Lemma contents_bytes s i : file_ok s i -> Forall is_u8 (contents s i).
Proof.
  intros H. apply Forall_forall. intros x Hx. unfold contents in Hx. apply list_elem_of_fmap in Hx as (y & -> & Hy).
  unfold byte. pose proof BSIZE_Z as HB. pose proof (Z.mod_pos_bound y (Z.of_nat BSIZE) ltac:(lia)).
  apply Forall_lookup_total_1; [apply (fi_fs _ _ H)|]. rewrite (fk_len _ (fi_fs _ _ H)). lia.
Qed.
Lemma entry_bytes s dp j : file_ok s dp -> Forall is_u8 (entry s dp j).
Proof. intros H. apply Forall_take, Forall_drop. by apply contents_bytes. Qed.
(** readi of entry [j]. *)
Lemma read_entry s dp j :
  dir_ok s dp -> (j < nent s dp)%nat ->
  readi devread dp (16 * Z.of_nat j) DIRENT s = Ok (s, (DIRENT, entry s dp j)).
Proof.
  intros H Hj. destruct (dir_size s dp H) as [Hs Hn].
  destruct (readi_spec devread s dp (16 * Z.of_nat j) DIRENT) as (k & -> & ->); unfold DIRENT in *;
    try apply H; try lia.
  - rewrite (dk_type _ _ H). done.
  - replace (Z.min 16 _) with 16 by lia. unfold entry. do 4 f_equal; lia.
Qed.
Lemma find_seq_cons (P : nat -> bool) j k :
  find P (seq j (S k)) = if P j then Some j else find P (seq (S j) k).
Proof. done. Qed.
Lemma dirlookup_from_spec s dp name fuel : forall j,
  dir_ok s dp -> Forall is_u8 name -> (j <= nent s dp)%nat -> (nent s dp - j < fuel)%nat ->
  dirlookup_from devread fuel dp name (16 * Z.of_nat j) s =
    match find (fun j => matches name (entry s dp j)) (seq j (nent s dp - j)) with
    | Some k => (ip ← iget ROOTDEV (de_inum (entry s dp k)); mret (Some (ip, 16 * Z.of_nat k))) s
    | None => Ok (s, None)
    end.
Proof.
  induction fuel as [|fuel IH]; intros j H Hn Hj Hf; [lia|]. cbn [dirlookup_from].
  destruct (dir_size s dp H) as [Hs Hmax]. rewrite geti_run, Hs. case_decide as Hge.
  { assert (j = nent s dp) as -> by lia. by rewrite Nat.sub_diag. }
  destruct (nent s dp - j)%nat as [|k] eqn:E; [lia|].
  rewrite (bind_run _ _ s s _ (read_entry s dp j H ltac:(lia))). cbn [fst snd].
  rewrite (decide_False (P := DIRENT <> DIRENT)) by auto. cbv zeta. rewrite find_seq_cons.
  assert (Hnm : namecmp name (de_name (entry s dp j)) = 0 <-> cname name = cname (de_name (entry s dp j))).
  { apply namecmp_zero; [done|]. apply Forall_drop, entry_bytes, H. }
  unfold matches at 1. case_decide as Hm; case_bool_decide as Hb; try tauto.
  - by rewrite (fi_dev _ _ (dk_file _ _ H)).
  - rewrite u32_small by (unfold is_u32, DIRENT; lia).
    replace (16 * Z.of_nat j + DIRENT) with (16 * Z.of_nat (S j)) by (unfold DIRENT; lia).
    rewrite IH by (done || lia). by replace (nent s dp - S j)%nat with k by lia.
Qed.
Lemma dirlookup_spec s dp name :
  dir_ok s dp -> Forall is_u8 name ->
  dirlookup devread dp name s =
    match dir_find s dp name with
    | Some k => (ip ← iget ROOTDEV (de_inum (entry s dp k)); mret (Some (ip, 16 * Z.of_nat k))) s
    | None => Ok (s, None)
    end.
Proof.
  intros H Hn. unfold dirlookup. rewrite geti_run.
  rewrite decide_False by (rewrite (dk_type _ _ H); auto).
  fold (nent s dp). rewrite (dirlookup_from_spec s dp name _ 0 H Hn) by lia.
  by rewrite Nat.sub_0_r.
Qed.

(** The slot dirlink takes: the first empty entry, or the one behind the end. *)
Definition free_slot s dp : nat :=
  default (nent s dp) (find (fun j => bool_decide (de_inum (entry s dp j) = 0)) (seq 0 (nent s dp))).
Lemma dirlink_slot_spec s dp fuel : forall j,
  dir_ok s dp -> (j <= nent s dp)%nat -> (nent s dp - j < fuel)%nat ->
  dirlink_slot devread fuel dp (16 * Z.of_nat j) s =
    Ok (s, 16 * Z.of_nat (default (nent s dp)
      (find (fun j => bool_decide (de_inum (entry s dp j) = 0)) (seq j (nent s dp - j))))).
Proof.
  induction fuel as [|fuel IH]; intros j H Hj Hf; [lia|]. cbn [dirlink_slot].
  destruct (dir_size s dp H) as [Hs Hmax]. rewrite geti_run, Hs. case_decide as Hge.
  { assert (j = nent s dp) as -> by lia. by rewrite Nat.sub_diag. }
  destruct (nent s dp - j)%nat as [|k] eqn:E; [lia|].
  rewrite (bind_run _ _ s s _ (read_entry s dp j H ltac:(lia))). cbn [fst snd].
  rewrite (decide_False (P := DIRENT <> DIRENT)) by auto. rewrite find_seq_cons.
  case_decide; case_bool_decide; try done.
  replace (16 * Z.of_nat j + DIRENT) with (16 * Z.of_nat (S j)) by (unfold DIRENT; lia).
  rewrite IH by (done || lia). by replace (nent s dp - S j)%nat with k by lia.
Qed.
Lemma free_slot_spec s dp :
  (free_slot s dp <= nent s dp)%nat /\
  ((free_slot s dp < nent s dp)%nat -> de_inum (entry s dp (free_slot s dp)) = 0).
Proof.
  unfold free_slot. pose proof (find_seq (fun j => bool_decide (de_inum (entry s dp j) = 0)) (nent s dp) 0) as F.
  destruct (find _ _) as [j|]; simpl; [|lia]. destruct F as (H1 & H2%bool_decide_eq_true & _). split; [lia|done].
Qed.
Lemma mkdirent_length n name : length (mkdirent n name) = 16%nat.
Proof. unfold mkdirent. by rewrite length_app, le_enc_length, dirname_length. Qed.
Lemma mkdirent_inum n name : 0 <= n < 2 ^ 16 -> de_inum (mkdirent n name) = n.
Proof.
  intros Hn. unfold de_inum, get16, mkdirent. rewrite slice_app_l by (rewrite le_enc_length; lia).
  pose proof (slice_full (le_enc 2 n)) as E. rewrite le_enc_length in E. rewrite E, le_dec_enc.
  apply Z.mod_small. lia.
Qed.
Lemma mkdirent_name n name : de_name (mkdirent n name) = dirname name.
Proof. unfold de_name, mkdirent. exact (drop_app_length' (le_enc 2 n) (dirname name) 2 (eq_sym (le_enc_length 2 n))). Qed.

(** The entries after [e] was written over entry [k]. *)
Lemma entry_written s s' dp k (e : list Z) j :
  dir_ok s dp -> (k <= nent s dp)%nat -> length e = 16%nat ->
  contents s' dp = splice (contents s dp) (16 * k) e -> (j < nent s dp \/ j = k)%nat ->
  entry s' dp j = if decide (j = k) then e else entry s dp j.
Proof.
  intros H Hk He Hc Hj. destruct (dir_size s dp H) as [Hs Hn].
  assert (Hl : length (contents s dp) = (16 * nent s dp)%nat) by (rewrite contents_length; lia).
  apply list_eq. intros x. unfold entry. rewrite Hc, slice_lookup.
  rewrite splice_lookup_ext by lia. rewrite He. case_decide as Hx.
  - destruct (decide (j = k)) as [->|Hne]; [rewrite decide_True by lia; f_equal; lia|].
    rewrite slice_lookup, (decide_True (P := (x < 16)%nat)) by done. case_decide; [lia|done].
  - case_decide; [symmetry; apply lookup_ge_None; lia|]. rewrite slice_lookup. by rewrite decide_False by done.
Qed.
Lemma find_seq_ext (P Q : nat -> bool) n : (forall j, (j < n)%nat -> P j = Q j) -> find P (seq 0 n) = find Q (seq 0 n).
Proof.
  intros H. assert (E : forall l, Forall (fun j => P j = Q j) l -> find P l = find Q l).
  { induction 1 as [|j l Hj _ IH]; simpl; [done|]. rewrite Hj. by destruct (Q j). }
  apply E, Forall_forall. intros j [_ Hj]%elem_of_seq. apply H. lia.
Qed.
Lemma find_app {A} (P : A -> bool) l1 l2 :
  find P (l1 ++ l2) = match find P l1 with Some x => Some x | None => find P l2 end.
Proof. induction l1 as [|x l1 IH]; simpl; [done|]. by destruct (P x). Qed.
Lemma find_longer (P : nat -> bool) n m :
  (n <= m)%nat -> (forall j, (n <= j < m)%nat -> P j = false) -> find P (seq 0 m) = find P (seq 0 n).
Proof.
  intros Hle Hno. replace m with (n + (m - n))%nat by lia. rewrite seq_app, find_app.
  destruct (find P (seq 0 n)); [done|]. pose proof (find_seq P (m - n) (0 + n)) as F.
  destruct (find P (seq (0 + n) (m - n))) as [j|]; [|done]. destruct F as (H1 & H2 & _).
  rewrite Hno in H2 by lia. done.
Qed.
Lemma find_unique (P : nat -> bool) n k :
  (k < n)%nat -> P k = true -> (forall j, (j < n)%nat -> j <> k -> P j = false) -> find P (seq 0 n) = Some k.
Proof.
  intros Hk Hp Hno. pose proof (find_seq P n 0) as F. destruct (find P (seq 0 n)) as [j|].
  - destruct F as (H1 & H2 & _). destruct (decide (j = k)); [by subst|]. rewrite Hno in H2 by lia. done.
  - rewrite F in Hp by lia. done.
Qed.

(** What dirlink makes of the directory. *)
Record linked dp name n s s' : Prop := {
  ln_ok : dir_ok s' dp;
  ln_new : exists k, dir_find s' dp name = Some k /\ de_inum (entry s' dp k) = n;
  ln_old : forall name', cname name' <> cname name ->
    dir_find s' dp name' = dir_find s dp name' /\
    (forall k, dir_find s dp name' = Some k -> entry s' dp k = entry s dp k);
}.
Lemma wrote_size i off src s s' :
  file_ok s i -> 0 <= off <= isize (node s i) -> wrote_file i off src s s' ->
  isize (node s' i) = Z.max (isize (node s i)) (off + Z.of_nat (length src)).
Proof.
  intros H Hoff W. pose proof (wf_contents _ _ _ _ _ W) as E. apply (f_equal length) in E.
  unfold splice in E. rewrite !length_app, length_take, length_drop, !contents_length in E.
  pose proof (fi_size _ _ (wf_ok _ _ _ _ _ W)). pose proof (fi_size _ _ H). lia.
Qed.
Lemma link_linked s s' dp name n :
  dir_ok s dp -> Forall is_u8 name -> 0 < n < 2 ^ 16 -> dir_find s dp name = None ->
  wrote_file dp (16 * Z.of_nat (free_slot s dp)) (mkdirent n name) s s' -> linked dp name n s s'.
Proof.
  intros H Hu Hn Hno W. set (k := free_slot s dp) in *. destruct (free_slot_spec s dp) as [Hk Hz]. fold k in Hk, Hz.
  destruct (dir_size s dp H) as [Hs Hmax]. pose proof (mkdirent_length n name) as Hl.
  assert (Hin : 0 <= 16 * Z.of_nat k <= isize (node s dp)) by lia.
  pose proof (wrote_size _ _ _ _ _ (dk_file _ _ H) Hin W) as Hsz. rewrite Hl in Hsz.
  assert (H' : dir_ok s' dp).
  { split; [exact (wf_ok _ _ _ _ _ W)|rewrite (wf_type _ _ _ _ _ W); exact (dk_type _ _ H)|].
    rewrite Hsz, Hs. unfold DIRENT.
    destruct (decide (k = nent s dp)); [|].
    - replace (Z.max _ _) with (16 * Z.of_nat (S k)) by lia. rewrite Z.mul_comm. by apply Z.mod_mul.
    - replace (Z.max _ _) with (16 * Z.of_nat (nent s dp)) by lia. rewrite Z.mul_comm. by apply Z.mod_mul. }
  assert (Hent : nent s' dp = Nat.max (nent s dp) (S k)) by (destruct (dir_size s' dp H'); lia).
  pose proof (wf_contents _ _ _ _ _ W) as Hc. replace (Z.to_nat (16 * Z.of_nat k)) with (16 * k)%nat in Hc by lia.
  assert (He : forall j, (j < nent s' dp)%nat -> entry s' dp j = if decide (j = k) then mkdirent n name else entry s dp j).
  { intros j Hj. apply entry_written; try done. lia. }
  assert (Hnm : forall nm, matches nm (mkdirent n name) = bool_decide (cname nm = cname name)).
  { intros nm. unfold matches. rewrite mkdirent_inum, mkdirent_name, cname_dirname by lia.
    apply bool_decide_ext. split; [by intros []|]. intros; split; [lia|done]. }
  split; [done| |].
  - exists k. split; [|rewrite He, decide_True by lia; apply mkdirent_inum; lia].
    apply find_unique; [lia|rewrite He, decide_True, Hnm by lia; by apply bool_decide_true|].
    intros j Hj Hne. rewrite He, decide_False by done.
    pose proof (find_seq (fun j => matches name (entry s dp j)) (nent s dp) 0) as F. unfold dir_find in Hno.
    rewrite Hno in F. apply F. lia.
  - intros nm Hne.
    assert (Hm : forall j, (j < nent s' dp)%nat -> matches nm (entry s' dp j) =
                   (bool_decide (j < nent s dp)%nat && matches nm (entry s dp j))).
    { intros j Hj. rewrite He by done. case_decide as Ej.
      - subst j. rewrite Hnm, bool_decide_false by done. case_bool_decide as Hb; [|done].
        unfold matches. by rewrite Hz, bool_decide_false by (done || tauto).
      - by rewrite bool_decide_true by lia. }
    assert (Eq : dir_find s' dp nm = dir_find s dp nm).
    { unfold dir_find. rewrite (find_seq_ext _ _ _ Hm).
      rewrite (find_seq_ext (fun j => matches nm (entry s dp j)) (fun j => bool_decide (j < nent s dp)%nat && matches nm (entry s dp j)))
        by (intros j Hj; by rewrite bool_decide_true by done).
      apply find_longer; [lia|]. intros j Hj. by rewrite bool_decide_false by lia. }
    split; [done|]. intros j Hj. unfold dir_find in Hj.
    pose proof (find_seq (fun j => matches nm (entry s dp j)) (nent s dp) 0) as F. rewrite Hj in F.
    destruct F as (Hlt & Hmt & _). rewrite He by lia. case_decide as Ej; [|done]. subst j. exfalso.
    unfold matches in Hmt. apply bool_decide_eq_true in Hmt as [Hi _]. by rewrite Hz in Hi by lia.
Qed.
(** C26: dirlink of a name the directory does not have adds it in the first free
    entry, growing the directory only when there is none: afterwards looking
    the name up finds the inode number, and looking up any other name gives
    what it gave before. *)
Theorem dirlink_adds me s dp name n :
  dir_ok s dp -> synced s dp -> Forall is_u8 name -> 0 < n < 2 ^ 16 -> dir_find s dp name = None ->
  room 16 s -> isize (node s dp) + 16 <= Z.of_nat (MAXFILE * BSIZE) ->
  wp (dirlink me devread devwrite dp name n) (fun r s' =>
    r = 0 /\ linked dp name n s s' /\
    wrote_file dp (16 * Z.of_nat (free_slot s dp)) (mkdirent n name) s s') s.
Proof.
  intros H Hs Hu Hn Hno Hroom Hmax. destruct (dir_size s dp H) as [Hsz _].
  destruct (free_slot_spec s dp) as [Hk _].
  unfold dirlink. unfold wp. rewrite (bind_run _ _ s s None) by (by rewrite dirlookup_spec, Hno).
  rewrite geti_run. fold (nent s dp). rewrite (bind_run _ _ s s (16 * Z.of_nat (free_slot s dp))).
  2:{ rewrite (dirlink_slot_spec s dp _ 0 H) by lia. by rewrite Nat.sub_0_r. }
  apply wp_bind. eapply wp_mono; [apply writei_spec|].
  - apply H.
  - done.
  - rewrite (dk_type _ _ H). done.
  - unfold mkdirent. apply Forall_app. split; [apply le_enc_bytes|by apply dirname_bytes].
  - lia.
  - rewrite mkdirent_length. lia.
  - by rewrite mkdirent_length.
  - intros r s' [-> W]. rewrite mkdirent_length. rewrite decide_False by auto. apply wp_ret.
    split; [done|]. split; [|done]. by apply link_linked.
Qed.
(** Dirlookup finds the first entry in use with the name and takes a
    reference to its inode, telling where the entry is; without such an entry
    it finds nothing and changes nothing. *)
Theorem dirlookup_first s dp name :
  dir_ok s dp -> Forall is_u8 name ->
  (exists j, (j < nent s dp)%nat /\ matches name (entry s dp j) = true /\
     (forall k, (k < j)%nat -> matches name (entry s dp k) = false) /\
     dirlookup devread dp name s =
       (ip ← iget ROOTDEV (de_inum (entry s dp j)); mret (Some (ip, 16 * Z.of_nat j))) s) \/
  ((forall k, (k < nent s dp)%nat -> matches name (entry s dp k) = false) /\
   dirlookup devread dp name s = Ok (s, None)).
Proof.
  intros H Hu. rewrite dirlookup_spec by done. unfold dir_find.
  pose proof (find_seq (fun j => matches name (entry s dp j)) (nent s dp) 0) as F.
  destruct (find _ _) as [j|].
  - left. destruct F as (H1 & H2 & H3). exists j. split; [lia|]. split; [done|].
    split; [|done]. intros k Hk. apply H3. lia.
  - right. split; [|done]. intros k Hk. apply F. lia.
Qed.
End dirs.

(** A directory with the entries of "." and "sh". *)
Definition dot_sh : list Z := mkdirent 1 [46] ++ mkdirent 5 [115; 104].
Definition fs_dir : fs := fs_small T_DIR 32 dot_sh.
Lemma dot_sh_ok : (length dot_sh <= BSIZE)%nat /\ Forall is_u8 dot_sh.
Proof.
  unfold dot_sh. split; [rewrite length_app, !mkdirent_length; unfold BSIZE; lia|].
  apply Forall_app. split; apply Forall_app; (split; [apply le_enc_bytes|apply dirname_bytes; repeat constructor; done]).
Qed.
Lemma fs_dir_ok : dir_ok fs_dir 0.
Proof.
  split; [|done|done]. apply small_file; [apply dot_sh_ok|apply dot_sh_ok|lia].
Qed.
Lemma fs_dir_synced : synced fs_dir 0.
Proof. vm_compute. reflexivity. Qed.
Lemma dirlookup_first_witness :
  match dirlookup (fun _ => None) 0 [115; 104] fs_dir with
  | Ok (_, Some (_, off)) => off = 16
  | Panic msg => msg = "iget: no inodes"%string
  | _ => False end.
Proof.
  destruct (dirlookup_first (fun _ => None) fs_dir 0 [115; 104] fs_dir_ok ltac:(repeat constructor; done))
    as [(j & Hj & Hm & _ & ->)|[Hno _]].
  - assert (Hj2 : (j < 2)%nat) by exact Hj. destruct j as [|[|j]]; [|vm_compute; reflexivity|lia].
    vm_compute in Hm. discriminate Hm.
  - assert (H1 : matches [115; 104] (entry fs_dir 0 1) = true) by (vm_compute; reflexivity).
    rewrite (Hno 1%nat) in H1; [discriminate H1|]. change (nent fs_dir 0) with 2%nat. lia.
Defined.
Lemma fs_dir_no_ls : dir_find fs_dir 0 [108; 115] = None.
Proof. vm_compute. reflexivity. Qed.
Lemma fs_dir_fits : isize (node fs_dir 0%nat) + 16 <= Z.of_nat (MAXFILE * BSIZE).
Proof. rewrite Nat2Z.inj_mul, BSIZE_Z, MAXFILE_Z. change (isize _) with 32. lia. Qed.
Lemma dirlink_adds_witness :
  wp (dirlink 7 (fun _ => None) (fun _ => None) 0 [108; 115] 9)
    (fun r s' => r = 0 /\ exists k, dir_find s' 0 [108; 115] = Some k) fs_dir.
Proof.
  eapply wp_mono; [apply (dirlink_adds (fun _ => None) (fun _ => None) 7 fs_dir 0 [108; 115] 9 fs_dir_ok fs_dir_synced
    ltac:(repeat constructor; done) ltac:(lia) fs_dir_no_ls (small_room _ _ _ 16 ltac:(lia)) fs_dir_fits)|].
  intros r s' (Hr & L & _). split; [exact Hr|]. destruct (ln_new _ _ _ _ _ L) as (k & Hk & _).
  exists k. exact Hk.
Defined.
