(* ===== verification/FsCache.v ===== *)
(** The inode cache and path names (fs.c): at most one cached copy of an inode
    is in use, whatever calls are made; a path is the sequence of its elements. *)
From S2P Require Import Prelude Sleeplock Cstring Fs.

(** ** The inode cache *)

Section cache.
Implicit Types (s : fs) (i j : nat).
Abbreviation node s i := (icache s !!! i).
(** What identifies the cached inodes: device, number, and reference count. *)
Definition ids s : list (Z * Z * Z) := (fun ip => (idev ip, inum ip, iref ip)) <$> icache s.
(** No two entries in use are for one inode. *)
Definition unique s : Prop :=
  forall i j d n r r', ids s !! i = Some (d, n, r) -> ids s !! j = Some (d, n, r') -> 0 < r -> 0 < r' -> i = j.

Definition keeps_ids {A} (m : M fs A) : Prop := forall s, wlp m (fun _ s' => ids s' = ids s) s.

Lemma ids_ret {A} (a : A) : keeps_ids (mret a).
Proof. intros s. by apply wlp_ret. Qed.
Lemma ids_panic {A} msg : keeps_ids (panic (A:=A) msg).
Proof. intros s. apply wlp_panic. Qed.
Lemma ids_sleeps {A} c : keeps_ids (sleeps (A:=A) c).
Proof. intros s. done. Qed.
Lemma ids_gets {A} (f : fs -> A) : keeps_ids (gets f).
Proof. intros s. by apply wlp_gets. Qed.
Lemma ids_bind {A B} (m : M fs A) (f : A -> M fs B) :
  keeps_ids m -> (forall a, keeps_ids (f a)) -> keeps_ids (m ≫= f).
Proof.
  intros Hm Hf s. apply wlp_bind. eapply wlp_mono; [apply Hm|]. intros a s1 E.
  eapply wlp_mono; [apply Hf|]. intros b s2 E2. congruence.
Qed.
Lemma ids_mfor {A} (l : list A) body : (forall x, keeps_ids (body x)) -> keeps_ids (mfor l body).
Proof. intros Hb. induction l as [|x l IH]; simpl; [apply ids_ret|]. apply ids_bind; auto. Qed.
Lemma ids_log_write n d : keeps_ids (log_write n d).
Proof. intros s. by apply wlp_modify. Qed.
Lemma ids_bread d n : keeps_ids (bread d n).
Proof. unfold bread. case_decide; [apply ids_gets|apply ids_panic]. Qed.
(** Updating fields other than the three. *)
Lemma ids_seti i f :
  (forall ip, idev (f ip) = idev ip /\ inum (f ip) = inum ip /\ iref (f ip) = iref ip) -> keeps_ids (seti i f).
Proof.
  intros Hf s. apply wlp_modify. unfold ids. simpl. apply list_eq. intros j.
  rewrite !list_lookup_fmap. destruct (decide (i = j)) as [<-|Hne].
  - rewrite list_lookup_alter_eq. destruct (icache s !! i) as [ip|]; [|done]. simpl.
    by destruct (Hf ip) as (-> & -> & ->).
  - by rewrite list_lookup_alter_ne.
Qed.
End cache.
Create HintDb ids.
#[export] Hint Resolve ids_ret ids_panic ids_sleeps ids_gets ids_log_write ids_bread : ids.
(** Takes a program apart down to calls the database knows. *)
Ltac ids_step :=
  match goal with
  | |- forall _, _ => intros ?
  | |- keeps_ids (_ ≫= _) => apply ids_bind; [|intros ?]
  | |- keeps_ids (mfor _ _) => apply ids_mfor; intros ?
  | |- keeps_ids (seti _ _) => apply ids_seti; intros ?; done
  | |- keeps_ids (match ?x with _ => _ end) => destruct x
  | |- keeps_ids (let _ := _ in _) => cbv zeta
  | |- keeps_ids _ => solve [auto with ids]
  end.
Ltac ids_auto := repeat ids_step.

Section calls.
Implicit Types (s : fs) (i j : nat).
Lemma ids_geti i : keeps_ids (geti i).
Proof. apply ids_gets. Qed.
Hint Resolve ids_geti : ids.
Lemma ids_balloc d : keeps_ids (balloc d).
Proof.
  unfold balloc. ids_step; [ids_auto|]. generalize 0. induction (S _) as [|fuel IH]; intros b; simpl; ids_auto.
  unfold bzero. ids_auto.
Qed.
Lemma ids_bfree d b : keeps_ids (bfree d b).
Proof. unfold bfree. ids_auto. Qed.
Hint Resolve ids_balloc ids_bfree : ids.
Lemma ids_iupdate i : keeps_ids (iupdate i).
Proof. unfold iupdate. ids_auto. Qed.
Lemma ids_bmap i k : keeps_ids (bmap i k).
Proof. unfold bmap. ids_auto. Qed.
Lemma ids_lock me i : keeps_ids (lock_inode me i).
Proof. unfold lock_inode. ids_auto. Qed.
Hint Resolve ids_iupdate ids_bmap ids_lock : ids.
Lemma ids_ilock me i : keeps_ids (ilock me i).
Proof. unfold ilock. ids_auto. Qed.
Lemma ids_iunlock me i : keeps_ids (iunlock me i).
Proof. unfold iunlock, unlock_inode. ids_auto. Qed.
Lemma ids_itrunc i : keeps_ids (itrunc i).
Proof. unfold itrunc. ids_auto. Qed.
End calls.
#[export] Hint Resolve ids_geti ids_iupdate ids_bmap ids_lock ids_ilock ids_iunlock ids_itrunc : ids.

Section sharing.
Implicit Types (s : fs) (i j : nat).
Context (me : Z).
Context (devread : Z -> option (nat -> Z -> M fs (Z * list Z))).
Context (devwrite : Z -> option (nat -> list Z -> M fs Z)).
(** Device drivers take no references to inodes. *)
Definition driver_keeps : Prop :=
  (forall k rd i n, devread k = Some rd -> keeps_ids (rd i n)) /\
  (forall k wr i src, devwrite k = Some wr -> keeps_ids (wr i src)).
Context (Hdev : driver_keeps).

Lemma ids_readi_loop fuel i : forall off n, keeps_ids (readi_loop fuel i off n).
Proof. induction fuel as [|fuel IH]; intros off n; simpl; ids_auto. Qed.
Lemma ids_writei_loop fuel i : forall off src, keeps_ids (writei_loop fuel i off src).
Proof. induction fuel as [|fuel IH]; intros off src; simpl; ids_auto. Qed.
Lemma ids_readi i off n : keeps_ids (readi devread i off n).
Proof.
  unfold readi. ids_step; [ids_auto|]. case_decide.
  - destruct (if decide _ then None else devread (imajor a)) as [rd|] eqn:E; [|ids_auto].
    case_decide; [done|]. eapply (proj1 Hdev); eauto.
  - case_decide; [ids_auto|]. cbv zeta. ids_step; [apply ids_readi_loop|ids_auto].
Qed.
Lemma ids_writei i src off : keeps_ids (writei devwrite i src off).
Proof.
  unfold writei. ids_step; [ids_auto|]. case_decide.
  - destruct (if decide _ then None else devwrite (imajor a)) as [wr|] eqn:E; [|ids_auto].
    case_decide; [done|]. eapply (proj2 Hdev); eauto.
  - case_decide; [ids_auto|]. case_decide; [ids_auto|]. ids_step; [apply ids_writei_loop|ids_auto].
Qed.

(** Changing one entry keeps uniqueness when the new entry is not in use or
    names no other entry in use. *)
Lemma unique_insert s s' i d n r :
  unique s -> ids s' = <[i := (d, n, r)]> (ids s) ->
  (0 < r -> forall j r', ids s !! j = Some (d, n, r') -> 0 < r' -> j = i) -> unique s'.
Proof.
  intros U E Hn j k d' n' r1 r2. rewrite E. intros Hj Hk H1 H2.
  destruct (decide (j = i)) as [->|Hji], (decide (k = i)) as [->|Hki]; [done| | |].
  - rewrite list_lookup_insert_ne in Hk by done.
    apply list_lookup_insert_Some in Hj as [(_ & Hj & _)|[? _]]; [|done]. simplify_eq. symmetry. by eapply Hn.
  - rewrite list_lookup_insert_ne in Hj by done.
    apply list_lookup_insert_Some in Hk as [(_ & Hk & _)|[? _]]; [|done]. simplify_eq. by eapply Hn.
  - rewrite list_lookup_insert_ne in Hj, Hk by done. by eapply U.
Qed.
Lemma ids_alter s i f ip :
  icache s !! i = Some ip ->
  ids (s <| icache ::= alter f i |>) = <[i := (idev (f ip), inum (f ip), iref (f ip))]> (ids s).
Proof.
  intros Hi. unfold ids. simpl. rewrite (alter_insert _ _ _ _ Hi). by rewrite list_fmap_insert.
Qed.
Lemma ids_lookup s i ip : icache s !! i = Some ip -> ids s !! i = Some (idev ip, inum ip, iref ip).
Proof. intros Hi. unfold ids. by rewrite list_lookup_fmap, Hi. Qed.

(** Counting up or down an entry in use. *)
Lemma unique_ref s i ip f r :
  unique s -> icache s !! i = Some ip -> 0 < iref ip ->
  f ip = ip <| iref := r |> -> unique (s <| icache ::= alter f i |>).
Proof.
  intros U Hi Hr Hf. eapply unique_insert; [done|by apply ids_alter|]. rewrite Hf. simpl.
  intros _ j r' Hj Hr'. eapply U; [exact Hj|by apply ids_lookup|done|done].
Qed.
Lemma unique_ids s s' : ids s' = ids s -> unique s -> unique s'.
Proof. intros E U. unfold unique. by rewrite E. Qed.

Lemma node_lookup s i f ip :
  icache s !! i = Some ip -> icache (s <| icache ::= alter f i |>) !!! i = f ip.
Proof. intros Hi. apply list_lookup_total_correct. simpl. by rewrite list_lookup_alter_eq, Hi. Qed.
Lemma iget_spec d n s :
  unique s ->
  wlp (iget d n) (fun i s' =>
    unique s' /\ idev (icache s' !!! i) = d /\ inum (icache s' !!! i) = n /\
    (forall j r, ids s !! j = Some (d, n, r) -> 0 < r -> i = j)) s.
Proof.
  intros U. unfold iget. apply wlp_bind, wlp_gets.
  destruct (list_find _ (icache s)) as [[i ip]|] eqn:E1.
  - apply list_find_Some in E1 as (Hi & (Hr & Hd & Hn) & _). apply wlp_bind, wlp_modify, wlp_ret.
    rewrite (node_lookup s i _ ip Hi). split; [eapply (unique_ref s i ip); [done|done|lia|done]|].
    split; [done|]. split; [done|]. intros j r Hj Hr'. pose proof (ids_lookup s i ip Hi) as Hl.
    rewrite Hd, Hn in Hl. eapply U; [exact Hl|exact Hj|lia|done].
  - assert (Hno : forall j r', ids s !! j = Some (d, n, r') -> 0 < r' -> False).
    { intros j r' Hj Hr'. unfold ids in Hj. rewrite list_lookup_fmap in Hj.
      destruct (icache s !! j) as [jp|] eqn:Hjp; [|done]. simpl in Hj. simplify_eq.
      apply list_find_None in E1. rewrite Forall_lookup in E1. apply (E1 j jp Hjp). split; [lia|done]. }
    destruct (list_find (fun ip => iref ip = 0) (icache s)) as [[i ip]|] eqn:E2; [|apply wlp_panic].
    apply list_find_Some in E2 as (Hi & _). apply wlp_bind, wlp_modify, wlp_ret.
    rewrite (node_lookup s i _ ip Hi). split.
    + eapply unique_insert; [done|by apply ids_alter|]. simpl. intros _ j r' Hj Hr'. by destruct (Hno j r').
    + split; [done|]. split; [done|]. intros j r' Hj Hr'. by destruct (Hno j r').
Qed.
Lemma iget_unique d n s : unique s -> wlp (iget d n) (fun _ s' => unique s') s.
Proof. intros U. eapply wlp_mono; [by apply iget_spec|]. by intros i s' [? _]. Qed.
Lemma ialloc_unique d ty s : unique s -> wlp (ialloc d ty) (fun _ s' => unique s') s.
Proof.
  intros U. unfold ialloc. apply wlp_bind, wlp_gets. generalize 1. generalize (Z.to_nat (sb_ninodes (sb s))).
  intros fuel. induction fuel as [|fuel IH]; intros n; simpl; [apply wlp_panic|].
  apply wlp_bind, wlp_gets. case_decide; [apply wlp_panic|]. apply wlp_bind.
  unfold bread. case_decide; [|apply wlp_panic]. apply wlp_gets. case_decide; [|apply IH].
  apply wlp_bind, wlp_modify. apply iget_unique. revert U. by apply unique_ids.
Qed.
Lemma idup_unique i s : unique s -> 0 < iref (icache s !!! i) -> wlp (idup i) (fun _ s' => unique s') s.
Proof.
  intros U Hr. unfold idup. apply wlp_bind, wlp_modify, wlp_ret. destruct (icache s !! i) as [ip|] eqn:Hi.
  - rewrite (list_lookup_total_correct _ _ _ Hi) in Hr. eapply (unique_ref s i ip); done.
  - eapply unique_ids; [|exact U]. unfold ids. simpl. by rewrite alter_none.
Qed.
Lemma iput_unique i s : unique s -> 0 < iref (icache s !!! i) -> wlp (iput me i) (fun _ s' => unique s') s.
Proof.
  intros U Hr. unfold iput. apply wlp_bind. eapply wlp_mono; [apply ids_lock|]. intros [] sa Ea.
  apply wlp_bind, wlp_gets. apply wlp_bind. eapply wlp_mono; [match goal with |- wlp ?m _ _ =>
    assert (keeps_ids m) as Hm by ids_auto; apply Hm end|].
  intros [] sb Eb. apply wlp_bind. unfold unlock_inode. eapply wlp_mono; [apply ids_seti; intros ip; split; [|split]; reflexivity|].
  intros [] s1 Ei. rewrite Eb, Ea in Ei.
  apply wlp_modify. pose proof (unique_ids s s1 Ei U) as U1.
  destruct (icache s1 !! i) as [ip|] eqn:Hi.
  - eapply (unique_ref s1 i ip); [done|done| |done].
    pose proof (ids_lookup s1 i ip Hi) as Hl. rewrite Ei in Hl. unfold ids in Hl. rewrite list_lookup_fmap in Hl.
    destruct (icache s !! i) as [ip0|] eqn:Hi0; [|done]. simpl in Hl.
    rewrite (list_lookup_total_correct _ _ _ Hi0) in Hr. injection Hl as _ _ E. lia.
  - eapply unique_ids; [|exact U1]. unfold ids. simpl. by rewrite alter_none.
Qed.

(** A call that uses the inode cache; the references a caller drops or
    duplicates are ones it holds. *)
Inductive icall : Type :=
| CGet (d n : Z) | CAlloc (d ty : Z) | CDup (i : nat) | CPut (i : nat)
| CLock (i : nat) | CUnlock (i : nat) | CUpdate (i : nat)
| CRead (i : nat) (off n : Z) | CWrite (i : nat) (src : list Z) (off : Z).
Definition run_icall (c : icall) : M fs unit :=
  match c with
  | CGet d n => iget d n;; mret tt
  | CAlloc d ty => ialloc d ty;; mret tt
  | CDup i => idup i;; mret tt
  | CPut i => iput me i
  | CLock i => ilock me i
  | CUnlock i => iunlock me i
  | CUpdate i => iupdate i
  | CRead i off n => readi devread i off n;; mret tt
  | CWrite i src off => writei devwrite i src off;; mret tt
  end.
Definition holds_ref (c : icall) s : Prop :=
  match c with CDup i | CPut i => 0 < iref (icache s !!! i) | _ => True end.
Inductive istep s s' : Prop :=
| istep_call c : holds_ref c s -> run_icall c s = Ok (s', tt) -> istep s s'.

Lemma run_icall_unique c s : unique s -> holds_ref c s -> wlp (run_icall c) (fun _ s' => unique s') s.
Proof.
  intros U Hh. assert (Hk : forall A (m : M fs A), keeps_ids m -> wlp m (fun _ s' => unique s') s).
  { intros A m Hm. eapply wlp_mono; [apply Hm|]. intros a s' E. by apply (unique_ids s). }
  assert (Hr : forall A (m : M fs A), wlp m (fun _ s' => unique s') s -> wlp (m;; mret tt) (fun _ s' => unique s') s).
  { intros A m Hm. apply wlp_bind. eapply wlp_mono; [apply Hm|]. intros. by apply wlp_ret. }
  destruct c; simpl in *.
  - by apply Hr, iget_unique.
  - by apply Hr, ialloc_unique.
  - by apply Hr, idup_unique.
  - by apply iput_unique.
  - apply Hk. ids_auto.
  - apply Hk. ids_auto.
  - apply Hk. ids_auto.
  - apply Hr, Hk, ids_readi.
  - apply Hr, Hk, ids_writei.
Qed.

(** C27: whatever sequence of calls is made from an empty cache, no two entries
    of the inode cache in use are for the same inode, so that all users of an
    inode share one copy; and iget returns an entry for the inode asked for. *)
Theorem icache_unique s0 s d n :
  (forall i, iref (icache s0 !!! i) = 0) -> rtc istep s0 s ->
  unique s /\
  wlp (iget d n) (fun i s' =>
    unique s' /\ idev (icache s' !!! i) = d /\ inum (icache s' !!! i) = n /\
    (forall j r, ids s !! j = Some (d, n, r) -> 0 < r -> i = j)) s.
Proof.
  intros H0 Hr. assert (U : unique s).
  { eapply (rtc_invariant istep unique); [| |exact Hr].
    - intros i j d' n' r r' Hi _ Hpos. unfold ids in Hi. rewrite list_lookup_fmap in Hi.
      destruct (icache s0 !! i) as [ip|] eqn:E; [|done]. simpl in Hi. specialize (H0 i).
      rewrite (list_lookup_total_correct _ _ _ E) in H0. simplify_eq. lia.
    - intros x y Ux [c Hh Hc]. exact (wlp_ok _ _ _ _ _ (run_icall_unique c x Ux Hh) Hc). }
  split; [done|]. eapply wlp_mono; [by apply iget_spec|]. intros i s' (U' & Hd & Hn & Hi).
  do 3 (split; [done|]). done.
Qed.
End sharing.

(** A cache of two entries, used for inodes 5 and 6. *)
Definition cache_two : fs := mkfs (fun _ => []) [] [inode_zero; inode_zero] (mksb 60 53 16 2 2 4 6).
Lemma no_drivers : driver_keeps (fun _ => None) (fun _ => None).
Proof. split; discriminate. Qed.
Lemma icache_unique_witness :
  exists s, rtc (istep 3 (fun _ => None) (fun _ => None)) cache_two s /\ unique s /\ (length (icache s) = 2)%nat.
Proof.
  set (s := exec (run_icall 3 (fun _ => None) (fun _ => None) (CGet 1 5)) cache_two).
  exists s. assert (R : rtc (istep 3 (fun _ => None) (fun _ => None)) cache_two s).
  { apply rtc_once. apply (istep_call 3 (fun _ => None) (fun _ => None) cache_two s (CGet 1 5)); [exact I|reflexivity]. }
  split; [exact R|]. split; [|reflexivity].
  apply (icache_unique 3 (fun _ => None) (fun _ => None) no_drivers cache_two s 1 6); [|exact R].
  intros [|[|i]]; reflexivity.
Defined.

(** ** Path names *)

Section paths.
Implicit Types (p q e : list Z).
(** The parts of a path between slashes. *)
Fixpoint split_slash p : list (list Z) :=
  match p with
  | [] => [[]]
  | c :: p => if decide (c = SLASH) then [] :: split_slash p else
      match split_slash p with [] => [[c]] | e :: r => (c :: e) :: r end
  end.
(** The elements of a path: the parts that are not empty, cut to DIRSIZ. *)
Definition elements p : list (list Z) := take DIRSIZ <$> filter (fun e => e <> []) (split_slash p).
(** The elements skipelem gives one after the other. *)
Fixpoint skip_all (fuel : nat) p : list (list Z) :=
  match fuel with
  | O => []
  | S fuel => match skipelem p with None => [] | Some (e, p') => e :: skip_all fuel p' end
  end.

Lemma elements_slash p : elements (SLASH :: p) = elements p.
Proof. unfold elements. simpl. by rewrite filter_cons_False by (intros H; by apply H). Qed.
Lemma elements_skip p : elements (skip_slashes p) = elements p.
Proof.
  induction p as [|c p IH]; simpl; [done|]. case_decide as H; [|done]. subst c. by rewrite IH, elements_slash.
Qed.
Lemma skip_slashes_length p : (length (skip_slashes p) <= length p)%nat.
Proof. induction p as [|c p IH]; simpl; [lia|]. case_decide; simpl; lia. Qed.
Lemma skip_slashes_head p c q : skip_slashes p = c :: q -> c <> SLASH.
Proof. induction p as [|d p IH]; simpl; [done|]. case_decide; [done|]. congruence. Qed.
Lemma elem_end_split p : split_slash p = (elem_end p).1 :: tail (split_slash p) /\
  (match (elem_end p).2 with [] => tail (split_slash p) = [] | c :: q => c = SLASH /\ tail (split_slash p) = split_slash q end) /\
  length p = (length (elem_end p).1 + length (elem_end p).2)%nat.
Proof.
  induction p as [|c p (IH1 & IH2 & IH3)]; simpl; [done|]. case_decide as H; simpl; [done|].
  rewrite IH1. simpl. split; [done|]. split; [done|]. lia.
Qed.
Lemma skipelem_elements p :
  match skipelem p with
  | None => elements p = []
  | Some (e, p') => elements p = e :: elements p' /\ (length p' < length p)%nat
  end.
Proof.
  unfold skipelem. rewrite <- (elements_skip p). pose proof (skip_slashes_length p) as Hl.
  destruct (skip_slashes p) as [|c q] eqn:E; [done|]. apply skip_slashes_head in E.
  destruct (elem_end_split (c :: q)) as (H1 & H2 & H3). cbv zeta.
  assert (Hne : (elem_end (c :: q)).1 <> []) by (simpl; by rewrite decide_False).
  set (e := (elem_end (c :: q)).1) in *. set (r := (elem_end (c :: q)).2) in *.
  assert (Ht : (if decide (DIRSIZ <= length e)%nat then take DIRSIZ e else e) = take DIRSIZ e).
  { case_decide; [done|]. symmetry. apply take_ge. lia. }
  rewrite Ht. split.
  - unfold elements at 1. rewrite H1, filter_cons_True by done. rewrite fmap_cons. f_equal.
    rewrite elements_skip. destruct r as [|x r]; [by rewrite H2|]. destruct H2 as [-> H2].
    rewrite H2, elements_slash. done.
  - pose proof (skip_slashes_length r). destruct e; [done|]. simpl in *. lia.
Qed.

(** Skipelem takes a path apart into its elements: called until it gives
    none, which takes at most as many calls as the path has characters, it
    yields the parts between the slashes that are not empty, in order, each cut
    to DIRSIZ characters. *)
Theorem skipelem_path p : skip_all (S (length p)) p = elements p.
Proof.
  assert (H : forall fuel p, (length p < fuel)%nat -> skip_all fuel p = elements p); [|apply H; lia].
  induction fuel as [|fuel IH]; intros q Hq; [lia|]. simpl.
  pose proof (skipelem_elements q) as E. destruct (skipelem q) as [[e q']|]; [|done].
  destruct E as [-> Hlt]. f_equal. apply IH. lia.
Qed.
End paths.
