(* ===== verification/Mkfs.v ===== *)
(** The image builder (mkfs.c), which lays out the first disk.

    [img] is the image file, a sequence of sectors that writes extend, and the
    two counters of the program.  A host file is what successive reads of it
    return.  A failed assertion or system call ends the program: the [Panic]
    result. *)
From S2P Require Import Prelude Sleeplock Cstring Fs.

Definition FSSIZE : Z := 1000.
Definition LOGSIZE : Z := 30.
Definition NINODES : Z := 200.
Definition nbitmap : Z := FSSIZE / (Z.of_nat BSIZE * 8) + 1.
Definition ninodeblocks : Z := NINODES / IPB + 1.
Definition nlog : Z := LOGSIZE.
Definition nmeta : Z := 2 + nlog + ninodeblocks + nbitmap.
Definition nblocks : Z := FSSIZE - nmeta.

(** The value whose bytes in memory are those of [x], low byte first. *)
Definition xshort (x : Z) : Z := le_dec [u8 x; u8 (Z.shiftr x 8)].
Definition xint (x : Z) : Z := le_dec [u8 x; u8 (Z.shiftr x 8); u8 (Z.shiftr x 16); u8 (Z.shiftr x 24)].

Record img := mkimg { sectors : Z -> list Z; nsectors : Z; freeinode : Z; freeblock : Z }.
#[export] Instance eta_img : Eta img := fun m => mkimg (sectors m) (nsectors m) (freeinode m) (freeblock m).
Definition zeroes : list Z := replicate BSIZE 0.
(** The file after open with O_TRUNC; a sector that was skipped reads as zero. *)
Definition img0 : img := mkimg (fun _ => zeroes) 0 1 0.

Definition superblock_ : superblock :=
  mksb (xint FSSIZE) (xint nblocks) (xint NINODES) (xint nlog) (xint 2) (xint (2 + nlog)) (xint (2 + nlog + ninodeblocks)).
(** The bytes of the superblock. *)
Definition sb_words (s : superblock) : list Z :=
  [sb_size s; sb_nblocks s; sb_ninodes s; sb_nlog s; sb_logstart s; sb_inodestart s; sb_bmapstart s].
Definition sb_bytes (s : superblock) : list Z := mjoin (le_enc 4 <$> sb_words s).

Definition wsect (sec : Z) (buf : list Z) : M img unit :=
  modify (fun m => m <| sectors ::= insert sec buf |> <| nsectors ::= Z.max (sec + 1) |>).
Definition rsect (sec : Z) : M img (list Z) :=
  n ← gets nsectors;
  if decide (sec < n) then gets (fun m => sectors m sec) else panic "read".
Definition winode (inum : Z) (ip : inode) : M img unit :=
  let bn := IBLOCK inum superblock_ in
  buf ← rsect bn;
  wsect bn (put_dinode buf (dinode_at inum) ip).
Definition rinode (inum : Z) : M img inode :=
  let bn := IBLOCK inum superblock_ in
  buf ← rsect bn;
  mret (get_dinode buf (dinode_at inum) inode_zero).
Definition ialloc (type : Z) : M img Z :=
  inum ← gets freeinode;
  modify (fun m => m <| freeinode ::= Z.add 1 |>);;
  winode inum (inode_zero <| itype := xshort type |> <| inlink := xshort 1 |> <| isize := xint 0 |>);;
  mret inum.
(** The bitmap with the first [used] bits set. *)
Definition bitmap (used : nat) : list Z := foldl bit_mark zeroes (seq 0 used).
Definition balloc (used : Z) : M img unit :=
  if decide (used < Z.of_nat BSIZE * 8) then wsect (sb_bmapstart superblock_) (bitmap (Z.to_nat used))
  else panic "used < BSIZE*8".

(** freeblock++ *)
Definition next_block : M img Z :=
  b ← gets freeblock;
  modify (fun m => m <| freeblock ::= Z.add 1 |>);;
  mret (xint b).
(** The block for part [fbn] of a file with the pointers [addrs], and the
    pointers with it. *)
Definition block_for (fbn : Z) (addrs : list Z) : M img (Z * list Z) :=
  if decide (fbn < Z.of_nat NDIRECT) then
    if decide (xint (addrs !!! Z.to_nat fbn) = 0) then
      b ← next_block;
      mret (xint b, <[Z.to_nat fbn := b]> addrs)
    else mret (xint (addrs !!! Z.to_nat fbn), addrs)
  else
    addrs ← (if decide (xint (addrs !!! NDIRECT) = 0) then
               b ← next_block;
               mret (<[NDIRECT := b]> addrs)
             else mret addrs);
    let ib := xint (addrs !!! NDIRECT) in
    indirect ← rsect ib;
    let k := (4 * Z.to_nat (fbn - Z.of_nat NDIRECT))%nat in
    if decide (get32 indirect k = 0) then
      b ← next_block;
      wsect ib (set32 indirect k b);;
      mret (xint b, addrs)
    else mret (xint (get32 indirect k), addrs).
(** The loop of iappend: the pointers and the offset it ends with. *)
Fixpoint iappend_loop (fuel : nat) (addrs : list Z) (off : Z) (p : list Z) : M img (list Z * Z) :=
  match fuel with
  | O => mret (addrs, off)
  | S fuel =>
      match p with
      | [] => mret (addrs, off)
      | _ =>
          let fbn := off / Z.of_nat BSIZE in
          if decide (fbn < Z.of_nat MAXFILE) then
            r ← block_for fbn addrs;
            let n1 := Z.to_nat (Z.min (Z.of_nat (length p)) ((fbn + 1) * Z.of_nat BSIZE - off)) in
            buf ← rsect r.1;
            wsect r.1 (splice buf (Z.to_nat (off - fbn * Z.of_nat BSIZE)) (take n1 p));;
            iappend_loop fuel r.2 (off + Z.of_nat n1) (drop n1 p)
          else panic "fbn < MAXFILE"
      end
  end.
Definition iappend (inum : Z) (p : list Z) : M img unit :=
  din ← rinode inum;
  let off := xint (isize din) in
  r ← iappend_loop (turns (Z.of_nat (length p))) (iaddrs din) off p;
  winode inum (din <| iaddrs := r.1 |> <| isize := xint r.2 |>).

(** ** main *)

(** A file named on the command line, which opens, and what the reads of it
    give before the one that returns 0. *)
Record hostfile := mkhost { hname : list Z; hreads : list (list Z) }.
Definition UNDERSCORE : Z := 95.
(** The name in the file system: a leading underscore is skipped. *)
Definition fs_name (name : list Z) : list Z :=
  match name with c :: rest => if decide (c = UNDERSCORE) then rest else name | [] => [] end.
(** One turn of the loop over the files. *)
Definition add_file (rootino : Z) (f : hostfile) : M img unit :=
  if decide (SLASH ∈ hname f) then panic "index(argv[i], '/') == 0" else
  inum ← ialloc T_FILE;
  iappend rootino (mkdirent (xshort inum) (fs_name (hname f)));;
  mfor (hreads f) (iappend inum).
(** The size of the root directory is rounded up to blocks. *)
Definition fix_root (rootino : Z) : M img unit :=
  din ← rinode rootino;
  let off := xint (isize din) in
  let off := (off / Z.of_nat BSIZE + 1) * Z.of_nat BSIZE in
  winode rootino (din <| isize := xint off |>).
(** The empty image with its superblock. *)
Definition layout : M img unit :=
  modify (fun m => m <| freeblock := nmeta |>);;
  mfor (seqZ 0 FSSIZE) (fun i => wsect i zeroes);;
  wsect 1 (splice zeroes 0 (sb_bytes superblock_)).
Definition main (files : list hostfile) : M img unit :=
  layout;;
  rootino ← ialloc T_DIR;
  (if decide (rootino = ROOTINO) then mret tt else panic "rootino == ROOTINO");;
  iappend rootino (mkdirent (xshort rootino) [46]);;
  iappend rootino (mkdirent (xshort rootino) [46; 46]);;
  mfor files (add_file rootino);;
  fix_root rootino;;
  used ← gets freeblock;
  balloc used.
