(* ===== verification/MkfsFacts.v ===== *)
(** The invariant of the image mkfs builds: the blocks below freeblock are the
    ones in use, every inode given out has a file in the kernel's sense with the
    bytes appended so far, no two files share a block, and the rest is empty.
    iappend, ialloc and the other steps of main keep it. *)
From S2P Require Import Prelude Sleeplock Cstring Fs FsFacts FsFile FsDir Mkfs.

Abbreviation BS := (Z.of_nat BSIZE).

(** ** Byte order *)

Lemma xint_u32 x : xint x = u32 x.
Proof.
  assert (E : [u8 x; u8 (Z.shiftr x 8); u8 (Z.shiftr x 16); u8 (Z.shiftr x 24)] = le_enc 4 x).
  { cbn [le_enc]. rewrite !Z.shiftr_div_pow2 by lia. unfold u8. rewrite !Z.div_div by lia. done. }
  unfold xint. rewrite E, le_dec_enc. done.
Qed.
Lemma xshort_u16 x : xshort x = u16 x.
Proof.
  assert (E : [u8 x; u8 (Z.shiftr x 8)] = le_enc 2 x).
  { cbn [le_enc]. rewrite !Z.shiftr_div_pow2 by lia. unfold u8. done. }
  unfold xshort. rewrite E, le_dec_enc. done.
Qed.
Lemma xint_small x : is_u32 x -> xint x = x.
Proof. intros H. rewrite xint_u32. by apply u32_small. Qed.

(** ** The image as the kernel sees it *)

Lemma sb_val : superblock_ = mksb 1000 941 200 30 2 32 58.
Proof. reflexivity. Qed.
(** The bitmap block. *)
Definition BMAP : Z := 58.
Lemma bmap_val : sb_bmapstart superblock_ = BMAP.
Proof. reflexivity. Qed.
#[local] Arguments superblock_ : simpl never.
Lemma nmeta_val : nmeta = 59.
Proof. reflexivity. Qed.
Lemma bitmap_S k : bitmap (S k) = bit_mark (bitmap k) k.
Proof. unfold bitmap. by rewrite seq_S, foldl_app. Qed.
Lemma bitmap_ok k : length (bitmap k) = BSIZE /\ Forall is_u8 (bitmap k).
Proof.
  induction k as [|k [IH1 IH2]]; [split; [apply length_replicate|apply zeros_bytes]|]. rewrite bitmap_S. split.
  - by rewrite bit_mark_length.
  - by apply bit_mark_bytes.
Qed.
Lemma bitmap_free k b : (b < 4096)%nat -> (k <= 4096)%nat -> bit_free (bitmap k) b = bool_decide (k <= b)%nat.
Proof.
  intros Hb Hk. induction k as [|k IH].
  - rewrite bool_decide_true by lia. unfold bit_free, bitmap, zeroes. cbn [seq foldl].
    rewrite lookup_total_replicate_2; [by rewrite Z.land_0_l|]. apply Nat.Div0.div_lt_upper_bound. unfold BSIZE. lia.
  - rewrite bitmap_S, bit_mark_free, IH by (lia || (rewrite (proj1 (bitmap_ok k)); apply Nat.Div0.div_lt_upper_bound; unfold BSIZE; lia)).
    destruct (decide (k = b)) as [->|Hne]; [by rewrite bool_decide_false by lia|]. apply bool_decide_ext. lia.
Qed.

Record mk_ok (m : img) : Prop := {
  mo_len : nsectors m = FSSIZE;
  mo_range : nmeta <= freeblock m <= FSSIZE;
  mo_size : forall n, length (sectors m n) = BSIZE;
  mo_bytes : forall n, Forall is_u8 (sectors m n);
  mo_zero : forall n, freeblock m <= n -> sectors m n = zeroes;
}.
(** The blocks, with the bitmap as it will be written for what is used now. *)
Definition kblocks (m : img) (n : Z) : list Z :=
  if decide (n = BMAP) then bitmap (Z.to_nat (freeblock m)) else sectors m n.
(** [s] is the kernel's view of the image while it works on one file. *)
Record agrees (m : img) (s : fs) : Prop := {
  ag_sb : sb s = superblock_;
  ag_one : length (icache s) = 1%nat;
  ag_blk : forall n, blocks s n = kblocks m n;
}.
Section agree.
Context (m : img) (s : fs) (HM : mk_ok m) (HA : agrees m s).
Lemma agrees_free b : 0 <= b < FSSIZE -> free s b = bool_decide (freeblock m <= b).
Proof.
  intros Hb. pose proof (mo_range _ HM) as Hr. rewrite nmeta_val in Hr. unfold FSSIZE in *. unfold free. rewrite (ag_sb _ _ HA), sb_val. unfold BBLOCK, bit_of.
  rewrite Z.div_small, Z.mod_small by (unfold BPB; lia). rewrite (ag_blk _ _ HA). unfold kblocks. rewrite decide_True by done.
  rewrite bitmap_free by lia. apply bool_decide_ext. lia.
Qed.
Lemma agrees_ok : fs_ok s.
Proof.
  split; try (rewrite (ag_sb _ _ HA), sb_val; cbn; lia).
  - intros n. rewrite (ag_blk _ _ HA). unfold kblocks. case_decide; [apply bitmap_ok|apply HM].
  - intros n. rewrite (ag_blk _ _ HA). unfold kblocks. case_decide; [apply bitmap_ok|apply HM].
  - intros n. rewrite (ag_sb _ _ HA), sb_val. unfold IBLOCK. cbn. intros Hn. assert (n / IPB <= 24); [|lia].
    apply Z.lt_succ_r, Z.div_lt_upper_bound; unfold IPB; lia.
  - intros b. rewrite (ag_sb _ _ HA), sb_val. cbn. intros Hb. rewrite agrees_free by (unfold FSSIZE; lia). intros Hf%bool_decide_eq_true.
    pose proof (mo_range _ HM) as Hr. rewrite nmeta_val in Hr. change (data_start _) with 59. lia.
Qed.
(** The next block is the one balloc would choose. *)
Lemma agrees_take :
  freeblock m < FSSIZE ->
  mk_ok (m <| freeblock ::= Z.add 1 |>) /\ agrees (m <| freeblock ::= Z.add 1 |>) (allocated (freeblock m) s) /\ free s (freeblock m) = true.
Proof.
  intros Hlt. pose proof (mo_range _ HM) as Hr. rewrite nmeta_val in Hr. split; [|split].
  - destruct HM as [H1 H2 H3 H4 H5]. split; cbn; try done; [rewrite nmeta_val; lia|]. intros n Hn. apply H5. lia.
  - split; [apply HA|apply HA|]. intros n. rewrite allocated_blocks, (ag_sb _ _ HA), !(ag_blk _ _ HA). unfold kblocks. cbn [sectors freeblock].
    replace (BBLOCK (freeblock m) superblock_) with 58.
    2: { unfold BBLOCK. rewrite sb_val. cbn. rewrite Z.div_small by (unfold BPB, FSSIZE in *; lia). done. }
    change BMAP with 58. destruct (decide (n = freeblock m)) as [->|Hne].
    + rewrite decide_False by lia. cbn. symmetry. apply (mo_zero _ HM). lia.
    + destruct (decide (n = 58)) as [->|]; [|done]. rewrite decide_True by done. cbn [freeblock]. unfold bit_of.
      rewrite Z.mod_small by (unfold BPB, FSSIZE in *; lia). rewrite <- bitmap_S. f_equal. cbn. lia.
  - rewrite agrees_free by lia. by apply bool_decide_true.
Qed.
(** Writing a block in use. *)
Lemma agrees_write n d :
  length d = BSIZE -> Forall is_u8 d -> 0 <= n < freeblock m -> n <> BMAP ->
  exists m', wsect n d m = Ok (m', tt) /\ mk_ok m' /\ agrees m' (logs n d s) /\ freeblock m' = freeblock m /\ freeinode m' = freeinode m /\
    forall n', sectors m' n' = if decide (n = n') then d else sectors m n'.
Proof.
  intros Hl Hd Hn Hb. eexists. split; [reflexivity|]. pose proof (mo_range _ HM) as Hr. cbn. split; [|split; [|split; [done|split; [done|]]]].
  - destruct HM as [H1 H2 H3 H4 H5]. split; cbn; try done; [lia|..]; intros n'; rewrite fn_insert_cases; case_decide; auto; intros; lia.
  - split; [apply HA|apply HA|]. intros n'. cbn. rewrite fn_insert_cases, (ag_blk _ _ HA). unfold kblocks. cbn. rewrite fn_insert_cases.
    repeat case_decide; congruence.
  - intros n'. by rewrite fn_insert_cases.
Qed.
Lemma agrees_read n : n < FSSIZE -> n <> BMAP -> rsect n m = Ok (m, blocks s n).
Proof.
  intros Hn Hb. unfold rsect. rewrite (bind_run _ _ m m (nsectors m)) by done. rewrite (mo_len _ HM), decide_True by done.
  unfold gets. rewrite (ag_blk _ _ HA). unfold kblocks. by rewrite decide_False.
Qed.
End agree.

(** ** The blocks of a file *)

Abbreviation IND := (Z.of_nat MAXFILE).
Abbreviation nd s := (icache s !!! 0%nat).
Lemma owned_used m s n : mk_ok m -> agrees m s -> file_ok s 0 -> owned s 0 n -> nmeta <= n < freeblock m.
Proof.
  intros HM HA H Ho. destruct (fi_own _ _ H n Ho) as [(_ & Hd) Hf]. rewrite (ag_sb _ _ HA) in Hd. change (data_start superblock_) with 59 in Hd.
  change (sb_size superblock_) with 1000 in Hd. rewrite nmeta_val. rewrite (agrees_free m s HM HA) in Hf by (unfold FSSIZE; lia).
  apply bool_decide_eq_false in Hf. lia.
Qed.
(** How many blocks part [k] takes. *)
Definition cost s (k : Z) : Z :=
  if decide (addr_of s 0 k <> 0) then 0 else if decide (Z.of_nat NDIRECT <= k /\ ind s 0 = 0) then 2 else 1.
Record picked m s (k : Z) m1 s1 : Prop := {
  pk_ok : mk_ok m1;
  pk_agrees : agrees m1 s1;
  pk_mapped : mapped 0 k s (addr_of s1 0 k) s1;
  pk_cost : freeblock m1 = freeblock m + cost s k;
  pk_inode : freeinode m1 = freeinode m;
  pk_other : forall k', 0 <= k' < IND -> k' <> k -> addr_of s1 0 k' = addr_of s 0 k';
  pk_ind : ind s1 0 <> 0 <-> ind s 0 <> 0 \/ Z.of_nat NDIRECT <= k;
  pk_zero : addr_of s 0 k = 0 -> blocks s1 (addr_of s1 0 k) = zeroes;
}.
Section pick.
Context (m : img) (s : fs) (k : Z).
Hypothesis (HM : mk_ok m) (HA : agrees m s) (HF : file_ok s 0) (Hk : 0 <= k < IND).
Lemma picked_hit : addr_of s 0 k <> 0 -> (Z.of_nat NDIRECT <= k -> ind s 0 <> 0) -> picked m s k m s.
Proof.
  intros Ha Hi. split; try done.
  - by apply mapped_hit.
  - unfold cost. rewrite decide_True by done. lia.
  - tauto.
Qed.
(** One block is taken for [k0], [k] itself or the indirect block. *)
Lemma take_new s1 k0 : freeblock m < FSSIZE -> took 0 k0 (freeblock m) s s1 -> 0 <= k0 <= IND -> ptr s1 0 k0 = freeblock m.
Proof. intros Hf T Hk0. rewrite (tk_ptr _ _ _ _ _ T) by done. by rewrite decide_True. Qed.
Lemma fresh_not_owned n : freeblock m <= n -> ~ owned s 0 n.
Proof. intros Hn Ho. pose proof (owned_used m s n HM HA HF Ho). lia. Qed.
Lemma size_val : sb_size (sb s) = FSSIZE.
Proof. by rewrite (ag_sb _ _ HA). Qed.
Lemma direct_taken :
  freeblock m < FSSIZE -> k < Z.of_nat NDIRECT -> addr_of s 0 k = 0 ->
  picked m s k (m <| freeblock ::= Z.add 1 |>) (take_direct 0 (Z.to_nat k) (freeblock m) s) /\
  addr_of (take_direct 0 (Z.to_nat k) (freeblock m) s) 0 k = freeblock m.
Proof.
  intros Hf Hd Ha. destruct (agrees_take m s HM HA Hf) as (HM1 & HA1 & Hfree). pose proof (mo_range _ HM) as Hr. rewrite nmeta_val in Hr.
  assert (Es : slot_of (Z.to_nat k) = k) by (unfold slot_of; rewrite decide_False; lia).
  assert (Hp : ptr s 0 k = 0) by (rewrite <- addr_ptr by lia; done).
  assert (T : took 0 k (freeblock m) s (take_direct 0 (Z.to_nat k) (freeblock m) s)).
  { rewrite <- Es at 1. apply take_direct_took; [done|rewrite size_val; lia|done|lia|by rewrite Es]. }
  assert (Ek : addr_of (take_direct 0 (Z.to_nat k) (freeblock m) s) 0 k = freeblock m) by (rewrite addr_ptr by lia; apply (take_new _ k); (done || lia)).
  split; [|done]. split; try done.
  - destruct HA1 as [A1 A2 A3]. split; [done| |done]. unfold take_direct. cbn. rewrite length_alter. apply HA.
  - rewrite Ek. by apply took_mapped.
  - unfold cost. rewrite decide_False, decide_False by lia. change (1 + freeblock m = freeblock m + 1). lia.
  - intros k' Hk' Hne. rewrite !addr_ptr by lia. rewrite (tk_ptr _ _ _ _ _ T), decide_False by (done || lia). done.
  - rewrite (took_ind 0 k (freeblock m) s _ ltac:(lia) T). split; [tauto|]. intros [?|?]; [done|lia].
  - intros _. rewrite Ek. change (blocks (allocated (freeblock m) s) (freeblock m) = zeroes). by rewrite allocated_blocks, decide_True.
Qed.
Lemma indirect_taken :
  freeblock m < FSSIZE -> Z.of_nat NDIRECT <= k -> ind s 0 <> 0 -> addr_of s 0 k = 0 ->
  exists m1, wsect (ind s 0) (set32 (blocks s (ind s 0)) (4 * Z.to_nat (k - Z.of_nat NDIRECT)) (freeblock m)) (m <| freeblock ::= Z.add 1 |>) = Ok (m1, tt) /\
    picked m s k m1 (take_indirect 0 k (freeblock m) s) /\ addr_of (take_indirect 0 k (freeblock m) s) 0 k = freeblock m.
Proof.
  intros Hf Hd Hi Ha. destruct (agrees_take m s HM HA Hf) as (HM1 & HA1 & Hfree). pose proof (mo_range _ HM) as Hr. rewrite nmeta_val in Hr.
  destruct (ind_ok s 0 HF Hi) as (Hio & _). pose proof (owned_used m s _ HM HA HF Hio) as Hin. rewrite nmeta_val in Hin.
  pose proof MAXFILE_Z as HZ. change (Z.of_nat NDIRECT) with 12 in *.
  set (d := set32 (blocks s (ind s 0)) (4 * Z.to_nat (k - 12)) (freeblock m)).
  assert (Hl : length d = BSIZE).
  { unfold d. rewrite set32_length; [apply (agrees_ok m s HM HA)|]. rewrite (fk_len _ (agrees_ok m s HM HA)). unfold BSIZE. lia. }
  destruct (agrees_write _ _ HM1 HA1 (ind s 0) d Hl) as (m1 & Ew & HM2 & HA2 & Hfb & Hfi & _).
  { apply splice_bytes; [apply (agrees_ok m s HM HA)|apply le_enc_bytes]. }
  { change (0 <= ind s 0 < 1 + freeblock m). lia. } { unfold BMAP. lia. }
  exists m1. split; [done|].
  assert (T : took 0 k (freeblock m) s (take_indirect 0 k (freeblock m) s)).
  { assert (Hp : ptr s 0 k = 0) by (rewrite <- addr_ptr by lia; exact Ha). apply take_indirect_took; try done; rewrite ?size_val; change (Z.of_nat NDIRECT) with 12; lia. }
  assert (Ek : addr_of (take_indirect 0 k (freeblock m) s) 0 k = freeblock m) by (rewrite addr_ptr by lia; apply (take_new _ k); (done || lia)).
  split; [|done]. split; try done.
  - rewrite Ek. by apply took_mapped; [|rewrite addr_ptr in Ha by lia|].
  - unfold cost. change (Z.of_nat NDIRECT) with 12. rewrite decide_False, decide_False by (intros ?; tauto). rewrite Hfb. change (1 + freeblock m = freeblock m + 1). lia.
  - intros k' Hk' Hne. rewrite !addr_ptr by lia. rewrite (tk_ptr _ _ _ _ _ T), decide_False by (done || lia). done.
  - change (ind (take_indirect 0 k (freeblock m) s) 0) with (ind s 0). tauto.
  - intros _. rewrite Ek. change ((<[ind s 0 := d]> (blocks (allocated (freeblock m) s))) (freeblock m) = zeroes).
    rewrite fn_insert_cases, decide_False by lia. by rewrite allocated_blocks, decide_True.
Qed.
End pick.
Lemma addr_range s i j : file_ok s i -> (j <= NDIRECT)%nat -> is_u32 (iaddrs (node s i) !!! j).
Proof. intros H Hj. apply Forall_lookup_total_1; [by apply addrs_range|]. rewrite (fi_len _ _ H). lia. Qed.
Lemma next_block_run m : mk_ok m -> next_block m = Ok (m <| freeblock ::= Z.add 1 |>, freeblock m).
Proof.
  intros HM. unfold next_block, mbind, M_bind, gets, modify, mret, M_ret. do 2 f_equal. apply xint_small.
  pose proof (mo_range _ HM) as Hr. rewrite nmeta_val in Hr. unfold is_u32, FSSIZE in *. lia.
Qed.
(** The part of block_for behind the indirect block. *)
Lemma indirect_spec m s k :
  mk_ok m -> agrees m s -> file_ok s 0 -> Z.of_nat NDIRECT <= k < IND -> ind s 0 <> 0 -> freeblock m + cost s k <= FSSIZE ->
  exists m1 s1,
    (let ib := xint (ind s 0) in
     indirect ← rsect ib;
     let o := (4 * Z.to_nat (k - Z.of_nat NDIRECT))%nat in
     if decide (get32 indirect o = 0) then
       b ← next_block;
       wsect ib (set32 indirect o b);;
       mret (xint b, iaddrs (nd s))
     else mret (xint (get32 indirect o), iaddrs (nd s))) m = Ok (m1, (addr_of s1 0 k, iaddrs (nd s1))) /\
    picked m s k m1 s1.
Proof.
  intros HM HA HF Hk Hi Hc. cbv zeta. destruct (ind_ok s 0 HF Hi) as (Hio & _). pose proof (owned_used m s _ HM HA HF Hio) as Hin.
  pose proof (mo_range _ HM) as Hr. rewrite nmeta_val in *. unfold FSSIZE in *.
  rewrite (xint_small (ind s 0)) by (unfold is_u32; lia). rewrite (bind_run _ _ _ _ _ (agrees_read m s HM HA (ind s 0) ltac:(unfold FSSIZE; lia) ltac:(unfold BMAP; lia))).
  assert (E : get32 (blocks s (ind s 0)) (4 * Z.to_nat (k - Z.of_nat NDIRECT)) = addr_of s 0 k) by (unfold addr_of; by rewrite decide_False, decide_False by lia).
  rewrite E. destruct (decide (addr_of s 0 k = 0)) as [Ha|Ha].
  - assert (Hlt : freeblock m < FSSIZE) by (unfold cost in Hc; rewrite decide_False in Hc by (intros ?; tauto); unfold FSSIZE; case_decide; lia).
    destruct (indirect_taken m s k HM HA HF ltac:(lia) Hlt ltac:(lia) Hi Ha) as (m1 & Ew & P & Ek).
    exists m1, (take_indirect 0 k (freeblock m) s). split; [|done]. rewrite (bind_run _ _ _ _ _ (next_block_run m HM)). rewrite (bind_run _ _ _ _ _ Ew).
    unfold mret, M_ret. rewrite xint_small by (unfold is_u32; lia). by rewrite Ek.
  - exists m, s. split; [|exact (picked_hit m s k HM HA HF ltac:(lia) Ha (fun _ => Hi))]. unfold mret, M_ret. rewrite xint_small; [done|].
    assert (Ho : owned s 0 (addr_of s 0 k)) by (rewrite addr_ptr in * by lia; apply owned_ptr; [lia|done]).
    pose proof (owned_used m s _ HM HA HF Ho) as Hu. rewrite nmeta_val in Hu. unfold is_u32. lia.
Qed.
(** The indirect block and then the part. *)
Lemma picked_two m s k m1 s1 :
  mk_ok m -> agrees m s -> file_ok s 0 -> Z.of_nat NDIRECT <= k < IND -> ind s 0 = 0 -> freeblock m < FSSIZE ->
  let m' := m <| freeblock ::= Z.add 1 |> in
  let s' := take_direct 0 NDIRECT (freeblock m) s in
  mk_ok m' /\ agrees m' s' /\ file_ok s' 0 /\ ind s' 0 = freeblock m /\ cost s k = cost s' k + 1 /\
  (picked m' s' k m1 s1 -> picked m s k m1 s1).
Proof.
  intros HM HA HF Hk Hi Hf m' s'. destruct (agrees_take m s HM HA Hf) as (HM1 & HA1 & Hfree). pose proof (mo_range _ HM) as Hr. rewrite nmeta_val in Hr.
  pose proof MAXFILE_Z as HZ. change (Z.of_nat NDIRECT) with 12 in *.
  assert (T : took 0 IND (freeblock m) s s').
  { assert (Es : slot_of NDIRECT = IND) by done. rewrite <- Es. apply take_direct_took; try done; rewrite (size_val m s HA); lia. }
  assert (Hi' : ind s' 0 = freeblock m) by (rewrite ind_ptr, (tk_ptr _ _ _ _ _ T), decide_True; (done || lia)).
  assert (Hsame : forall k', 0 <= k' < IND -> addr_of s' 0 k' = addr_of s 0 k').
  { intros k' Hk'. rewrite !addr_ptr by lia. rewrite (tk_ptr _ _ _ _ _ T), decide_False by lia. done. }
  assert (Ha : addr_of s 0 k = 0) by (unfold addr_of; change (Z.of_nat NDIRECT) with 12; by rewrite decide_False, decide_True by (done || lia)).
  split; [done|]. split; [|split; [apply T|split; [done|split]]].
  - destruct HA1 as [A1 A2 A3]. split; [done| |done]. unfold s', take_direct. cbn. rewrite length_alter. apply HA.
  - unfold cost. rewrite Hsame, Ha, Hi, Hi' by lia. change (Z.of_nat NDIRECT) with 12.
    rewrite !(decide_False (P := 0 <> 0)) by auto. rewrite (decide_True (P := 12 <= k /\ 0 = 0)) by lia. rewrite decide_False by lia. done.
  - intros [P1 P2 P3 P4 P5 P6 P7 P8]. split; try done.
    + apply (mapped_after_ind 0 k (freeblock m) s s'); (done || lia).
    + rewrite P4. unfold cost. rewrite Hsame, Ha, Hi, Hi' by lia. change (Z.of_nat NDIRECT) with 12.
      rewrite !(decide_False (P := 0 <> 0)) by auto. rewrite (decide_True (P := 12 <= k /\ 0 = 0)) by lia. rewrite decide_False by lia.
      change (1 + freeblock m + 1 = freeblock m + 2). lia.
    + intros k' Hk' Hne. rewrite P6 by done. by apply Hsame.
    + change (Z.of_nat NDIRECT) with 12 in *. rewrite P7. split; [right; lia|]. intros _. right. lia.
    + intros _. apply P8. rewrite Hsame by lia. done.
Qed.
Lemma block_for_spec m s k :
  mk_ok m -> agrees m s -> file_ok s 0 -> 0 <= k < IND -> freeblock m + cost s k <= FSSIZE ->
  exists m1 s1, block_for k (iaddrs (nd s)) m = Ok (m1, (addr_of s1 0 k, iaddrs (nd s1))) /\ picked m s k m1 s1.
Proof.
  intros HM HA HF Hk Hc. pose proof MAXFILE_Z as HZ. pose proof (mo_range _ HM) as Hr. rewrite nmeta_val in Hr. unfold block_for.
  destruct (decide (k < Z.of_nat NDIRECT)) as [Hd|Hd].
  - assert (E : iaddrs (nd s) !!! Z.to_nat k = addr_of s 0 k) by (unfold addr_of; by rewrite decide_True).
    rewrite (xint_small (iaddrs (nd s) !!! Z.to_nat k)) by (apply addr_range; [done|lia]). rewrite E. destruct (decide (addr_of s 0 k = 0)) as [Ha|Ha].
    + assert (Hlt : freeblock m < FSSIZE) by (unfold cost in Hc; rewrite decide_False in Hc by (intros ?; tauto); case_decide; lia).
      destruct (direct_taken m s k HM HA HF Hk Hlt Hd Ha) as [P Ek]. eexists _, _. split; [|exact P].
      rewrite (bind_run _ _ _ _ _ (next_block_run m HM)). rewrite Ek, take_direct_node by (apply HF).
      unfold mret, M_ret. rewrite xint_small by (unfold is_u32, FSSIZE in *; lia). done.
    + exists m, s. split; [done|]. apply (picked_hit m s k HM HA HF Hk); [done|]. lia.
  - rewrite (xint_small (iaddrs (nd s) !!! NDIRECT)) by (apply addr_range; [done|lia]). fold (ind s 0). destruct (decide (ind s 0 = 0)) as [Hi|Hi].
    + assert (Hlt : freeblock m < FSSIZE) by (unfold cost in Hc; case_decide as Ha; [unfold addr_of in Ha; rewrite decide_False, decide_True in Ha by done; done|]; case_decide; lia).
      destruct (picked_two m s k m s HM HA HF ltac:(lia) Hi Hlt) as (HM1 & HA1 & HF1 & Hi1 & Hc1 & _). rewrite Hc1 in Hc.
      destruct (indirect_spec _ _ k HM1 HA1 HF1 ltac:(lia)) as (m1 & s1 & E & P); [lia|change (1 + freeblock m + cost (take_direct 0 NDIRECT (freeblock m) s) k <= FSSIZE); lia|].
      exists m1, s1. split; [|apply (picked_two m s k m1 s1); (done || lia)]. rewrite <- E.
      rewrite (bind_run _ _ m (m <| freeblock ::= Z.add 1 |>) (iaddrs (nd (take_direct 0 NDIRECT (freeblock m) s)))); [done|].
      rewrite (bind_run _ _ _ _ _ (next_block_run m HM)). rewrite take_direct_node by (apply HF). done.
    + destruct (indirect_spec m s k HM HA HF ltac:(lia) Hi Hc) as (m1 & s1 & E & P). exists m1, s1. split; [|done]. exact E.
Qed.

(** ** Appending to a file *)

(** The blocks of the file hold [D], they are no more than it needs, and behind
    [D] they are zero. *)
Record hasdata s (D : list Z) : Prop := {
  hd_file : file_ok s 0;
  hd_max : Z.of_nat (length D) <= Z.of_nat (MAXFILE * BSIZE);
  hd_byte : forall x, 0 <= x < Z.of_nat (length D) -> byte s 0 x = D !!! Z.to_nat x;
  hd_tail : forall x, Z.of_nat (length D) <= x -> x / BS * BS < Z.of_nat (length D) -> byte s 0 x = 0;
  hd_map : forall k, 0 <= k < IND -> addr_of s 0 k <> 0 <-> k * BS < Z.of_nat (length D);
  hd_ind : ind s 0 <> 0 <-> Z.of_nat NDIRECT * BS < Z.of_nat (length D);
}.
(** The number of blocks of a file of [n] bytes. *)
Definition need (n : Z) : Z := (n + BS - 1) / BS + if decide (Z.of_nat NDIRECT * BS < n) then 1 else 0.
Lemma need_step s D c :
  hasdata s D -> 0 < c <= BS - Z.of_nat (length D) mod BS -> Z.of_nat (length D) / BS < IND ->
  cost s (Z.of_nat (length D) / BS) = need (Z.of_nat (length D) + c) - need (Z.of_nat (length D)).
Proof.
  intros H Hc Hlt. pose proof (hd_map _ _ H (Z.of_nat (length D) / BS)) as Hm. pose proof (hd_ind _ _ H) as Hi. unfold cost, need.
  set (n := Z.of_nat (length D)) in *. assert (Hn : 0 <= n) by lia. clearbody n. rewrite BSIZE_Z in *. change (Z.of_nat NDIRECT) with 12 in *.
  pose proof (Z.div_mod n 512 ltac:(lia)) as Hd. pose proof (Z.mod_pos_bound n 512 ltac:(lia)) as Hr. pose proof (Z.div_pos n 512 Hn ltac:(lia)) as Hq.
  specialize (Hm ltac:(lia)). set (q := n / 512) in *. set (r := n mod 512) in *.
  assert (E1 : (n + c + 512 - 1) / 512 = q + 1) by (symmetry; apply (Z.div_unique_pos _ 512 (q + 1) (r + c - 1)); lia).
  assert (E0 : (n + 512 - 1) / 512 = if decide (r = 0) then q else q + 1).
  { case_decide; symmetry; [apply (Z.div_unique_pos _ 512 q 511)|apply (Z.div_unique_pos _ 512 (q + 1) (r - 1))]; lia. }
  rewrite E1, E0. destruct (decide (addr_of s 0 q <> 0)) as [Ha|Ha].
  - apply Hm in Ha. rewrite (decide_False (P := r = 0)) by lia. destruct (decide (12 * 512 < n + c)), (decide (12 * 512 < n)); lia.
  - assert (r = 0) by (destruct (decide (q * 512 < n)) as [Hx|]; [apply Hm in Hx; done|lia]). rewrite (decide_True (P := r = 0)) by done.
    assert (Hi2 : ind s 0 = 0 <-> ~ 12 * 512 < n) by (rewrite <- Hi; destruct (decide (ind s 0 = 0)); tauto).
    destruct (decide (12 <= q /\ ind s 0 = 0)) as [[H1 H2]|H1]; destruct (decide (12 * 512 < n + c)), (decide (12 * 512 < n)); try lia; exfalso.
    all: try (apply Hi2 in H2; lia).
Qed.
(** What an append does to the rest of the image. *)
Record turned m s (c : list Z) D m2 s2 : Prop := {
  tn_ok : mk_ok m2;
  tn_agrees : agrees m2 s2;
  tn_data : hasdata s2 (D ++ c);
  tn_ext : extends 0 s s2;
  tn_block : freeblock m2 = freeblock m + need (Z.of_nat (length (D ++ c))) - need (Z.of_nat (length D));
  tn_inode : freeinode m2 = freeinode m;
}.
Lemma put_data s D c k s1 :
  hasdata s D -> mapped 0 k s (addr_of s1 0 k) s1 -> k = Z.of_nat (length D) / BS -> 0 <= k < IND -> c <> [] -> Forall is_u8 c ->
  Z.of_nat (length c) <= BS - Z.of_nat (length D) mod BS ->
  (forall k', 0 <= k' < IND -> k' <> k -> addr_of s1 0 k' = addr_of s 0 k') ->
  (ind s1 0 <> 0 <-> ind s 0 <> 0 \/ Z.of_nat NDIRECT <= k) -> (addr_of s 0 k = 0 -> blocks s1 (addr_of s1 0 k) = zeroes) ->
  let d := splice (blocks s1 (addr_of s1 0 k)) (Z.to_nat (Z.of_nat (length D) mod BS)) c in
  length d = BSIZE /\ Forall is_u8 d /\ hasdata (put_part 0 k d s1) (D ++ c) /\ extends 0 s (put_part 0 k d s1).
Proof.
  intros H P Ek Hk Hc Hcu Hcl Hoth Hind Hz d. pose proof (mp_ok _ _ _ _ _ P) as HF1. pose proof (fi_fs _ _ HF1) as Hok.
  destruct (mp_addr _ _ _ _ _ P) as [_ Hne]. pose proof BSIZE_Z as HB. set (n := Z.of_nat (length D)) in *.
  assert (Hn0 : 0 <= n) by lia. pose proof (Z.div_mod n BS ltac:(lia)) as Hd. pose proof (Z.mod_pos_bound n BS ltac:(lia)) as Hr. rewrite <- Ek in Hd.
  assert (Hcp : (0 < length c)%nat) by (destruct c; [done|cbn; lia]).
  assert (Hbl : length (blocks s1 (addr_of s1 0 k)) = BSIZE) by apply Hok.
  assert (Hl : length d = BSIZE) by (unfold d; rewrite splice_length; lia).
  assert (Hdu : Forall is_u8 d) by (apply splice_bytes; [apply Hok|done]).
  destruct (put_part_ok s1 0 k d HF1 Hk Hne Hl Hdu) as (HF2 & He2 & _).
  assert (Hpp : forall x, 0 <= x / BS < IND -> byte (put_part 0 k d s1) 0 x = if decide (x / BS = k) then d !!! Z.to_nat (x mod BS) else byte s1 0 x)
    by (intros x Hx; by apply put_part_byte).
  assert (Haddr : forall k', 0 <= k' < IND -> addr_of (put_part 0 k d s1) 0 k' = addr_of s1 0 k').
  { intros k' Hk'. rewrite !addr_ptr by lia. by apply put_part_ptr. }
  assert (Hdx : forall x, x / BS = k -> d !!! Z.to_nat (x mod BS) = if decide (n <= x < n + Z.of_nat (length c)) then c !!! Z.to_nat (x - n) else blocks s1 (addr_of s1 0 k) !!! Z.to_nat (x mod BS)).
  { intros x Ex. pose proof (Z.div_mod x BS ltac:(lia)) as Hdx. pose proof (Z.mod_pos_bound x BS ltac:(lia)). rewrite Ex in Hdx. unfold d.
    rewrite !list_lookup_total_alt, splice_lookup by lia. destruct (decide (n <= x < n + Z.of_nat (length c))).
    - rewrite decide_True by lia. do 2 f_equal. lia.
    - rewrite decide_False by lia. done. }
  assert (Hmax : n + Z.of_nat (length c) <= Z.of_nat (MAXFILE * BSIZE)) by (rewrite Nat2Z.inj_mul; nia).
  split; [done|]. split; [done|]. split; [|transitivity s1; [apply P|done]].
  split; rewrite ?length_app, ?Nat2Z.inj_add; fold n; try done.
  - intros x Hx. assert (Hxk : 0 <= x / BS <= k) by (split; [apply Z.div_pos; lia|]; apply Z.lt_succ_r, Z.div_lt_upper_bound; lia).
    rewrite Hpp by lia. destruct (decide (x / BS = k)) as [Ex|Ex].
    + rewrite Hdx by done. case_decide as Hin; [rewrite lookup_total_app_r by lia; f_equal; lia|].
      rewrite lookup_total_app_l by lia. rewrite <- (hd_byte _ _ H) by lia. symmetry.
      assert (Ha : addr_of s 0 k <> 0) by (apply (hd_map _ _ H); [done|]; pose proof (Z.div_mod x BS ltac:(lia)); pose proof (Z.mod_pos_bound x BS ltac:(lia)); rewrite Ex in *; fold n; lia).
      rewrite (mp_hit _ _ _ _ _ P Ha). unfold byte. by rewrite Ex.
    + assert (Hxn : x < n) by (pose proof (Z.div_mod x BS ltac:(lia)); pose proof (Z.mod_pos_bound x BS ltac:(lia)); nia).
      rewrite lookup_total_app_l by lia. rewrite <- (hd_byte _ _ H) by lia. apply (mapped_byte 0 k s (addr_of s1 0 k)); [apply H|done|lia|].
      apply (hd_map _ _ H); [lia|]. pose proof (Z.div_mod x BS ltac:(lia)). pose proof (Z.mod_pos_bound x BS ltac:(lia)). fold n. lia.
  - intros x Hx Hxb. assert (Hxk : x / BS = k).
    { pose proof (Z.div_mod x BS ltac:(lia)). pose proof (Z.mod_pos_bound x BS ltac:(lia)). assert (k <= x / BS) by (apply Z.div_le_lower_bound; lia). nia. }
    rewrite Hpp by lia. rewrite decide_True by done. rewrite Hdx by done. rewrite decide_False by lia. destruct (decide (addr_of s 0 k = 0)) as [Ha|Ha].
    + rewrite (Hz Ha). unfold zeroes. apply lookup_total_replicate_2. pose proof (Z.mod_pos_bound x BS ltac:(lia)). lia.
    + rewrite (mp_hit _ _ _ _ _ P Ha). rewrite <- (hd_tail _ _ H x); [unfold byte; by rewrite Hxk|fold n; lia|]. rewrite Hxk. by apply (hd_map _ _ H).
  - intros k' Hk'. rewrite Haddr by done. destruct (decide (k' = k)) as [->|Hk2]; [split; [lia|done]|]. rewrite Hoth by done. rewrite (hd_map _ _ H) by done. fold n. nia.
  - assert (Ei : ind (put_part 0 k d s1) 0 = ind s1 0) by done. rewrite Ei, Hind, (hd_ind _ _ H). fold n. change (Z.of_nat NDIRECT) with 12. nia.
Qed.
Lemma append_turn m s D c :
  mk_ok m -> agrees m s -> hasdata s D -> c <> [] -> Z.of_nat (length c) <= BS - Z.of_nat (length D) mod BS -> Forall is_u8 c ->
  Z.of_nat (length D) / BS < IND ->
  freeblock m + need (Z.of_nat (length (D ++ c))) - need (Z.of_nat (length D)) <= FSSIZE ->
  exists m1 a buf m2 s2, block_for (Z.of_nat (length D) / BS) (iaddrs (nd s)) m = Ok (m1, (a, iaddrs (nd s2))) /\
    rsect a m1 = Ok (m1, buf) /\ wsect a (splice buf (Z.to_nat (Z.of_nat (length D) mod BS)) c) m1 = Ok (m2, tt) /\ turned m s c D m2 s2.
Proof.
  intros HM HA H Hc Hcl Hcu Hk Hf. set (k := Z.of_nat (length D) / BS) in *. pose proof BSIZE_Z as HB.
  assert (Hk0 : 0 <= k < IND) by (split; [apply Z.div_pos; lia|done]). assert (Hcp : (0 < length c)%nat) by (destruct c; [done|cbn; lia]).
  pose proof (need_step s D (Z.of_nat (length c)) H ltac:(lia) Hk) as Hcost. rewrite length_app, Nat2Z.inj_add in *.
  destruct (block_for_spec m s k HM HA (hd_file _ _ H) Hk0) as (m1 & s1 & E & [P1 P2 P3 P4 P5 P6 P7 P8]); [fold k in Hcost; lia|].
  destruct (put_data s D c k s1 H P3 eq_refl Hk0 Hc Hcu Hcl P6 P7 P8) as (Hl & Hu & Hdata & Hext).
  assert (Ho : owned s1 0 (addr_of s1 0 k)) by (destruct (mp_addr _ _ _ _ _ P3); rewrite addr_ptr in * by lia; apply owned_ptr; [lia|done]).
  pose proof (owned_used m1 s1 _ P1 P2 (mp_ok _ _ _ _ _ P3) Ho) as Hr. pose proof (mo_range _ P1) as Hr1. rewrite nmeta_val in *.
  destruct (agrees_write m1 s1 P1 P2 (addr_of s1 0 k) _ Hl Hu ltac:(lia) ltac:(unfold BMAP; lia)) as (m2 & Ew & HM2 & HA2 & Hfb & Hfi & _).
  exists m1, (addr_of s1 0 k), (blocks s1 (addr_of s1 0 k)), m2, (put_part 0 k (splice (blocks s1 (addr_of s1 0 k)) (Z.to_nat (Z.of_nat (length D) mod BS)) c) s1).
  split; [exact E|]. split; [apply (agrees_read m1 s1); try done; [lia|unfold BMAP; lia]|].
  split; [exact Ew|]. split; try done; [|congruence]. rewrite Hfb, P4, length_app, Nat2Z.inj_add. fold k in Hcost. lia.
Qed.
Lemma need_mono a b : 0 <= a <= b -> need a <= need b.
Proof.
  intros H. unfold need. rewrite BSIZE_Z. pose proof (Z.div_le_mono (a + 512 - 1) (b + 512 - 1) 512 ltac:(lia) ltac:(lia)).
  do 2 case_decide; lia.
Qed.
Lemma turned_nil m s D : mk_ok m -> agrees m s -> hasdata s D -> turned m s [] D m s.
Proof. intros. split; rewrite ?app_nil_r; (done || lia). Qed.
Lemma turned_app m s c c' D m1 s1 m2 s2 : turned m s c D m1 s1 -> turned m1 s1 c' (D ++ c) m2 s2 -> turned m s (c ++ c') D m2 s2.
Proof.
  intros [A1 A2 A3 A4 A5 A6] [B1 B2 B3 B4 B5 B6]. split; rewrite ?app_assoc; try done; [by transitivity s1|lia|congruence].
Qed.
Lemma iappend_loop_spec fuel : forall m s D p,
  mk_ok m -> agrees m s -> hasdata s D -> Forall is_u8 p -> Z.of_nat (length (D ++ p)) <= Z.of_nat (MAXFILE * BSIZE) ->
  p = [] \/ Z.of_nat (length p) + Z.of_nat (length D) mod BS <= Z.of_nat fuel * BS ->
  freeblock m + need (Z.of_nat (length (D ++ p))) - need (Z.of_nat (length D)) <= FSSIZE ->
  exists m2 s2, iappend_loop fuel (iaddrs (nd s)) (Z.of_nat (length D)) p m = Ok (m2, (iaddrs (nd s2), Z.of_nat (length (D ++ p)))) /\
    turned m s p D m2 s2.
Proof.
  pose proof BSIZE_Z as HB. induction fuel as [|fuel IH]; intros m s D p HM HA H Hp Hmax Hfu Hfr; pose proof (Z.mod_pos_bound (Z.of_nat (length D)) BS ltac:(lia)) as Hr.
  { assert (p = []) as -> by (destruct p; [done|destruct Hfu as [|Hx]; [done|cbn in Hx; lia]]).
    exists m, s. rewrite app_nil_r. split; [done|by apply turned_nil]. }
  destruct p as [|b p0]; [exists m, s; rewrite app_nil_r; split; [done|by apply turned_nil]|].
  destruct Hfu as [|Hfu]; [done|]. cbn [iappend_loop]. remember (b :: p0) as p eqn:Ep. set (n := Z.of_nat (length D)) in *.
  assert (Hpl : (0 < length p)%nat) by (subst p; cbn; lia). clear Ep b p0. rewrite length_app, Nat2Z.inj_add in Hmax.
  pose proof (Z.div_mod n BS ltac:(lia)) as Hd. assert (Hk : n / BS < IND).
  { apply Z.div_lt_upper_bound; [lia|]. rewrite Nat2Z.inj_mul in Hmax. fold n in Hmax. lia. }
  rewrite decide_True by lia. set (n1 := Z.to_nat _).
  assert (Hn1 : Z.of_nat n1 = Z.min (Z.of_nat (length p)) (BS - n mod BS)) by (unfold n1; lia). clearbody n1.
  assert (Hl1 : length (take n1 p) = n1) by (rewrite length_take; lia).
  pose proof (take_drop n1 p) as Htd. assert (Hld : length (drop n1 p) = (length p - n1)%nat) by apply length_drop.
  assert (HDp : length (D ++ p) = (length D + length p)%nat) by apply length_app.
  destruct (append_turn m s D (take n1 p)) as (m1 & a & buf & m2 & s2 & E1 & E2 & E3 & T); try done; fold n.
  { intros E. rewrite E in Hl1. cbn in Hl1. lia. }
  { rewrite Hl1. lia. }
  { by apply Forall_take. }
  { rewrite length_app, Hl1. fold n. rewrite HDp in Hfr. pose proof (need_mono (Z.of_nat (length D + n1)) (Z.of_nat (length D + length p)) ltac:(lia)). lia. }
  destruct (IH m2 s2 (D ++ take n1 p) (drop n1 p)) as (m3 & s3 & E4 & T2); try apply T.
  { by apply Forall_drop. }
  { rewrite <- app_assoc, Htd, HDp. fold n in Hmax. lia. }
  { destruct (decide (n1 = length p)) as [->|Hne]; [left; apply drop_all|]. right. rewrite length_app, Hl1, Hld, Nat2Z.inj_add. fold n.
    replace (n + Z.of_nat n1) with ((n / BS + 1) * BS) by lia. rewrite Z.mod_mul by lia. lia. }
  { rewrite (tn_block _ _ _ _ _ _ T), <- app_assoc, Htd. fold n. lia. }
  exists m3, s3. rewrite <- app_assoc, Htd in E4. split.
  - rewrite (bind_run _ _ _ _ _ E1). cbn [fst snd]. rewrite (bind_run _ _ _ _ _ E2). replace (n - n / BS * BS) with (n mod BS) by lia.
    rewrite (bind_run _ _ _ _ _ E3). rewrite length_app, Hl1, Nat2Z.inj_add in E4. exact E4.
  - rewrite <- Htd. by apply (turned_app _ _ _ _ _ m2 s2).
Qed.

(** ** A file in another state *)

(** What an inode says of its file. *)
Definition disk_part (x : inode) := (idev x, inum x, (itype x, imajor x, iminor x, inlink x), isize x, iaddrs x).
Lemma slice_within (b : list Z) (o k n m : nat) : (k + n <= m)%nat -> slice b (o + k) n = slice (slice b o m) k n.
Proof. intros H. unfold slice. rewrite skipn_firstn_comm, firstn_firstn, skipn_skipn. f_equal; [lia|f_equal; lia]. Qed.
(** Only the 64 bytes of an inode count. *)
Lemma get_dinode_bytes b b' o x : slice b o 64 = slice b' o 64 -> get_dinode b o x = get_dinode b' o x.
Proof.
  intros E. assert (H16 : forall k, (k + 2 <= 64)%nat -> get16 b (o + k) = get16 b' (o + k)) by (intros k Hk; unfold get16; by rewrite !(slice_within _ o k 2 64), E by lia).
  assert (H32 : forall k, (k + 4 <= 64)%nat -> get32 b (o + k) = get32 b' (o + k)) by (intros k Hk; unfold get32; by rewrite !(slice_within _ o k 4 64), E by lia).
  assert (Ha : get_addrs b o = get_addrs b' o).
  { unfold get_addrs. apply list_fmap_ext. intros j k [-> Hk]%lookup_seq. rewrite <- !Nat.add_assoc. apply H32. unfold NDIRECT in Hk. lia. }
  pose proof (H16 0%nat ltac:(lia)) as H0. rewrite Nat.add_0_r in H0. unfold get_dinode, get_type. by rewrite H0, !H16, H32, Ha by lia.
Qed.
Section moved.
Context (s : fs) (i : nat) (s' : fs) (i' : nat).
Hypothesis (H : file_ok s i) (Hfs : fs_ok s') (Hsb : sb s' = sb s) (Hlt : (i' < length (icache s'))%nat).
Hypothesis (Hn : disk_part (icache s' !!! i') = disk_part (icache s !!! i)).
Hypothesis (Hown : forall n, owned s i n -> blocks s' n = blocks s n /\ free s' n = false).
Lemma moved_ptr k : ptr s' i' k = ptr s i k.
Proof.
  assert (Ha : iaddrs (icache s' !!! i') = iaddrs (icache s !!! i)) by (unfold disk_part in Hn; congruence).
  unfold ptr, addr_of, ind. rewrite Ha. case_decide; [done|]. case_decide; [done|]. case_decide as Hi; [done|].
  fold (ind s i) in Hi |- *. destruct (Hown (ind s i)) as [-> _]; [|done]. apply ind_ok; [done|exact Hi].
Qed.
Lemma moved_owned n : owned s' i' n <-> owned s i n.
Proof. unfold owned. split; intros (Hz & k & Hk & E); (split; [done|]); exists k; by rewrite moved_ptr in *. Qed.
Lemma moved_file : file_ok s' i'.
Proof.
  pose proof Hn as Hn'. unfold disk_part in Hn'. injection Hn' as H1 H2 H3 H4 H5 H6 H7 H8. destruct H as [F1 F2 F3 F4 F5 F6 F7 F8 F9]. split; try done.
  - by rewrite H1.
  - by rewrite H2, Hsb.
  - by rewrite H8.
  - intros n Ho. apply moved_owned in Ho. split; [|by apply Hown]. destruct (F6 n Ho) as [Hin _]. unfold in_data in *. by rewrite Hsb.
  - intros k k'. rewrite !moved_ptr. auto.
  - by rewrite H7.
  - intros k Hk Hs. rewrite H7 in Hs. rewrite Nat2Z.inj_mul in F8. pose proof BSIZE_Z. rewrite addr_ptr, moved_ptr, <- addr_ptr by nia. auto.
Qed.
Lemma moved_byte x : 0 <= x / BS < IND -> addr_of s i (x / BS) <> 0 -> byte s' i' x = byte s i x.
Proof.
  intros Hx Ha. unfold byte. rewrite addr_ptr, moved_ptr, <- addr_ptr by lia. destruct (Hown (addr_of s i (x / BS))) as [-> _]; [|done].
  rewrite addr_ptr in * by lia. apply owned_ptr; [lia|done].
Qed.
Lemma moved_contents : contents s' i' = contents s i.
Proof.
  assert (Hz : isize (icache s' !!! i') = isize (icache s !!! i)) by (unfold disk_part in Hn; congruence).
  unfold contents. rewrite Hz. apply list_fmap_ext. intros j x Hx. apply lookup_seqZ in Hx as [-> Hj].
  destruct (byte_mapped s i (0 + Z.of_nat j) H ltac:(lia)). by apply moved_byte.
Qed.
Lemma moved_synced : dinode_bytes s' (inum (icache s !!! i)) = dinode_bytes s (inum (icache s !!! i)) -> synced s i -> synced s' i'.
Proof.
  intros Hd. pose proof Hn as Hn'. unfold disk_part in Hn'. injection Hn' as H1 H2 H3 H4 H5 H6 H7 H8. unfold synced. rewrite H2.
  intros Hs. rewrite (get_dinode_bytes _ (blocks s (IBLOCK (inum (icache s !!! i)) (sb s)))) by exact Hd.
  destruct (icache s' !!! i'), (icache s !!! i). cbn in *. unfold get_dinode in *. cbn in *. congruence.
Qed.
End moved.
Lemma part_mapped s D x : hasdata s D -> 0 <= x -> x / BS * BS < Z.of_nat (length D) -> 0 <= x / BS < IND /\ addr_of s 0 (x / BS) <> 0.
Proof.
  intros H Hx Hl. pose proof (hd_max _ _ H) as Hm. rewrite Nat2Z.inj_mul in Hm. pose proof BSIZE_Z as HB. assert (Hr : 0 <= x / BS < IND).
  { split; [apply Z.div_pos; lia|]. apply (Z.mul_lt_mono_pos_r BS); lia. }
  split; [exact Hr|]. apply (hd_map _ _ H); assumption.
Qed.
Lemma part_below x n : 0 <= x < n -> x / BS * BS < n.
Proof. intros H. pose proof BSIZE_Z as HB. pose proof (Z.mul_div_le x BS ltac:(lia)). lia. Qed.
Lemma hasdata_same s s' D :
  hasdata s D -> file_ok s' 0 -> (forall k, ptr s' 0 k = ptr s 0 k) ->
  (forall x, 0 <= x / BS < IND -> addr_of s 0 (x / BS) <> 0 -> byte s' 0 x = byte s 0 x) -> hasdata s' D.
Proof.
  intros H HF Hp Hb. assert (Hy : forall x, 0 <= x -> x / BS * BS < Z.of_nat (length D) -> byte s' 0 x = byte s 0 x).
  { intros x Hx Hl. destruct (part_mapped s D x H Hx Hl). apply Hb; assumption. }
  split; [exact HF|exact (hd_max _ _ H)|..].
  - intros x Hr. rewrite <- (hd_byte _ _ H) by exact Hr. apply Hy; [apply Hr|apply part_below; exact Hr].
  - intros x Hr Hl. rewrite <- (hd_tail _ _ H x Hr Hl). apply Hy; [lia|exact Hl].
  - intros k Hk. rewrite addr_ptr, Hp, <- addr_ptr by lia. apply (hd_map _ _ H k Hk).
  - rewrite ind_ptr, Hp, <- ind_ptr. apply (hd_ind _ _ H).
Qed.
Lemma hasdata_moved s s' D :
  hasdata s D -> fs_ok s' -> sb s' = sb s -> (0 < length (icache s'))%nat -> disk_part (nd s') = disk_part (nd s) ->
  (forall n, owned s 0 n -> blocks s' n = blocks s n /\ free s' n = false) -> hasdata s' D.
Proof.
  intros H Hok Hsb Hlt Hn Ho. pose proof (hd_file _ _ H) as HF.
  apply (hasdata_same s); [done|by apply (moved_file s 0 s' 0)|by apply (moved_ptr s 0 s' 0)|by apply (moved_byte s 0 s' 0)].
Qed.

(** ** The image as a file system *)

(** The kernel's view of the image with one inode in memory. *)
Definition view m (x : inode) : fs := mkfs (kblocks m) [] [x] superblock_.
Lemma view_agrees m x : agrees m (view m x).
Proof. done. Qed.
(** Inode [j] of the image is [x] and its file has the data [D]. *)
Record stored m (j ty : Z) (D : list Z) (x : inode) : Prop := {
  sd_data : hasdata (view m x) D;
  sd_synced : synced (view m x) 0;
  sd_inum : inum x = j;
  sd_size : isize x = Z.of_nat (length D);
  sd_type : itype x = ty;
  sd_nlink : inlink x = 1;
}.
Definition dbytes m (j : Z) : list Z := slice (sectors m (IBLOCK j superblock_)) (dinode_at j) 64.
Lemma IBLOCK_range j : 0 <= j < NINODES -> 32 <= IBLOCK j superblock_ < BMAP.
Proof.
  intros Hj. unfold IBLOCK. rewrite sb_val. cbn. unfold BMAP, NINODES, IPB in *. pose proof (Z.div_pos j 8).
  assert (j / 8 < 25) by (apply Z.div_lt_upper_bound; lia). lia.
Qed.
Lemma dbytes_view m x j : 0 <= j < NINODES -> dinode_bytes (view m x) j = dbytes m j.
Proof. intros Hj%IBLOCK_range. unfold dinode_bytes, dbytes. cbn [blocks view sb]. unfold kblocks. by rewrite decide_False by lia. Qed.
Lemma stored_range m j ty D x : stored m j ty D x -> 0 <= j < NINODES.
Proof.
  intros H. pose proof (fi_inum _ _ (hd_file _ _ (sd_data _ _ _ _ _ H))) as Hi. change (0 <= inum x < sb_ninodes superblock_) in Hi. rewrite sb_val in Hi.
  rewrite (sd_inum _ _ _ _ _ H) in Hi. exact Hi.
Qed.
(** A change elsewhere. *)
Lemma stored_frame m m' j ty D x :
  stored m j ty D x -> mk_ok m -> mk_ok m' -> freeblock m <= freeblock m' -> dbytes m' j = dbytes m j ->
  (forall n, owned (view m x) 0 n -> sectors m' n = sectors m n) ->
  stored m' j ty D x /\ forall n, owned (view m' x) 0 n <-> owned (view m x) 0 n.
Proof.
  intros H HM HM' Hle Hd Ho. pose proof (stored_range _ _ _ _ _ H) as Hj. destruct H as [H1 H2 H3 H4 H5 H6]. pose proof (hd_file _ _ H1) as HF.
  assert (Ho' : forall n, owned (view m x) 0 n -> blocks (view m' x) n = blocks (view m x) n /\ free (view m' x) n = false).
  { intros n Hn. pose proof (owned_used m _ n HM (view_agrees m x) HF Hn) as Hr. pose proof (mo_range _ HM) as Hr'. pose proof (mo_range _ HM') as Hr2. rewrite nmeta_val in *. split.
    - cbn [blocks view]. unfold kblocks. rewrite !decide_False by (unfold BMAP; lia). auto.
    - rewrite (agrees_free m' _ HM' (view_agrees m' x)) by lia. apply bool_decide_eq_false. lia. }
  pose proof (agrees_ok m' _ HM' (view_agrees m' x)) as Hok. assert (Hlt : (0 < length (icache (view m' x)))%nat) by (cbn; lia). split.
  - split; try done; [by apply (hasdata_moved (view m x))|]. apply (moved_synced (view m x) 0 (view m' x) 0); try done.
    change (inum (icache (view m x) !!! 0%nat)) with (inum x). by rewrite H3, !dbytes_view.
  - by apply (moved_owned (view m x) 0 (view m' x) 0).
Qed.
Lemma as_view m s D :
  mk_ok m -> agrees m s -> hasdata s D -> synced s 0 ->
  hasdata (view m (nd s)) D /\ synced (view m (nd s)) 0 /\ (forall n, owned (view m (nd s)) 0 n <-> owned s 0 n).
Proof.
  intros HM HA H Hs. pose proof (hd_file _ _ H) as HF. assert (Hb : forall n, blocks (view m (nd s)) n = blocks s n) by (intros n; symmetry; apply HA).
  pose proof (agrees_ok m _ HM (view_agrees m (nd s))) as Hok. assert (Hsb : sb (view m (nd s)) = sb s) by (symmetry; apply HA).
  assert (Hlt : (0 < length (icache (view m (nd s))))%nat) by (cbn; lia).
  assert (Ho : forall n, owned s 0 n -> blocks (view m (nd s)) n = blocks s n /\ free (view m (nd s)) n = false).
  { intros n Hn. split; [done|]. unfold free. rewrite Hb, Hsb. by apply (fi_own _ _ HF). }
  split; [by apply (hasdata_moved s)|]. split; [|by apply (moved_owned s 0 (view m (nd s)) 0)].
  apply (moved_synced s 0 (view m (nd s)) 0); try done. unfold dinode_bytes. by rewrite Hsb, Hb.
Qed.
(** Writing back an inode. *)
Lemma winode_flush m s ip :
  mk_ok m -> agrees m s -> file_ok s 0 -> inode_range (nd s) ->
  (itype ip, imajor ip, iminor ip, inlink ip, isize ip, iaddrs ip) =
    (itype (nd s), imajor (nd s), iminor (nd s), inlink (nd s), isize (nd s), iaddrs (nd s)) ->
  exists m', winode (inum (nd s)) ip m = Ok (m', tt) /\ mk_ok m' /\ agrees m' (flush 0 s) /\
    freeblock m' = freeblock m /\ freeinode m' = freeinode m.
Proof.
  intros HM HA HF R E. pose proof (fi_inum _ _ HF) as Hj. rewrite (ag_sb _ _ HA) in Hj. change (sb_ninodes superblock_) with NINODES in Hj.
  pose proof (IBLOCK_range _ Hj) as Hr. pose proof (mo_range _ HM) as Hm. rewrite nmeta_val in Hm. change BMAP with 58 in Hr. set (j := inum (nd s)) in *.
  assert (Ep : put_dinode (blocks s (IBLOCK j superblock_)) (dinode_at j) ip = put_dinode (blocks s (IBLOCK j superblock_)) (dinode_at j) (nd s)) by (unfold put_dinode; congruence).
  pose proof (agrees_ok m s HM HA) as Hok. pose proof (dinode_at_lt j) as Hat. pose proof (enc_dinode_length _ (ir_len _ R)) as He.
  destruct (agrees_write m s HM HA (IBLOCK j superblock_) (put_dinode (blocks s (IBLOCK j superblock_)) (dinode_at j) ip)) as (m' & E1 & H1 & H2 & H3 & H4 & _).
  { rewrite Ep, put_dinode_splice, splice_length; rewrite (fk_len _ Hok); lia. }
  { rewrite Ep, put_dinode_splice by (rewrite (fk_len _ Hok); lia). apply splice_bytes; [apply Hok|apply enc_dinode_bytes]. }
  { lia. }
  { change BMAP with 58. lia. }
  exists m'. split; [|split; [done|split; [|done]]].
  - unfold winode. cbv zeta. rewrite (bind_run _ _ m m (blocks s (IBLOCK j superblock_))); [exact E1|].
    apply (agrees_read m s HM HA); [unfold FSSIZE; lia|change BMAP with 58; lia].
  - unfold flush. change (inum (icache s !!! 0%nat)) with j. rewrite (ag_sb _ _ HA), <- Ep. exact H2.
Qed.
(** What an append to the file of inode [j] leaves alone. *)
Record changed m x m' x' (j : Z) : Prop := {
  ch_low : forall n, n < BMAP -> n <> IBLOCK j superblock_ -> sectors m' n = sectors m n;
  ch_dinode : forall i, 0 <= i < NINODES -> i <> j -> dbytes m' i = dbytes m i;
  ch_blk : forall n, nmeta <= n < freeblock m -> ~ owned (view m x) 0 n -> sectors m' n = sectors m n;
  ch_own : forall n, owned (view m' x') 0 n -> owned (view m x) 0 n \/ freeblock m <= n;
}.
Lemma iappend_changed m x m2 s2 m3 s3 :
  mk_ok m -> mk_ok m2 -> mk_ok m3 -> file_ok (view m x) 0 -> extends 0 (view m x) s2 -> agrees m2 s2 ->
  file_ok s3 0 -> inode_range (nd s3) -> sb s3 = sb s2 -> (forall n, blocks s3 n = blocks s2 n) -> (forall k, ptr s3 0 k = ptr s2 0 k) ->
  inum (nd s3) = inum x ->
  agrees m3 (flush 0 s3) -> (forall n, owned (view m3 (nd s3)) 0 n <-> owned (flush 0 s3) 0 n) ->
  changed m x m3 (nd s3) (inum x).
Proof.
  intros HM HM2 HM3 HF X HA2 HF3 R Hsb Hb Hp Hj HA3 Hov. destruct (flush_ok _ _ HF3 R) as (_ & _ & Fp & Fb & _ & Fd).
  pose proof (ag_sb _ _ HA2) as Hsb2. assert (Hm3 : forall n, n <> BMAP -> sectors m3 n = blocks (flush 0 s3) n).
  { intros n Hn. rewrite (ag_blk _ _ HA3). unfold kblocks. by rewrite decide_False. }
  assert (Hm : forall n, n <> BMAP -> blocks (view m x) n = sectors m n) by (intros n Hn; cbn; unfold kblocks; by rewrite decide_False).
  assert (Hlow : forall n, n < BMAP -> blocks s2 n = sectors m n) by (intros n Hn; rewrite <- Hm by lia; apply (ex_low _ _ _ X); cbn; rewrite bmap_val; exact Hn).
  split.
  - intros n Hn Hne. rewrite Hm3, <- Hlow by lia. unfold flush, logs. cbn. rewrite fn_insert_cases, decide_False; [by apply Hb|]. rewrite Hj, Hsb, Hsb2. congruence.
  - intros i Hi Hne. pose proof (IBLOCK_range _ Hi) as Hr. pose proof (Fd i ltac:(lia) ltac:(by rewrite Hj)) as E. unfold dinode_bytes in E. unfold dbytes.
    rewrite Hm3, <- Hlow by lia. change (sb (flush 0 s3)) with (sb s3) in E. rewrite Hsb, Hsb2, Hb in E. exact E.
  - intros n Hn Hno. rewrite nmeta_val in Hn. rewrite Hm3 by (unfold BMAP; lia). pose proof (mo_range _ HM) as Hr.
    rewrite Fb by (unfold in_data; rewrite Hsb, Hsb2; change (data_start superblock_) with 59; change (sb_size superblock_) with FSSIZE; lia).
    rewrite Hb, <- Hm by (unfold BMAP; lia). apply (ex_blk _ _ _ X); [|rewrite (agrees_free m _ HM (view_agrees m x)) by lia; apply bool_decide_eq_false; lia|done].
    unfold in_data. cbn [sb view]. change (data_start superblock_) with 59. change (sb_size superblock_) with FSSIZE. lia.
  - intros n Hn. apply Hov in Hn. destruct (ex_own _ _ _ X n) as [Ho|[Hr Hf]]; [|by left|right].
    + destruct Hn as (Hz & k & Hk & E). split; [done|]. exists k. by rewrite <- Hp, <- Fp.
    + rewrite (agrees_free m _ HM (view_agrees m x)) in Hf by exact Hr. by apply bool_decide_eq_true in Hf.
Qed.
Definition grown x s2 (z : Z) : inode := x <| iaddrs := iaddrs (nd s2) |> <| isize := z |>.
Lemma store_back m x m2 s2 D z ip :
  mk_ok m -> file_ok (view m x) 0 -> synced (view m x) 0 -> mk_ok m2 -> agrees m2 s2 -> extends 0 (view m x) s2 -> hasdata s2 D ->
  0 <= z <= Z.of_nat (MAXFILE * BSIZE) -> (forall k, 0 <= k -> k * BS < z -> addr_of s2 0 k <> 0) ->
  (itype ip, imajor ip, iminor ip, inlink ip, isize ip, iaddrs ip) = (itype x, imajor x, iminor x, inlink x, z, iaddrs (nd s2)) ->
  exists m3, winode (inum x) ip m2 = Ok (m3, tt) /\ mk_ok m3 /\ freeblock m3 = freeblock m2 /\ freeinode m3 = freeinode m2 /\
    hasdata (view m3 (grown x s2 z)) D /\ synced (view m3 (grown x s2 z)) 0 /\ changed m x m3 (grown x s2 z) (inum x).
Proof.
  intros HM HF Hs HM2 HA2 X H Hz Hfull Eip. pose proof (hd_file _ _ H) as HF2. pose proof (fi_lt _ _ HF2) as Hlt.
  set (s3 := resized 0 z s2). pose proof (resized_ok s2 0 z HF2 Hz Hfull) as HF3.
  assert (En : nd s3 = grown x s2 z).
  { unfold s3. rewrite resized_node by done. destruct (ex_node _ _ _ X) as [a Ha]. rewrite Ha. unfold grown. rewrite Ha. by destruct x. }
  assert (R : inode_range (nd s3)) by (apply (synced_range (view m x) s3 0 (iaddrs (nd s2)) z); [done|rewrite En; done|done]).
  assert (HA3 : agrees m2 s3) by (destruct HA2 as [A1 A2 A3]; split; [done|unfold s3; cbn; by rewrite length_alter|done]).
  destruct (winode_flush m2 s3 ip HM2 HA3 HF3 R) as (m3 & E3 & HM3 & HAf & Hfb & Hfi); [rewrite En; exact Eip|].
  destruct (flush_ok _ _ HF3 R) as (HFf & Hsf & Fp & _).
  assert (Hd : hasdata (flush 0 s3) D).
  { apply (hasdata_same s2); [done|done|intros k; unfold s3; by rewrite Fp, resized_ptr|]. intros y Hy Ha. by apply grown_byte. }
  destruct (as_view m3 (flush 0 s3) D HM3 HAf Hd Hsf) as (V1 & V2 & V3). change (icache (flush 0 s3) !!! 0%nat) with (nd s3) in *.
  rewrite En in E3. exists m3. split; [exact E3|]. rewrite En in V1, V2. do 5 (split; [done|]). rewrite <- En.
  apply (iappend_changed m x m2 s2 m3 s3); try done. { intros k. by apply resized_ptr. } by rewrite En.
Qed.
Lemma rinode_view m x j ty D :
  mk_ok m -> stored m j ty D x -> exists din, rinode j m = Ok (m, din) /\
    (itype din, imajor din, iminor din, inlink din, isize din, iaddrs din) = (itype x, imajor x, iminor x, inlink x, isize x, iaddrs x).
Proof.
  intros HM H. pose proof (stored_range _ _ _ _ _ H) as Hj%IBLOCK_range. pose proof (sd_synced _ _ _ _ _ H) as Hs.
  unfold synced in Hs. change (icache (view m x) !!! 0%nat) with x in Hs. rewrite (sd_inum _ _ _ _ _ H) in Hs. cbn [sb view] in Hs.
  eexists. split.
  - unfold rinode. cbv zeta. rewrite (bind_run _ _ m m (blocks (view m x) (IBLOCK j superblock_))); [reflexivity|].
    apply (agrees_read m _ HM (view_agrees m x)); [change BMAP with 58 in Hj; unfold FSSIZE|]; lia.
  - rewrite <- Hs. done.
Qed.
(** A file after an append: its data is longer, and the rest is as it was. *)
Lemma iappend_spec m j ty D x p :
  mk_ok m -> stored m j ty D x -> Forall is_u8 p -> Z.of_nat (length (D ++ p)) <= Z.of_nat (MAXFILE * BSIZE) ->
  freeblock m + need (Z.of_nat (length (D ++ p))) - need (Z.of_nat (length D)) <= FSSIZE ->
  exists m' x', iappend j p m = Ok (m', tt) /\ mk_ok m' /\ stored m' j ty (D ++ p) x' /\ changed m x m' x' j /\
    freeblock m' = freeblock m + need (Z.of_nat (length (D ++ p))) - need (Z.of_nat (length D)) /\ freeinode m' = freeinode m.
Proof.
  intros HM H Hp Hmax Hfr. destruct (rinode_view m x j ty D HM H) as (din & Er & Ed). destruct H as [H1 H2 H3 H4 H5 H6].
  assert (H32 : forall z, 0 <= z <= Z.of_nat (MAXFILE * BSIZE) -> xint z = z).
  { intros z Hz. apply xint_small. rewrite Nat2Z.inj_mul, MAXFILE_Z, BSIZE_Z in Hz. unfold is_u32. lia. }
  destruct (iappend_loop_spec (turns (Z.of_nat (length p))) m (view m x) D p) as (m2 & s2 & El & T); try done.
  { right. apply turns_enough; lia. }
  injection Ed as D1 D2 D3 D4 D5 D6. assert (Hn : 0 <= Z.of_nat (length D) <= Z.of_nat (MAXFILE * BSIZE)) by (rewrite length_app in Hmax; lia).
  destruct (store_back m x m2 s2 (D ++ p) (Z.of_nat (length (D ++ p))) (din <| iaddrs := iaddrs (nd s2) |> <| isize := xint (Z.of_nat (length (D ++ p))) |>))
    as (m3 & E3 & HM3 & B1 & B2 & V1 & V2 & V3); try done; try apply T; [apply H1|lia|..].
  { intros k Hk Hlt. apply (hd_map _ _ (tn_data _ _ _ _ _ _ T)); [|done]. pose proof BSIZE_Z. rewrite Nat2Z.inj_mul in Hmax. nia. }
  { rewrite H32 by lia. cbn. congruence. }
  exists m3, (grown x s2 (Z.of_nat (length (D ++ p)))). rewrite H3 in *. split; [|split; [done|split; [by split|split; [done|split]]]].
  - unfold iappend. rewrite (bind_run _ _ _ _ _ Er). cbv zeta. rewrite D5, H4, H32, D6 by lia. rewrite (bind_run _ _ _ _ _ El). exact E3.
  - rewrite B1. exact (tn_block _ _ _ _ _ _ T).
  - rewrite B2. exact (tn_inode _ _ _ _ _ _ T).
Qed.

(** ** All files of the image *)

Record item := mkitem { it_type : Z; it_data : list Z; it_node : inode }.
Definition it_need (t : item) : Z := need (Z.of_nat (length (it_data t))).
Definition total (L : list Z) : Z := foldr Z.add 0 L.
Lemma total_app l1 l2 : total (l1 ++ l2) = total l1 + total l2.
Proof. induction l1 as [|a l1 IH]; cbn; [done|]. unfold total in *. lia. Qed.
Lemma total_insert l (k : nat) a b : l !! k = Some a -> total (<[k := b]> l) = total l - a + b.
Proof.
  revert k. induction l as [|c l IH]; intros [|k] H; try done.
  - injection H as ->. cbn. lia.
  - change (c + total (<[k := b]> l) = c + total l - a + b). rewrite IH by exact H. lia.
Qed.
(** The image [m] has the files [L], inodes 1, 2, ... in order. *)
Record image m (L : list item) : Prop := {
  im_ok : mk_ok m;
  im_next : freeinode m = 1 + Z.of_nat (length L);
  im_file : forall k t, L !! k = Some t -> stored m (1 + Z.of_nat k) (it_type t) (it_data t) (it_node t);
  im_disj : forall k k' t t' n, L !! k = Some t -> L !! k' = Some t' -> owned (view m (it_node t)) 0 n -> owned (view m (it_node t')) 0 n -> k = k';
  im_zero : forall j, freeinode m <= j < NINODES -> dbytes m j = replicate 64 0;
  im_super : sectors m 1 = splice zeroes 0 (sb_bytes superblock_);
  im_log : forall n, 2 <= n < 32 -> sectors m n = zeroes;
  im_used : freeblock m = nmeta + total (it_need <$> L);
}.
Lemma image_update m L k t m' D' x' :
  image m L -> L !! k = Some t -> mk_ok m' -> stored m' (1 + Z.of_nat k) (it_type t) D' x' ->
  changed m (it_node t) m' x' (1 + Z.of_nat k) -> freeblock m <= freeblock m' ->
  freeblock m' = freeblock m + need (Z.of_nat (length D')) - it_need t -> freeinode m' = freeinode m ->
  image m' (<[k := mkitem (it_type t) D' x']> L).
Proof.
  intros [I1 I2 I3 I4 I5 I6 I7 I8] Ht HM' S C Hle Hfb Hfi. pose proof (stored_range _ _ _ _ _ (I3 k t Ht)) as Hk.
  assert (Fr : forall k' t', k' <> k -> L !! k' = Some t' ->
    stored m' (1 + Z.of_nat k') (it_type t') (it_data t') (it_node t') /\ (forall n, owned (view m' (it_node t')) 0 n <-> owned (view m (it_node t')) 0 n)).
  { intros k' t' Hne Ht'. pose proof (I3 k' t' Ht') as S'. pose proof (stored_range _ _ _ _ _ S') as Hk'. apply stored_frame; try done.
    - apply (ch_dinode _ _ _ _ _ C); lia.
    - intros n Hn. apply (ch_blk _ _ _ _ _ C); [by apply (owned_used m (view m (it_node t'))); [|apply view_agrees|apply S'|]|].
      intros Ho. by apply Hne, (I4 k' k t' t n). }
  assert (Dj : forall k' t' n, k' <> k -> L !! k' = Some t' -> owned (view m' (it_node t')) 0 n -> owned (view m' x') 0 n -> False).
  { intros k' t' n Hne Ht' Ho Ho'. destruct (Fr k' t' Hne Ht') as [_ Hw]. apply Hw in Ho. destruct (ch_own _ _ _ _ _ C n Ho') as [Hx|Hx].
    - by apply Hne, (I4 k' k t' t n).
    - assert (nmeta <= n < freeblock m); [|lia]. apply (owned_used m (view m (it_node t'))); [done|apply view_agrees|apply (I3 k' t' Ht')|done]. }
  assert (Low : forall n, n < 32 -> sectors m' n = sectors m n).
  { intros n Hn. pose proof (IBLOCK_range _ Hk) as Hr. apply (ch_low _ _ _ _ _ C); lia. }
  split; try done.
  - rewrite length_insert. lia.
  - intros k' t' Hk'. apply list_lookup_insert_Some in Hk' as [(-> & <- & _)|[Hne Ht']]; [done|]. by apply Fr.
  - intros k1 k2 t1 t2 n H1 H2 O1 O2. apply list_lookup_insert_Some in H1 as [(-> & <- & _)|[Hne1 H1]], H2 as [(-> & <- & _)|[Hne2 H2]]; cbn [it_node] in *.
    + done.
    + exfalso. by apply (Dj k2 t2 n).
    + exfalso. by apply (Dj k1 t1 n).
    + apply (I4 k1 k2 t1 t2 n); try done; [by apply (Fr k1 t1)|by apply (Fr k2 t2)].
  - intros j Hj. rewrite (ch_dinode _ _ _ _ _ C) by (pose proof (lookup_lt_Some _ _ _ Ht); lia). apply I5. lia.
  - rewrite Low by lia. done.
  - intros n Hn. rewrite Low by lia. auto.
  - rewrite list_fmap_insert, (total_insert _ k (it_need t)) by (by rewrite list_lookup_fmap, Ht). change (it_need (mkitem _ D' _)) with (need (Z.of_nat (length D'))). lia.
Qed.
(** The image has the files [F], each a type and its bytes. *)
Definition it_file (t : item) : Z * list Z := (it_type t, it_data t).
Definition holds m (F : list (Z * list Z)) : Prop := exists L, image m L /\ it_file <$> L = F.
Definition used (F : list (Z * list Z)) : Z := nmeta + total ((fun f => need (Z.of_nat (length f.2))) <$> F).
Lemma used_insert F (k : nat) ty D D' :
  F !! k = Some (ty, D) -> used (<[k := (ty, D')]> F) = used F + need (Z.of_nat (length D')) - need (Z.of_nat (length D)).
Proof.
  intros H. unfold used. rewrite list_fmap_insert, (total_insert _ k (need (Z.of_nat (length D)))) by (by rewrite list_lookup_fmap, H). cbn. lia.
Qed.
Lemma holds_used m F : holds m F -> freeblock m = used F /\ mk_ok m /\ freeinode m = 1 + Z.of_nat (length F).
Proof.
  intros (L & H & <-). split; [|split; [apply H|rewrite length_fmap; apply H]]. rewrite (im_used _ _ H). unfold used. by rewrite <- list_fmap_compose.
Qed.
Lemma holds_item m F (k : nat) f :
  holds m F -> F !! k = Some f -> exists L t, image m L /\ it_file <$> L = F /\ L !! k = Some t /\ it_type t = f.1 /\ it_data t = f.2.
Proof.
  intros (L & H & E) Hk. rewrite <- E, list_lookup_fmap in Hk. apply fmap_Some in Hk as (t & Ht & ->). by exists L, t.
Qed.
Lemma holds_update m L F k t m' D' x' :
  image m L -> it_file <$> L = F -> L !! k = Some t -> image m' (<[k := mkitem (it_type t) D' x']> L) -> holds m' (<[k := (it_type t, D')]> F).
Proof. intros _ <- _ H. eexists. split; [exact H|]. by rewrite list_fmap_insert. Qed.
Lemma iappend_holds m F (k : nat) ty D p :
  holds m F -> F !! k = Some (ty, D) -> Forall is_u8 p -> Z.of_nat (length (D ++ p)) <= Z.of_nat (MAXFILE * BSIZE) ->
  used (<[k := (ty, D ++ p)]> F) <= FSSIZE ->
  exists m', iappend (1 + Z.of_nat k) p m = Ok (m', tt) /\ holds m' (<[k := (ty, D ++ p)]> F).
Proof.
  intros H Hk Hp Hmax Hu. destruct (holds_used m F H) as (Hfb & HM & _). rewrite (used_insert F k ty D) in Hu by done.
  destruct (holds_item m F k _ H Hk) as (L & t & I & E & Ht & H1 & H2). cbn in H1, H2. subst ty D.
  destruct (iappend_spec m _ _ _ _ p HM (im_file _ _ I k t Ht) Hp Hmax ltac:(lia)) as (m' & x' & E1 & HM' & S & C & B1 & B2).
  exists m'. split; [exact E1|]. apply (holds_update m L F k t m' _ x'); try done. apply (image_update m); try done.
  pose proof (need_mono (Z.of_nat (length (it_data t))) (Z.of_nat (length (it_data t ++ p)))). rewrite length_app in *. lia.
Qed.
Lemma iappends_holds (k : nat) ty : forall l m F D,
  holds m F -> F !! k = Some (ty, D) -> Forall (Forall is_u8) l -> Z.of_nat (length (D ++ mjoin l)) <= Z.of_nat (MAXFILE * BSIZE) ->
  used (<[k := (ty, D ++ mjoin l)]> F) <= FSSIZE ->
  exists m', mfor l (iappend (1 + Z.of_nat k)) m = Ok (m', tt) /\ holds m' (<[k := (ty, D ++ mjoin l)]> F).
Proof.
  induction l as [|p l IH]; intros m F D H Hk Hl Hmax Hu.
  - change (mjoin []) with (@nil Z). exists m. rewrite app_nil_r. split; [done|]. by rewrite list_insert_id.
  - apply Forall_cons in Hl as [Hp Hl]. rewrite (used_insert F k ty D) in Hu by done. change (mjoin (p :: l)) with (p ++ mjoin l) in *. rewrite app_assoc in *. 
    destruct (iappend_holds m F k ty D p H Hk Hp) as (m1 & E1 & H1); [rewrite length_app in Hmax; lia| |].
    { rewrite (used_insert F k ty D) by done. rewrite (length_app (D ++ p)) in Hu.
      pose proof (need_mono (Z.of_nat (length (D ++ p))) (Z.of_nat (length (D ++ p) + length (mjoin l))) ltac:(lia)). lia. }
    assert (Hk1 : <[k := (ty, D ++ p)]> F !! k = Some (ty, D ++ p)) by (apply list_lookup_insert_eq, lookup_lt_is_Some_1; by eexists).
    destruct (IH m1 _ (D ++ p) H1 Hk1 Hl Hmax) as (m2 & E2 & H2).
    { rewrite (used_insert _ k ty (D ++ p)), (used_insert F k ty D) by done. lia. }
    exists m2. rewrite list_insert_insert_eq in H2. split; [|done]. cbn [mfor]. by rewrite (bind_run _ _ _ _ _ E1).
Qed.
(** A new inode and its empty file. *)
Definition new_node (j ty : Z) : inode := mkinode ROOTDEV j 1 initsleeplock true ty 0 0 1 0 (replicate (S NDIRECT) 0).
Lemma new_ptr m j ty k : 0 <= k <= IND -> ptr (view m (new_node j ty)) 0 k = 0.
Proof.
  intros Hk. assert (Hz : forall i, (i <= NDIRECT)%nat -> replicate (S NDIRECT) 0 !!! i = 0) by (intros i Hi; apply lookup_total_replicate_2; lia).
  unfold ptr, addr_of, ind. change (iaddrs (icache (view m (new_node j ty)) !!! 0%nat)) with (replicate (S NDIRECT) 0). rewrite (Hz NDIRECT) by lia.
  repeat case_decide; try done. apply Hz. lia.
Qed.
Lemma new_file m j ty : mk_ok m -> 0 <= j < NINODES -> hasdata (view m (new_node j ty)) [].
Proof.
  intros HM Hj. pose proof BSIZE_Z. assert (Hno : forall n, ~ owned (view m (new_node j ty)) 0 n).
  { intros n (Hn & k & Hk & E). by rewrite new_ptr in E. }
  assert (Ha : forall k, 0 <= k < IND -> addr_of (view m (new_node j ty)) 0 k = 0) by (intros k Hk; rewrite addr_ptr by lia; apply new_ptr; lia).
  split.
  - split; [apply (agrees_ok m _ HM), view_agrees|cbn; lia|done|exact Hj|done|..].
    + intros n Ho. by apply Hno in Ho.
    + intros k k' Hk _ Hz. by rewrite new_ptr in Hz.
    + change (isize _) with 0. lia.
    + intros k Hk Hl. change (isize _) with 0 in Hl. lia.
  - change (length []) with 0%nat. lia.
  - intros x Hx. change (length []) with 0%nat in Hx. lia.
  - intros x Hx Hl. change (length []) with 0%nat in *. pose proof (Z.div_pos x BS Hx). lia.
  - intros k Hk. rewrite Ha by done. change (length []) with 0%nat. lia.
  - rewrite ind_ptr, new_ptr by lia. change (length []) with 0%nat. change (Z.of_nat NDIRECT) with 12. lia.
Qed.
Lemma new_stored m j ty :
  mk_ok m -> 0 <= j < NINODES -> 0 <= ty < 2 ^ 15 ->
  exists m', winode j (inode_zero <| itype := xshort ty |> <| inlink := xshort 1 |> <| isize := xint 0 |>) m = Ok (m', tt) /\ mk_ok m' /\
    stored m' j ty [] (new_node j ty) /\ changed m (new_node j ty) m' (new_node j ty) j /\ freeblock m' = freeblock m /\ freeinode m' = freeinode m.
Proof.
  intros HM Hj Hty. set (x := new_node j ty). pose proof (new_file m j ty HM Hj) as H. fold x in H. pose proof (hd_file _ _ H) as HF.
  assert (R : inode_range x).
  { split; try (cbn; unfold is_s16, is_u32; lia); [done|]. apply Forall_replicate. unfold is_u32. lia. }
  destruct (winode_flush m (view m x) (inode_zero <| itype := xshort ty |> <| inlink := xshort 1 |> <| isize := xint 0 |>) HM (view_agrees m x) HF R)
    as (m' & E & HM' & HA' & Hfb & Hfi).
  { assert (Et : xshort ty = ty) by (rewrite xshort_u16; unfold u16; apply Z.mod_small; lia). rewrite Et. done. }
  destruct (flush_ok _ _ HF R) as (HFf & Hsf & Fp & Fb & _).
  assert (Hd : hasdata (flush 0 (view m x)) []).
  { apply (hasdata_same (view m x)); try done. intros y Hy Ha. rewrite addr_ptr in Ha by lia. unfold x in Ha. by rewrite new_ptr in Ha by lia. }
  destruct (as_view m' _ [] HM' HA' Hd Hsf) as (V1 & V2 & V3). change (icache (flush 0 (view m x)) !!! 0%nat) with x in *.
  exists m'. split; [exact E|]. split; [done|]. split; [by split|]. split; [|done].
  by apply (iappend_changed m x m (view m x) m' (view m x)).
Qed.
Lemma image_add m L m' ty x' :
  image m L -> 1 + Z.of_nat (length L) < NINODES -> mk_ok m' -> stored m' (1 + Z.of_nat (length L)) ty [] x' ->
  changed m x' m' x' (1 + Z.of_nat (length L)) -> (forall n, ~ owned (view m x') 0 n) -> freeblock m' = freeblock m ->
  freeinode m' = freeinode m + 1 -> image m' (L ++ [mkitem ty [] x']).
Proof.
  intros [I1 I2 I3 I4 I5 I6 I7 I8] Hj HM' S C Hno Hfb Hfi. set (j := 1 + Z.of_nat (length L)) in *. pose proof (stored_range _ _ _ _ _ S) as Hr.
  assert (Fr : forall k t, L !! k = Some t ->
    stored m' (1 + Z.of_nat k) (it_type t) (it_data t) (it_node t) /\ (forall n, owned (view m' (it_node t)) 0 n <-> owned (view m (it_node t)) 0 n)).
  { intros k t Ht. pose proof (I3 k t Ht) as S'. pose proof (stored_range _ _ _ _ _ S') as Hk. pose proof (lookup_lt_Some _ _ _ Ht). apply stored_frame; try done; [lia|..].
    - apply (ch_dinode _ _ _ _ _ C); lia.
    - intros n Hn. apply (ch_blk _ _ _ _ _ C); [|apply Hno]. by apply (owned_used m (view m (it_node t))); [|apply view_agrees|apply S'|]. }
  assert (Dj : forall k t n, L !! k = Some t -> owned (view m' (it_node t)) 0 n -> owned (view m' x') 0 n -> False).
  { intros k t n Ht Ho Ho'. apply (Fr k t Ht) in Ho. destruct (ch_own _ _ _ _ _ C n Ho') as [Hx|Hx]; [by apply Hno in Hx|].
    assert (nmeta <= n < freeblock m); [|lia]. apply (owned_used m (view m (it_node t))); [done|apply view_agrees|apply (I3 k t Ht)|done]. }
  assert (Low : forall n, n < 32 -> sectors m' n = sectors m n).
  { intros n Hn. pose proof (IBLOCK_range _ Hr). apply (ch_low _ _ _ _ _ C); lia. }
  assert (Cs : forall k t, (L ++ [mkitem ty [] x']) !! k = Some t -> L !! k = Some t \/ k = length L /\ t = mkitem ty [] x').
  { intros k t [Hk|[Hk Ht]]%lookup_app_Some; [by left|right]. apply list_lookup_singleton_Some in Ht as [Hz <-]. split; [lia|done]. }
  split; try done.
  - rewrite length_app. cbn. lia.
  - intros k t [Hk|[-> ->]]%Cs; [by apply Fr|done].
  - intros k1 k2 t1 t2 n [H1|[-> ->]]%Cs [H2|[-> ->]]%Cs O1 O2; cbn [it_node] in *.
    + apply (I4 k1 k2 t1 t2 n); try done; [by apply (Fr k1 t1)|by apply (Fr k2 t2)].
    + exfalso. by apply (Dj k1 t1 n).
    + exfalso. by apply (Dj k2 t2 n).
    + done.
  - intros i Hi. rewrite (ch_dinode _ _ _ _ _ C) by lia. apply I5. lia.
  - rewrite Low by lia. done.
  - intros n Hn. rewrite Low by lia. auto.
  - rewrite Hfb, I8, fmap_app, total_app. change (total (it_need <$> [mkitem ty [] x'])) with 0. lia.
Qed.
Lemma ialloc_holds m F ty :
  holds m F -> 1 + Z.of_nat (length F) < NINODES -> 0 <= ty < 2 ^ 15 ->
  exists m', ialloc ty m = Ok (m', 1 + Z.of_nat (length F)) /\ holds m' (F ++ [(ty, [])]).
Proof.
  intros (L & I & E) Hlt Hty. assert (El : length F = length L) by (by rewrite <- E, length_fmap). rewrite El in *. set (j := 1 + Z.of_nat (length L)) in *.
  set (m0 := m <| freeinode ::= Z.add 1 |>). assert (HM0 : mk_ok m0) by (destruct (im_ok _ _ I); by split).
  destruct (new_stored m0 j ty HM0 ltac:(lia) Hty) as (m' & E1 & HM' & S & C & Hfb & Hfi).
  exists m'. split.
  - unfold ialloc. rewrite (bind_run _ _ m m j) by (unfold gets; by rewrite (im_next _ _ I)). rewrite (bind_run _ _ m m0 tt) by done. by rewrite (bind_run _ _ _ _ _ E1).
  - exists (L ++ [mkitem ty [] (new_node j ty)]). split; [|by rewrite fmap_app, E].
    assert (C' : changed m (new_node j ty) m' (new_node j ty) j) by (destruct C; by split).
    apply (image_add m L m' ty); try done; [|rewrite Hfi; cbn; lia]. intros n (Hz & k & Hk & Ep). by rewrite new_ptr in Ep.
Qed.

(** ** The files given to main *)

Definition fname (f : hostfile) : list Z := fs_name (hname f).
Definition fdata (f : hostfile) : list Z := mjoin (hreads f).
(** The directory entries of the files, from inode [j] on. *)
Fixpoint entries (j : Z) (files : list hostfile) : list Z :=
  match files with [] => [] | f :: files => mkdirent j (fname f) ++ entries (j + 1) files end.
Lemma entries_length j files : length (entries j files) = (16 * length files)%nat.
Proof. revert j. induction files as [|f files IH]; intros j; [done|]. cbn [entries length]. rewrite length_app, mkdirent_length, IH. lia. Qed.
(** A file main can take. *)
Record host_ok (f : hostfile) : Prop := {
  ho_name : Forall is_u8 (hname f);
  ho_slash : SLASH ∉ hname f;
  ho_reads : Forall (Forall is_u8) (hreads f);
  ho_max : Z.of_nat (length (fdata f)) <= Z.of_nat (MAXFILE * BSIZE);
}.
Lemma fname_bytes f : host_ok f -> Forall is_u8 (fname f).
Proof.
  intros H. pose proof (ho_name _ H) as Hb. unfold fname, fs_name. destruct (hname f) as [|c r]; [done|]. case_decide; [|done]. by apply Forall_cons in Hb as [_ Hb].
Qed.
Lemma mkdirent_bytes n name : Forall is_u8 name -> Forall is_u8 (mkdirent n name).
Proof. intros H. apply Forall_app. split; [apply le_enc_bytes|by apply dirname_bytes]. Qed.
Lemma used_cons ty D F : used ((ty, D) :: F) = need (Z.of_nat (length D)) + used F.
Proof.
  unfold used. rewrite fmap_cons. cbn [snd]. set (l := _ <$> F). assert (E : forall a, total (a :: l) = a + total l) by done. rewrite E. lia.
Qed.
Lemma used_app F G : used (F ++ G) = used F + used G - nmeta.
Proof. unfold used. rewrite fmap_app, total_app. lia. Qed.
Lemma need_pos n : 0 <= n -> 0 <= need n.
Proof. intros Hn. unfold need. rewrite BSIZE_Z. pose proof (Z.div_pos (n + 512 - 1) 512). case_decide; lia. Qed.
Lemma add_file_holds m R G f :
  holds m ((T_DIR, R) :: G) -> host_ok f -> 2 + Z.of_nat (length G) < NINODES ->
  Z.of_nat (length R) + 16 <= Z.of_nat (MAXFILE * BSIZE) ->
  used ((T_DIR, R ++ mkdirent (2 + Z.of_nat (length G)) (fname f)) :: G ++ [(T_FILE, fdata f)]) <= FSSIZE ->
  exists m', add_file ROOTINO f m = Ok (m', tt) /\
    holds m' ((T_DIR, R ++ mkdirent (2 + Z.of_nat (length G)) (fname f)) :: G ++ [(T_FILE, fdata f)]).
Proof.
  intros H Hf Hj HR Hu. set (j := 2 + Z.of_nat (length G)) in *. unfold add_file. rewrite decide_False by apply Hf.
  destruct (ialloc_holds m _ T_FILE H) as (m1 & E1 & H1); [cbn; lia|done|].
  assert (Ej : 1 + Z.of_nat (length ((T_DIR, R) :: G)) = j) by (cbn; lia). rewrite Ej in E1. rewrite (bind_run _ _ _ _ _ E1).
  assert (Ex : xshort j = j) by (rewrite xshort_u16; unfold u16; apply Z.mod_small; unfold NINODES in Hj; lia). rewrite Ex.
  rewrite used_cons, used_app, used_cons in Hu. change (used []) with nmeta in Hu. change (((T_DIR, R) :: G) ++ _) with ((T_DIR, R) :: (G ++ [(T_FILE, [])])) in H1.
  set (e := mkdirent j (fname f)) in *. assert (He : length e = 16%nat) by apply mkdirent_length.
  pose proof (need_pos (Z.of_nat (length (fdata f))) ltac:(lia)) as Hp.
  destruct (iappend_holds m1 _ 0 T_DIR R e H1) as (m2 & E2 & H2); [done|by apply mkdirent_bytes, fname_bytes|rewrite length_app; lia| |].
  { cbn [insert list_insert]. rewrite used_cons, used_app, used_cons. change (used []) with nmeta. change (need (Z.of_nat (length []))) with 0. lia. }
  change (1 + Z.of_nat 0) with ROOTINO in E2. rewrite (bind_run _ _ _ _ _ E2). change (<[0%nat := _]> _) with ((T_DIR, R ++ e) :: (G ++ [(T_FILE, [])])) in H2.
  assert (Hl : (((T_DIR, R ++ e) :: (G ++ [(T_FILE, [])])) : list (Z * list Z)) !! S (length G) = Some (T_FILE, [])) by (cbn; by apply list_lookup_middle).
  assert (Hi : <[S (length G) := (T_FILE, fdata f)]> ((T_DIR, R ++ e) :: (G ++ [(T_FILE, [])])) = (T_DIR, R ++ e) :: (G ++ [(T_FILE, fdata f)])).
  { transitivity ((T_DIR, R ++ e) :: <[length G := (T_FILE, fdata f)]> (G ++ [(T_FILE, [])])); [done|]. f_equal. rewrite insert_app_r_alt by lia. by rewrite Nat.sub_diag. }
  destruct (iappends_holds (S (length G)) T_FILE (hreads f) m2 _ [] H2 Hl) as (m3 & E3 & H3); [apply Hf|apply Hf| |].
  { change ([] ++ mjoin (hreads f)) with (fdata f). rewrite Hi, used_cons, used_app, used_cons. change (used []) with nmeta. lia. }
  change ([] ++ mjoin (hreads f)) with (fdata f) in H3. rewrite Hi in H3. exists m3. split; [|done]. rewrite <- E3. do 2 f_equal. lia.
Qed.
Definition file_of (f : hostfile) : Z * list Z := (T_FILE, fdata f).
Lemma used_ge F : nmeta <= used F.
Proof.
  induction F as [|[ty D] F IH]; [unfold used; cbn; lia|]. rewrite used_cons. pose proof (need_pos (Z.of_nat (length D))). lia.
Qed.
Lemma add_files_hold files : forall m R G,
  holds m ((T_DIR, R) :: G) -> Forall host_ok files -> 1 + Z.of_nat (length G + length files) < NINODES ->
  Z.of_nat (length R) + 16 * Z.of_nat (length files) <= Z.of_nat (MAXFILE * BSIZE) ->
  used ((T_DIR, R ++ entries (2 + Z.of_nat (length G)) files) :: G ++ (file_of <$> files)) <= FSSIZE ->
  exists m', mfor files (add_file ROOTINO) m = Ok (m', tt) /\
    holds m' ((T_DIR, R ++ entries (2 + Z.of_nat (length G)) files) :: G ++ (file_of <$> files)).
Proof.
  induction files as [|f files IH]; intros m R G H Hf Hj HR Hu.
  { exists m. change (entries _ []) with (@nil Z). rewrite !app_nil_r. done. }
  apply Forall_cons in Hf as [Hf Hfs]. cbn [length entries fmap list_fmap] in *. set (j := 2 + Z.of_nat (length G)) in *. set (e := mkdirent j (fname f)) in *.
  change (list_fmap _ _ file_of files) with (file_of <$> files) in *. assert (He : length e = 16%nat) by apply mkdirent_length.
  assert (Ej : 2 + Z.of_nat (length (G ++ [file_of f])) = j + 1) by (rewrite length_app; cbn; lia).
  destruct (add_file_holds m R G f H Hf) as (m1 & E1 & H1); [lia|lia| |].
  { rewrite used_cons, used_app in Hu |- *. change (used (file_of f :: ?l)) with (used ((T_FILE, fdata f) :: l)) in Hu.
    rewrite !used_cons in *. change (used []) with nmeta. fold j e. pose proof (used_ge (file_of <$> files)). rewrite app_assoc, (length_app (R ++ e)) in Hu.
    pose proof (need_mono (Z.of_nat (length (R ++ e))) (Z.of_nat (length (R ++ e) + length (entries (j + 1) files))) ltac:(lia)). lia. }
  fold j e in H1. change (T_FILE, fdata f) with (file_of f) in H1.
  destruct (IH m1 (R ++ e) (G ++ [file_of f]) H1 Hfs) as (m2 & E2 & H2).
  { rewrite length_app. cbn. lia. }
  { rewrite length_app, He. lia. }
  { rewrite Ej, <- !app_assoc. exact Hu. }
  exists m2. rewrite Ej, <- !app_assoc in H2. split; [|exact H2]. cbn [mfor]. by rewrite (bind_run _ _ _ _ _ E1).
Qed.
Lemma wsect_zeroes l : forall m,
  (forall n, sectors m n = zeroes) -> exists m', mfor l (fun i => wsect i zeroes) m = Ok (m', tt) /\ (forall n, sectors m' n = zeroes) /\
    freeblock m' = freeblock m /\ freeinode m' = freeinode m /\ nsectors m' = foldl (fun a i => Z.max (i + 1) a) (nsectors m) l.
Proof.
  induction l as [|i l IH]; intros m H; [by exists m|]. cbn [mfor].
  destruct (IH (m <| sectors ::= insert i zeroes |> <| nsectors ::= Z.max (i + 1) |>)) as (m' & E & H1 & H2 & H3 & H4).
  { intros n. cbn. rewrite fn_insert_cases. by case_decide. }
  exists m'. rewrite (bind_run _ _ m (m <| sectors ::= insert i zeroes |> <| nsectors ::= Z.max (i + 1) |>) tt) by done. done.
Qed.
Lemma layout_holds : exists m, layout img0 = Ok (m, tt) /\ holds m [].
Proof.
  destruct (wsect_zeroes (seqZ 0 FSSIZE) (img0 <| freeblock := nmeta |>)) as (m & E & H1 & H2 & H3 & H4); [done|].
  assert (H5 : nsectors m = FSSIZE) by (rewrite H4; vm_compute; done). clear H4.
  set (d := splice zeroes 0 (sb_bytes superblock_)). assert (Hd : length d = BSIZE /\ Forall is_u8 d).
  { split; [done|]. apply (bool_decide_unpack _). vm_compute. exact I. }
  exists (m <| sectors ::= insert 1 d |> <| nsectors ::= Z.max 2 |>). split.
  - unfold layout. rewrite (bind_run _ _ img0 (img0 <| freeblock := nmeta |>) tt) by done. by rewrite (bind_run _ _ _ _ _ E).
  - exists []. split; [|done]. destruct Hd as [Hd1 Hd2].
    assert (Hs : forall n, sectors (m <| sectors ::= insert 1 d |> <| nsectors ::= Z.max 2 |>) n = if decide (1 = n) then d else zeroes).
    { intros n. cbn. rewrite fn_insert_cases. case_decide; [done|apply H1]. }
    split; try done.
    + split.
      * cbn. rewrite H5. done.
      * cbn. rewrite H2, nmeta_val. cbn. done.
      * intros n. rewrite Hs. by case_decide.
      * intros n. rewrite Hs. case_decide; [done|]. apply Forall_replicate. unfold is_u8. lia.
      * intros n Hn. cbn in Hn. rewrite H2 in Hn. cbn in Hn. rewrite nmeta_val in Hn. rewrite Hs, decide_False by lia. done.
    + intros j Hj. cbn in Hj. rewrite H3 in Hj. cbn in Hj. pose proof (IBLOCK_range j ltac:(lia)). unfold dbytes. rewrite Hs, decide_False by lia. unfold zeroes, slice.
      rewrite drop_replicate, take_replicate. pose proof (dinode_at_lt j). f_equal. lia.
    + intros n Hn. rewrite Hs, decide_False by lia. done.
Qed.
(** A directory with its last block filled up with empty entries. *)
Definition padded (D : list Z) : list Z :=
  D ++ replicate (Z.to_nat ((Z.of_nat (length D) / BS + 1) * BS - Z.of_nat (length D))) 0.
Lemma padded_length D : Z.of_nat (length (padded D)) = (Z.of_nat (length D) / BS + 1) * BS.
Proof.
  unfold padded. rewrite length_app, length_replicate. pose proof BSIZE_Z. pose proof (Z.div_mod (Z.of_nat (length D)) BS ltac:(lia)).
  pose proof (Z.mod_pos_bound (Z.of_nat (length D)) BS ltac:(lia)). lia.
Qed.
Lemma hasdata_padded s D : hasdata s D -> Z.of_nat (length D) mod BS <> 0 -> hasdata s (padded D).
Proof.
  intros [H1 H2 H3 H4 H5 H6] Hm. pose proof BSIZE_Z as HB. set (n := Z.of_nat (length D)) in *. pose proof (Z.div_mod n BS ltac:(lia)) as Hd.
  pose proof (Z.mod_pos_bound n BS ltac:(lia)) as Hr. rewrite Nat2Z.inj_mul, HB, MAXFILE_Z in H2. set (q := n / BS) in *.
  split; rewrite ?padded_length; fold n q; try done.
  - rewrite Nat2Z.inj_mul, HB, MAXFILE_Z. lia.
  - intros x Hx. destruct (decide (x < n)) as [Hlt|Hge].
    + unfold padded. rewrite lookup_total_app_l by lia. apply H3. lia.
    + unfold padded. rewrite lookup_total_app_r by lia. rewrite lookup_total_replicate_2 by (fold n q; lia).
      apply H4; [lia|]. pose proof (Z.div_mod x BS ltac:(lia)). pose proof (Z.mod_pos_bound x BS ltac:(lia)). nia.
  - intros x Hx Hl. pose proof (Z.div_mod x BS ltac:(lia)). pose proof (Z.mod_pos_bound x BS ltac:(lia)). nia.
  - intros k Hk. rewrite H5 by done. nia.
  - rewrite H6. change (Z.of_nat NDIRECT) with 12. lia.
Qed.
Lemma need_padded D : Z.of_nat (length D) mod BS <> 0 -> need (Z.of_nat (length (padded D))) = need (Z.of_nat (length D)).
Proof.
  intros Hm. rewrite padded_length. unfold need. rewrite BSIZE_Z in *. change (Z.of_nat NDIRECT) with 12. set (n := Z.of_nat (length D)) in *.
  pose proof (Z.div_mod n 512 ltac:(lia)). pose proof (Z.mod_pos_bound n 512 ltac:(lia)). set (q := n / 512) in *.
  assert (E1 : ((q + 1) * 512 + 512 - 1) / 512 = q + 1) by (symmetry; apply (Z.div_unique_pos _ 512 (q + 1) 511); lia).
  assert (E2 : (n + 512 - 1) / 512 = q + 1) by (symmetry; apply (Z.div_unique_pos _ 512 (q + 1) (n mod 512 - 1)); lia).
  rewrite E1, E2. do 2 case_decide; lia.
Qed.
Lemma fix_root_holds m R G :
  holds m ((T_DIR, R) :: G) -> Z.of_nat (length R) mod BS <> 0 ->
  exists m', fix_root ROOTINO m = Ok (m', tt) /\ holds m' ((T_DIR, padded R) :: G).
Proof.
  intros H Hm. destruct (holds_used _ _ H) as (_ & HM & _). destruct (holds_item m _ 0 (T_DIR, R) H eq_refl) as (L & t & I & E & Ht & H1 & H2). cbn in H1, H2.
  pose proof (im_file _ _ I 0 t Ht) as S. change (1 + Z.of_nat 0) with ROOTINO in S. pose proof (need_padded R Hm) as Hn.
  destruct (rinode_view m _ _ _ _ HM S) as (din & Er & Ed). injection Ed as D1 D2 D3 D4 D5 D6.
  pose proof S as [S1 S2 S3 S4 S5 S6]. rewrite H2 in S1, S4. pose proof (hasdata_padded _ _ S1 Hm) as P. pose proof (padded_length R) as Hpl. pose proof BSIZE_Z as HB.
  set (z := (Z.of_nat (length R) / BS + 1) * BS) in *. pose proof (hd_max _ _ P) as Hz. rewrite Hpl in Hz.
  assert (H32 : forall y, 0 <= y <= Z.of_nat (MAXFILE * BSIZE) -> xint y = y).
  { intros y Hy. apply xint_small. rewrite Nat2Z.inj_mul, MAXFILE_Z, BSIZE_Z in Hy. unfold is_u32. lia. }
  destruct (store_back m (it_node t) m (view m (it_node t)) (padded R) z (din <| isize := xint z |>)) as (m' & E3 & HM' & B1 & B2 & V1 & V2 & V3); try done.
  { apply S1. }
  { lia. }
  { intros k Hk Hlt. apply (hd_map _ _ P); [|lia]. rewrite Nat2Z.inj_mul in Hz. nia. }
  { rewrite H32 by lia. cbn. change (icache (view m (it_node t)) !!! 0%nat) with (it_node t). congruence. }
  rewrite S3 in E3, V3. exists m'. split.
  - unfold fix_root. rewrite (bind_run _ _ _ _ _ Er). cbv zeta. rewrite D5, S4, (H32 (Z.of_nat (length R))) by (pose proof (hd_max _ _ S1); lia). exact E3.
  - set (x' := grown (it_node t) (view m (it_node t)) z) in *.
    assert (S' : stored m' ROOTINO (it_type t) (padded R) x') by (by split).
    pose proof (image_update m L 0 t m' (padded R) x' I Ht HM' S' V3 ltac:(lia)) as U.
    pose proof (holds_update m L _ 0 t m' _ _ I E Ht (U ltac:(unfold it_need; rewrite H2, Hn; lia) B2)) as Q. rewrite H1 in Q. exact Q.
Qed.
Lemma balloc_holds m F : holds m F -> exists m', balloc (freeblock m) m = Ok (m', tt) /\ holds m' F /\ forall n, kblocks m' n = sectors m' n.
Proof.
  intros (L & I & E). destruct I as [I1 I2 I3 I4 I5 I6 I7 I8]. pose proof (mo_range _ I1) as Hr. rewrite nmeta_val in Hr.
  assert (Hlt : freeblock m < Z.of_nat BSIZE * 8) by (rewrite BSIZE_Z; unfold FSSIZE in Hr; lia).
  set (m' := m <| sectors ::= insert BMAP (bitmap (Z.to_nat (freeblock m))) |> <| nsectors ::= Z.max (BMAP + 1) |>).
  assert (Hs : forall n, sectors m' n = if decide (BMAP = n) then bitmap (Z.to_nat (freeblock m)) else sectors m n) by (intros n; cbn; by rewrite fn_insert_cases).
  assert (Hs' : forall n, n <> BMAP -> sectors m' n = sectors m n) by (intros n Hn; rewrite Hs; by rewrite decide_False).
  assert (HM' : mk_ok m').
  { destruct I1 as [O1 O2 O3 O4 O5]. destruct (bitmap_ok (Z.to_nat (freeblock m))) as [B1 B2].
    split; [cbn; rewrite O1; done|done|..]; intros n; rewrite Hs; case_decide; auto. intros Hn. change (freeblock m') with (freeblock m) in Hn. change BMAP with 58 in *. lia. }
  assert (Hd : forall j, 0 <= j < NINODES -> dbytes m' j = dbytes m j) by (intros j Hj%IBLOCK_range; unfold dbytes; rewrite Hs' by lia; done).
  assert (Fr : forall k t, L !! k = Some t ->
    stored m' (1 + Z.of_nat k) (it_type t) (it_data t) (it_node t) /\ (forall n, owned (view m' (it_node t)) 0 n <-> owned (view m (it_node t)) 0 n)).
  { intros k t Ht. pose proof (I3 k t Ht) as S. apply stored_frame; try done; [by apply Hd, (stored_range m _ _ _ _ S)|]. intros n Hn. apply Hs'.
    assert (nmeta <= n < freeblock m) by (apply (owned_used m (view m (it_node t))); [done|apply view_agrees|apply S|done]).
    rewrite nmeta_val in *. change BMAP with 58. lia. }
  exists m'. split; [|split].
  - unfold balloc. rewrite decide_True by done. rewrite bmap_val. reflexivity.
  - exists L. split; [|done]. split; try done.
    + intros k t Ht. by apply Fr.
    + intros k k' t t' n Ht Ht' O1 O2. apply (I4 k k' t t' n); try done; [by apply (Fr k t)|by apply (Fr k' t')].
    + intros j Hj. rewrite Hd by (change (freeinode m') with (freeinode m) in Hj; lia). by apply I5.
    + intros n Hn. rewrite Hs' by (change BMAP with 58; lia). auto.
  - intros n. unfold kblocks. case_decide as Hn; [|done]. subst n. rewrite Hs, decide_True by done. done.
Qed.
(** The root directory as main fills it. *)
Definition root_data (files : list hostfile) : list Z := mkdirent 1 [46] ++ mkdirent 1 [46; 46] ++ entries 2 files.
Lemma root_length files : length (root_data files) = (16 * (2 + length files))%nat.
Proof. unfold root_data. rewrite !length_app, !mkdirent_length, entries_length. lia. Qed.
Lemma main_holds files :
  Forall host_ok files -> 1 + Z.of_nat (length files) < NINODES -> Z.of_nat (2 + length files) mod 32 <> 0 ->
  used ((T_DIR, root_data files) :: (file_of <$> files)) <= FSSIZE ->
  exists m, main files img0 = Ok (m, tt) /\ holds m ((T_DIR, padded (root_data files)) :: (file_of <$> files)) /\ forall n, kblocks m n = sectors m n.
Proof.
  intros Hf Hj Hm Hu. pose proof BSIZE_Z as HB. pose proof MAXFILE_Z as HX. unfold NINODES in Hj. set (e1 := mkdirent 1 [46]). set (e2 := mkdirent 1 [46; 46]).
  assert (L1 : length e1 = 16%nat) by apply mkdirent_length. assert (L2 : length e2 = 16%nat) by apply mkdirent_length.
  assert (B1 : Forall is_u8 e1) by (apply mkdirent_bytes; repeat constructor; unfold is_u8; lia).
  assert (B2 : Forall is_u8 e2) by (apply mkdirent_bytes; repeat constructor; unfold is_u8; lia).
  assert (Hu1 : forall a b, used [(T_DIR, a)] <= FSSIZE -> length b = length a -> used [(T_DIR, b)] <= FSSIZE) by (intros a b Ha El; rewrite used_cons in *; by rewrite El).
  destruct layout_holds as (m0 & E0 & H0). destruct (ialloc_holds m0 [] T_DIR H0) as (m1 & E1 & H1); [done|done|]. change (1 + Z.of_nat (length [])) with ROOTINO in E1.
  change ([] ++ [(T_DIR, [])]) with [(T_DIR, @nil Z)] in H1.
  destruct (iappend_holds m1 _ 0 T_DIR [] e1 H1) as (m2 & E2 & H2); [done|done|cbn [app]; rewrite Nat2Z.inj_mul; lia| |].
  { apply (Hu1 (replicate 16 0)); [vm_compute; done|]. cbn [app]. by rewrite L1. }
  change (<[0%nat := _]> _) with [(T_DIR, e1)] in H2.
  destruct (iappend_holds m2 _ 0 T_DIR e1 e2 H2) as (m3 & E3 & H3); [done|done|rewrite length_app, Nat2Z.inj_mul; lia| |].
  { apply (Hu1 (replicate 32 0)); [vm_compute; done|]. by rewrite length_app, L1, L2. }
  change (<[0%nat := _]> _) with [(T_DIR, e1 ++ e2)] in H3. change (1 + Z.of_nat 0) with ROOTINO in *.
  assert (Er : (e1 ++ e2) ++ entries (2 + Z.of_nat (length (@nil (Z * list Z)))) files = root_data files) by (unfold root_data; by rewrite <- app_assoc).
  destruct (add_files_hold files m3 (e1 ++ e2) [] H3 Hf) as (m4 & E4 & H4).
  { cbn. unfold NINODES. lia. }
  { rewrite length_app, L1, L2, Nat2Z.inj_mul. lia. }
  { rewrite Er. exact Hu. }
  rewrite Er in H4. destruct (fix_root_holds m4 _ _ H4) as (m5 & E5 & H5).
  { rewrite root_length, HB. replace (Z.of_nat (16 * (2 + length files))) with (Z.of_nat (2 + length files) * 16) by lia.
    change 512 with (32 * 16). rewrite Z.mul_mod_distr_r by lia. lia. }
  destruct (balloc_holds m5 _ H5) as (m6 & E6 & H6 & Hk). exists m6. split; [|by split]. unfold main.
  rewrite (bind_run _ _ _ _ _ E0), (bind_run _ _ _ _ _ E1). rewrite decide_True by done. rewrite (bind_run _ _ m1 m1 tt) by done. change (xshort ROOTINO) with 1.
  rewrite (bind_run _ _ _ _ _ E2), (bind_run _ _ _ _ _ E3), (bind_run _ _ _ _ _ E4), (bind_run _ _ _ _ _ E5). rewrite (bind_run _ _ m5 m5 (freeblock m5)) by done. exact E6.
Qed.
