(* ===== verification/MkfsRead.v ===== *)
(** The image main writes, read back by the kernel: the start of the file
    system (iinit), the lookup of a path (namei), the load of the inode (ilock)
    and the read of the file (readi) give the bytes of the host file. *)
From S2P Require Import Prelude Cstring Sleeplock Fs FsFacts FsFile FsDir FsCache Mkfs MkfsFacts.

(** The kernel's state over the image, with the inode cache [c]. *)
Definition over m (c : list inode) : fs := mkfs (sectors m) [] c superblock_.
(** An entry of the cache that iget made, one that ilock filled, and one that
    iunlockput gave back. *)
Definition cold (j : Z) : inode := inode_zero <| idev := ROOTDEV |> <| inum := j |> <| iref := 1 |>.
Definition hot (me : Z) (x : inode) : inode := x <| iref := 1 |> <| ilk := mksl true me |> <| ivalid := true |>.
Definition idle (x : inode) : inode := x <| iref := 0 |> <| ilk := releasesleep |> <| ivalid := true |>.
Definition empties (n : nat) : list inode := replicate n inode_zero.
Section reads.
Context (m : img) (HM : mk_ok m) (HK : forall n, kblocks m n = sectors m n) (me : Z).
Lemma over_blocks x c n : blocks (over m c) n = blocks (view m x) n.
Proof. symmetry. apply HK. Qed.
Lemma over_ok c : fs_ok (over m c).
Proof.
  destruct (agrees_ok m _ HM (view_agrees m inode_zero)) as [F1 F2 F3 F4 F5 F6]. split; try done; intros n.
  - rewrite (over_blocks inode_zero). apply F2.
  - rewrite (over_blocks inode_zero). apply F3.
  - intros Hn Hf. apply F6; [done|]. unfold free in *. by rewrite (over_blocks inode_zero) in Hf.
Qed.
(** A file of the image, once its inode is in the cache. *)
Lemma over_file c i x j ty D :
  stored m j ty D x -> (i < length c)%nat -> disk_part (c !!! i) = disk_part x ->
  file_ok (over m c) i /\ synced (over m c) i /\ contents (over m c) i = D.
Proof.
  intros [S1 S2 S3 S4 S5 S6] Hi Hd. pose proof (hd_file _ _ S1) as HF. pose proof (over_ok c) as Hok.
  assert (Ho : forall n, owned (view m x) 0 n -> blocks (over m c) n = blocks (view m x) n /\ free (over m c) n = false).
  { intros n Hn. split; [apply over_blocks|]. unfold free. rewrite (over_blocks x). by apply (fi_own _ _ HF). }
  split; [by apply (moved_file (view m x) 0 (over m c) i)|]. split.
  - apply (moved_synced (view m x) 0 (over m c) i); try done. unfold dinode_bytes. by rewrite (over_blocks x).
  - rewrite (moved_contents (view m x) 0 (over m c) i) by done. unfold contents. change (icache (view m x) !!! 0%nat) with x. rewrite S4.
    apply list_eq. intros k. rewrite list_lookup_fmap. destruct (decide (k < length D)%nat) as [Hk|Hk].
    + rewrite lookup_seqZ_lt by lia. cbn. rewrite (hd_byte _ _ S1) by lia. rewrite Z.add_0_l, Nat2Z.id. symmetry. by apply list_lookup_lookup_total_lt.
    + rewrite lookup_seqZ_ge by lia. symmetry. apply lookup_ge_None. lia.
Qed.
Lemma geti_over c i y : c !! i = Some y -> geti i (over m c) = Ok (over m c, y).
Proof. intros H. unfold geti, gets. cbn [icache over]. by rewrite (list_lookup_total_correct c i y H). Qed.
Lemma seti_over c i y f : c !! i = Some y -> seti i f (over m c) = Ok (over m (<[i := f y]> c), tt).
Proof.
  intros H. assert (E : alter f i c = <[i := f y]> c); [|unfold seti, modify, over; cbn; by rewrite E].
  apply list_eq. intros k. destruct (decide (k = i)) as [->|Hne].
  - rewrite list_lookup_alter_eq, H, list_lookup_insert_eq by (by eapply lookup_lt_Some). done.
  - by rewrite list_lookup_alter_ne, list_lookup_insert_ne by done.
Qed.
Lemma ilock_over c i j ty D x :
  stored m j ty D x -> ty <> 0 -> c !! i = Some (cold j) -> ilock me i (over m c) = Ok (over m (<[i := hot me x]> c), tt).
Proof.
  intros S Hty Hc. pose proof (fi_dev _ _ (hd_file _ _ (sd_data _ _ _ _ _ S))) as Hdev. change (idev x = ROOTDEV) in Hdev.
  destruct S as [_ S2 S3 _ S5 _]. unfold synced in S2. change (icache (view m x) !!! 0%nat) with x in S2. rewrite S3 in S2. cbn [view blocks sb] in S2. rewrite HK in S2.
  pose proof (lookup_lt_Some _ _ _ Hc) as Hi. set (y := (cold j) <| ilk := mksl true me |>).
  set (z := get_dinode (sectors m (IBLOCK j superblock_)) (dinode_at j) y). assert (Ez : z <| ivalid := true |> = hot me x).
  { rewrite <- S2. unfold z, hot, get_dinode, y, cold. rewrite <- S3, <- Hdev. by destruct x. }
  assert (H1 : <[i := y]> c !! i = Some y) by (by apply list_lookup_insert_eq).
  assert (H2 : <[i := z]> c !! i = Some z) by (by apply list_lookup_insert_eq).
  assert (H3 : <[i := hot me x]> c !! i = Some (hot me x)) by (by apply list_lookup_insert_eq).
  unfold ilock. rewrite (bind_run _ _ _ _ _ (geti_over c i _ Hc)). rewrite decide_False by done.
  assert (El : lock_inode me i (over m c) = Ok (over m (<[i := y]> c), tt)).
  { unfold lock_inode. rewrite (bind_run _ _ _ _ _ (geti_over c i _ Hc)). cbn. by apply (seti_over c i (cold j)). }
  rewrite (bind_run _ _ _ _ _ El), (bind_run _ _ _ _ _ (geti_over _ i _ H1)). change (ivalid y) with false. cbn match.
  rewrite (bind_run _ _ (over m (<[i := y]> c)) (over m (<[i := y]> c)) superblock_) by done.
  change (idev y) with ROOTDEV. change (inum y) with j. rewrite (bind_run _ _ (over m (<[i := y]> c)) (over m (<[i := y]> c)) (sectors m (IBLOCK j superblock_))) by done.
  rewrite (bind_run _ _ _ _ _ (seti_over _ i _ _ H1)), list_insert_insert_eq. fold z.
  rewrite (bind_run _ _ _ _ _ (seti_over _ i _ _ H2)), list_insert_insert_eq. cbn beta. rewrite Ez.
  rewrite (bind_run _ _ _ _ _ (geti_over _ i _ H3)). change (itype (hot me x)) with (itype x). rewrite decide_False by congruence. done.
Qed.
Lemma iunlockput_over x c :
  inlink x = 1 -> iunlockput me 0 (over m (hot me x :: c)) = Ok (over m (idle x :: c), tt).
Proof.
  intros H. set (y := (hot me x) <| ilk := releasesleep |>). unfold iunlockput.
  assert (El : lock_inode me 0 (over m (y :: c)) = Ok (over m (hot me x :: c), tt)) by done.
  rewrite (bind_run _ _ _ (over m (y :: c)) tt).
  - unfold iput. rewrite (bind_run _ _ _ _ _ El), (bind_run _ _ _ _ _ (geti_over (hot me x :: c) 0 _ eq_refl)).
    change (inlink (hot me x)) with (inlink x). rewrite H. change (bool_decide (1 = 0)) with false. rewrite andb_false_r.
    rewrite (bind_run _ _ (over m (hot me x :: c)) (over m (hot me x :: c)) tt) by done. done.
  - unfold iunlock. rewrite (bind_run _ _ _ _ _ (geti_over (hot me x :: c) 0 _ eq_refl)). unfold holdingsleep. cbn [ilk hot slocked slpid].
    change (iref (hot me x)) with 1. change (ilk (hot me x)) with (mksl true me). cbn [slocked slpid]. rewrite bool_decide_true by done. done.
Qed.
Lemma iget_root : iget ROOTDEV ROOTINO (over m (empties NINODE)) = Ok (over m (cold ROOTINO :: empties 49), 0%nat).
Proof. reflexivity. Qed.
Lemma iget_file x j : inum x <> j -> iget ROOTDEV j (over m (hot me x :: empties 49)) = Ok (over m (hot me x :: cold j :: empties 48), 1%nat).
Proof.
  intros H. assert (E : list_find (fun ip => iref ip > 0 /\ idev ip = ROOTDEV /\ inum ip = j) (hot me x :: empties 49) = None).
  { apply list_find_None, Forall_cons. split; [intros (_ & _ & Hx); by apply H|]. apply Forall_replicate. intros [Hx _]. cbn in Hx. lia. }
  unfold iget. rewrite (bind_run _ _ _ (over m (hot me x :: empties 49)) (hot me x :: empties 49)) by done. rewrite E. reflexivity.
Qed.
(** ** The root directory *)

Definition dirents (l : list (Z * list Z)) : list Z := mjoin ((fun e => mkdirent e.1 e.2) <$> l).
Lemma dirents_length l : length (dirents l) = (16 * length l)%nat.
Proof. induction l as [|e l IH]; [done|]. change (dirents (e :: l)) with (mkdirent e.1 e.2 ++ dirents l). rewrite length_app, mkdirent_length, IH. cbn. lia. Qed.
Lemma dirents_slice l t : forall k e, l !! k = Some e -> slice (dirents l ++ t) (16 * k) 16 = mkdirent e.1 e.2.
Proof.
  induction l as [|a l IH]; intros k e H; [done|]. change (dirents (a :: l)) with (mkdirent a.1 a.2 ++ dirents l). rewrite <- app_assoc.
  pose proof (mkdirent_length a.1 a.2) as Hl. destruct k as [|k].
  - injection H as ->. rewrite slice_app_l by lia. pose proof (slice_full (mkdirent e.1 e.2)) as E. by rewrite Hl in E.
  - rewrite <- (IH k e H). pose proof (slice_app_r (mkdirent a.1 a.2) (dirents l ++ t) (16 * k) 16) as E. rewrite Hl in E. rewrite <- E. f_equal. lia.
Qed.
Lemma find_first (P : nat -> bool) k n : (k < n)%nat -> P k = true -> (forall j, (j < k)%nat -> P j = false) -> find P (seq 0 n) = Some k.
Proof.
  intros Hk Hp Hn. replace n with (k + S (n - k - 1))%nat by lia. rewrite seq_app, find_app.
  rewrite (find_longer P 0 k) by (lia || (intros; apply Hn; lia)). cbn. by rewrite Hp.
Qed.
Lemma root_lookup x l k j name nm c :
  stored m ROOTINO T_DIR (padded (dirents l)) x -> disk_part (c !!! 0%nat) = disk_part x -> (0 < length c)%nat ->
  l !! k = Some (j, name) -> 0 < j < 2 ^ 16 -> cname nm = cname name ->
  (forall k' e, (k' < k)%nat -> l !! k' = Some e -> cname e.2 <> cname nm) ->
  dir_ok (over m c) 0 /\ dir_find (over m c) 0 nm = Some k /\ de_inum (entry (over m c) 0 k) = j.
Proof.
  intros S Hd Hc Hk Hj Hnm Hfirst. destruct (over_file c 0 x _ _ _ S Hc Hd) as (HF & _ & HC).
  assert (Ht : itype (c !!! 0%nat) = itype x /\ isize (c !!! 0%nat) = isize x) by (unfold disk_part in Hd; split; congruence). destruct Ht as [Ht Hz].
  rewrite (sd_size _ _ _ _ _ S), padded_length, dirents_length, BSIZE_Z in Hz. pose proof (lookup_lt_Some _ _ _ Hk) as Hlt.
  pose proof (Z.div_mod (Z.of_nat (16 * length l)) 512 ltac:(lia)) as Hdm. pose proof (Z.mod_pos_bound (Z.of_nat (16 * length l)) 512 ltac:(lia)) as Hmb.
  set (q := Z.of_nat (16 * length l) / 512) in *. assert (HD : dir_ok (over m c) 0).
  { split; [done|exact (eq_trans Ht (sd_type _ _ _ _ _ S))|]. change (isize (icache (over m c) !!! 0%nat)) with (isize (c !!! 0%nat)). rewrite Hz. replace ((q + 1) * 512) with ((q + 1) * 32 * DIRENT) by (unfold DIRENT; lia). by apply Z.mod_mul. }
  assert (He : forall k' e, l !! k' = Some e -> entry (over m c) 0 k' = mkdirent e.1 e.2) by (intros k' e H'; unfold entry; rewrite HC; by apply dirents_slice).
  assert (Hm : forall k' e, l !! k' = Some e -> matches nm (entry (over m c) 0 k') = true -> cname e.2 = cname nm).
  { intros k' e H' Hx. rewrite (He k' e H') in Hx. apply bool_decide_eq_true in Hx as [_ Hx]. by rewrite mkdirent_name, cname_dirname in Hx. }
  split; [done|]. split; [|by rewrite (He k _ Hk), mkdirent_inum by (cbn; lia)]. unfold dir_find. apply find_first.
  - unfold nent. change (isize (icache (over m c) !!! 0%nat)) with (isize (c !!! 0%nat)). rewrite Hz. replace ((q + 1) * 512) with ((q + 1) * 32 * DIRENT) by (unfold DIRENT; lia). rewrite Z.div_mul by done. lia.
  - rewrite (He k _ Hk). apply bool_decide_eq_true. rewrite mkdirent_inum, mkdirent_name, cname_dirname by (cbn; lia). cbn. split; [lia|done].
  - intros k' Hk'. destruct (lookup_lt_is_Some_2 l k' ltac:(lia)) as [e H']. apply not_true_is_false. intros Hx. by apply (Hfirst k' e Hk' H'), (Hm k' e H').
Qed.
Context (cwd : nat) (devread : Z -> option (nat -> Z -> M fs (Z * list Z))).
Lemma skipelem_one name : name <> [] -> SLASH ∉ name -> skipelem (SLASH :: name) = Some (take DIRSIZ name, []).
Proof.
  intros Hn Hs. assert (E : elem_end name = (name, [])).
  { clear Hn. induction name as [|c name IH]; [done|]. apply not_elem_of_cons in Hs as [Hc Hs]. cbn. rewrite decide_False by congruence. by rewrite IH. }
  unfold skipelem. cbn [skip_slashes]. rewrite decide_True by done. destruct name as [|c name]; [done|]. apply not_elem_of_cons in Hs as [Hc _].
  cbn [skip_slashes]. rewrite decide_False by congruence. rewrite E. cbn [fst snd skip_slashes]. case_decide as Hl; [done|]. by rewrite take_ge by lia.
Qed.
Lemma cname_take name : cname (take DIRSIZ name) = cname name.
Proof.
  rewrite !cname_alt. apply strn_ext. intros x Hx. rewrite lookup_take_lt by lia. done.
Qed.
(** The lookup of a file in the root directory. *)
Lemma namei_root_file xr l k j name :
  stored m ROOTINO T_DIR (padded (dirents l)) xr -> l !! k = Some (j, name) -> 1 < j < 2 ^ 16 -> Forall is_u8 name -> name <> [] -> SLASH ∉ name ->
  (forall k' e, (k' < k)%nat -> l !! k' = Some e -> cname e.2 <> cname name) ->
  namei me cwd devread (SLASH :: name) (over m (empties NINODE)) = Ok (over m (idle xr :: cold j :: empties 48), Some 1%nat).
Proof.
  intros St Hk Hj Hb Hn Hs Hf. unfold namei, namex. rewrite decide_True by done.
  assert (El : namex_loop me devread (S (length (SLASH :: name))) 0 (SLASH :: name) false [] (over m (cold ROOTINO :: empties 49)) =
    Ok (over m (idle xr :: cold j :: empties 48), Some (1%nat, take DIRSIZ name))).
  2: { rewrite (bind_run _ _ (over m (empties NINODE)) (over m (idle xr :: cold j :: empties 48)) (Some (1%nat, take DIRSIZ name))); [done|].
    by rewrite (bind_run _ _ _ _ _ iget_root). }
  cbn [namex_loop]. rewrite skipelem_one by done. rewrite (bind_run _ _ _ _ _ (ilock_over (cold ROOTINO :: empties 49) 0 _ _ _ _ St ltac:(done) eq_refl)).
  change (<[0%nat := hot me xr]> (cold ROOTINO :: empties 49)) with (hot me xr :: empties 49).
  rewrite (bind_run _ _ _ _ _ (geti_over (hot me xr :: empties 49) 0 _ eq_refl)). change (itype (hot me xr)) with (itype xr).
  rewrite decide_False by (rewrite (sd_type _ _ _ _ _ St); auto). cbn [andb].
  destruct (root_lookup xr l k j name (take DIRSIZ name) (hot me xr :: empties 49) St) as (HD & Hfind & Hino); try done; [cbn; lia|lia|apply cname_take|..].
  { intros k' e Hk' He. rewrite cname_take. by apply (Hf k'). }
  assert (Ed : dirlookup devread 0 (take DIRSIZ name) (over m (hot me xr :: empties 49)) = Ok (over m (hot me xr :: cold j :: empties 48), Some (1%nat, 16 * Z.of_nat k))).
  { rewrite dirlookup_spec by (done || by apply Forall_take). rewrite Hfind, Hino. rewrite (bind_run _ _ _ _ _ (iget_file xr j ltac:(rewrite (sd_inum _ _ _ _ _ St); unfold ROOTINO; lia))). done. }
  rewrite (bind_run _ _ _ _ _ Ed). cbn match. rewrite (bind_run _ _ _ _ _ (iunlockput_over xr _ (sd_nlink _ _ _ _ _ St))). done.
Qed.
End reads.

(** ** From mkfs to the running kernel *)

(** The machine started on the image, and a read of a file by its path. *)
Definition power_on m : fs := mkfs (sectors m) [] (empties NINODE) (mksb 0 0 0 0 0 0 0).
Definition read_path me cwd devread (path : list Z) (n : Z) : M fs (Z * list Z) :=
  iinit ROOTDEV;;
  r ← namei me cwd devread path;
  match r with
  | None => mret (-1, [])
  | Some ip => ilock me ip;; readi devread ip 0 n
  end.
Lemma iinit_over m L : image m L -> iinit ROOTDEV (power_on m) = Ok (over m (empties NINODE), tt).
Proof.
  intros H. unfold iinit.
  assert (E : mfor (seq 0 NINODE) (fun i => seti i (fun ip => ip <| ilk := initsleeplock |>)) (power_on m) = Ok (power_on m, tt)) by reflexivity.
  rewrite (bind_run _ _ _ _ _ E). assert (Es : readsb ROOTDEV (power_on m) = Ok (power_on m, superblock_)).
  { unfold readsb, bread. rewrite decide_True by done. unfold gets, mbind, M_bind. cbn [power_on blocks]. rewrite (im_super _ _ H). reflexivity. }
  rewrite (bind_run _ _ _ _ _ Es). reflexivity.
Qed.
(** The directory as a list: the inode number and the name of each entry. *)
Fixpoint numbered (j : Z) (files : list hostfile) : list (Z * list Z) :=
  match files with [] => [] | f :: files => (j, fname f) :: numbered (j + 1) files end.
Definition root_list (files : list hostfile) : list (Z * list Z) := (1, [46]) :: (1, [46; 46]) :: numbered 2 files.
Lemma entries_numbered files : forall j, entries j files = dirents (numbered j files).
Proof. induction files as [|f files IH]; intros j; [done|]. cbn [entries numbered]. rewrite IH. done. Qed.
Lemma root_dirents files : root_data files = dirents (root_list files).
Proof. unfold root_data. by rewrite entries_numbered. Qed.
Lemma numbered_names files : forall j, (numbered j files).*2 = fname <$> files.
Proof. induction files as [|f files IH]; intros j; [done|]. cbn. f_equal. apply IH. Qed.
Lemma numbered_lookup files : forall j k f, files !! k = Some f -> numbered j files !! k = Some (j + Z.of_nat k, fname f).
Proof.
  induction files as [|g files IH]; intros j [|k] f H; try done.
  - injection H as ->. cbn. do 2 f_equal. lia.
  - change (numbered (j + 1) files !! k = Some (j + Z.of_nat (S k), fname f)). rewrite (IH (j + 1) k f H). do 2 f_equal. lia.
Qed.
Lemma fname_slash f : SLASH ∉ hname f -> SLASH ∉ fname f.
Proof. unfold fname, fs_name. destruct (hname f) as [|c r]; [done|]. case_decide; [|done]. intros Hs Hx. apply Hs. by right. Qed.
(** A set of files that fits the image. *)
Record fits (files : list hostfile) : Prop := {
  ft_files : Forall host_ok files;
  ft_names : Forall (fun f => fname f <> []) files;
  ft_distinct : NoDup (cname <$> (root_list files).*2);
  ft_inodes : 1 + Z.of_nat (length files) < NINODES;
  ft_last : Z.of_nat (2 + length files) mod 32 <> 0;
  ft_blocks : used ((T_DIR, root_data files) :: (file_of <$> files)) <= FSSIZE;
}.
Lemma image_read files m L me cwd devread k f n :
  fits files -> image m L -> it_file <$> L = (T_DIR, padded (root_data files)) :: (file_of <$> files) -> (forall n, kblocks m n = sectors m n) ->
  files !! k = Some f -> 0 <= n < 2 ^ 32 ->
  exists s, read_path me cwd devread (SLASH :: fname f) n (power_on m) =
      Ok (s, (Z.min n (Z.of_nat (length (fdata f))), take (Z.to_nat n) (fdata f))) /\
    file_ok s 1 /\ synced s 1 /\ contents s 1 = fdata f.
Proof.
  intros HFt I E HK Hf Hn. pose proof (im_ok _ _ I) as HM. destruct L as [|tr L]; [done|]. injection E as E1 E2 E3. change (it_file <$> L = file_of <$> files) in E3.
  pose proof (im_file _ _ I 0%nat tr eq_refl) as Sr. rewrite E1, E2, root_dirents in Sr. change (1 + Z.of_nat 0) with ROOTINO in Sr.
  assert (Ht : (it_file <$> L) !! k = Some (file_of f)) by (by rewrite E3, list_lookup_fmap, Hf). rewrite list_lookup_fmap in Ht. apply fmap_Some in Ht as (t & Ht & Et).
  injection Et as T1 T2. pose proof (im_file _ _ I (S k) t Ht) as St. rewrite <- T1, <- T2 in St.
  pose proof (proj1 (Forall_lookup _ _) (ft_files _ HFt) k f Hf) as Hok. pose proof (lookup_lt_Some _ _ _ Hf) as Hlt. pose proof (ft_inodes _ HFt) as Hin. unfold NINODES in Hin.
  set (j := 1 + Z.of_nat (S k)) in *. assert (Hl : root_list files !! S (S k) = Some (j, fname f)) by (change (numbered 2 files !! k = Some (j, fname f)); rewrite (numbered_lookup files 2 k f Hf); do 2 f_equal; lia).
  assert (En : namei me cwd devread (SLASH :: fname f) (over m (empties NINODE)) = Ok (over m (idle (it_node tr) :: cold j :: empties 48), Some 1%nat)).
  { apply (namei_root_file m HM HK me cwd devread _ (root_list files) (S (S k))); try done; [lia|by apply fname_bytes|exact (proj1 (Forall_lookup _ _) (ft_names _ HFt) k f Hf)|apply fname_slash, Hok|].
    intros k' e Hk' He Heq. assert (k' = S (S k)); [|lia]. apply (NoDup_lookup _ _ _ (cname (fname f)) (ft_distinct _ HFt)); rewrite !list_lookup_fmap; [rewrite He|by rewrite Hl]. exact (f_equal Some Heq). }
  set (c := idle (it_node tr) :: cold j :: empties 48) in *. pose proof (ilock_over m HK me c 1 j _ _ _ St ltac:(done) eq_refl) as Ei.
  set (c' := <[1%nat := hot me (it_node t)]> c) in *. destruct (over_file m HM HK c' 1 (it_node t) _ _ _ St) as (F1 & F2 & F3); [cbn; lia|done|].
  exists (over m c'). split; [|done]. unfold read_path. rewrite (bind_run _ _ _ _ _ (iinit_over m _ I)), (bind_run _ _ _ _ _ En), (bind_run _ _ _ _ _ Ei).
  assert (Hz : isize (icache (over m c') !!! 1%nat) = Z.of_nat (length (fdata f))) by exact (sd_size _ _ _ _ _ St). assert (Hty : itype (icache (over m c') !!! 1%nat) = T_FILE) by exact (sd_type _ _ _ _ _ St).
  destruct (readi_spec devread (over m c') 1 0 n F1) as (z & -> & ->); [by rewrite Hty|lia|lia|lia|]. rewrite Hz, F3, Z.sub_0_r. unfold slice. rewrite drop_0.
  do 3 f_equal. destruct (decide (n <= Z.of_nat (length (fdata f)))); [by rewrite Z.min_l by lia|]. rewrite !take_ge by lia. done.
Qed.
Lemma get_type_zero b o : slice b o 64 = replicate 64 0 -> get_type b o = 0.
Proof.
  intros H. unfold get_type, get16. pose proof (slice_within b o 0 2 64 ltac:(lia)) as E. rewrite Nat.add_0_r in E. rewrite E, H. done.
Qed.

(** C5: mkfs and the kernel agree on the disk.  For any files that fit (a size
    the inode can hold, names distinct in their first 14 bytes, enough inodes
    and blocks, directory entries that do not end on a block boundary), mkfs
    ends without a failed assertion.  The kernel started on the image finds an
    empty log, the superblock mkfs meant, a bitmap that marks exactly the blocks
    mkfs used, and the other inodes free.  Looking up a file by its name and
    reading it gives the bytes of the host file, whatever the sizes of the reads
    mkfs made, from an inode and blocks that satisfy the invariant the kernel's
    file operations need. *)
Theorem mkfs_correct files :
  fits files ->
  exists m t, main files img0 = Ok (m, tt) /\ sectors m 2 = zeroes /\
    iinit ROOTDEV (power_on m) = Ok (t, tt) /\ fs_ok t /\
    (forall b, 0 <= b < FSSIZE -> free t b = bool_decide (used ((T_DIR, root_data files) :: (file_of <$> files)) <= b)) /\
    (forall j, 2 + Z.of_nat (length files) <= j < NINODES -> get_type (blocks t (IBLOCK j (sb t))) (dinode_at j) = 0) /\
    forall me cwd devread k f n, files !! k = Some f -> 0 <= n < 2 ^ 32 ->
      exists s, read_path me cwd devread (SLASH :: fname f) n (power_on m) =
          Ok (s, (Z.min n (Z.of_nat (length (fdata f))), take (Z.to_nat n) (fdata f))) /\
        file_ok s 1 /\ synced s 1 /\ contents s 1 = fdata f.
Proof.
  intros H. destruct (main_holds files (ft_files _ H) (ft_inodes _ H) (ft_last _ H) (ft_blocks _ H)) as (m & E & (L & I & EL) & HK).
  pose proof (im_ok _ _ I) as HM. exists m, (over m (empties NINODE)). split; [done|]. split; [apply (im_log _ _ I); lia|].
  split; [by apply (iinit_over m L)|]. split; [by apply over_ok|]. split; [|split].
  - intros b Hb. transitivity (free (view m inode_zero) b); [unfold free; by rewrite (over_blocks m HK inode_zero)|].
    rewrite (agrees_free m _ HM (view_agrees m inode_zero)) by done. apply bool_decide_ext.
    assert (Hh : holds m ((T_DIR, padded (root_data files)) :: (file_of <$> files))) by (exists L; split; assumption).
    rewrite (proj1 (holds_used _ _ Hh)), !used_cons, need_padded; [reflexivity|].
    rewrite root_length, BSIZE_Z. replace (Z.of_nat (16 * (2 + length files))) with (Z.of_nat (2 + length files) * 16) by lia.
    change 512 with (32 * 16). rewrite Z.mul_mod_distr_r by lia. pose proof (ft_last _ H). lia.
  - intros j Hj. apply get_type_zero. apply (im_zero _ _ I). rewrite (im_next _ _ I). assert (length L = S (length files)) as ->; [|lia].
    rewrite <- (length_fmap it_file), EL. cbn. by rewrite length_fmap.
  - intros me cwd devread k f n Hf Hn. by apply (image_read files m L me cwd devread k f n).
Qed.
(** Two files, one of them read in two parts and with an underscore. *)
Definition two_files : list hostfile :=
  [mkhost [95; 99; 97; 116] [replicate 512 7; [1; 2; 3]]; mkhost [82; 69; 65; 68; 77; 69] [[104; 105]]].
Lemma two_files_fit : fits two_files.
Proof.
  split.
  - assert (Hb : forall n v, is_u8 v -> Forall is_u8 (replicate n v)) by (intros n v Hv; by apply Forall_replicate).
    repeat constructor; try done; try (apply (bool_decide_unpack _); vm_compute; exact I). 
  - repeat constructor; done.
  - apply (bool_decide_unpack _). vm_compute. exact I.
  - done.
  - done.
  - vm_compute. done.
Qed.
Lemma mkfs_correct_witness :
  exists m s, main two_files img0 = Ok (m, tt) /\
    read_path 3 0 (fun _ => None) [47; 99; 97; 116] 600 (power_on m) = Ok (s, (515, replicate 512 7 ++ [1; 2; 3])).
Proof.
  destruct (mkfs_correct two_files two_files_fit) as (m & t & E & _ & _ & _ & _ & _ & R). destruct (R 3 0%nat (fun _ => None) 0%nat _ 600 eq_refl ltac:(lia)) as (s & Es & _).
  exists m, s. split; [exact E|]. exact Es.
Defined.

(** Thirty files without data, named A, B, ...: with . and .. their entries fill
    a block of the root directory. *)
Definition thirty_files : list hostfile := (fun c => mkhost [c] []) <$> seqZ 65 30.
