(* ===== verification/Kalloc.v ===== *)
(** The physical page allocator (kalloc.c).

    Memory is indexed by kernel virtual address.  A free page holds the address
    of the next free page in its first word; [kend] is the first address behind
    the kernel, which the linker defines.  kmem.lock makes each call atomic. *)
From S2P Require Import Prelude Cstring.
Import string_c.

Definition PGSIZE : Z := 4096.
Definition KERNBASE : Z := 2147483648.
Definition PHYSTOP : Z := 234881024.
Definition V2P (a : Z) : Z := u32 (a - KERNBASE).
Definition P2V (a : Z) : Z := u32 (a + KERNBASE).
Definition PGROUNDUP (a : Z) : Z := Z.land (u32 (a + PGSIZE - 1)) (Z.lnot (PGSIZE - 1)).
Definition PGROUNDDOWN (a : Z) : Z := Z.land a (Z.lnot (PGSIZE - 1)).
Definition page : nat := Z.to_nat PGSIZE.

(** The word at [a]. *)
Definition load32 (m : mem) (a : Z) : Z := le_dec (bytes_at m a 4).

Record kmem := mkkmem { pm : mem; freelist : Z; use_lock : bool }.
#[export] Instance eta_kmem : Eta kmem := fun s => mkkmem (pm s) (freelist s) (use_lock s).
Definition on_pm (f : mem -> mem) : M kmem unit := modify (fun s => s <| pm ::= f |>).

Section calls.
Context (kend : Z).

Definition kfree (v : Z) : M kmem unit :=
  if decide (v mod PGSIZE <> 0 \/ v < kend \/ V2P v >= PHYSTOP) then panic "kfree" else
  on_pm (fun m => memset m v 1 page);;
  r ← gets freelist;
  on_pm (fun m => store32 m v r);;
  modify (fun s => s <| freelist := v |>).

Definition kalloc : M kmem Z :=
  r ← gets freelist;
  (if decide (r = 0) then mret tt else modify (fun s => s <| freelist := load32 (pm s) r |>));;
  mret r.

Fixpoint freerange_from (fuel : nat) (p vend : Z) : M kmem unit :=
  match fuel with
  | O => mret tt
  | S fuel => if decide (u32 (p + PGSIZE) <= vend) then kfree p;; freerange_from fuel (u32 (p + PGSIZE)) vend
              else mret tt
  end.
(** The loop runs at most once for each page below [vend]. *)
Definition freerange (vstart vend : Z) : M kmem unit :=
  freerange_from (S (Z.to_nat (vend / PGSIZE))) (PGROUNDUP vstart) vend.

Definition kinit1 (vstart vend : Z) : M kmem unit :=
  modify (fun s => s <| use_lock := false |>);; freerange vstart vend.
Definition kinit2 (vstart vend : Z) : M kmem unit :=
  freerange vstart vend;; modify (fun s => s <| use_lock := true |>).
End calls.

(** ** Words in memory *)

Section words.
Implicit Types (m : mem) (a b v x : Z).
Lemma store32_spec m a v x :
  store32 m a v x =
    if decide (a <= x < a + 4) then u8 (Z.shiftr v (8 * (x - a))) else m x.
Proof.
  unfold store32, upd. destruct (decide (a <= x < a + 4)) as [Hr|Hr].
  - destruct (decide (x = a)) as [->|]; [|destruct (decide (x = a + 1)) as [->|]; [|destruct (decide (x = a + 2)) as [->|]]].
    + rewrite !decide_False by lia. by replace (8 * (a - a)) with 0 by lia.
    + rewrite !decide_False by lia. by replace (8 * (a + 1 - a)) with 8 by lia.
    + rewrite !decide_False by lia. by replace (8 * (a + 2 - a)) with 16 by lia.
    + assert (x = a + 3) as -> by lia. rewrite decide_True by lia. by replace (8 * (a + 3 - a)) with 24 by lia.
  - by rewrite !decide_False by lia.
Qed.
Lemma load32_ext m m' a : (forall x, a <= x < a + 4 -> m x = m' x) -> load32 m a = load32 m' a.
Proof.
  intros H. unfold load32. f_equal. apply list_eq. intros i. rewrite !bytes_at_lookup.
  case_decide; [|done]. f_equal. apply H. lia.
Qed.
Lemma load32_store32 m a v : load32 (store32 m a v) a = u32 v.
Proof.
  unfold load32, bytes_at. cbn [seq fmap list_fmap]. rewrite !store32_spec.
  rewrite !decide_True by lia. cbn [le_dec].
  replace (8 * (a + Z.of_nat 0 - a)) with 0 by lia. replace (8 * (a + Z.of_nat 1 - a)) with 8 by lia.
  replace (8 * (a + Z.of_nat 2 - a)) with 16 by lia. replace (8 * (a + Z.of_nat 3 - a)) with 24 by lia.
  rewrite Z.shiftr_0_r, !Z.shiftr_div_pow2 by lia. zarith.
Qed.
Lemma load32_store32_ne m a b v : a + 4 <= b \/ b + 4 <= a -> load32 (store32 m a v) b = load32 m b.
Proof. intros H. apply load32_ext. intros x Hx. by rewrite store32_spec, decide_False by lia. Qed.
Lemma load32_range m a : (forall x, is_u8 (m x)) -> is_u32 (load32 m a).
Proof.
  intros H. unfold load32, is_u32. pose proof (le_dec_range (bytes_at m a 4)) as R.
  rewrite bytes_at_length in R. apply R. apply Forall_forall. intros x Hx.
  apply list_elem_of_fmap in Hx as (i & -> & _). apply H.
Qed.
Lemma round_down_spec a : PGROUNDDOWN a = PGSIZE * (a / PGSIZE).
Proof.
  unfold PGROUNDDOWN, PGSIZE. change (4096 - 1) with (Z.ones 12). rewrite <- Z.ldiff_land, Z.ldiff_ones_r by lia.
  rewrite Z.shiftr_div_pow2, Z.shiftl_mul_pow2 by lia. change (2 ^ 12) with 4096. lia.
Qed.
Lemma round_up_spec a : 0 <= a < 2 ^ 32 - PGSIZE -> PGROUNDUP a = PGSIZE * ((a + PGSIZE - 1) / PGSIZE).
Proof.
  intros Ha. unfold PGROUNDUP. rewrite u32_small by (unfold is_u32, PGSIZE in *; lia).
  apply round_down_spec.
Qed.
End words.

(** ** The free list *)

Section list.
Context (kend : Z).
Implicit Types (m : mem) (p x h : Z) (l owned : list Z) (s : kmem).
Record page_ok p : Prop := {
  pg_align : p mod PGSIZE = 0;
  pg_low : kend <= p /\ KERNBASE <= p;
  pg_high : p < KERNBASE + PHYSTOP;
}.
Definition on_page p x : Prop := p <= x < p + PGSIZE.
Fixpoint chain m h l : Prop :=
  match l with
  | [] => h = 0
  | p :: l => h = p /\ page_ok p /\ chain m (load32 m p) l
  end.
(** [l] are the free pages. *)
Record kmem_ok s l : Prop := { km_chain : chain (pm s) (freelist s) l; km_nodup : NoDup l }.

Lemma page_disjoint p q x : page_ok p -> page_ok q -> on_page p x -> on_page q x -> p = q.
Proof.
  intros [Hp _ _] [Hq _ _] Hx Hy. unfold on_page in *. unfold PGSIZE in *.
  Z.to_euclidean_division_equations. lia.
Qed.
Lemma page_pos p : page_ok p -> 0 < p.
Proof. intros [_ [_ H] _]. unfold KERNBASE in H. lia. Qed.
Lemma chain_pages m h l : chain m h l -> Forall page_ok l.
Proof. revert h. induction l as [|p l IH]; intros h; simpl; [constructor|]. intros (_ & Hp & Hc). constructor; eauto. Qed.
Lemma chain_frame m m' h l :
  (forall p x, p ∈ l -> on_page p x -> m' x = m x) -> chain m h l -> chain m' h l.
Proof.
  revert h. induction l as [|p l IH]; intros h Hm; simpl; [done|]. intros (-> & Hp & Hc).
  split; [done|]. split; [done|].
  assert (E : load32 m' p = load32 m p).
  { apply load32_ext. intros x Hx. apply (Hm p); [by left|]. unfold on_page, PGSIZE. lia. }
  rewrite E. apply IH; [|done]. intros q x Hq. apply Hm. by right.
Qed.

(** The memory and list after kfree of [v]. *)
Definition freed (v : Z) s : kmem :=
  s <| pm ::= fun m => store32 (memset m v 1 page) v (freelist s) |> <| freelist := v |>.
Lemma freed_other v s x : ~ on_page v x -> pm (freed v s) x = pm s x.
Proof.
  intros Hx. unfold freed. simpl. unfold on_page, PGSIZE in Hx. rewrite store32_spec, decide_False by lia.
  rewrite memset_fill. change (Z.of_nat page) with 4096. by rewrite decide_False by lia.
Qed.
Lemma kfree_run v s l :
  page_ok v -> kmem_ok s l -> v ∉ l -> kfree kend v s = Ok (freed v s, tt) /\ kmem_ok (freed v s) (v :: l).
Proof.
  intros Hv [Hc Hn] Hnin. pose proof (chain_pages _ _ _ Hc) as Hl. split.
  - unfold kfree. rewrite decide_False; [done|]. destruct Hv as [Ha [Hk Hb] Ht]. unfold V2P.
    rewrite u32_small by (unfold is_u32, KERNBASE, PHYSTOP in *; lia). unfold KERNBASE, PHYSTOP in *. intuition lia.
  - split; [|by constructor]. split; [done|]. split; [done|].
    assert (E : load32 (pm (freed v s)) v = freelist s).
    { unfold freed. simpl. rewrite load32_store32. apply u32_small.
      destruct l as [|p l]; simpl in Hc; [rewrite Hc; unfold is_u32; lia|]. destruct Hc as (-> & Hp & _).
      pose proof (page_pos p Hp). destruct Hp as [_ _ Hp]. unfold is_u32, KERNBASE, PHYSTOP in *. lia. }
    rewrite E. eapply chain_frame; [|exact Hc]. intros p x Hp Hx. apply freed_other. intros Hvx.
    rewrite Forall_forall in Hl. assert (p = v) by (eapply page_disjoint; eauto). by subst.
Qed.
Lemma kfree_panic v s : ~ page_ok v -> is_u32 v -> KERNBASE <= kend -> kfree kend v s = Panic "kfree".
Proof.
  intros Hv Hr Hk. unfold kfree. rewrite decide_True; [done|].
  destruct (decide (v mod PGSIZE = 0)) as [Ha|]; [|by left]. right.
  destruct (decide (v < kend)) as [|Hl]; [by left|]. right. unfold V2P, is_u32 in *.
  rewrite u32_small by (unfold is_u32, KERNBASE in *; lia).
  destruct (decide (v < KERNBASE + PHYSTOP)); [|lia]. destruct Hv. split; [done|lia|done].
Qed.
Lemma kalloc_run s l :
  kmem_ok s l ->
  match l with
  | [] => kalloc s = Ok (s, 0)
  | p :: l' => exists s', kalloc s = Ok (s', p) /\ pm s' = pm s /\ kmem_ok s' l' /\ page_ok p
  end.
Proof.
  intros [Hc Hn]. unfold kalloc. destruct l as [|p l']; simpl in Hc.
  - rewrite (bind_run _ _ s s 0) by (unfold gets; by rewrite Hc). by rewrite decide_True.
  - destruct Hc as (Hp & Hpg & Hc). rewrite (bind_run _ _ s s p) by (unfold gets; by rewrite Hp).
    rewrite decide_False by (pose proof (page_pos p Hpg); lia).
    eexists. split; [reflexivity|]. split; [done|]. split; [|done]. split; [done|]. by inversion Hn.
Qed.

(** ** Clients of the allocator *)

(** A client allocates pages, writes to pages it owns, and frees them. *)
Inductive kstep : kmem * list Z -> kmem * list Z -> Prop :=
| k_alloc s s' p owned : kalloc s = Ok (s', p) -> p <> 0 -> kstep (s, owned) (s', p :: owned)
| k_full s s' owned : kalloc s = Ok (s', 0) -> kstep (s, owned) (s', owned)
| k_write s p x v owned :
    p ∈ owned -> on_page p x -> kstep (s, owned) (s <| pm ::= fun m => upd m x v |>, owned)
| k_free s s' p l1 l2 : kfree kend p s = Ok (s', tt) -> kstep (s, l1 ++ p :: l2) (s', l1 ++ l2).

Definition pages_inv (l0 : list Z) (c : kmem * list Z) : Prop :=
  exists l, kmem_ok c.1 l /\ (l ++ c.2 ≡ₚ l0).
Lemma kstep_inv l0 c c' :
  NoDup l0 -> Forall page_ok l0 -> pages_inv l0 c -> kstep c c' -> pages_inv l0 c'.
Proof.
  intros Hn Hpg (l & Hk & Hp) Hstep.
  assert (Hnd : NoDup (l ++ c.2)) by (by rewrite Hp).
  assert (Hall : Forall page_ok (l ++ c.2)) by (by rewrite Hp).
  pose proof (kalloc_run c.1 l Hk) as Ha. destruct Hstep as [s s' p owned E H0|s s' owned E|s p x v owned Hin Hx|s s' p l1 l2 E]; simpl in *.
  - destruct l as [|q l]; [rewrite Ha in E; by simplify_eq|]. destruct Ha as (s1 & Ha & _ & Hk' & _).
    rewrite Ha in E. simplify_eq. exists l. split; [done|]. simpl. rewrite <- Hp. simpl. by rewrite Permutation_middle.
  - destruct l as [|q l]; [rewrite Ha in E; simplify_eq; by exists []|].
    destruct Ha as (s1 & Ha & _ & _ & Hq). rewrite Ha in E. simplify_eq. by apply page_pos in Hq.
  - exists l. split; [|done]. destruct Hk as [Hc Hl]. split; [|done]. simpl. eapply chain_frame; [|exact Hc].
    intros q y Hq Hy. unfold upd. case_decide; [|done]. subst y. exfalso.
    apply NoDup_app in Hnd as (_ & Hd & _). apply (Hd q Hq).
    rewrite Forall_forall in Hall. assert (q = p) as -> by
      (eapply page_disjoint; eauto; apply Hall; apply elem_of_app; auto). done.
  - assert (Hin : p ∉ l).
    { apply NoDup_app in Hnd as (_ & Hd & _). intros Hp'. apply (Hd p Hp'). apply elem_of_app. right. by left. }
    assert (Hpok : page_ok p).
    { rewrite Forall_forall in Hall. apply Hall. apply elem_of_app. right. apply elem_of_app. right. by left. }
    destruct (kfree_run p s l Hpok Hk Hin) as [E2 Hk2]. rewrite E2 in E. simplify_eq.
    exists (p :: l). split; [done|]. rewrite <- Hp. simpl. by rewrite <- (Permutation_middle l1 l2 p), <- (Permutation_middle l (l1 ++ l2) p).
Qed.

(** C14: pages are never lost nor handed out twice: whatever clients allocate,
    write and free, the free list stays intact and the free pages together with
    the owned ones are always exactly the pages the allocator was given; so an
    allocated page is in nobody else's hands, and allocation fails only when
    every page is owned. *)
Theorem pages_conserved s0 l0 s owned :
  kmem_ok s0 l0 -> rtc kstep (s0, []) (s, owned) ->
  (exists l, kmem_ok s l /\ (l ++ owned ≡ₚ l0)) /\ NoDup owned /\
  exists s' p, kalloc s = Ok (s', p) /\ ~ (p ∈ owned) /\ (p = 0 -> (owned ≡ₚ l0)).
Proof.
  intros Hk Hr. assert (Hn : NoDup l0) by apply Hk.
  assert (Hpg : Forall page_ok l0) by (eapply chain_pages, Hk).
  assert (Hinv : pages_inv l0 (s, owned)).
  { eapply (rtc_invariant kstep (pages_inv l0)); [|intros x y; by apply kstep_inv|exact Hr].
    exists l0. by rewrite app_nil_r. }
  destruct Hinv as (l & Hl & Hp). simpl in *.
  assert (Hnd : NoDup (l ++ owned)) by (by rewrite Hp).
  split; [by exists l|]. split; [by apply NoDup_app in Hnd as (_ & _ & ?)|].
  pose proof (kalloc_run s l Hl) as Ha. destruct l as [|p l].
  - exists s, 0. split; [done|]. split; [|done]. intros Hin.
    assert (Hz : 0 ∈ l0) by (by rewrite <- Hp). rewrite Forall_forall in Hpg. apply Hpg in Hz. by apply page_pos in Hz.
  - destruct Ha as (s' & Ha & _ & _ & Hpok). exists s', p. split; [done|]. split.
    + apply NoDup_app in Hnd as (_ & Hd & _). apply Hd. by left.
    + intros ->. by apply page_pos in Hpok.
Qed.

(** freerange puts the whole pages between its bounds on the list. *)
Definition pages_from (p : Z) (n : nat) : list Z := (fun i => p + PGSIZE * Z.of_nat i) <$> seq 0 n.
Lemma pages_from_S p n : pages_from p (S n) = p :: pages_from (p + PGSIZE) n.
Proof.
  unfold pages_from. rewrite <- cons_seq, fmap_cons, <- fmap_S_seq, <- list_fmap_compose.
  rewrite Z.mul_0_r, Z.add_0_r. f_equal. apply list_fmap_ext. intros i j _. simpl. unfold PGSIZE. lia.
Qed.
Lemma freerange_from_ok vend fuel : forall p l s,
  kmem_ok s l -> p mod PGSIZE = 0 -> kend <= p -> KERNBASE <= p <= vend -> vend <= KERNBASE + PHYSTOP ->
  (forall q, q ∈ l -> q < p) -> (vend - p) / PGSIZE < Z.of_nat fuel ->
  wp (freerange_from kend fuel p vend)
    (fun _ s' => kmem_ok s' (reverse (pages_from p (Z.to_nat ((vend - p) / PGSIZE))) ++ l)) s.
Proof.
  induction fuel as [|fuel IH]; intros p l s Hk Ha He Hp Hv Hlt Hf.
  { pose proof (Z.div_pos (vend - p) PGSIZE). unfold PGSIZE in *. lia. }
  simpl. rewrite u32_small by (unfold is_u32, KERNBASE, PHYSTOP, PGSIZE in *; lia). case_decide as Hc.
  - apply wp_bind. destruct (kfree_run p s l) as [E Hk2]; [|done|by intros Hin%Hlt; lia|].
    { split; [done|lia|unfold PGSIZE in *; lia]. }
    unfold wp at 1. rewrite E.
    assert (Hn : (vend - p) / PGSIZE = Z.succ ((vend - (p + PGSIZE)) / PGSIZE)).
    { replace (vend - p) with (vend - (p + PGSIZE) + 1 * PGSIZE) by (unfold PGSIZE; lia).
      rewrite Z.div_add by done. lia. }
    assert (H0 : 0 <= (vend - (p + PGSIZE)) / PGSIZE) by (apply Z.div_pos; unfold PGSIZE in *; lia).
    eapply wp_mono; [apply (IH (p + PGSIZE) (p :: l))|].
    + done.
    + rewrite <- Z.add_mod_idemp_l, Ha by done. done.
    + unfold PGSIZE. lia.
    + unfold PGSIZE in *. lia.
    + done.
    + intros q [->|Hq]%elem_of_cons; [unfold PGSIZE; lia|]. apply Hlt in Hq. unfold PGSIZE. lia.
    + lia.
    + intros [] s' Hs'. rewrite Hn, Z2Nat.inj_succ, pages_from_S by lia.
      by rewrite reverse_cons, <- app_assoc.
  - apply wp_ret. rewrite Z.div_small by lia. done.
Qed.
Lemma kinit1_ok vstart vend s :
  freelist s = 0 -> kend <= vstart -> KERNBASE <= vstart <= vend -> vend <= KERNBASE + PHYSTOP ->
  PGROUNDUP vstart <= vend ->
  wp (kinit1 kend vstart vend) (fun _ s' =>
    kmem_ok s' (reverse (pages_from (PGROUNDUP vstart) (Z.to_nat ((vend - PGROUNDUP vstart) / PGSIZE))))) s.
Proof.
  intros Hf Hk Hb Hv Hle. unfold kinit1. apply wp_bind, wp_modify. unfold freerange.
  pose proof (round_up_spec vstart ltac:(unfold KERNBASE, PHYSTOP, PGSIZE in *; lia)) as E.
  pose proof (Z.div_mod (vstart + PGSIZE - 1) PGSIZE ltac:(done)).
  pose proof (Z.mod_pos_bound (vstart + PGSIZE - 1) PGSIZE ltac:(done)).
  rewrite <- (app_nil_r (reverse _)). apply freerange_from_ok.
  - split; [done|constructor].
  - rewrite E, Z.mul_comm. by apply Z.mod_mul.
  - rewrite E in *. unfold PGSIZE in *. lia.
  - rewrite E in *. unfold PGSIZE in *. lia.
  - done.
  - intros q Hq. by apply elem_of_nil in Hq.
  - assert ((vend - PGROUNDUP vstart) / PGSIZE <= vend / PGSIZE).
    { apply Z.div_le_mono; [done|]. rewrite E. unfold KERNBASE, PGSIZE in *. lia. }
    assert (0 <= vend / PGSIZE) by (apply Z.div_pos; unfold KERNBASE, PGSIZE in *; lia). lia.
Qed.
End list.

(** The allocator started with two pages. *)
Definition kmem_zero : kmem := mkkmem (fun _ => 0) 0 false.
Definition pg (k : Z) : Z := KERNBASE + k * PGSIZE.
Definition kmem_two : kmem := freed (pg 1) (freed (pg 0) kmem_zero).
Lemma pg_ok k : 0 <= k < 1000 -> page_ok KERNBASE (pg k).
Proof.
  intros Hk. unfold pg, KERNBASE, PGSIZE. split; unfold KERNBASE, PHYSTOP, PGSIZE; try lia.
  rewrite Z.mod_add by lia. done.
Qed.
Lemma kmem_two_ok : kmem_ok KERNBASE kmem_two [pg 1; pg 0].
Proof.
  assert (H0 : kmem_ok KERNBASE kmem_zero []) by (split; [done|constructor]).
  destruct (kfree_run KERNBASE (pg 0) kmem_zero [] (pg_ok 0 ltac:(lia)) H0) as [_ H1]; [by apply not_elem_of_nil|].
  apply (kfree_run KERNBASE (pg 1)); [apply pg_ok; lia|done|]. intros Hin%list_elem_of_singleton. discriminate Hin.
Qed.
(** kinit1 makes it. *)
Lemma kmem_two_init : kinit1 KERNBASE KERNBASE (pg 2) kmem_zero = Ok (kmem_two, tt).
Proof. reflexivity. Qed.
Lemma pages_conserved_witness :
  exists s p, rtc (kstep KERNBASE) (kmem_two, []) (s, [p]) /\ NoDup [p] /\
    exists s' q, kalloc s = Ok (s', q) /\ ~ (q ∈ [p]).
Proof.
  destruct (kalloc_run KERNBASE kmem_two _ kmem_two_ok) as (s & Ha & _ & _ & Hp).
  assert (R : rtc (kstep KERNBASE) (kmem_two, []) (s, [pg 1])).
  { apply rtc_once. apply k_alloc; [exact Ha|discriminate]. }
  exists s, (pg 1). split; [exact R|].
  destruct (pages_conserved KERNBASE kmem_two _ s [pg 1] kmem_two_ok R) as (_ & Hn & s' & q & Hq & Hni & _).
  split; [exact Hn|]. exists s', q. split; [exact Hq|exact Hni].
Defined.
