(* ===== verification/Vm.v ===== *)
(** Virtual memory (vm.c): page directories and page tables as words in
    physical memory, on the page allocator of Kalloc.v.

    [kend] and [kdata] are addresses the linker defines.  Memory is indexed by
    kernel virtual address and a null pointer is address 0 of it; faults of the
    kernel itself are not modelled. *)
From S2P Require Import Prelude Cstring Kalloc.
Import string_c.

Definition EXTMEM : Z := 1048576.
Definition DEVSPACE : Z := 4261412864.
Definition KERNLINK : Z := KERNBASE + EXTMEM.
Definition NPDENTRIES : nat := 1024.
Definition PTE_P : Z := 1.
Definition PTE_W : Z := 2.
Definition PTE_U : Z := 4.
Definition PDX (va : Z) : Z := Z.land (Z.shiftr va 22) 1023.
Definition PTX (va : Z) : Z := Z.land (Z.shiftr va 12) 1023.
Definition PGADDR (d t o : Z) : Z := u32 (Z.lor (Z.lor (Z.shiftl d 22) (Z.shiftl t 12)) o).
Definition PTE_ADDR (pte : Z) : Z := Z.land pte (Z.lnot 4095).
Definition PTE_FLAGS (pte : Z) : Z := Z.land pte 4095.

Definition peek (a : Z) : M kmem Z := gets (fun s => load32 (pm s) a).
Definition poke (a v : Z) : M kmem unit := on_pm (fun m => store32 m a v).
(** [*pte & bit] *)
Definition has (bit pte : Z) : bool := negb (bool_decide (Z.land pte bit = 0)).

(** The address of the entry for [va], 0 if there is none. *)
Definition walkpgdir (pgdir va : Z) (alloc : bool) : M kmem Z :=
  let pde := pgdir + 4 * PDX va in
  e ← peek pde;
  if has PTE_P e then mret (P2V (PTE_ADDR e) + 4 * PTX va) else
  if negb alloc then mret 0 else
  pgtab ← kalloc;
  if decide (pgtab = 0) then mret 0 else
  on_pm (fun m => memset m pgtab 0 page);;
  poke pde (Z.lor (Z.lor (Z.lor (V2P pgtab) PTE_P) PTE_W) PTE_U);;
  mret (pgtab + 4 * PTX va).

Fixpoint mappages_loop (fuel : nat) (pgdir a last pa perm : Z) : M kmem Z :=
  match fuel with
  | O => mret 0
  | S fuel =>
      pte ← walkpgdir pgdir a true;
      if decide (pte = 0) then mret (-1) else
      e ← peek pte;
      if has PTE_P e then panic "remap" else
      poke pte (Z.lor (Z.lor pa perm) PTE_P);;
      if decide (a = last) then mret 0 else
      mappages_loop fuel pgdir (u32 (a + PGSIZE)) last (u32 (pa + PGSIZE)) perm
  end.
(** One turn for each page from the first to the last, modulo 2^32. *)
Definition mappages (pgdir va size pa perm : Z) : M kmem Z :=
  let a := PGROUNDDOWN va in
  let last := PGROUNDDOWN (u32 (va + size - 1)) in
  mappages_loop (S (Z.to_nat (u32 (last - a) / PGSIZE))) pgdir a last pa perm.

Section calls.
Context (kend kdata : Z).

Fixpoint deallocuvm_loop (fuel : nat) (pgdir a oldsz : Z) : M kmem unit :=
  match fuel with
  | O => mret tt
  | S fuel =>
      if decide (a < oldsz) then
        pte ← walkpgdir pgdir a false;
        if decide (pte = 0) then
          deallocuvm_loop fuel pgdir (u32 (u32 (PGADDR (PDX a + 1) 0 0 - PGSIZE) + PGSIZE)) oldsz
        else
          e ← peek pte;
          (if has PTE_P e then
             let pa := PTE_ADDR e in
             if decide (pa = 0) then panic "kfree" else
             kfree kend (P2V pa);;
             poke pte 0
           else mret tt);;
          deallocuvm_loop fuel pgdir (u32 (a + PGSIZE)) oldsz
      else mret tt
  end.
Definition deallocuvm (pgdir oldsz newsz : Z) : M kmem Z :=
  if decide (newsz >= oldsz) then mret oldsz else
  deallocuvm_loop (S (Z.to_nat (oldsz / PGSIZE))) pgdir (PGROUNDUP newsz) oldsz;;
  mret newsz.

Fixpoint allocuvm_loop (fuel : nat) (pgdir a oldsz newsz : Z) : M kmem Z :=
  match fuel with
  | O => mret newsz
  | S fuel =>
      if decide (a < newsz) then
        mem ← kalloc;
        if decide (mem = 0) then deallocuvm pgdir newsz oldsz;; mret 0 else
        on_pm (fun m => memset m mem 0 page);;
        r ← mappages pgdir a PGSIZE (V2P mem) (Z.lor PTE_W PTE_U);
        if decide (r < 0) then deallocuvm pgdir newsz oldsz;; kfree kend mem;; mret 0 else
        allocuvm_loop fuel pgdir (u32 (a + PGSIZE)) oldsz newsz
      else mret newsz
  end.
Definition allocuvm (pgdir oldsz newsz : Z) : M kmem Z :=
  if decide (newsz >= KERNBASE) then mret 0 else
  if decide (newsz < oldsz) then mret oldsz else
  allocuvm_loop (S (Z.to_nat (newsz / PGSIZE))) pgdir (PGROUNDUP oldsz) oldsz newsz.

Definition freevm (pgdir : Z) : M kmem unit :=
  if decide (pgdir = 0) then panic "freevm: no pgdir" else
  deallocuvm pgdir KERNBASE 0;;
  mfor (seq 0 NPDENTRIES) (fun i =>
    e ← peek (pgdir + 4 * Z.of_nat i);
    if has PTE_P e then kfree kend (P2V (PTE_ADDR e)) else mret tt);;
  kfree kend pgdir.

(** struct kmap: the kernel's mappings. *)
Record kmap := mkkmap { virt : Z; phys_start : Z; phys_end : Z; kperm : Z }.
Definition kmaps : list kmap :=
  [ mkkmap KERNBASE 0 EXTMEM PTE_W;
    mkkmap KERNLINK (V2P KERNLINK) (V2P kdata) 0;
    mkkmap kdata (V2P kdata) PHYSTOP PTE_W;
    mkkmap DEVSPACE DEVSPACE 0 PTE_W ].
Fixpoint setupkvm_loop (pgdir : Z) (ks : list kmap) : M kmem Z :=
  match ks with
  | [] => mret pgdir
  | k :: ks =>
      r ← mappages pgdir (virt k) (u32 (phys_end k - phys_start k)) (phys_start k) (kperm k);
      if decide (r < 0) then freevm pgdir;; mret 0 else setupkvm_loop pgdir ks
  end.
Definition setupkvm : M kmem Z :=
  pgdir ← kalloc;
  if decide (pgdir = 0) then mret 0 else
  on_pm (fun m => memset m pgdir 0 page);;
  if decide (P2V PHYSTOP > DEVSPACE) then panic "PHYSTOP too high" else
  setupkvm_loop pgdir kmaps.

(** [init] are the bytes of the program. *)
Definition inituvm (pgdir : Z) (init : list Z) : M kmem unit :=
  if decide (Z.of_nat (length init) >= PGSIZE) then panic "inituvm: more than a page" else
  mem ← kalloc;
  on_pm (fun m => memset m mem 0 page);;
  mappages pgdir 0 PGSIZE (V2P mem) (Z.lor PTE_W PTE_U);;
  on_pm (fun m => put_bytes m mem init).

(** loaduvm; [rd off n] is readi on the inode: the count and the bytes.  It
    works on the file system too, so both are parts of a larger state. *)
Fixpoint loaduvm_loop {S} (onk : forall A, M kmem A -> M S A) (rd : Z -> Z -> M S (Z * list Z))
    (fuel : nat) (pgdir addr offset i sz : Z) : M S Z :=
  match fuel with
  | O => mret 0
  | S fuel =>
      if decide (i < sz) then
        pte ← onk _ (walkpgdir pgdir (u32 (addr + i)) false);
        if decide (pte = 0) then panic "loaduvm: address should exist" else
        e ← onk _ (peek pte);
        let pa := PTE_ADDR e in
        let n := if decide (sz - i < PGSIZE) then sz - i else PGSIZE in
        r ← rd (u32 (offset + i)) n;
        onk _ (on_pm (fun m => put_bytes m (P2V pa) r.2));;
        if decide (r.1 <> n) then mret (-1) else
        loaduvm_loop onk rd fuel pgdir addr offset (u32 (i + PGSIZE)) sz
      else mret 0
  end.
Definition loaduvm {S} (onk : forall A, M kmem A -> M S A) (rd : Z -> Z -> M S (Z * list Z))
    (pgdir addr offset sz : Z) : M S Z :=
  if decide (addr mod PGSIZE <> 0) then panic "loaduvm: addr must be page aligned" else
  loaduvm_loop onk rd (Datatypes.S (Z.to_nat (sz / PGSIZE))) pgdir addr offset 0 sz.

Definition clearpteu (pgdir uva : Z) : M kmem unit :=
  pte ← walkpgdir pgdir uva false;
  if decide (pte = 0) then panic "clearpteu" else
  e ← peek pte;
  poke pte (Z.land e (Z.lnot PTE_U)).

Fixpoint copyuvm_loop (fuel : nat) (pgdir d i sz : Z) : M kmem Z :=
  match fuel with
  | O => mret d
  | S fuel =>
      if decide (i < sz) then
        pte ← walkpgdir pgdir i false;
        if decide (pte = 0) then panic "copyuvm: pte should exist" else
        e ← peek pte;
        if negb (has PTE_P e) then panic "copyuvm: page not present" else
        let pa := PTE_ADDR e in
        let flags := PTE_FLAGS e in
        mem ← kalloc;
        if decide (mem = 0) then freevm d;; mret 0 else
        on_pm (fun m => memmove m mem (P2V pa) page);;
        r ← mappages d i PGSIZE (V2P mem) flags;
        if decide (r < 0) then kfree kend mem;; freevm d;; mret 0 else
        copyuvm_loop fuel pgdir d (u32 (i + PGSIZE)) sz
      else mret d
  end.
Definition copyuvm (pgdir sz : Z) : M kmem Z :=
  d ← setupkvm;
  if decide (d = 0) then mret 0 else
  copyuvm_loop (S (Z.to_nat (sz / PGSIZE))) pgdir d 0 sz.
End calls.

Definition uva2ka (pgdir uva : Z) : M kmem Z :=
  pte ← walkpgdir pgdir uva false;
  e ← peek pte;
  if negb (has PTE_P e) then mret 0 else
  if negb (has PTE_U e) then mret 0 else
  mret (P2V (PTE_ADDR e)).

(** copyout of the bytes [buf]. *)
Fixpoint copyout_loop (fuel : nat) (pgdir va : Z) (buf : list Z) : M kmem Z :=
  match fuel with
  | O => mret 0
  | S fuel =>
      if decide (buf = []) then mret 0 else
      let va0 := PGROUNDDOWN va in
      pa0 ← uva2ka pgdir va0;
      if decide (pa0 = 0) then mret (-1) else
      let n := PGSIZE - (va - va0) in
      let n := if decide (n > Z.of_nat (length buf)) then Z.of_nat (length buf) else n in
      on_pm (fun m => put_bytes m (pa0 + (va - va0)) (take (Z.to_nat n) buf));;
      copyout_loop fuel pgdir (u32 (va0 + PGSIZE)) (drop (Z.to_nat n) buf)
  end.
(** At least one byte is copied in each turn. *)
Definition copyout (pgdir va : Z) (buf : list Z) : M kmem Z :=
  copyout_loop (S (length buf)) pgdir va buf.

(** The kernel's page table and the page table register. *)
Record mmu := mkmmu { km : kmem; kpgdir : Z; cr3 : Z }.
#[export] Instance eta_mmu : Eta mmu := fun s => mkmmu (km s) (kpgdir s) (cr3 s).
Definition switchkvm : M mmu unit := modify (fun s => s <| cr3 := V2P (kpgdir s) |>).
Definition kvmalloc (kend kdata : Z) : M mmu unit :=
  p ← zoom km (fun k s => s <| km := k |>) (setupkvm kend kdata);
  modify (fun s => s <| kpgdir := p |>);;
  switchkvm.
