(* ===== verification/VmFacts.v ===== *)
(** Page tables as maps: every virtual page has an entry, which mappages sets
    for the pages of its range and leaves alone for all others; copyout writes
    through the map. *)
From S2P Require Import Prelude Cstring Kalloc Vm.
Import string_c.

(** ** Entries as words *)

Section bits.
Implicit Types (a b e k x : Z).
Lemma has_testbit e k : 0 <= k -> has (2 ^ k) e = Z.testbit e k.
Proof.
  intros Hk. unfold has. destruct (Z.testbit e k) eqn:E.
  - rewrite bool_decide_false; [done|]. intros H.
    assert (Hb : Z.testbit (Z.land e (2 ^ k)) k = true) by (rewrite Z.land_spec, Z.pow2_bits_true, E by lia; done).
    by rewrite H, Z.bits_0 in Hb.
  - rewrite bool_decide_true; [done|]. apply Z.bits_inj_0. intros j. rewrite Z.land_spec.
    destruct (decide (j = k)) as [->|]; [by rewrite E|]. rewrite Z.pow2_bits_false by lia. apply andb_false_r.
Qed.
Lemma pte_addr_spec e : PTE_ADDR e = PGSIZE * (e / PGSIZE).
Proof. apply round_down_spec. Qed.
Lemma pte_flags_spec e : PTE_FLAGS e = e mod PGSIZE.
Proof. unfold PTE_FLAGS, PGSIZE. change 4095 with (Z.ones 12). by rewrite Z.land_ones by lia. Qed.
Lemma lor_low a b : a mod PGSIZE = 0 -> 0 <= b < PGSIZE -> Z.lor a b = a + b.
Proof.
  intros Ha Hb. assert (Hl : Z.land a b = 0).
  { apply Z.bits_inj_0. intros j. rewrite Z.land_spec. destruct (decide (j < 12)) as [Hj|Hj].
    - destruct (decide (0 <= j)); [|by rewrite Z.testbit_neg_r by lia].
      rewrite <- (Z.mod_pow2_bits_low a 12) by lia. change (2 ^ 12) with PGSIZE. by rewrite Ha, Z.bits_0.
    - rewrite <- (Z.mod_small b PGSIZE Hb). unfold PGSIZE. rewrite (Z.mod_pow2_bits_high b 12) by lia. apply andb_false_r. }
  rewrite <- Z.lxor_lor by done. symmetry. by apply Z.add_nocarry_lxor.
Qed.
Lemma bit_low a b k : a mod PGSIZE = 0 -> 0 <= k < 12 -> Z.testbit (a + b) k = Z.testbit b k.
Proof.
  intros Ha Hk. rewrite <- (Z.mod_pow2_bits_low (a + b) 12), <- (Z.mod_pow2_bits_low b 12) by lia.
  change (2 ^ 12) with PGSIZE. rewrite <- Z.add_mod_idemp_l, Ha by done. done.
Qed.
(** The entry mappages writes. *)
Definition pte_of (pa perm : Z) : Z := Z.lor (Z.lor pa perm) PTE_P.
Lemma perm_lor perm : 0 <= perm < PGSIZE -> 0 <= Z.lor perm PTE_P < PGSIZE.
Proof.
  intros Hp. split; [apply Z.lor_nonneg; split; [lia|done]|].
  destruct (decide (Z.lor perm PTE_P = 0)) as [->|Hne]; [done|].
  apply (Z.log2_lt_pow2 _ 12); [pose proof (Z.lor_nonneg perm PTE_P); unfold PTE_P in *; lia|].
  rewrite Z.log2_lor by (unfold PTE_P; lia). apply Z.max_lub_lt; [|done].
  destruct (decide (perm = 0)) as [->|]; [done|]. apply Z.log2_lt_pow2; [lia|]. exact (proj2 Hp).
Qed.
Lemma pte_of_sum pa perm : pa mod PGSIZE = 0 -> 0 <= perm < PGSIZE -> pte_of pa perm = pa + Z.lor perm PTE_P.
Proof. intros Ha Hp. unfold pte_of. rewrite <- Z.lor_assoc. apply lor_low; [done|]. by apply perm_lor. Qed.
Lemma pte_of_addr pa perm : pa mod PGSIZE = 0 -> 0 <= perm < PGSIZE -> PTE_ADDR (pte_of pa perm) = pa.
Proof.
  intros Ha Hp. rewrite pte_of_sum, pte_addr_spec by done. pose proof (perm_lor perm Hp) as Hb.
  unfold PGSIZE in *. Z.to_euclidean_division_equations. lia.
Qed.
Lemma pte_of_present pa perm : has PTE_P (pte_of pa perm) = true.
Proof. change PTE_P with (2 ^ 0) at 1. rewrite has_testbit by lia. unfold pte_of. rewrite Z.lor_spec. apply orb_true_r. Qed.
Lemma pte_of_range pa perm : is_u32 pa -> pa mod PGSIZE = 0 -> 0 <= perm < PGSIZE -> is_u32 (pte_of pa perm).
Proof.
  intros Hr Ha Hp. rewrite pte_of_sum by done. pose proof (perm_lor perm Hp). unfold is_u32, PGSIZE in *.
  Z.to_euclidean_division_equations. lia.
Qed.
Lemma pdx_spec x : 0 <= x -> PDX x = x / 2 ^ 22 mod 1024.
Proof. intros. unfold PDX. change 1023 with (Z.ones 10). by rewrite Z.land_ones, Z.shiftr_div_pow2 by lia. Qed.
Lemma ptx_spec x : 0 <= x -> PTX x = x / 2 ^ 12 mod 1024.
Proof. intros. unfold PTX. change 1023 with (Z.ones 10). by rewrite Z.land_ones, Z.shiftr_div_pow2 by lia. Qed.
Lemma pdx_range x : 0 <= PDX x < 1024.
Proof. unfold PDX. change 1023 with (Z.ones 10). rewrite Z.land_ones by lia. apply Z.mod_pos_bound. lia. Qed.
Lemma ptx_range x : 0 <= PTX x < 1024.
Proof. unfold PTX. change 1023 with (Z.ones 10). rewrite Z.land_ones by lia. apply Z.mod_pos_bound. lia. Qed.
(** The two indices determine the page. *)
Lemma index_page x y : is_u32 x -> is_u32 y -> PDX x = PDX y -> PTX x = PTX y -> x / PGSIZE = y / PGSIZE.
Proof.
  unfold is_u32. intros Hx Hy. rewrite !pdx_spec, !ptx_spec by lia. unfold PGSIZE.
  change (2 ^ 22) with 4194304. change (2 ^ 12) with 4096. change (2 ^ 32) with 4294967296 in *.
  Z.to_euclidean_division_equations. lia.
Qed.
Lemma page_index x y : is_u32 x -> is_u32 y -> x / PGSIZE = y / PGSIZE -> PDX x = PDX y /\ PTX x = PTX y.
Proof.
  unfold is_u32. intros Hx Hy E. rewrite !pdx_spec, !ptx_spec by lia. unfold PGSIZE in E.
  change (2 ^ 22) with (4096 * 1024). change (2 ^ 12) with 4096. rewrite <- !Z.div_div, E by lia. done.
Qed.
End bits.

(** ** Page tables *)

Section tables.
Context (kend : Z).
Implicit Types (m : mem) (s : kmem) (l : list Z) (pgdir va d t : Z).
Definition present m pgdir d : bool := has PTE_P (load32 m (pgdir + 4 * d)).
Definition tab m pgdir d : Z := P2V (PTE_ADDR (load32 m (pgdir + 4 * d))).
(** The entry of the page of [va]; 0 where there is no table. *)
Definition entry m pgdir va : Z :=
  if present m pgdir (PDX va) then load32 m (tab m pgdir (PDX va) + 4 * PTX va) else 0.

(** A page directory and its tables are pages of their own, not free. *)
Record pt_ok s l pgdir : Prop := {
  pt_free : kmem_ok kend s l;
  pt_dir : page_ok kend pgdir /\ pgdir ∉ l;
  pt_tab : forall d, 0 <= d < 1024 -> present (pm s) pgdir d = true ->
    page_ok kend (tab (pm s) pgdir d) /\ ~ (tab (pm s) pgdir d ∈ l) /\ tab (pm s) pgdir d <> pgdir;
  pt_inj : forall d d', 0 <= d < 1024 -> 0 <= d' < 1024 ->
    present (pm s) pgdir d = true -> present (pm s) pgdir d' = true ->
    tab (pm s) pgdir d = tab (pm s) pgdir d' -> d = d';
}.

Lemma word_on_page p k x : 0 <= k < 1024 -> p + 4 * k <= x < p + 4 * k + 4 -> on_page p x.
Proof. unfold on_page, PGSIZE. lia. Qed.
(** Writes outside the directory and the tables change no entry. *)
Lemma dir_frame m m' pgdir d :
  0 <= d < 1024 -> (forall x, on_page pgdir x -> m' x = m x) ->
  present m' pgdir d = present m pgdir d /\ tab m' pgdir d = tab m pgdir d.
Proof.
  intros Hd H. unfold present, tab.
  assert (E : load32 m' (pgdir + 4 * d) = load32 m (pgdir + 4 * d)).
  { apply load32_ext. intros x Hx. apply H. eapply word_on_page; eauto. }
  by rewrite E.
Qed.
Lemma entry_frame m m' pgdir va :
  (forall x, on_page pgdir x -> m' x = m x) ->
  (forall x, present m pgdir (PDX va) = true -> on_page (tab m pgdir (PDX va)) x -> m' x = m x) ->
  entry m' pgdir va = entry m pgdir va.
Proof.
  intros H1 H2. unfold entry. destruct (dir_frame m m' pgdir (PDX va) (pdx_range va) H1) as [-> ->].
  destruct (present m pgdir (PDX va)) eqn:E; [|done]. apply load32_ext. intros x Hx. apply H2; [done|].
  eapply word_on_page; [apply ptx_range|exact Hx].
Qed.
Lemma page_apart p q x : page_ok kend p -> page_ok kend q -> p <> q -> on_page p x -> ~ on_page q x.
Proof. intros Hp Hq Hne Hx Hy. apply Hne. eapply page_disjoint; eauto. Qed.

(** The entry of [va] is set to [v]. *)
Definition set_entry pgdir va (v : Z) s : kmem :=
  s <| pm ::= fun m => store32 m (tab (pm s) pgdir (PDX va) + 4 * PTX va) v |>.
Lemma set_entry_other pgdir va v s x :
  ~ on_page (tab (pm s) pgdir (PDX va)) x -> pm (set_entry pgdir va v s) x = pm s x.
Proof.
  intros Hx. unfold set_entry. simpl. rewrite store32_spec, decide_False; [done|].
  intros H. apply Hx. eapply word_on_page; [apply (ptx_range va)|lia].
Qed.
Lemma set_entry_ok s l pgdir va v :
  pt_ok s l pgdir -> present (pm s) pgdir (PDX va) = true -> is_u32 va -> is_u32 v ->
  pt_ok (set_entry pgdir va v s) l pgdir /\
  (forall d, 0 <= d < 1024 -> present (pm (set_entry pgdir va v s)) pgdir d = present (pm s) pgdir d /\
             tab (pm (set_entry pgdir va v s)) pgdir d = tab (pm s) pgdir d) /\
  (forall va', is_u32 va' -> entry (pm (set_entry pgdir va v s)) pgdir va' =
     if decide (va' / PGSIZE = va / PGSIZE) then v else entry (pm s) pgdir va').
Proof.
  intros H Hp Hva Hv. destruct (pt_tab _ _ _ H _ (pdx_range va) Hp) as (Ht & Hl & Hne).
  destruct (pt_dir _ _ _ H) as [Hpd Hpl].
  assert (Hdir : forall x, on_page pgdir x -> pm (set_entry pgdir va v s) x = pm s x).
  { intros x Hx. apply set_entry_other. eapply page_apart; eauto. }
  assert (Hd := fun d Hr => dir_frame (pm s) (pm (set_entry pgdir va v s)) pgdir d Hr Hdir).
  split; [|split; [exact Hd|]].
  - split.
    + destruct (pt_free _ _ _ H) as [Hc Hn]. split; [|done]. eapply chain_frame; [|exact Hc].
      intros p x Hin Hx. apply set_entry_other. pose proof (chain_pages _ _ _ _ Hc) as Hall. rewrite Forall_forall in Hall.
      apply (page_apart p); [by apply Hall|done|by intros ->|done].
    + done.
    + intros d Hr. destruct (Hd d Hr) as [-> ->]. by apply (pt_tab _ _ _ H).
    + intros d d' Hr Hr'. destruct (Hd d Hr) as [-> ->], (Hd d' Hr') as [-> ->]. by apply (pt_inj _ _ _ H).
  - intros va' Hva'. unfold entry. destruct (Hd _ (pdx_range va')) as [-> ->].
    case_decide as E.
    + destruct (page_index va' va Hva' Hva E) as [-> ->]. rewrite Hp. unfold set_entry. simpl.
      rewrite load32_store32. by apply u32_small.
    + destruct (present (pm s) pgdir (PDX va')) eqn:Ep; [|done].
      destruct (decide (PDX va' = PDX va)) as [Ed|Ed].
      * rewrite Ed. unfold set_entry. simpl. apply load32_store32_ne.
        assert (PTX va' <> PTX va) by (intros Et; apply E; by apply index_page). lia.
      * destruct (pt_tab _ _ _ H _ (pdx_range va') Ep) as (Ht' & _ & _).
        apply load32_ext. intros x Hx. apply set_entry_other. eapply page_apart; [| | |eapply word_on_page; [apply ptx_range|exact Hx]]; try done.
        intros Et. apply Ed. by apply (pt_inj _ _ _ H); try apply pdx_range.
Qed.

(** A new, empty table [p] for the directory entry [d]. *)
Definition new_tab pgdir d p s : kmem :=
  s <| pm ::= fun m => store32 (memset m p 0 page) (pgdir + 4 * d)
                 (Z.lor (Z.lor (Z.lor (V2P p) PTE_P) PTE_W) PTE_U) |>.
Lemma new_tab_word p : page_ok kend p ->
  Z.lor (Z.lor (Z.lor (V2P p) PTE_P) PTE_W) PTE_U = V2P p + 7 /\ V2P p mod PGSIZE = 0 /\ is_u32 (V2P p + 7) /\
  P2V (V2P p) = p.
Proof.
  intros [Ha [_ Hb] Hh]. unfold V2P, P2V, KERNBASE, PHYSTOP in *.
  rewrite !(u32_small (p - _)) by (unfold is_u32; lia).
  assert (Hm : (p - 2147483648) mod PGSIZE = 0).
  { unfold PGSIZE in *. Z.to_euclidean_division_equations. lia. }
  rewrite <- !Z.lor_assoc. rewrite lor_low by done. split; [done|]. split; [done|]. unfold is_u32.
  split; [lia|]. rewrite u32_small by (unfold is_u32; lia). lia.
Qed.
Lemma new_tab_other pgdir d p s x :
  0 <= d < 1024 -> ~ on_page pgdir x -> ~ on_page p x -> pm (new_tab pgdir d p s) x = pm s x.
Proof.
  intros Hd H1 H2. unfold new_tab. simpl. rewrite store32_spec, decide_False.
  - rewrite memset_fill, decide_False; [done|]. exact H2.
  - intros H. apply H1. eapply word_on_page; eauto.
Qed.
Lemma new_tab_dir pgdir d p s d' :
  page_ok kend p -> page_ok kend pgdir -> p <> pgdir -> 0 <= d < 1024 -> 0 <= d' < 1024 ->
  load32 (pm (new_tab pgdir d p s)) (pgdir + 4 * d') =
    if decide (d' = d) then V2P p + 7 else load32 (pm s) (pgdir + 4 * d').
Proof.
  intros Hp Hg Hne Hd Hd'. destruct (new_tab_word p Hp) as (E & _ & Hr & _). unfold new_tab. simpl. rewrite E.
  case_decide as Ed; [subst d'; rewrite load32_store32; by apply u32_small|].
  rewrite load32_store32_ne by lia. apply load32_ext. intros x Hx.
  rewrite memset_fill, decide_False; [done|]. change (~ on_page p x). eapply page_apart; [exact Hg|exact Hp|done|].
  eapply word_on_page; [|exact Hx]. done.
Qed.
Lemma new_tab_zero pgdir d p s t :
  page_ok kend p -> page_ok kend pgdir -> p <> pgdir -> 0 <= d < 1024 -> 0 <= t < 1024 ->
  load32 (pm (new_tab pgdir d p s)) (p + 4 * t) = 0.
Proof.
  intros Hp Hg Hne Hd Ht. rewrite (load32_ext _ (fun _ => 0)); [done|]. intros x Hx.
  assert (Hon : on_page p x) by (eapply word_on_page; eauto).
  unfold new_tab. simpl. rewrite store32_spec, decide_False.
  - rewrite memset_fill, decide_True by exact Hon. done.
  - intros Hin. assert (Hx' : on_page pgdir x) by (eapply word_on_page; [|exact Hin]; done).
    exact (page_apart p pgdir x Hp Hg Hne Hon Hx').
Qed.
Lemma new_tab_ok s s1 l pgdir va p :
  pt_ok s (p :: l) pgdir -> present (pm s) pgdir (PDX va) = false ->
  pm s1 = pm s -> kmem_ok kend s1 l ->
  let s2 := new_tab pgdir (PDX va) p s1 in
  pt_ok s2 l pgdir /\ present (pm s2) pgdir (PDX va) = true /\ tab (pm s2) pgdir (PDX va) = p /\
  (forall va', entry (pm s2) pgdir va' = entry (pm s) pgdir va').
Proof.
  intros H Hnp Hpm Hk s2. destruct (pt_dir _ _ _ H) as [Hg Hgl]. pose proof (pt_free _ _ _ H) as [Hc Hnd].
  assert (Hp : page_ok kend p) by (by destruct Hc as (_ & ? & _)).
  assert (Hne : p <> pgdir) by (intros ->; apply Hgl; by left).
  assert (Hpl : p ∉ l) by (by inversion Hnd).
  pose proof (pdx_range va) as Hd. destruct (new_tab_word p Hp) as (_ & Ha & _ & Hpv).
  assert (Hw := fun d' Hr => new_tab_dir pgdir (PDX va) p s1 d' Hp Hg Hne Hd Hr). fold s2 in Hw. rewrite Hpm in Hw.
  assert (Hpres : forall d', 0 <= d' < 1024 ->
    present (pm s2) pgdir d' = (if decide (d' = PDX va) then true else present (pm s) pgdir d') /\
    tab (pm s2) pgdir d' = (if decide (d' = PDX va) then p else tab (pm s) pgdir d')).
  { intros d' Hr. unfold present, tab. rewrite Hw by done. case_decide; [|done]. split.
    - change PTE_P with (2 ^ 0). rewrite has_testbit, bit_low by (done || lia). done.
    - rewrite pte_addr_spec. replace (PGSIZE * ((V2P p + 7) / PGSIZE)) with (V2P p); [done|].
      unfold PGSIZE in *. Z.to_euclidean_division_equations. lia. }
  assert (Hother : forall x, ~ on_page pgdir x -> ~ on_page p x -> pm s2 x = pm s x).
  { intros x H1 H2. rewrite <- Hpm. by apply new_tab_other. }
  assert (Hold : forall d', 0 <= d' < 1024 -> present (pm s) pgdir d' = true ->
    page_ok kend (tab (pm s) pgdir d') /\ tab (pm s) pgdir d' <> p /\ ~ (tab (pm s) pgdir d' ∈ l) /\ tab (pm s) pgdir d' <> pgdir).
  { intros d' Hr Hp'. destruct (pt_tab _ _ _ H d' Hr Hp') as (H1 & H2 & H3). split; [done|].
    split; [intros E; apply H2; rewrite E; by left|]. split; [|done]. intros Hin. apply H2. by right. }
  split; [|split; [|split]].
  - split.
    + destruct Hk as [Hc1 Hn1]. split; [|done]. eapply chain_frame; [|exact Hc1]. intros q x Hq Hx. rewrite Hpm.
      pose proof (chain_pages _ _ _ _ Hc1) as Hall. rewrite Forall_forall in Hall.
      apply Hother; (eapply page_apart; [by apply Hall|done| |done]); [|by intros ->].
      intros ->. apply Hgl. by right.
    + split; [done|]. intros Hin. apply Hgl. by right.
    + intros d' Hr. destruct (Hpres d' Hr) as [-> ->]. case_decide; [done|]. intros Hp'.
      destruct (Hold d' Hr Hp') as (? & ? & ? & ?). done.
    + intros d1 d2 Hr1 Hr2. destruct (Hpres d1 Hr1) as [-> ->], (Hpres d2 Hr2) as [-> ->].
      case_decide as E1; case_decide as E2; intros P1 P2 E; [congruence| | |by apply (pt_inj _ _ _ H)].
      * destruct (Hold d2 Hr2 P2) as (_ & ? & _). congruence.
      * destruct (Hold d1 Hr1 P1) as (_ & ? & _). congruence.
  - destruct (Hpres _ Hd) as [-> _]. by rewrite decide_True.
  - destruct (Hpres _ Hd) as [_ ->]. by rewrite decide_True.
  - intros va'. unfold entry. destruct (Hpres _ (pdx_range va')) as [-> ->]. case_decide as E.
    + rewrite E, Hnp. apply new_tab_zero; try done. apply ptx_range.
    + destruct (present (pm s) pgdir (PDX va')) eqn:Ep; [|done].
      destruct (Hold _ (pdx_range va') Ep) as (H1 & H2 & _ & H3). apply load32_ext. intros x Hx.
      assert (Hon : on_page (tab (pm s) pgdir (PDX va')) x) by (eapply word_on_page; [apply ptx_range|exact Hx]).
      apply Hother; (eapply page_apart; [exact H1|done|done|done]).
Qed.

(** ** walkpgdir and mappages *)

Lemma walk_hit s pgdir va alloc :
  present (pm s) pgdir (PDX va) = true ->
  walkpgdir pgdir va alloc s = Ok (s, tab (pm s) pgdir (PDX va) + 4 * PTX va).
Proof.
  intros Hp. unfold walkpgdir. rewrite (bind_run _ _ s s (load32 (pm s) (pgdir + 4 * PDX va))) by done.
  unfold present in Hp. by rewrite Hp.
Qed.
Lemma walk_miss s pgdir va :
  present (pm s) pgdir (PDX va) = false -> walkpgdir pgdir va false s = Ok (s, 0).
Proof.
  intros Hp. unfold walkpgdir. rewrite (bind_run _ _ s s (load32 (pm s) (pgdir + 4 * PDX va))) by done.
  unfold present in Hp. by rewrite Hp.
Qed.
(** With allocation: the table is there afterwards and no entry changed, or
    the free pages have run out. *)
Lemma walk_alloc s l pgdir va :
  pt_ok s l pgdir ->
  (exists s' l', walkpgdir pgdir va true s = Ok (s', tab (pm s') pgdir (PDX va) + 4 * PTX va) /\
     pt_ok s' l' pgdir /\ l' `suffix_of` l /\ present (pm s') pgdir (PDX va) = true /\
     forall va', entry (pm s') pgdir va' = entry (pm s) pgdir va') \/
  (l = [] /\ walkpgdir pgdir va true s = Ok (s, 0)).
Proof.
  intros H. destruct (present (pm s) pgdir (PDX va)) eqn:Hp.
  - left. exists s, l. by rewrite walk_hit.
  - unfold walkpgdir. rewrite (bind_run _ _ s s (load32 (pm s) (pgdir + 4 * PDX va))) by done.
    pose proof Hp as Hp'. unfold present in Hp'. rewrite Hp'. cbn [negb].
    pose proof (kalloc_run kend s l (pt_free _ _ _ H)) as Ha. destruct l as [|p l].
    + right. split; [done|]. rewrite (bind_run _ _ _ _ _ Ha). by rewrite decide_True.
    + left. destruct Ha as (s1 & Ha & Hpm & Hk & Hpg).
      destruct (new_tab_ok s s1 l pgdir va p H Hp Hpm Hk) as (H2 & Hp2 & Ht2 & He2).
      exists (new_tab pgdir (PDX va) p s1), l. rewrite (bind_run _ _ _ _ _ Ha).
      rewrite decide_False by (pose proof (page_pos _ _ Hpg); lia).
      split; [by rewrite Ht2|]. split; [done|]. split; [by exists [p]|]. split; done.
Qed.

(** Pages [a], ..., [a + PGSIZE * n] are mapped to [pa], .... *)
Definition mapped_to pgdir a (n : nat) (pa perm : Z) m m' : Prop :=
  forall va, is_u32 va ->
    entry m' pgdir va =
      if decide (a / PGSIZE <= va / PGSIZE <= a / PGSIZE + Z.of_nat n)
      then pte_of (pa + PGSIZE * (va / PGSIZE - a / PGSIZE)) perm else entry m pgdir va.
(** One turn of the loop of mappages. *)
Lemma map_one s l pgdir a last pa perm fuel :
  pt_ok s l pgdir -> 0 <= perm < PGSIZE -> is_u32 a -> pa mod PGSIZE = 0 -> is_u32 pa ->
  has PTE_P (entry (pm s) pgdir a) = false ->
  (exists s1 l1,
     mappages_loop (S fuel) pgdir a last pa perm s =
       (if decide (a = last) then mret 0 else
        mappages_loop fuel pgdir (u32 (a + PGSIZE)) last (u32 (pa + PGSIZE)) perm) s1 /\
     pt_ok s1 l1 pgdir /\ l1 `suffix_of` l /\
     forall va, is_u32 va -> entry (pm s1) pgdir va =
       if decide (va / PGSIZE = a / PGSIZE) then pte_of pa perm else entry (pm s) pgdir va) \/
  (l = [] /\ mappages_loop (S fuel) pgdir a last pa perm s = Ok (s, -1)).
Proof.
  intros H Hperm Ha Hpa Hpu Hno. cbn [mappages_loop].
  destruct (walk_alloc s l pgdir a H) as [(s1 & l1 & Hw & H1 & Hs1 & Hp1 & He1)|[-> Hw]];
    rewrite (bind_run _ _ _ _ _ Hw).
  - left. destruct (pt_tab _ _ _ H1 _ (pdx_range a) Hp1) as (Ht & _ & _).
    pose proof (page_pos _ _ Ht) as Hpos. pose proof (ptx_range a) as Hptx. rewrite decide_False by lia.
    rewrite (bind_run _ _ s1 s1 (entry (pm s1) pgdir a)) by (unfold peek, gets, entry; by rewrite Hp1).
    rewrite He1, Hno.
    destruct (set_entry_ok s1 l1 pgdir a (pte_of pa perm) H1 Hp1 Ha) as (H2 & _ & He2).
    { by apply pte_of_range. }
    exists (set_entry pgdir a (pte_of pa perm) s1), l1. split; [done|]. split; [done|]. split; [done|].
    intros va Hva. rewrite He2 by done. case_decide; [done|apply He1].
  - right. by rewrite decide_True.
Qed.
Lemma div_page a k : a mod PGSIZE = 0 -> (a + PGSIZE * k) / PGSIZE = a / PGSIZE + k.
Proof. intros Ha. rewrite Z.mul_comm, Z.div_add by done. done. Qed.
Lemma mappages_loop_spec pgdir perm n : forall a pa s l,
  pt_ok s l pgdir -> 0 <= perm < PGSIZE -> a mod PGSIZE = 0 -> pa mod PGSIZE = 0 -> 0 <= a -> 0 <= pa ->
  a + PGSIZE * Z.of_nat n < 2 ^ 32 -> pa + PGSIZE * Z.of_nat n < 2 ^ 32 ->
  (forall va, is_u32 va -> a / PGSIZE <= va / PGSIZE <= a / PGSIZE + Z.of_nat n ->
     has PTE_P (entry (pm s) pgdir va) = false) ->
  wp (mappages_loop (S n) pgdir a (a + PGSIZE * Z.of_nat n) pa perm) (fun r s' =>
    exists l', pt_ok s' l' pgdir /\ l' `suffix_of` l /\
      ((r = 0 /\ mapped_to pgdir a n pa perm (pm s) (pm s')) \/
       (r = -1 /\ l' = [] /\ forall va, is_u32 va ->
          ~ (a / PGSIZE <= va / PGSIZE <= a / PGSIZE + Z.of_nat n) -> entry (pm s') pgdir va = entry (pm s) pgdir va))) s.
Proof.
  induction n as [|n IH]; intros a pa s l H Hperm Ha Hpa Ha0 Hpa0 Hal Hpl Hno;
    (assert (Hau : is_u32 a) by (unfold is_u32, PGSIZE in *; lia));
    (assert (Hpu : is_u32 pa) by (unfold is_u32, PGSIZE in *; lia));
    match goal with |- wp (mappages_loop (S ?f) _ _ ?last _ _) _ _ =>
      destruct (map_one s l pgdir a last pa perm f H Hperm Hau Hpa Hpu) as [(s1 & l1 & E & H1 & Hs1 & He1)|[-> E]];
      [apply Hno; [done|lia]| |unfold wp; rewrite E; exists []; split; [done|]; split; [done|]; by right]
    end; unfold wp at 1; rewrite E.
  - rewrite decide_True by lia. exists l1. split; [done|]. split; [done|]. left. split; [done|].
    intros va Hva. rewrite He1 by done. change (Z.of_nat 0) with 0. destruct (decide (va / PGSIZE = a / PGSIZE)) as [E1|E1].
    + rewrite decide_True by lia. rewrite E1, Z.sub_diag, Z.mul_0_r, Z.add_0_r. done.
    + by rewrite decide_False by lia.
  - rewrite decide_False by (unfold PGSIZE; lia). rewrite !u32_small by (unfold is_u32, PGSIZE in *; lia).
    assert (Hd : (a + PGSIZE) / PGSIZE = a / PGSIZE + 1) by (apply (div_page a 1 Ha)).
    assert (Hm : forall x, x mod PGSIZE = 0 -> (x + PGSIZE) mod PGSIZE = 0).
    { intros x Hx. rewrite <- Z.add_mod_idemp_l, Hx by done. done. }
    replace (a + PGSIZE * Z.of_nat (S n)) with (a + PGSIZE + PGSIZE * Z.of_nat n) by lia.
    eapply wp_mono; [apply (IH (a + PGSIZE) (pa + PGSIZE) s1 l1); try done; auto|].
    1-4: unfold PGSIZE in *; lia.
    + intros va Hva Hr. rewrite He1, decide_False by (done || lia). apply Hno; [done|lia].
    + intros r s' (l' & H' & Hs' & Hor). exists l'. split; [done|]. split; [by etransitivity|].
      destruct Hor as [[-> Hmap]|(-> & -> & Hout)]; [left|right].
      * split; [done|]. intros va Hva. rewrite Hmap, He1, Hd by done.
        destruct (decide (a / PGSIZE + 1 <= va / PGSIZE <= a / PGSIZE + 1 + Z.of_nat n)) as [E1|E1].
        { rewrite decide_True by lia. f_equal. lia. }
        destruct (decide (va / PGSIZE = a / PGSIZE)) as [E2|E2]; [|by rewrite decide_False by lia].
        rewrite decide_True by lia. by rewrite E2, Z.sub_diag, Z.mul_0_r, Z.add_0_r.
      * split; [done|]. split; [done|]. intros va Hva Hn. rewrite Hout by (done || lia).
        rewrite He1, decide_False by (done || lia). done.
Qed.

(** Mappages on unmapped pages either maps each page of the range from
    [va] to [va + size - 1] to the corresponding page from [pa] on with the
    permissions given, leaving the entry of every other page as it was, or it
    fails with -1 when the free pages run out; in either case the page table
    stays well formed and pages outside the range keep their entries. *)
Theorem mappages_correct s l pgdir va size pa perm :
  pt_ok s l pgdir -> 0 <= perm < PGSIZE -> 0 <= va -> 0 < size -> va + size <= 2 ^ 32 ->
  0 <= pa -> pa mod PGSIZE = 0 -> pa + (va mod PGSIZE) + size <= 2 ^ 32 ->
  (forall x, va / PGSIZE <= x / PGSIZE <= (va + size - 1) / PGSIZE -> is_u32 x ->
     has PTE_P (entry (pm s) pgdir x) = false) ->
  wp (mappages pgdir va size pa perm) (fun r s' =>
    exists l', pt_ok s' l' pgdir /\ l' `suffix_of` l /\
      (forall x, is_u32 x -> ~ va / PGSIZE <= x / PGSIZE <= (va + size - 1) / PGSIZE ->
         entry (pm s') pgdir x = entry (pm s) pgdir x) /\
      ((r = 0 /\ forall x, is_u32 x -> va / PGSIZE <= x / PGSIZE <= (va + size - 1) / PGSIZE ->
          entry (pm s') pgdir x = pte_of (pa + PGSIZE * (x / PGSIZE - va / PGSIZE)) perm) \/
       (r = -1 /\ l' = []))) s.
Proof.
  intros H Hperm Hva Hsz Hend Hpa Hpam Hpend Hno. unfold mappages. rewrite (u32_small (va + size - 1)) by (unfold is_u32; lia).
  rewrite !round_down_spec. set (a := va / PGSIZE) in *. set (b := (va + size - 1) / PGSIZE) in *.
  pose proof (Z.div_mod va PGSIZE ltac:(done)) as E1. pose proof (Z.mod_pos_bound va PGSIZE ltac:(done)).
  pose proof (Z.div_mod (va + size - 1) PGSIZE ltac:(done)) as E2.
  pose proof (Z.mod_pos_bound (va + size - 1) PGSIZE ltac:(done)). fold a in E1. fold b in E2.
  assert (Hab : a <= b) by (apply Z.div_le_mono; [done|lia]).
  assert (Ha0 : 0 <= a) by (apply Z.div_pos; [done|done]).
  rewrite u32_small by (unfold is_u32, PGSIZE in *; lia).
  replace ((PGSIZE * b - PGSIZE * a) / PGSIZE) with (b - a) by (rewrite <- Z.mul_sub_distr_l, Z.mul_comm, Z.div_mul; done).
  replace (PGSIZE * b) with (PGSIZE * a + PGSIZE * Z.of_nat (Z.to_nat (b - a))) by (unfold PGSIZE; lia).
  assert (Ea : PGSIZE * a / PGSIZE = a) by (rewrite Z.mul_comm; by apply Z.div_mul).
  eapply wp_mono; [apply (mappages_loop_spec pgdir perm (Z.to_nat (b - a)) (PGSIZE * a) pa s l); try done|].
  - rewrite Z.mul_comm. by apply Z.mod_mul.
  - unfold PGSIZE in *. lia.
  - unfold PGSIZE in *. lia.
  - unfold PGSIZE in *. lia.
  - rewrite Ea. intros x Hx Hr. apply Hno; [lia|done].
  - rewrite Ea. intros r s' (l' & H' & Hs' & Hor). exists l'. split; [done|]. split; [done|].
    unfold mapped_to in Hor. rewrite Ea in Hor. destruct Hor as [[-> Hmap]|(-> & -> & Hout)].
    + split; [intros x Hx Hn; rewrite Hmap, decide_False by (done || lia); done|]. left. split; [done|].
      intros x Hx Hr. by rewrite Hmap, decide_True by (done || lia).
    + split; [intros x Hx Hn; apply Hout; (done || lia)|]. by right.
Qed.

(** ** User memory *)

(** The page the user can reach at [va], and its bytes. *)
Definition user m pgdir va : bool := has PTE_P (entry m pgdir va) && has PTE_U (entry m pgdir va).
Definition upage m pgdir va : Z := P2V (PTE_ADDR (entry m pgdir va)).
Definition ubyte m pgdir va : Z := m (upage m pgdir va + va mod PGSIZE).
(** User pages are pages of their own: not free, no part of the page table, and
    each mapped at one place. *)
Record user_ok s l pgdir : Prop := {
  us_pt : pt_ok s l pgdir;
  us_page : forall x, is_u32 x -> user (pm s) pgdir x = true ->
    page_ok kend (upage (pm s) pgdir x) /\ ~ (upage (pm s) pgdir x ∈ l) /\ upage (pm s) pgdir x <> pgdir /\
    forall d, 0 <= d < 1024 -> present (pm s) pgdir d = true -> upage (pm s) pgdir x <> tab (pm s) pgdir d;
  us_inj : forall x y, is_u32 x -> is_u32 y -> user (pm s) pgdir x = true -> user (pm s) pgdir y = true ->
    upage (pm s) pgdir x = upage (pm s) pgdir y -> x / PGSIZE = y / PGSIZE;
}.

(** Changing bytes of the user page of [x] only. *)
Lemma user_write s l pgdir x m' :
  user_ok s l pgdir -> is_u32 x -> user (pm s) pgdir x = true ->
  (forall y, ~ on_page (upage (pm s) pgdir x) y -> m' y = pm s y) ->
  user_ok (s <| pm := m' |>) l pgdir /\
  (forall y, is_u32 y -> entry m' pgdir y = entry (pm s) pgdir y).
Proof.
  intros H Hx Hu Hm. destruct (us_page _ _ _ H x Hx Hu) as (Hp & Hl & Hg & Ht).
  destruct (us_pt _ _ _ H) as [[Hc Hn] [Hgp Hgl] Htab Hinj].
  assert (Hfar : forall q y, page_ok kend q -> q <> upage (pm s) pgdir x -> on_page q y -> m' y = pm s y).
  { intros q y Hq Hne Hy. apply Hm. exact (page_apart q _ y Hq Hp Hne Hy). }
  assert (Hdir : forall d, 0 <= d < 1024 -> present m' pgdir d = present (pm s) pgdir d /\ tab m' pgdir d = tab (pm s) pgdir d).
  { intros d Hd. apply dir_frame; [done|]. intros y. by apply Hfar. }
  assert (He : forall y, entry m' pgdir y = entry (pm s) pgdir y).
  { intros y. apply entry_frame; [intros z; by apply Hfar|]. intros z Hpr Hz.
    destruct (Htab _ (pdx_range y) Hpr) as (Hq & _ & _). eapply Hfar; [exact Hq| |exact Hz].
    symmetry. apply Ht; [apply pdx_range|done]. }
  assert (Hus : forall y, user m' pgdir y = user (pm s) pgdir y /\ upage m' pgdir y = upage (pm s) pgdir y).
  { intros y. unfold user, upage. by rewrite He. }
  split; [|by intros]. split.
  - split.
    + split; [|done]. simpl. eapply chain_frame; [|exact Hc]. intros q y Hq Hy.
      pose proof (chain_pages _ _ _ _ Hc) as Hall. rewrite Forall_forall in Hall.
      eapply Hfar; [by apply Hall| |done]. by intros ->.
    + done.
    + intros d Hd. simpl. destruct (Hdir d Hd) as [-> ->]. by apply Htab.
    + intros d d' Hd Hd'. simpl. destruct (Hdir d Hd) as [-> ->], (Hdir d' Hd') as [-> ->]. by apply Hinj.
  - intros y Hy. simpl. destruct (Hus y) as [-> ->]. intros Huy.
    destruct (us_page _ _ _ H y Hy Huy) as (A & B & C & D). split; [done|]. split; [done|]. split; [done|].
    intros d Hd. destruct (Hdir d Hd) as [-> ->]. by apply D.
  - intros y z Hy Hz. simpl. destruct (Hus y) as [-> ->], (Hus z) as [-> ->]. by apply (us_inj _ _ _ H).
Qed.
Lemma uva2ka_run s pgdir va :
  present (pm s) pgdir (PDX va) = true ->
  uva2ka pgdir va s = Ok (s, if user (pm s) pgdir va then upage (pm s) pgdir va else 0).
Proof.
  intros Hp. unfold uva2ka. rewrite (bind_run _ _ _ _ _ (walk_hit s pgdir va false Hp)).
  rewrite (bind_run _ _ s s (entry (pm s) pgdir va)) by (unfold peek, gets, entry; by rewrite Hp).
  unfold user, upage. destruct (has PTE_P _); [|done]. by destruct (has PTE_U _).
Qed.
Lemma user_present m pgdir va : user m pgdir va = true -> present m pgdir (PDX va) = true.
Proof. unfold user, entry. by destruct (present m pgdir (PDX va)). Qed.

(** [bs] lies at user address [va]. *)
Definition uwritten pgdir va (bs : list Z) m m' : Prop :=
  forall y, is_u32 y -> user m pgdir y = true ->
    ubyte m' pgdir y = if decide (va <= y < va + Z.of_nat (length bs)) then bs !!! Z.to_nat (y - va) else ubyte m pgdir y.
Lemma user_page_of m pgdir va : is_u32 va -> entry m pgdir (PGROUNDDOWN va) = entry m pgdir va.
Proof.
  intros Hva. assert (Hr : is_u32 (PGROUNDDOWN va)).
  { rewrite round_down_spec. unfold is_u32, PGSIZE in *. Z.to_euclidean_division_equations. lia. }
  destruct (page_index (PGROUNDDOWN va) va Hr Hva) as [E1 E2].
  { rewrite round_down_spec, Z.mul_comm. by apply Z.div_mul. }
  unfold entry. by rewrite E1, E2.
Qed.
(** One turn of copyout: [bs] fits in the page of [va]. *)
Lemma put_user s l pgdir va (bs : list Z) :
  user_ok s l pgdir -> is_u32 va -> user (pm s) pgdir va = true ->
  va mod PGSIZE + Z.of_nat (length bs) <= PGSIZE ->
  let m' := put_bytes (pm s) (upage (pm s) pgdir va + va mod PGSIZE) bs in
  user_ok (s <| pm := m' |>) l pgdir /\ (forall y, is_u32 y -> entry m' pgdir y = entry (pm s) pgdir y) /\
  uwritten pgdir va bs (pm s) m'.
Proof.
  intros H Hva Hu Hlen m'. pose proof (Z.mod_pos_bound va PGSIZE ltac:(done)) as Hmod.
  assert (Hm : forall y, ~ on_page (upage (pm s) pgdir va) y -> m' y = pm s y).
  { intros y Hy. unfold m', put_bytes. rewrite decide_False; [done|]. unfold on_page in Hy. lia. }
  destruct (user_write s l pgdir va m' H Hva Hu Hm) as [H' He]. split; [done|]. split; [done|].
  intros y Hy Huy. unfold ubyte, upage. rewrite He by done. fold (upage (pm s) pgdir y).
  pose proof (Z.mod_pos_bound y PGSIZE ltac:(done)) as Hmy.
  pose proof (Z.div_mod y PGSIZE ltac:(done)) as Ey. pose proof (Z.div_mod va PGSIZE ltac:(done)) as Ev.
  destruct (decide (y / PGSIZE = va / PGSIZE)) as [E|E].
  - assert (Ep : upage (pm s) pgdir y = upage (pm s) pgdir va).
    { unfold upage, entry. by destruct (page_index y va Hy Hva E) as [-> ->]. }
    rewrite Ep. unfold m', put_bytes. rewrite E in Ey.
    destruct (decide (va <= y < va + Z.of_nat (length bs))).
    + rewrite decide_True by lia. f_equal. lia.
    + by rewrite decide_False by lia.
  - rewrite decide_False.
    + apply Hm. destruct (us_page _ _ _ H y Hy Huy) as (Hp & _). destruct (us_page _ _ _ H va Hva Hu) as (Hq & _).
      apply (page_apart (upage (pm s) pgdir y)); [done|done|intros Ep; apply E; by apply (us_inj _ _ _ H)|].
      unfold on_page. lia.
    + intros Hr. apply E. symmetry. apply (Z.div_unique_pos y PGSIZE (va / PGSIZE) (va mod PGSIZE + (y - va))); lia.
Qed.
Lemma uwritten_app pgdir va b1 b2 m m1 m2 :
  (forall y, is_u32 y -> entry m1 pgdir y = entry m pgdir y) ->
  uwritten pgdir va b1 m m1 -> uwritten pgdir (va + Z.of_nat (length b1)) b2 m1 m2 -> uwritten pgdir va (b1 ++ b2) m m2.
Proof.
  intros He W1 W2 y Hy Hu. rewrite length_app, Nat2Z.inj_add.
  assert (Hu1 : user m1 pgdir y = true) by (unfold user; by rewrite He).
  rewrite (W2 y Hy Hu1). destruct (decide (va + Z.of_nat (length b1) <= y < va + Z.of_nat (length b1) + Z.of_nat (length b2))).
  - rewrite decide_True by lia. rewrite lookup_total_app_r by lia. f_equal. lia.
  - rewrite (W1 y Hy Hu). destruct (decide (va <= y < va + Z.of_nat (length b1))).
    + rewrite decide_True by lia. rewrite lookup_total_app_l by lia. done.
    + by rewrite decide_False by lia.
Qed.
Lemma uwritten_nil pgdir va m : uwritten pgdir va [] m m.
Proof. intros y Hy Hu. simpl. by rewrite decide_False by lia. Qed.
Lemma copyout_loop_spec l pgdir fuel : forall va buf s,
  user_ok s l pgdir -> 0 <= va -> va + Z.of_nat (length buf) < 2 ^ 32 ->
  (forall y, va <= y < va + Z.of_nat (length buf) -> user (pm s) pgdir y = true) ->
  (length buf < fuel)%nat ->
  wp (copyout_loop fuel pgdir va buf) (fun r s' =>
    r = 0 /\ user_ok s' l pgdir /\ (forall y, is_u32 y -> entry (pm s') pgdir y = entry (pm s) pgdir y) /\
    uwritten pgdir va buf (pm s) (pm s')) s.
Proof.
  induction fuel as [|fuel IH]; intros va buf s H Hva Hend Hall Hf; [lia|]. cbn [copyout_loop].
  case_decide as Hb.
  { subst buf. apply wp_ret. split; [done|]. split; [done|]. split; [done|]. apply uwritten_nil. }
  assert (Hlen : (0 < length buf)%nat) by (destruct buf; [done|simpl; lia]).
  assert (Hvu : is_u32 va) by (unfold is_u32; lia).
  assert (Hu : user (pm s) pgdir va = true) by (apply Hall; lia).
  pose proof (user_page_of (pm s) pgdir va Hvu) as He0. pose proof (round_down_spec va) as Erd.
  pose proof (Z.div_mod va PGSIZE ltac:(done)) as Ev. pose proof (Z.mod_pos_bound va PGSIZE ltac:(done)) as Hmod.
  cbv zeta. set (va0 := PGROUNDDOWN va) in *. apply wp_bind. unfold wp at 1.
  assert (Hu0 : user (pm s) pgdir va0 = true) by (unfold user; by rewrite He0).
  rewrite (uva2ka_run s pgdir va0) by (by apply user_present). rewrite Hu0.
  replace (upage (pm s) pgdir va0) with (upage (pm s) pgdir va) by (unfold upage; by rewrite He0).
  destruct (us_page _ _ _ H va Hvu Hu) as (Hp & _). rewrite decide_False by (apply page_pos in Hp; lia).
  replace (va - va0) with (va mod PGSIZE) by lia.
  set (n := if decide (PGSIZE - va mod PGSIZE > Z.of_nat (length buf)) then Z.of_nat (length buf) else PGSIZE - va mod PGSIZE).
  assert (Hn : 0 < n <= Z.of_nat (length buf) /\ va mod PGSIZE + n <= PGSIZE) by (unfold n; case_decide; lia).
  assert (Ht : length (take (Z.to_nat n) buf) = Z.to_nat n) by (rewrite length_take; lia).
  destruct (put_user s l pgdir va (take (Z.to_nat n) buf) H Hvu Hu) as (H1 & He1 & W1); [lia|].
  apply wp_bind, wp_modify.
  destruct (decide (n = Z.of_nat (length buf))) as [Hlast|Hmore].
  - rewrite take_ge in * by lia. rewrite drop_ge by lia. destruct fuel as [|fuel]; [lia|].
    cbn [copyout_loop]. rewrite decide_True by done. apply wp_ret. done.
  - assert (Hn2 : n = PGSIZE - va mod PGSIZE) by (unfold n in *; case_decide; lia).
    rewrite u32_small by (unfold is_u32; lia). replace (va0 + PGSIZE) with (va + n) by lia.
    assert (Hd : length (drop (Z.to_nat n) buf) = (length buf - Z.to_nat n)%nat) by apply length_drop.
    eapply wp_mono; [apply IH|].
    + exact H1.
    + lia.
    + lia.
    + intros y Hy.
      change (user (put_bytes (pm s) (upage (pm s) pgdir va + va mod PGSIZE) (take (Z.to_nat n) buf)) pgdir y = true).
      unfold user. rewrite He1 by (unfold is_u32; lia). apply Hall. lia.
    + lia.
    + intros r s' (-> & H2 & He2 & W2). split; [done|]. split; [done|]. split.
      * intros y Hy. rewrite He2 by done. by apply He1.
      * rewrite <- (take_drop (Z.to_nat n) buf). eapply uwritten_app; [exact He1|exact W1|].
        rewrite Ht, Z2Nat.id by lia. exact W2.
Qed.

(** C15: copyout to user addresses the process may access writes the bytes
    there, across page boundaries, and changes no other byte of its memory, no
    page table entry and no free page. *)
Theorem copyout_correct s l pgdir va buf :
  user_ok s l pgdir -> 0 <= va -> va + Z.of_nat (length buf) < 2 ^ 32 ->
  (forall y, va <= y < va + Z.of_nat (length buf) -> user (pm s) pgdir y = true) ->
  wp (copyout pgdir va buf) (fun r s' =>
    r = 0 /\ user_ok s' l pgdir /\ (forall y, is_u32 y -> entry (pm s') pgdir y = entry (pm s) pgdir y) /\
    forall y, is_u32 y -> user (pm s) pgdir y = true ->
      ubyte (pm s') pgdir y =
        if decide (va <= y < va + Z.of_nat (length buf)) then buf !!! Z.to_nat (y - va) else ubyte (pm s) pgdir y) s.
Proof. intros H Hva Hend Hall. apply copyout_loop_spec; try done. lia. Qed.
(** C36: copyout to a page the process has mapped but may not access (the guard
    page under the stack, a kernel page) returns -1 and writes nothing there;
    where the directory has no table for the page, uva2ka reads the word at
    address 0 as the entry instead of failing. *)
Theorem uva2ka_checks s pgdir va buf :
  is_u32 va -> buf <> [] ->
  (present (pm s) pgdir (PDX va) = true -> user (pm s) pgdir va = false -> copyout pgdir va buf s = Ok (s, -1)) /\
  (present (pm s) pgdir (PDX va) = false ->
   uva2ka pgdir va s = Ok (s, if has PTE_P (load32 (pm s) 0) && has PTE_U (load32 (pm s) 0)
                              then P2V (PTE_ADDR (load32 (pm s) 0)) else 0)).
Proof.
  intros Hva Hb. split.
  - intros Hp Hu. unfold copyout. cbn [copyout_loop]. rewrite decide_False by done. cbv zeta.
    pose proof (user_page_of (pm s) pgdir va Hva) as He0.
    rewrite (bind_run _ _ s s 0); [done|]. unfold user in Hu. rewrite uva2ka_run.
    + unfold user. by rewrite He0, Hu.
    + assert (Hr : is_u32 (PGROUNDDOWN va)).
      { rewrite round_down_spec. unfold is_u32, PGSIZE in *. Z.to_euclidean_division_equations. lia. }
      destruct (page_index (PGROUNDDOWN va) va Hr Hva) as [-> _]; [|done].
      rewrite round_down_spec, Z.mul_comm. by apply Z.div_mul.
  - intros Hp. unfold uva2ka. rewrite (bind_run _ _ _ _ _ (walk_miss s pgdir va Hp)).
    rewrite (bind_run _ _ s s (load32 (pm s) 0)) by done.
    destruct (has PTE_P _); [|done]. by destruct (has PTE_U _).
Qed.
End tables.

(** A page directory in page 2 with nothing mapped, and pages 0 and 1 free. *)
Lemma two_zero x : ~ on_page (pg 0) x -> ~ on_page (pg 1) x -> pm kmem_two x = 0.
Proof. intros H0 H1. unfold kmem_two. by rewrite !freed_other. Qed.
Lemma two_dir d : 0 <= d < 1024 -> load32 (pm kmem_two) (pg 2 + 4 * d) = 0.
Proof.
  intros Hd. rewrite (load32_ext _ (fun _ => 0)); [done|]. intros x Hx.
  assert (Hon : on_page (pg 2) x) by (eapply word_on_page; eauto).
  apply two_zero; (eapply (page_apart KERNBASE (pg 2)); [by apply pg_ok|by apply pg_ok|discriminate|done]).
Qed.
Lemma two_pt : pt_ok KERNBASE kmem_two [pg 1; pg 0] (pg 2).
Proof.
  assert (Hno : forall d, 0 <= d < 1024 -> present (pm kmem_two) (pg 2) d = false).
  { intros d Hd. unfold present. by rewrite two_dir. }
  split.
  - apply kmem_two_ok.
  - split; [by apply pg_ok|]. rewrite !not_elem_of_cons. split; [discriminate|]. split; [discriminate|apply not_elem_of_nil].
  - intros d Hd. by rewrite Hno.
  - intros d d' Hd. by rewrite Hno.
Qed.
Lemma two_entry va : entry (pm kmem_two) (pg 2) va = 0.
Proof. unfold entry, present. by rewrite two_dir by apply pdx_range. Qed.
Lemma mappages_correct_witness :
  wp (mappages (pg 2) 8192 5000 (V2P (pg 3)) 6) (fun r s' => r = 0 \/ r = -1) kmem_two.
Proof.
  eapply wp_mono; [apply (mappages_correct KERNBASE kmem_two _ (pg 2) 8192 5000 (V2P (pg 3)) 6 two_pt)|].
  - unfold PGSIZE. lia.
  - lia.
  - lia.
  - lia.
  - apply u32_range.
  - reflexivity.
  - change (V2P (pg 3)) with 12288. change (8192 mod PGSIZE) with 0. lia.
  - intros x _ _. rewrite two_entry. reflexivity.
  - intros r s' (l' & _ & _ & _ & [[-> _]|[-> _]]); [left|right]; reflexivity.
Defined.

(** The same with page 1 as the table of the first pages and user page 3 at
    address 0. *)
Definition kmem_one : kmem := kmem_two <| freelist := pg 0 |>.
Definition vm_tab : kmem := new_tab (pg 2) 0 (pg 1) kmem_one.
Definition vm_user : kmem := set_entry (pg 2) 0 (pte_of (V2P (pg 3)) 6) vm_tab.
Lemma vm_user_pt :
  pt_ok KERNBASE vm_user [pg 0] (pg 2) /\
  (forall va, is_u32 va -> entry (pm vm_user) (pg 2) va = if decide (va / PGSIZE = 0) then pte_of (V2P (pg 3)) 6 else 0) /\
  (forall d, 0 <= d < 1024 -> present (pm vm_user) (pg 2) d = true -> tab (pm vm_user) (pg 2) d = pg 1).
Proof.
  assert (Hk : kmem_ok KERNBASE kmem_one [pg 0]).
  { destruct kmem_two_ok as [(_ & _ & Hc) Hn]. split; [|by inversion Hn].
    assert (E : load32 (pm kmem_two) (pg 1) = pg 0).
    { change (load32 (store32 (memset (pm (freed (pg 0) kmem_zero)) (pg 1) 1 page) (pg 1) (pg 0)) (pg 1) = pg 0).
      rewrite load32_store32. reflexivity. }
    rewrite E in Hc. exact Hc. }
  assert (Hp0 : present (pm kmem_two) (pg 2) (PDX 0) = false) by (unfold present; by rewrite two_dir).
  destruct (new_tab_ok KERNBASE kmem_two kmem_one [pg 0] (pg 2) 0 (pg 1) two_pt Hp0 eq_refl Hk) as (H1 & Hp1 & Ht1 & He1).
  change (new_tab (pg 2) (PDX 0) (pg 1) kmem_one) with vm_tab in *.
  destruct (set_entry_ok KERNBASE vm_tab [pg 0] (pg 2) 0 (pte_of (V2P (pg 3)) 6) H1 Hp1) as (H2 & Hd2 & He2).
  { unfold is_u32. lia. }
  { vm_compute. split; [discriminate|reflexivity]. }
  fold vm_user in *. split; [done|]. split.
  - intros va Hva. rewrite He2 by done. change (0 / PGSIZE) with 0. case_decide; [done|]. by rewrite He1, two_entry.
  - intros d Hd. destruct (Hd2 d Hd) as [-> ->]. unfold present, tab.
    unfold vm_tab. rewrite (new_tab_dir KERNBASE (pg 2) 0 (pg 1) kmem_one d (pg_ok 1 ltac:(lia)) (pg_ok 2 ltac:(lia))
      ltac:(discriminate) ltac:(lia) Hd).
    case_decide; [reflexivity|]. change (pm kmem_one) with (pm kmem_two). rewrite two_dir by exact Hd. discriminate.
Qed.
Lemma vm_user_ok : user_ok KERNBASE vm_user [pg 0] (pg 2).
Proof.
  destruct vm_user_pt as (Hpt & He & Ht).
  assert (Hu : forall x, is_u32 x -> user (pm vm_user) (pg 2) x = true ->
    x / PGSIZE = 0 /\ upage (pm vm_user) (pg 2) x = pg 3).
  { intros x Hx. unfold user, upage. rewrite He by done. case_decide; [|done]. intros _. split; [done|]. reflexivity. }
  split; [done| |].
  - intros x Hx Hux. destruct (Hu x Hx Hux) as [_ ->]. split; [by apply pg_ok|].
    split; [intros E%list_elem_of_singleton; discriminate E|]. split; [discriminate|].
    intros d Hd Hp. rewrite Ht by done. discriminate.
  - intros x y Hx Hy Hux Huy _. destruct (Hu x Hx Hux) as [-> _], (Hu y Hy Huy) as [-> _]. done.
Qed.
Lemma vm_user_access y : 0 <= y < 4096 -> user (pm vm_user) (pg 2) y = true.
Proof.
  intros Hy. destruct vm_user_pt as (_ & He & _). unfold user. rewrite He by (unfold is_u32; lia).
  rewrite decide_True; [reflexivity|]. by apply Z.div_small.
Qed.
Lemma copyout_correct_witness :
  wp (copyout (pg 2) 100 [7; 8; 9]) (fun r s' => r = 0 /\ ubyte (pm s') (pg 2) 101 = 8) vm_user.
Proof.
  eapply wp_mono; [apply (copyout_correct KERNBASE vm_user [pg 0] (pg 2) 100 [7; 8; 9] vm_user_ok)|].
  - lia.
  - cbn [length]. lia.
  - intros y Hy. cbn [length] in Hy. apply vm_user_access. lia.
  - intros r s' (Hr & _ & _ & H). split; [exact Hr|].
    rewrite (H 101); [reflexivity|unfold is_u32; lia|apply vm_user_access; lia].
Defined.
Lemma uva2ka_checks_witness : copyout (pg 2) 8192 [1] vm_user = Ok (vm_user, -1).
Proof.
  assert (Hp : present (pm vm_user) (pg 2) (PDX 8192) = true).
  { exact (user_present _ _ _ (vm_user_access 0 ltac:(lia))). }
  apply (uva2ka_checks vm_user (pg 2) 8192 [1]); [unfold is_u32; lia|discriminate|exact Hp|].
  destruct vm_user_pt as (_ & He & _). unfold user. rewrite (He 8192) by (unfold is_u32; lia). reflexivity.
Defined.
