(* ===== verification/VmSpace.v ===== *)
(** Address spaces and the pages they are made of.

    A page directory owns itself, its page tables and the pages mapped below
    KERNBASE.  [space] says that the free pages and these are all different
    and together make up a given set of pages; the functions of vm.c move
    pages between the free list and a space and lose none.  [only] bounds the
    memory a function writes. *)
From S2P Require Import Prelude Cstring Kalloc Vm VmFacts.
Import string_c.

(** Membership in lists put together of others. *)
Ltac in_list := rewrite ?elem_of_app, ?elem_of_cons, ?elem_of_app; tauto.

(** ** Lists chosen by a partial function *)

Section chosen.
Context {A B : Type}.
Implicit Types (f g : A -> option B) (L : list A).
Lemma omap_ext_in f g L : (forall x, x ∈ L -> g x = f x) -> omap g L = omap f L.
Proof.
  induction L as [|x L IH]; intros H; [done|]. cbn. rewrite (H x) by left.
  rewrite IH; [done|]. intros y Hy. apply H. by right.
Qed.
Lemma omap_none f L : (forall x, x ∈ L -> f x = None) -> omap f L = [].
Proof.
  induction L as [|x L IH]; intros H; [done|]. cbn. rewrite (H x) by left. apply IH. intros y Hy. apply H. by right.
Qed.
(** One more element is chosen. *)
Lemma omap_change f g L x p :
  NoDup L -> x ∈ L -> f x = None -> g x = Some p -> (forall y, y ∈ L -> y <> x -> g y = f y) ->
  omap g L ≡ₚ p :: omap f L.
Proof.
  intros Hn Hx Hf Hg H. apply list_elem_of_split in Hx as (L1 & L2 & ->).
  apply NoDup_app in Hn as (_ & Hd & Hn2). apply NoDup_cons in Hn2 as [Hx2 _].
  rewrite !omap_app. cbn. rewrite Hf, Hg. rewrite (omap_ext_in f g L1), (omap_ext_in f g L2).
  - by rewrite Permutation_middle.
  - intros y Hy. apply H; [set_solver|]. by intros ->.
  - intros y Hy. apply H; [set_solver|]. intros ->. apply (Hd x Hy). left.
Qed.
Lemma omap_inj f L x y p :
  NoDup (omap f L) -> x ∈ L -> y ∈ L -> f x = Some p -> f y = Some p -> x = y.
Proof.
  induction L as [|z L IH]; intros Hn Hx Hy Hfx Hfy; [set_solver|]. cbn in Hn.
  apply elem_of_cons in Hx as [->|Hx], Hy as [->|Hy]; [done| | |].
  - rewrite Hfx in Hn. apply NoDup_cons in Hn as [Hn _]. exfalso. apply Hn. apply list_elem_of_omap. eauto.
  - rewrite Hfy in Hn. apply NoDup_cons in Hn as [Hn _]. exfalso. apply Hn. apply list_elem_of_omap. eauto.
  - apply IH; try done. destruct (f z); [by apply NoDup_cons in Hn as [_ ?]|done].
Qed.
End chosen.

Section spaces.
Context (kend : Z).
Hypothesis kend_above : KERNBASE < kend.
Implicit Types (m : mem) (s : kmem) (A l ps : list Z) (pgdir va d n p x : Z).
Abbreviation page_ok := (page_ok kend).
Abbreviation kmem_ok := (kmem_ok kend).
Abbreviation pt_ok := (pt_ok kend).

(** User pages are numbered below [NUSER]. *)
Definition NUSER : Z := KERNBASE / PGSIZE.
Definition table_of m pgdir d : option Z := if present m pgdir d then Some (tab m pgdir d) else None.
Definition pte_page (e : Z) : option Z := if has PTE_P e then Some (P2V (PTE_ADDR e)) else None.
Definition upage_of m pgdir n : option Z := pte_page (entry m pgdir (PGSIZE * n)).
Definition dir_slots : list Z := seqZ 0 1024.
Definition user_slots : list Z := seqZ 0 NUSER.
Definition tables m pgdir : list Z := omap (table_of m pgdir) dir_slots.
Definition upages m pgdir : list Z := omap (upage_of m pgdir) user_slots.
Definition owned m pgdir : list Z := pgdir :: tables m pgdir ++ upages m pgdir.
(** Free pages and those of the page table itself. *)
Definition meta m l pgdir : list Z := l ++ pgdir :: tables m pgdir.

Record space A s l pgdir : Prop := mkspace {
  sp_free : kmem_ok s l;
  sp_all : l ++ owned (pm s) pgdir ≡ₚ A;
  sp_nodup : NoDup A;
  sp_pages : Forall page_ok A;
}.
(** Only bytes of the pages [ps] differ. *)
Definition only ps m m' : Prop := forall x, (forall p, p ∈ ps -> ~ on_page p x) -> m' x = m x.
Lemma only_refl ps m : only ps m m.
Proof. done. Qed.
Lemma only_trans ps m m1 m2 : only ps m m1 -> only ps m1 m2 -> only ps m m2.
Proof. intros H1 H2 x Hx. by rewrite H2, H1. Qed.
Lemma only_weaken ps ps' m m' : (forall p, p ∈ ps -> p ∈ ps') -> only ps m m' -> only ps' m m'.
Proof. intros Hs H x Hx. apply H. auto. Qed.

Lemma NoDup_seqZ a k : NoDup (seqZ a k).
Proof. unfold seqZ. apply NoDup_fmap_2; [intros ???; lia|apply NoDup_seq]. Qed.
Lemma dir_slots_nodup : NoDup dir_slots.
Proof. apply NoDup_seqZ. Qed.
Lemma user_slots_nodup : NoDup user_slots.
Proof. apply NoDup_seqZ. Qed.
Lemma in_dir_slots d : d ∈ dir_slots <-> 0 <= d < 1024.
Proof. unfold dir_slots. rewrite elem_of_seqZ. lia. Qed.
Lemma in_user_slots n : n ∈ user_slots <-> 0 <= n < NUSER.
Proof. unfold user_slots. rewrite elem_of_seqZ. lia. Qed.
Lemma dir_slots_length : length dir_slots = 1024%nat.
Proof. apply length_seqZ. Qed.
Lemma user_slots_split k : 0 <= k <= NUSER -> user_slots = seqZ 0 k ++ seqZ k (NUSER - k).
Proof. intros Hk. unfold user_slots. change (seqZ k (NUSER - k)) with (seqZ (0 + k) (NUSER - k)). rewrite <- seqZ_app by lia. f_equal. lia. Qed.
Lemma NUSER_val : NUSER = 524288.
Proof. done. Qed.
#[local] Opaque dir_slots user_slots NUSER.
Lemma in_tables m pgdir p : p ∈ tables m pgdir <-> exists d, 0 <= d < 1024 /\ present m pgdir d = true /\ tab m pgdir d = p.
Proof.
  unfold tables. rewrite list_elem_of_omap. unfold table_of. split.
  - intros (d & Hd & E). apply in_dir_slots in Hd. exists d. destruct (present m pgdir d); [|done]. split; [done|]. by simplify_eq.
  - intros (d & Hd & E & <-). exists d. by rewrite in_dir_slots, E.
Qed.
Lemma in_upages m pgdir p : p ∈ upages m pgdir <-> exists n, 0 <= n < NUSER /\ upage_of m pgdir n = Some p.
Proof. unfold upages. rewrite list_elem_of_omap. by setoid_rewrite in_user_slots. Qed.
Lemma tables_inj m pgdir d d' :
  NoDup (tables m pgdir) -> 0 <= d < 1024 -> 0 <= d' < 1024 ->
  present m pgdir d = true -> present m pgdir d' = true -> tab m pgdir d = tab m pgdir d' -> d = d'.
Proof.
  intros Hn Hr Hr' E E' Et. apply (omap_inj (table_of m pgdir) dir_slots d d' (tab m pgdir d) Hn).
  1-2: by apply in_dir_slots.
  all: unfold table_of; by rewrite ?E, ?E', ?Et.
Qed.
Lemma upages_inj m pgdir n n' p :
  NoDup (upages m pgdir) -> 0 <= n < NUSER -> 0 <= n' < NUSER ->
  upage_of m pgdir n = Some p -> upage_of m pgdir n' = Some p -> n = n'.
Proof.
  intros Hn Hr Hr' E E'. apply (omap_inj (upage_of m pgdir) user_slots n n' p Hn); [by apply in_user_slots|by apply in_user_slots|done|done].
Qed.

(** *** What a space guarantees *)
Lemma space_page A s l pgdir p : space A s l pgdir -> p ∈ l ++ owned (pm s) pgdir -> page_ok p.
Proof. intros [_ Ha _ Hp] Hin. rewrite Forall_forall in Hp. apply Hp. by rewrite <- Ha. Qed.
Lemma space_apart A s l pgdir : space A s l pgdir -> NoDup (l ++ owned (pm s) pgdir).
Proof. intros [_ Ha Hn _]. by rewrite Ha. Qed.
Lemma space_pt A s l pgdir : space A s l pgdir -> pt_ok s l pgdir.
Proof.
  intros H. pose proof (space_apart _ _ _ _ H) as Hn. unfold owned in Hn.
  apply NoDup_app in Hn as (_ & Hd & Hn). apply NoDup_cons in Hn as [Hg Hn]. apply NoDup_app in Hn as (Hnt & _ & _).
  pose proof (fun p => space_page _ _ _ _ p H) as Hp. unfold owned in Hp.
  assert (Ht : forall d, 0 <= d < 1024 -> present (pm s) pgdir d = true -> tab (pm s) pgdir d ∈ tables (pm s) pgdir).
  { intros d Hr E. apply in_tables. eauto. }
  split.
  - apply H.
  - split; [apply Hp; in_list|]. intros Hin. apply (Hd _ Hin). left.
  - intros d Hr E. pose proof (Ht d Hr E) as Hin. split; [apply Hp; in_list|]. split.
    + intros Hl. apply (Hd _ Hl). in_list.
    + intros Eg. apply Hg. rewrite Eg in Hin. in_list.
  - intros d d' Hr Hr'. by apply tables_inj.
Qed.
Lemma space_user A s l pgdir n p :
  space A s l pgdir -> 0 <= n < NUSER -> upage_of (pm s) pgdir n = Some p ->
  page_ok p /\ ~ (p ∈ meta (pm s) l pgdir) /\ p ∈ A.
Proof.
  intros H Hn E. assert (Hin : p ∈ upages (pm s) pgdir) by (apply in_upages; eauto).
  assert (Ho : p ∈ owned (pm s) pgdir) by (unfold owned; right; apply elem_of_app; by right).
  split; [apply (space_page _ _ _ _ _ H), elem_of_app; by right|]. split.
  - pose proof (space_apart _ _ _ _ H) as Hd. unfold owned, meta in *.
    apply NoDup_app in Hd as (_ & Hd & Hg). apply NoDup_cons in Hg as [Hg Ht]. apply NoDup_app in Ht as (_ & Ht & _).
    rewrite elem_of_app, elem_of_cons. intros [Hl|[->|Hp]]; [by apply (Hd _ Hl)|apply Hg, elem_of_app; by right|by apply (Ht _ Hp)].
  - rewrite <- (sp_all _ _ _ _ H). apply elem_of_app. by right.
Qed.
Lemma user_inj A s l pgdir n n' p :
  space A s l pgdir -> 0 <= n < NUSER -> 0 <= n' < NUSER ->
  upage_of (pm s) pgdir n = Some p -> upage_of (pm s) pgdir n' = Some p -> n = n'.
Proof.
  intros H Hn Hn' E E'. pose proof (space_apart _ _ _ _ H) as Hd. unfold owned in Hd.
  apply NoDup_app in Hd as (_ & _ & Hg). apply NoDup_cons in Hg as [_ Hg]. apply NoDup_app in Hg as (_ & _ & Hu).
  by apply (upages_inj (pm s) pgdir n n' p).
Qed.
(** The tables and user pages follow from the entries. *)
Lemma tables_same m m' pgdir :
  (forall d, 0 <= d < 1024 -> present m' pgdir d = present m pgdir d /\ tab m' pgdir d = tab m pgdir d) ->
  tables m' pgdir = tables m pgdir.
Proof.
  intros H. apply omap_ext_in. intros d Hd%in_dir_slots. unfold table_of. by destruct (H d Hd) as [-> ->].
Qed.
Lemma user_va n : 0 <= n < NUSER -> is_u32 (PGSIZE * n) /\ PGSIZE * n / PGSIZE = n.
Proof.
  intros Hn. split; [rewrite NUSER_val in Hn; unfold is_u32, PGSIZE; lia|].
  rewrite Z.mul_comm. by apply Z.div_mul.
Qed.
Lemma upages_same m m' pgdir :
  (forall n, 0 <= n < NUSER -> upage_of m' pgdir n = upage_of m pgdir n) -> upages m' pgdir = upages m pgdir.
Proof. intros H. apply omap_ext_in. intros n Hn%in_user_slots. by apply H. Qed.
(** *** Changes *)
Lemma space_meta m l pgdir : l ++ owned m pgdir = meta m l pgdir ++ upages m pgdir.
Proof. unfold owned, meta. by rewrite <- app_assoc. Qed.
(** The pages of the table are the same, and those of the user. *)
Lemma space_keep A s l pgdir s' l' :
  space A s l pgdir -> kmem_ok s' l' -> meta (pm s') l' pgdir ≡ₚ meta (pm s) l pgdir ->
  (forall n, 0 <= n < NUSER -> upage_of (pm s') pgdir n = upage_of (pm s) pgdir n) -> space A s' l' pgdir.
Proof.
  intros [Hf Ha Hn Hp] Hk Hm Hu. split; [done| |done|done].
  rewrite <- Ha, !space_meta, Hm. by rewrite (upages_same _ _ _ Hu).
Qed.
Lemma upages_add m m' pgdir n p :
  0 <= n < NUSER -> upage_of m pgdir n = None -> upage_of m' pgdir n = Some p ->
  (forall k, 0 <= k < NUSER -> k <> n -> upage_of m' pgdir k = upage_of m pgdir k) ->
  upages m' pgdir ≡ₚ p :: upages m pgdir.
Proof.
  intros Hn H0 H1 H. unfold upages. apply (omap_change _ _ _ n); [apply user_slots_nodup|by apply in_user_slots|done|done|].
  intros k Hk%in_user_slots. by apply H.
Qed.
Lemma space_frame A s l pgdir m' :
  space A s l pgdir -> (forall p x, p ∈ meta (pm s) l pgdir -> on_page p x -> m' x = pm s x) ->
  space A (s <| pm := m' |>) l pgdir /\ (forall va, entry m' pgdir va = entry (pm s) pgdir va) /\
  tables m' pgdir = tables (pm s) pgdir.
Proof.
  intros H Hm. unfold meta in Hm.
  assert (Hg : forall x, on_page pgdir x -> m' x = pm s x) by (intros x; apply Hm; in_list).
  assert (Ht : tables m' pgdir = tables (pm s) pgdir).
  { apply tables_same. intros d Hd. by apply dir_frame. }
  assert (He : forall va, entry m' pgdir va = entry (pm s) pgdir va).
  { intros va. apply entry_frame; [done|]. intros x Hp. apply Hm.
    assert (tab (pm s) pgdir (PDX va) ∈ tables (pm s) pgdir) by (apply in_tables; exists (PDX va); split; [apply pdx_range|done]). in_list. }
  split; [|done]. apply (space_keep A s l pgdir); [done| | |].
  - destruct (sp_free _ _ _ _ H) as [Hc Hn]. split; [|done]. eapply chain_frame; [|exact Hc]. intros p x Hp. apply Hm. in_list.
  - unfold meta. simpl. by rewrite Ht.
  - intros n Hn. unfold upage_of. simpl. by rewrite He.
Qed.
(** An entry of an existing table is set. *)
Lemma set_entry_meta s l pgdir va v :
  pt_ok s l pgdir -> present (pm s) pgdir (PDX va) = true -> is_u32 va -> is_u32 v ->
  kmem_ok (set_entry pgdir va v s) l /\ tables (pm (set_entry pgdir va v s)) pgdir = tables (pm s) pgdir /\
  (forall va', is_u32 va' -> entry (pm (set_entry pgdir va v s)) pgdir va' =
     if decide (va' / PGSIZE = va / PGSIZE) then v else entry (pm s) pgdir va') /\
  only (tables (pm s) pgdir) (pm s) (pm (set_entry pgdir va v s)).
Proof.
  intros H Hp Hva Hv. destruct (set_entry_ok kend s l pgdir va v H Hp Hva Hv) as (H1 & Hd & He).
  split; [apply H1|]. split; [by apply tables_same|]. split; [done|].
  intros x Hx. apply set_entry_other. apply Hx. apply in_tables. exists (PDX va). split; [apply pdx_range|done].
Qed.
Lemma upage_at m m' pgdir va v n :
  is_u32 va -> 0 <= n < NUSER ->
  (forall va', is_u32 va' -> entry m' pgdir va' = if decide (va' / PGSIZE = va / PGSIZE) then v else entry m pgdir va') ->
  upage_of m' pgdir n = if decide (n = va / PGSIZE) then pte_page v else upage_of m pgdir n.
Proof.
  intros Hva Hn He. destruct (user_va n Hn) as [Hu Hd]. unfold upage_of. rewrite He, Hd by done. by case_decide.
Qed.
(** walkpgdir adds a table from the free pages where one is missing. *)
Lemma walk_space A s l pgdir va :
  space A s l pgdir ->
  (exists s' l', walkpgdir pgdir va true s = Ok (s', tab (pm s') pgdir (PDX va) + 4 * PTX va) /\
     space A s' l' pgdir /\ meta (pm s') l' pgdir ≡ₚ meta (pm s) l pgdir /\
     present (pm s') pgdir (PDX va) = true /\ (forall va', entry (pm s') pgdir va' = entry (pm s) pgdir va') /\
     only (meta (pm s) l pgdir) (pm s) (pm s')) \/
  (l = [] /\ walkpgdir pgdir va true s = Ok (s, 0)).
Proof.
  intros HS. pose proof (space_pt _ _ _ _ HS) as H. destruct (present (pm s) pgdir (PDX va)) eqn:Hp.
  - left. exists s, l. by rewrite walk_hit.
  - unfold walkpgdir. rewrite (bind_run _ _ s s (load32 (pm s) (pgdir + 4 * PDX va))) by done.
    pose proof Hp as Hp'. unfold present in Hp'. rewrite Hp'. cbn [negb].
    pose proof (kalloc_run kend s l (pt_free _ _ _ _ H)) as Ha. destruct l as [|p l].
    + right. split; [done|]. rewrite (bind_run _ _ _ _ _ Ha). by rewrite decide_True.
    + left. destruct Ha as (s1 & Ha & Hpm & Hk & Hpg).
      destruct (new_tab_ok kend s s1 l pgdir va p H Hp Hpm Hk) as (H2 & Hp2 & Ht2 & He2).
      exists (new_tab pgdir (PDX va) p s1), l. rewrite (bind_run _ _ _ _ _ Ha).
      rewrite decide_False by (pose proof (page_pos _ _ Hpg); lia).
      destruct (pt_dir _ _ _ _ H) as [Hg Hgl].
      assert (Ht : tables (pm (new_tab pgdir (PDX va) p s1)) pgdir ≡ₚ p :: tables (pm s) pgdir).
      { apply (omap_change _ _ dir_slots (PDX va)); [apply dir_slots_nodup|apply in_dir_slots, pdx_range|..].
        - unfold table_of. by rewrite Hp.
        - unfold table_of. by rewrite Hp2, Ht2.
        - intros d Hd%in_dir_slots Hne. unfold table_of, present, tab.
          rewrite (new_tab_dir kend pgdir (PDX va) p s1 d Hpg Hg) by (try done; try apply pdx_range; intros ->; apply Hgl; left).
          by rewrite decide_False, Hpm by done. }
      assert (Hm : meta (pm (new_tab pgdir (PDX va) p s1)) l pgdir ≡ₚ meta (pm s) (p :: l) pgdir).
      { unfold meta. rewrite Ht, (perm_swap p pgdir). by rewrite <- Permutation_middle. }
      split; [by rewrite Ht2|]. split.
      { apply (space_keep A s (p :: l) pgdir); [done|apply H2|done|]. intros n Hn. unfold upage_of. by rewrite He2. }
      split; [done|]. split; [done|]. split; [done|].
      intros x Hx. rewrite new_tab_other; [by rewrite Hpm|apply pdx_range|..]; apply Hx; unfold meta; in_list.
Qed.
(** ** mappages *)

(** [m'] has the entry [v] for the page of [va]. *)
Definition entry_set pgdir va (v : Z) m m' : Prop :=
  forall va', is_u32 va' -> entry m' pgdir va' = if decide (va' / PGSIZE = va / PGSIZE) then v else entry m pgdir va'.
(** One turn of the loop. *)
Lemma map_step A s l pgdir a last pa perm fuel :
  space A s l pgdir -> 0 <= perm < PGSIZE -> is_u32 a -> pa mod PGSIZE = 0 -> is_u32 pa ->
  has PTE_P (entry (pm s) pgdir a) = false ->
  (exists s1 l1,
     mappages_loop (S fuel) pgdir a last pa perm s =
       (if decide (a = last) then mret 0 else
        mappages_loop fuel pgdir (u32 (a + PGSIZE)) last (u32 (pa + PGSIZE)) perm) s1 /\
     kmem_ok s1 l1 /\ meta (pm s1) l1 pgdir ≡ₚ meta (pm s) l pgdir /\
     only (meta (pm s) l pgdir) (pm s) (pm s1) /\ entry_set pgdir a (pte_of pa perm) (pm s) (pm s1)) \/
  (l = [] /\ mappages_loop (S fuel) pgdir a last pa perm s = Ok (s, -1)).
Proof.
  intros H Hperm Ha Hpa Hpu Hno. cbn [mappages_loop].
  destruct (walk_space A s l pgdir a H) as [(s1 & l1 & Hw & H1 & Hm1 & Hp1 & He1 & Ho1)|[-> Hw]];
    rewrite (bind_run _ _ _ _ _ Hw).
  - left. pose proof (space_pt _ _ _ _ H1) as Hpt. destruct (pt_tab _ _ _ _ Hpt _ (pdx_range a) Hp1) as (Ht & _ & _).
    pose proof (page_pos _ _ Ht) as Hpos. pose proof (ptx_range a) as Hptx. rewrite decide_False by lia.
    rewrite (bind_run _ _ s1 s1 (entry (pm s1) pgdir a)) by (unfold peek, gets, entry; by rewrite Hp1).
    rewrite He1, Hno.
    destruct (set_entry_meta s1 l1 pgdir a (pte_of pa perm) Hpt Hp1 Ha) as (H2 & Ht2 & He2 & Ho2).
    { by apply pte_of_range. }
    exists (set_entry pgdir a (pte_of pa perm) s1), l1. split; [done|]. split; [done|].
    split; [unfold meta in *; by rewrite Ht2|]. split.
    + eapply only_trans; [exact Ho1|]. eapply only_weaken; [|exact Ho2]. intros p Hp. rewrite <- Hm1. unfold meta. in_list.
    + intros va Hva. rewrite He2 by done. case_decide; [done|apply He1].
  - right. by rewrite decide_True.
Qed.
Lemma pte_page_of p perm : page_ok p -> 0 <= perm < PGSIZE -> pte_page (pte_of (V2P p) perm) = Some p.
Proof.
  intros Hp Hperm. destruct (new_tab_word kend p Hp) as (_ & Hm & _ & Hv). unfold pte_page.
  by rewrite pte_of_present, pte_of_addr, Hv.
Qed.
(** A page [p] of its own mapped at the user page [n]. *)
Lemma map_user A s l pgdir n p perm :
  space A s l pgdir -> page_ok p -> ~ (p ∈ A) -> 0 <= n < NUSER -> upage_of (pm s) pgdir n = None -> 0 <= perm < PGSIZE ->
  (exists s' l', mappages pgdir (PGSIZE * n) PGSIZE (V2P p) perm s = Ok (s', 0) /\ space (p :: A) s' l' pgdir /\
     meta (pm s') l' pgdir ≡ₚ meta (pm s) l pgdir /\ only (meta (pm s) l pgdir) (pm s) (pm s') /\
     entry_set pgdir (PGSIZE * n) (pte_of (V2P p) perm) (pm s) (pm s')) \/
  (l = [] /\ mappages pgdir (PGSIZE * n) PGSIZE (V2P p) perm s = Ok (s, -1)).
Proof.
  intros H Hp HpA Hn Hno Hperm. destruct (user_va n Hn) as [Hu Hd]. destruct (new_tab_word kend p Hp) as (_ & Hm & Hr & _).
  assert (Ea : PGROUNDDOWN (PGSIZE * n) = PGSIZE * n) by (rewrite round_down_spec, Hd; done).
  assert (El : PGROUNDDOWN (u32 (PGSIZE * n + PGSIZE - 1)) = PGSIZE * n).
  { rewrite u32_small by (unfold is_u32, PGSIZE in *; rewrite NUSER_val in Hn; lia). rewrite round_down_spec.
    f_equal. replace (PGSIZE * n + PGSIZE - 1) with (PGSIZE - 1 + n * PGSIZE) by lia. rewrite Z.div_add by done. done. }
  unfold mappages. rewrite Ea, El, Z.sub_diag.
  destruct (map_step A s l pgdir (PGSIZE * n) (PGSIZE * n) (V2P p) perm (Z.to_nat (u32 0 / PGSIZE)) H Hperm Hu Hm)
    as [(s1 & l1 & E & Hk & Hm1 & Ho & He)|[-> E]].
  - apply u32_range.
  - unfold upage_of, pte_page in Hno. by destruct (has PTE_P _).
  - left. exists s1, l1. rewrite E, decide_True by done. split; [done|]. split; [|done]. destruct H as [Hf Ha Hnd Hpg].
    assert (Hat := fun k Hk => upage_at (pm s) (pm s1) pgdir (PGSIZE * n) _ k Hu Hk He). rewrite Hd in Hat.
    split; [done| |by constructor|by constructor]. rewrite space_meta, Hm1, (upages_add (pm s) (pm s1) pgdir n p Hn Hno).
    + by rewrite <- Ha, space_meta, <- Permutation_middle.
    + rewrite Hat, decide_True by done. by apply pte_page_of.
    + intros k Hk' Hne. by rewrite Hat, decide_False.
  - right. done.
Qed.
(** Pages at or above KERNBASE belong to nobody: no user page changes. *)
(** No page becomes accessible to the user. *)
Definition no_more_user pgdir m m' : Prop := forall va,
  is_u32 va -> has PTE_U (entry m' pgdir va) = true -> has PTE_U (entry m pgdir va) = true.
Lemma no_more_refl pgdir m : no_more_user pgdir m m.
Proof. by intros va _. Qed.
Lemma pte_of_user pa perm : pa mod PGSIZE = 0 -> 0 <= perm < PGSIZE -> has PTE_U (pte_of pa perm) = has PTE_U perm.
Proof.
  intros Hpa Hperm. rewrite pte_of_sum by done. change PTE_U with (2 ^ 2). rewrite !has_testbit, bit_low by (done || lia).
  rewrite Z.lor_spec. change PTE_P with (2 ^ 0). rewrite Z.pow2_bits_false by lia. apply orb_false_r.
Qed.
Lemma map_kernel_loop pgdir perm (n : nat) : forall A a pa s l,
  space A s l pgdir -> 0 <= perm < PGSIZE -> has PTE_U perm = false -> a mod PGSIZE = 0 -> pa mod PGSIZE = 0 -> KERNBASE <= a -> 0 <= pa ->
  a + PGSIZE * Z.of_nat n < 2 ^ 32 -> pa + PGSIZE * Z.of_nat n < 2 ^ 32 ->
  (forall va, is_u32 va -> a / PGSIZE <= va / PGSIZE -> has PTE_P (entry (pm s) pgdir va) = false) ->
  wp (mappages_loop (S n) pgdir a (a + PGSIZE * Z.of_nat n) pa perm) (fun r s' =>
    exists l', space A s' l' pgdir /\ only (meta (pm s) l pgdir) (pm s) (pm s') /\
      meta (pm s') l' pgdir ≡ₚ meta (pm s) l pgdir /\ (r = 0 \/ r = -1 /\ l' = []) /\
      (forall va, is_u32 va -> ~ (a / PGSIZE <= va / PGSIZE <= a / PGSIZE + Z.of_nat n) ->
        entry (pm s') pgdir va = entry (pm s) pgdir va) /\
      no_more_user pgdir (pm s) (pm s') /\
      (r = 0 -> forall va, is_u32 va -> a / PGSIZE <= va / PGSIZE <= a / PGSIZE + Z.of_nat n ->
        has PTE_P (entry (pm s') pgdir va) = true)) s.
Proof.
  induction n as [|n IH]; intros A a pa s l H Hperm Hpu0 Ha Hpa Ha0 Hpa0 Hal Hpl Hno;
    (assert (Hau : is_u32 a) by (unfold is_u32, PGSIZE, KERNBASE in *; lia));
    (assert (Hpu : is_u32 pa) by (unfold is_u32, PGSIZE in *; lia));
    (assert (Hk : NUSER <= a / PGSIZE) by (rewrite NUSER_val; apply Z.div_le_lower_bound; unfold PGSIZE, KERNBASE in *; lia));
    match goal with |- wp (mappages_loop (S ?f) _ _ ?last _ _) _ _ =>
      destruct (map_step A s l pgdir a last pa perm f H Hperm Hau Hpa Hpu) as [(s1 & l1 & E & H1 & Hm1 & Ho1 & He1)|[-> E]];
      [apply Hno; [done|lia]| |unfold wp; rewrite E; exists []; split; [done|]; split; [done|]; split; [done|]; split; [by right|]; split; [done|]; split; [apply no_more_refl|]; intros; lia]
    end; unfold wp at 1; rewrite E;
    (assert (HS : space A s1 l1 pgdir)
       by (eapply space_keep; [exact H|done|done|]; intros k Hk'; rewrite (upage_at (pm s) _ pgdir a _ k Hau Hk' He1), decide_False by lia; done));
    (assert (Hnu : no_more_user pgdir (pm s) (pm s1))
       by (intros va Hva; rewrite He1 by done; destruct (decide (va / PGSIZE = a / PGSIZE)); [rewrite (pte_of_user pa perm), Hpu0 by done; done|done])).
  - rewrite decide_True by lia. exists l1. split; [done|]. split; [done|]. split; [done|]. split; [by left|].
    split; [intros va Hva Hn; rewrite He1, decide_False by (done || lia); done|]. split; [done|].
    intros _ va Hva Hn. rewrite He1, decide_True by (done || lia). apply pte_of_present.
  - rewrite decide_False by (unfold PGSIZE; lia). rewrite !u32_small by (unfold is_u32, PGSIZE, KERNBASE in *; lia).
    assert (Hd : (a + PGSIZE) / PGSIZE = a / PGSIZE + 1) by (apply (div_page a 1 Ha)).
    assert (Hm : forall x, x mod PGSIZE = 0 -> (x + PGSIZE) mod PGSIZE = 0).
    { intros x Hx. rewrite <- Z.add_mod_idemp_l, Hx by done. done. }
    replace (a + PGSIZE * Z.of_nat (S n)) with (a + PGSIZE + PGSIZE * Z.of_nat n) by lia.
    eapply wp_mono; [apply (IH A (a + PGSIZE) (pa + PGSIZE) s1 l1); try done; auto|].
    1-4: unfold PGSIZE, KERNBASE in *; lia.
    + intros va Hva Hr. rewrite He1, decide_False by (done || lia). apply Hno; [done|lia].
    + intros r s' (l' & H' & Ho' & Hm' & Hr & Hout & Hu' & Hpr). exists l'. split; [done|]. split.
      { eapply only_trans; [exact Ho1|]. eapply only_weaken; [|exact Ho']. intros p. by rewrite Hm1. }
      split; [by rewrite Hm', Hm1|]. split; [done|]. split.
      { intros va Hva Hn. rewrite Hout by (done || lia). rewrite He1, decide_False by (done || lia). done. }
      split; [intros va Hva; auto|]. intros Hr0 va Hva Hn. destruct (decide (va / PGSIZE = a / PGSIZE)) as [E'|E'].
      * rewrite Hout, He1, decide_True by (done || lia). apply pte_of_present.
      * apply Hpr; [done|done|lia].
Qed.
(** ** How many pages a space takes *)

(** [A] is no more than a directory, all page tables, [k] user pages and one more. *)
Definition few A k : Prop := Z.of_nat (length A) <= k + 1026.
Lemma omap_short {B C} (f : B -> option C) L : (length (omap f L) <= length L)%nat.
Proof. induction L as [|x L IH]; [done|]. cbn. destruct (f x); cbn; lia. Qed.
(** When the free list is empty, all pages are in the space. *)
Lemma spent A s pgdir k :
  space A s [] pgdir -> 0 <= k <= NUSER -> (forall n, k <= n < NUSER -> upage_of (pm s) pgdir n = None) ->
  Z.of_nat (length A) <= k + 1025.
Proof.
  intros H Hk Hno. rewrite <- (sp_all _ _ _ _ H). unfold owned. cbn [app length]. rewrite length_app.
  assert (Ht : (length (tables (pm s) pgdir) <= 1024)%nat) by (unfold tables; etrans; [apply omap_short|]; by rewrite dir_slots_length).
  assert (Hu : (length (upages (pm s) pgdir) <= Z.to_nat k)%nat); [|lia].
  unfold upages. rewrite (user_slots_split k Hk), omap_app, (omap_none _ (seqZ k _)), app_nil_r.
  - etrans; [apply omap_short|]. by rewrite length_seqZ.
  - intros n Hn%elem_of_seqZ. apply Hno. lia.
Qed.
(** ** deallocuvm and freevm *)

Lemma entry_page m pgdir va va' : is_u32 va -> is_u32 va' -> va / PGSIZE = va' / PGSIZE -> entry m pgdir va = entry m pgdir va'.
Proof. intros H H' E. unfold entry. by destruct (page_index va va' H H' E) as [-> ->]. Qed.
Lemma upage_va m pgdir va : is_u32 va -> va < KERNBASE -> upage_of m pgdir (va / PGSIZE) = pte_page (entry m pgdir va) /\ 0 <= va / PGSIZE < NUSER.
Proof.
  intros H Hk. assert (Hn : 0 <= va / PGSIZE < NUSER).
  { rewrite NUSER_val. unfold is_u32 in H. split; [apply Z.div_pos; [lia|done]|]. apply Z.div_lt_upper_bound; [done|]. unfold KERNBASE, PGSIZE in *. lia. }
  split; [|done]. destruct (user_va _ Hn) as [Hu Hd]. unfold upage_of. f_equal. by apply entry_page.
Qed.
(** User pages still there are as they were. *)
Definition kept pgdir m m' : Prop := forall n p,
  0 <= n < NUSER -> upage_of m' pgdir n = Some p ->
  upage_of m pgdir n = Some p /\ forall x, on_page p x -> m' x = m x.
Lemma kept_refl pgdir m : kept pgdir m m.
Proof. by intros n p _ ->. Qed.
Lemma kept_trans pgdir m m1 m2 : kept pgdir m m1 -> kept pgdir m1 m2 -> kept pgdir m m2.
Proof.
  intros H1 H2 n p Hn E. destruct (H2 n p Hn E) as [E1 Hx]. destruct (H1 n p Hn E1) as [E0 Hy].
  split; [done|]. intros x Hp. by rewrite Hx, Hy.
Qed.
Lemma space_in A s l pgdir p : space A s l pgdir -> p ∈ meta (pm s) l pgdir -> p ∈ A.
Proof. intros H Hp. rewrite <- (sp_all _ _ _ _ H), space_meta. in_list. Qed.
(** The user page of [va] is freed and its entry cleared. *)
Lemma free_user A s l pgdir va p :
  space A s l pgdir -> is_u32 va -> va < KERNBASE -> pte_page (entry (pm s) pgdir va) = Some p ->
  let s2 := set_entry pgdir va 0 (freed p s) in
  kfree kend p s = Ok (freed p s, tt) /\ tab (pm (freed p s)) pgdir (PDX va) = tab (pm s) pgdir (PDX va) /\
  space A s2 (p :: l) pgdir /\
  entry_set pgdir va 0 (pm s) (pm s2) /\ only A (pm s) (pm s2) /\ kept pgdir (pm s) (pm s2).
Proof.
  intros H Hva Hk Hp s2. destruct (upage_va (pm s) pgdir va Hva Hk) as [Eu Hn]. rewrite Hp in Eu.
  destruct (space_user A s l pgdir _ p H Hn Eu) as (Hpg & Hpm & HpA). unfold meta in Hpm.
  destruct (kfree_run kend p s l Hpg (sp_free _ _ _ _ H)) as [Ef Hk1]; [intros Hl; apply Hpm; in_list|].
  assert (Hfar : forall q x, page_ok q -> q <> p -> on_page q x -> pm (freed p s) x = pm s x).
  { intros q x Hq Hne Hx. apply freed_other. exact (page_apart kend q p x Hq Hpg Hne Hx). }
  pose proof (space_pt _ _ _ _ H) as Hpt. destruct (pt_dir _ _ _ _ Hpt) as [Hg Hgl].
  assert (Hgp : pgdir <> p) by (intros ->; apply Hpm; in_list).
  assert (Htp : forall d, 0 <= d < 1024 -> present (pm s) pgdir d = true -> tab (pm s) pgdir d <> p).
  { intros d Hd E <-. apply Hpm. assert (tab (pm s) pgdir d ∈ tables (pm s) pgdir) by (apply in_tables; eauto). in_list. }
  assert (Hdir : forall d, 0 <= d < 1024 -> present (pm (freed p s)) pgdir d = present (pm s) pgdir d /\ tab (pm (freed p s)) pgdir d = tab (pm s) pgdir d).
  { intros d Hd. apply dir_frame; [done|]. intros x. by apply Hfar. }
  assert (He1 : forall va', entry (pm (freed p s)) pgdir va' = entry (pm s) pgdir va').
  { intros va'. apply entry_frame; [intros x; by apply Hfar|]. intros x Hpr.
    destruct (pt_tab _ _ _ _ Hpt _ (pdx_range va') Hpr) as (Hq & _). apply Hfar; [done|]. apply Htp; [apply pdx_range|done]. }
  assert (Hpt1 : pt_ok (freed p s) (p :: l) pgdir).
  { split; [done|split; [done|]|..].
    - rewrite elem_of_cons. tauto.
    - intros d Hd. destruct (Hdir d Hd) as [-> ->]. intros Hpr. destruct (pt_tab _ _ _ _ Hpt d Hd Hpr) as (? & ? & ?).
      split; [done|]. split; [|done]. rewrite elem_of_cons. intros [E|]; [by apply (Htp d)|done].
    - intros d d' Hd Hd'. destruct (Hdir d Hd) as [-> ->], (Hdir d' Hd') as [-> ->]. by apply (pt_inj _ _ _ _ Hpt). }
  assert (Hpr : present (pm s) pgdir (PDX va) = true).
  { unfold entry, pte_page in Hp. by destruct (present (pm s) pgdir (PDX va)). }
  destruct (set_entry_meta (freed p s) (p :: l) pgdir va 0 Hpt1) as (Hk2 & Ht2 & He2 & Ho2); [by rewrite (proj1 (Hdir _ (pdx_range va)))|done|done|].
  fold s2 in Hk2, Ht2, He2, Ho2. rewrite (tables_same (pm s) (pm (freed p s)) pgdir Hdir) in Ht2, Ho2.
  assert (Hes : entry_set pgdir va 0 (pm s) (pm s2)) by (intros va' Hva'; rewrite He2, He1 by done; done).
  assert (Hat := fun k Hk => upage_at (pm s) (pm s2) pgdir va 0 k Hva Hk Hes).
  split; [done|]. split; [apply Hdir, pdx_range|]. split; [|split; [done|split]].
  - split; [done| |apply H|apply H]. rewrite <- (sp_all _ _ _ _ H), !space_meta. unfold meta. rewrite Ht2.
    rewrite (upages_add (pm s2) (pm s) pgdir (va / PGSIZE) p Hn).
    + apply (Permutation_middle (l ++ pgdir :: tables (pm s) pgdir)).
    + by rewrite Hat, decide_True.
    + done.
    + intros k Hk' Hne. by rewrite Hat, decide_False.
  - intros x Hx. rewrite Ho2; [apply freed_other, Hx, HpA|]. intros q Hq. apply Hx, (space_in _ _ _ _ _ H). unfold meta. in_list.
  - intros k q Hk'. rewrite Hat by done. case_decide as E; [done|]. intros Eq. split; [done|]. intros x Hx.
    destruct (space_user A s l pgdir k q H Hk' Eq) as (Hq & Hqm & _). rewrite Ho2.
    + apply (Hfar q); [done| |done]. intros ->. apply E. eapply user_inj; eauto.
    + intros t Ht Hxt. apply Hqm. assert (t = q) as <-; [|unfold meta; in_list].
      apply (page_disjoint kend t q x); [apply (space_page _ _ _ _ t H); unfold owned; in_list|done|done|done].
Qed.
(** The present entries of the pages from [k] up to [oldsz] are cleared. *)
Definition cleared pgdir k oldsz m m' : Prop := forall va, is_u32 va ->
  entry m' pgdir va =
    if decide (k <= va / PGSIZE /\ PGSIZE * (va / PGSIZE) < oldsz /\ has PTE_P (entry m pgdir va) = true) then 0
    else entry m pgdir va.
Definition dealloc_post A s pgdir k oldsz (s' : kmem) : Prop :=
  exists l', space A s' l' pgdir /\ only A (pm s) (pm s') /\ kept pgdir (pm s) (pm s') /\ cleared pgdir k oldsz (pm s) (pm s').
Lemma page_of_mul a : a mod PGSIZE = 0 -> PGSIZE * (a / PGSIZE) = a.
Proof. intros Ha. pose proof (Z.div_mod a PGSIZE ltac:(done)). lia. Qed.
Lemma has_zero b : has b 0 = false.
Proof. done. Qed.
(** Pages [a / PGSIZE] up to [k] are not present. *)
Lemma dealloc_skip A s pgdir k k' oldsz s' :
  k <= k' -> (forall va, is_u32 va -> k <= va / PGSIZE < k' -> has PTE_P (entry (pm s) pgdir va) = false) ->
  dealloc_post A s pgdir k' oldsz s' -> dealloc_post A s pgdir k oldsz s'.
Proof.
  intros Hk Hno (l' & H1 & H2 & H3 & H4). exists l'. split; [done|]. split; [done|]. split; [done|].
  intros va Hva. rewrite H4 by done. destruct (decide (k <= va / PGSIZE < k')) as [Hr|Hr].
  - rewrite (Hno va Hva Hr). rewrite !decide_False by (intros (_ & _ & ?); done). done.
  - destruct (decide (k' <= _ /\ _)) as [D|D], (decide (k <= _ /\ _)) as [D'|D']; try done; exfalso;
      [apply D'; destruct D as (? & ? & ?)|apply D; destruct D' as (? & ? & ?)]; repeat split; (done || lia).
Qed.
Lemma dealloc_cons A s s1 l1 pgdir va oldsz s' :
  is_u32 va -> PGSIZE * (va / PGSIZE) < oldsz -> space A s1 l1 pgdir ->
  entry_set pgdir va 0 (pm s) (pm s1) -> has PTE_P (entry (pm s) pgdir va) = true -> only A (pm s) (pm s1) -> kept pgdir (pm s) (pm s1) ->
  dealloc_post A s1 pgdir (va / PGSIZE + 1) oldsz s' -> dealloc_post A s pgdir (va / PGSIZE) oldsz s'.
Proof.
  intros Hva Hlt HS He Hp Ho Hk (l' & H1 & H2 & H3 & H4). exists l'. split; [done|].
  split; [by eapply only_trans|]. split; [by eapply kept_trans|]. intros va' Hva'. rewrite H4, He by done.
  destruct (decide (va' / PGSIZE = va / PGSIZE)) as [E|E].
  - rewrite has_zero, decide_False by (intros (_ & _ & ?); done). rewrite decide_True; [done|].
    rewrite (entry_page (pm s) pgdir va' va) by done. rewrite E. split; [lia|]. done.
  - destruct (decide (va / PGSIZE + 1 <= _ /\ _)) as [D|D], (decide (va / PGSIZE <= _ /\ _)) as [D'|D']; try done; exfalso;
      [apply D'; destruct D as (? & ? & ?)|apply D; destruct D' as (? & ? & ?)]; repeat split; (done || lia).
Qed.
Lemma pgaddr_next a : 0 <= a < KERNBASE ->
  u32 (u32 (PGADDR (PDX a + 1) 0 0 - PGSIZE) + PGSIZE) = 2 ^ 22 * (a / 2 ^ 22 + 1) /\ 0 <= a / 2 ^ 22 < 512.
Proof.
  intros Ha. assert (Hd : 0 <= a / 2 ^ 22 < 512).
  { split; [apply Z.div_pos; lia|]. apply Z.div_lt_upper_bound; [lia|]. unfold KERNBASE in Ha. lia. }
  split; [|done]. unfold PGADDR. rewrite Z.lor_0_r. change (Z.shiftl 0 12) with 0. rewrite Z.lor_0_r.
  rewrite pdx_spec by lia. rewrite (Z.mod_small (a / 2 ^ 22)) by lia. rewrite Z.shiftl_mul_pow2 by lia.
  rewrite (u32_small ((a / 2 ^ 22 + 1) * 2 ^ 22)) by (unfold is_u32; lia).
  rewrite (u32_small (_ - PGSIZE)) by (unfold is_u32, PGSIZE; lia). rewrite u32_small by (unfold is_u32, PGSIZE; lia). lia.
Qed.
Lemma dealloc_loop A pgdir oldsz fuel : forall a s l,
  space A s l pgdir -> a mod PGSIZE = 0 -> 0 <= a -> oldsz <= KERNBASE -> (a < oldsz -> (oldsz - a) / PGSIZE < Z.of_nat fuel) ->
  wp (deallocuvm_loop kend fuel pgdir a oldsz) (fun _ s' => dealloc_post A s pgdir (a / PGSIZE) oldsz s') s.
Proof.
  induction fuel as [|fuel IH]; intros a s l H Ha Ha0 Hold Hf.
  all: assert (Hdone : oldsz <= a -> dealloc_post A s pgdir (a / PGSIZE) oldsz s).
  1,3: intros Hle; exists l; split; [done|]; split; [done|]; split; [apply kept_refl|]; intros va Hva; rewrite decide_False; [done|];
       intros (Hk & Hlt & _); pose proof (page_of_mul a Ha); unfold PGSIZE in *; lia.
  { apply wp_ret, Hdone. destruct (decide (a < oldsz)) as [Hlt|]; [|lia]. specialize (Hf Hlt).
    pose proof (Z.div_pos (oldsz - a) PGSIZE). unfold PGSIZE in *. lia. }
  cbn [deallocuvm_loop]. case_decide as Hlt; [|by apply wp_ret, Hdone; lia]. specialize (Hf Hlt).
  assert (Hau : is_u32 a) by (unfold is_u32, KERNBASE in *; lia). assert (Hak : a < KERNBASE) by lia.
  apply wp_bind. unfold wp at 1. destruct (present (pm s) pgdir (PDX a)) eqn:Hp.
  - rewrite walk_hit by done. pose proof (space_pt _ _ _ _ H) as Hpt.
    destruct (pt_tab _ _ _ _ Hpt _ (pdx_range a) Hp) as (Ht & _). pose proof (page_pos _ _ Ht). pose proof (ptx_range a).
    rewrite decide_False by lia. apply wp_bind. unfold wp at 1, peek, gets.
    replace (load32 (pm s) (tab (pm s) pgdir (PDX a) + 4 * PTX a)) with (entry (pm s) pgdir a) by (unfold entry; by rewrite Hp).
    assert (Hnext : u32 (a + PGSIZE) = a + PGSIZE) by (apply u32_small; unfold is_u32, PGSIZE, KERNBASE in *; lia).
    assert (Hm : (a + PGSIZE) mod PGSIZE = 0) by (rewrite <- Z.add_mod_idemp_l, Ha by done; done).
    assert (Hd : (a + PGSIZE) / PGSIZE = a / PGSIZE + 1) by (apply (div_page a 1 Ha)).
    assert (Hf' : a + PGSIZE < oldsz -> (oldsz - (a + PGSIZE)) / PGSIZE < Z.of_nat fuel).
    { intros _. replace (oldsz - a) with (oldsz - (a + PGSIZE) + 1 * PGSIZE) in Hf by lia. rewrite Z.div_add in Hf by done. lia. }
    apply wp_bind. destruct (has PTE_P (entry (pm s) pgdir a)) eqn:He.
    + assert (Epp : pte_page (entry (pm s) pgdir a) = Some (P2V (PTE_ADDR (entry (pm s) pgdir a)))) by (unfold pte_page; by rewrite He).
      destruct (free_user A s l pgdir a _ H Hau Hak Epp) as (Ef & Et & H2 & He2 & Ho2 & Hk2).
      destruct (upage_va (pm s) pgdir a Hau Hak) as [Eu Hn]. rewrite Epp in Eu.
      destruct (space_user A s l pgdir _ _ H Hn Eu) as (Hpg & _ & _).
      rewrite decide_False; [|intros Ez; rewrite Ez in Hpg; destruct Hpg as [_ [Hlow _] _]; change (P2V 0) with KERNBASE in Hlow; lia].
      apply wp_bind. unfold wp at 1. rewrite Ef. unfold wp at 1, poke, on_pm, modify. rewrite <- Et. rewrite Hnext.
      eapply wp_mono; [apply (IH (a + PGSIZE) _ _ H2); try done; unfold PGSIZE; lia|]. cbn beta. intros [] s' Hpost.
      eapply dealloc_cons; [exact Hau|by rewrite page_of_mul|exact H2|exact He2|exact He|exact Ho2|exact Hk2|]. by rewrite <- Hd.
    + apply wp_ret. rewrite Hnext. eapply wp_mono; [apply (IH (a + PGSIZE) s l H); try done; unfold PGSIZE; lia|].
      cbn beta. intros [] s' Hpost. eapply dealloc_skip; [|intros va Hva Hr|exact Hpost]; [lia|].
      rewrite (entry_page (pm s) pgdir va a) by (done || lia). done.
  - rewrite walk_miss by done. rewrite decide_True by done. destruct (pgaddr_next a ltac:(lia)) as [-> Hr].
    set (b := 2 ^ 22 * (a / 2 ^ 22 + 1)). assert (Hb : b / PGSIZE = 1024 * (a / 2 ^ 22 + 1)).
    { unfold b. replace (2 ^ 22 * (a / 2 ^ 22 + 1)) with (1024 * (a / 2 ^ 22 + 1) * PGSIZE) by (unfold PGSIZE; lia). by apply Z.div_mul. }
    pose proof (Z.div_mod a (2 ^ 22) ltac:(lia)) as Edm. pose proof (Z.mod_pos_bound a (2 ^ 22) ltac:(lia)) as Hmb.
    assert (Hab : a + PGSIZE <= b).
    { pose proof (page_of_mul a Ha). unfold b, PGSIZE in *. change (2 ^ 22) with 4194304 in *. lia. }
    eapply wp_mono; [apply (IH b s l H); try done|].
    + unfold b. replace (2 ^ 22 * (a / 2 ^ 22 + 1)) with (1024 * (a / 2 ^ 22 + 1) * PGSIZE) by (unfold PGSIZE; lia). by apply Z.mod_mul.
    + lia.
    + intros Hbo. assert ((oldsz - b) / PGSIZE <= (oldsz - (a + PGSIZE)) / PGSIZE) by (apply Z.div_le_mono; [done|lia]).
      replace (oldsz - a) with (oldsz - (a + PGSIZE) + 1 * PGSIZE) in Hf by lia. rewrite Z.div_add in Hf by done. lia.
    + cbn beta. intros [] s' Hpost. eapply dealloc_skip; [|intros va Hva Hv|exact Hpost]; [apply Z.div_le_mono; [done|unfold PGSIZE in *; lia]|].
      unfold entry. replace (PDX va) with (PDX a); [by rewrite Hp|]. unfold is_u32 in *. rewrite !pdx_spec by lia.
      assert (E : va / 2 ^ 22 = a / 2 ^ 22); [|by rewrite E].
      pose proof (Z.div_mod va PGSIZE ltac:(done)). pose proof (Z.mod_pos_bound va PGSIZE ltac:(done)).
      pose proof (page_of_mul a Ha). symmetry. rewrite Hb in Hv. apply (Z.div_unique_pos va (2 ^ 22) (a / 2 ^ 22) (va - 2 ^ 22 * (a / 2 ^ 22))); [|lia].
      unfold PGSIZE in *. change (2 ^ 22) with 4194304 in *. lia.
Qed.
(** The number of pages that hold [sz] bytes. *)
Definition npages (sz : Z) : Z := (sz + PGSIZE - 1) / PGSIZE.
Lemma npages_spec sz k : 0 <= sz -> 0 <= k -> k < npages sz <-> PGSIZE * k < sz.
Proof.
  intros Hs Hk. unfold npages. pose proof (Z.div_mod (sz + PGSIZE - 1) PGSIZE ltac:(done)).
  pose proof (Z.mod_pos_bound (sz + PGSIZE - 1) PGSIZE ltac:(done)). unfold PGSIZE in *. lia.
Qed.
Lemma round_up_pages sz : 0 <= sz <= KERNBASE -> PGROUNDUP sz = PGSIZE * npages sz /\ PGROUNDUP sz / PGSIZE = npages sz /\ PGROUNDUP sz mod PGSIZE = 0 /\ sz <= PGROUNDUP sz.
Proof.
  intros Hs. assert (E : PGROUNDUP sz = PGSIZE * npages sz) by (apply round_up_spec; unfold KERNBASE, PGSIZE in *; lia).
  rewrite E, (Z.mul_comm PGSIZE). split; [done|]. split; [by apply Z.div_mul|]. split; [by apply Z.mod_mul|].
  unfold npages. pose proof (Z.div_mod (sz + PGSIZE - 1) PGSIZE ltac:(done)).
  pose proof (Z.mod_pos_bound (sz + PGSIZE - 1) PGSIZE ltac:(done)). unfold PGSIZE in *. lia.
Qed.
Lemma deallocuvm_spec A s l pgdir oldsz newsz :
  space A s l pgdir -> 0 <= newsz -> oldsz <= KERNBASE ->
  wp (deallocuvm kend pgdir oldsz newsz) (fun r s' =>
    if decide (newsz >= oldsz) then r = oldsz /\ s' = s
    else r = newsz /\ dealloc_post A s pgdir (npages newsz) oldsz s') s.
Proof.
  intros H Hn Ho. unfold deallocuvm. case_decide as Hd; [by apply wp_ret|].
  destruct (round_up_pages newsz ltac:(lia)) as (_ & Er & Em & Hle). apply wp_bind.
  eapply wp_mono; [apply (dealloc_loop A pgdir oldsz _ (PGROUNDUP newsz) s l H Em); try lia|].
  - intros _. rewrite Nat2Z.inj_succ, Z2Nat.id by (apply Z.div_pos; [lia|done]).
    assert ((oldsz - PGROUNDUP newsz) / PGSIZE <= oldsz / PGSIZE) by (apply Z.div_le_mono; [done|lia]). lia.
  - cbn beta. intros [] s' Hp. apply wp_ret. rewrite Er in Hp. done.
Qed.
(** Without user pages the space is the free pages and the page table. *)
Lemma no_user_pages m pgdir : (forall n, 0 <= n < NUSER -> upage_of m pgdir n = None) -> upages m pgdir = [].
Proof. intros H. apply omap_none. intros n Hn%in_user_slots. by apply H. Qed.
(** What the loop of freevm has still to free. *)
Definition freeing A m0 pgdir (rest : list nat) (s : kmem) : Prop :=
  exists l', kmem_ok s l' /\ (l' ++ pgdir :: omap (fun i => table_of m0 pgdir (Z.of_nat i)) rest ≡ₚ A) /\
    (forall x, on_page pgdir x -> pm s x = m0 x) /\ only A m0 (pm s) /\ Forall (fun i => (i < 1024)%nat) rest.
Lemma freevm_loop A m0 pgdir s :
  NoDup A -> Forall page_ok A -> freeing A m0 pgdir (seq 0 NPDENTRIES) s ->
  wp (mfor (seq 0 NPDENTRIES) (fun i =>
    e ← peek (pgdir + 4 * Z.of_nat i);
    if has PTE_P e then kfree kend (P2V (PTE_ADDR e)) else mret tt)) (fun _ => freeing A m0 pgdir []) s.
Proof.
  intros HnA HpA Hs. apply (wp_mfor _ _ (freeing A m0 pgdir)); [done| |done]. clear s Hs.
  intros i rest s (l' & Hk & Hperm & Hg & Ho & Hi). apply Forall_cons in Hi as [Hi Hrest].
  apply wp_bind. unfold wp at 1, peek, gets.
  assert (E : load32 (pm s) (pgdir + 4 * Z.of_nat i) = load32 m0 (pgdir + 4 * Z.of_nat i)).
  { apply load32_ext. intros x Hx. apply Hg. eapply word_on_page; [|exact Hx]. lia. }
  rewrite E. cbn in Hperm. unfold table_of at 1, present at 1 in Hperm.
  destruct (has PTE_P _) eqn:Hp; [|apply wp_ret; by exists l'].
  fold (tab m0 pgdir (Z.of_nat i)) in *. set (p := tab m0 pgdir (Z.of_nat i)) in *.
  assert (HpA' : p ∈ A) by (rewrite <- Hperm; in_list). rewrite Forall_forall in HpA.
  assert (Hnd : NoDup (l' ++ pgdir :: p :: omap (fun i => table_of m0 pgdir (Z.of_nat i)) rest)) by (by rewrite Hperm).
  apply NoDup_app in Hnd as (_ & Hd & Hnd). apply NoDup_cons in Hnd as [Hgp _].
  destruct (kfree_run kend p s l') as [Ef Hk2]; [by apply HpA|done|intros Hin; apply (Hd _ Hin); in_list|].
  unfold wp. rewrite Ef. exists (p :: l'). split; [done|]. split; [|split; [|split; [|done]]].
  - rewrite <- Hperm. cbn [app]. rewrite (Permutation_middle l' (pgdir :: _) p). by rewrite (perm_swap pgdir p).
  - intros x Hx. rewrite freed_other; [by apply Hg|]. apply (page_apart kend pgdir p x); [|by apply HpA|intros Eq; apply Hgp; rewrite Eq; left|done].
    apply HpA. rewrite <- Hperm. in_list.
  - intros x Hx. rewrite freed_other; [by apply Ho|]. by apply Hx.
Qed.
Lemma seq_slots {B} (f : Z -> option B) : omap (fun i => f (Z.of_nat i)) (seq 0 NPDENTRIES) = omap f dir_slots.
Proof.
  change dir_slots with (seqZ 0 1024). unfold seqZ, NPDENTRIES. change (Z.to_nat 1024) with 1024%nat. generalize (seq 0 1024). intros L.
  induction L as [|i L IH]; [done|]. cbn. rewrite IH. by rewrite Z.add_0_r.
Qed.
(** freevm gives every page of the space back. *)
Lemma freevm_spec A s l pgdir :
  space A s l pgdir ->
  wp (freevm kend pgdir) (fun _ s' => exists l', kmem_ok s' l' /\ l' ≡ₚ A /\ only A (pm s) (pm s')) s.
Proof.
  intros H. unfold freevm. pose proof (space_pt _ _ _ _ H) as Hpt. destruct (pt_dir _ _ _ _ Hpt) as [Hg _].
  rewrite decide_False by (pose proof (page_pos _ _ Hg); lia). apply wp_bind.
  eapply wp_mono; [apply (deallocuvm_spec A s l pgdir KERNBASE 0 H); [lia|done]|]. cbn beta.
  intros r s1 Hr. rewrite decide_False in Hr by (unfold KERNBASE; lia). destruct Hr as (_ & l1 & H1 & Ho1 & _ & Hc1).
  assert (Hu : upages (pm s1) pgdir = []).
  { apply no_user_pages. intros n Hn. destruct (user_va n Hn) as [Hva Hd]. unfold upage_of, pte_page. rewrite Hc1, Hd by done.
    change (npages 0) with 0. case_decide as D; [done|]. destruct (has PTE_P (entry (pm s) pgdir (PGSIZE * n))) eqn:E; [|done].
    exfalso. apply D. split; [lia|]. split; [|done]. rewrite NUSER_val in Hn. unfold KERNBASE, PGSIZE. lia. }
  apply wp_bind. eapply wp_mono; [apply (freevm_loop A (pm s1)); [apply H1|apply H1|]|].
  - exists l1. split; [apply H1|]. split.
    + rewrite (seq_slots (table_of (pm s1) pgdir)). rewrite <- (sp_all _ _ _ _ H1). unfold owned. rewrite Hu, app_nil_r. done.
    + split; [done|]. split; [done|]. apply Forall_forall. intros i Hi%elem_of_seq. unfold NPDENTRIES in Hi. lia.
  - cbn beta. intros [] s2 (l2 & Hk2 & Hp2 & _ & Ho2 & _). cbn in Hp2.
    assert (Hn : NoDup (l2 ++ [pgdir])) by (rewrite Hp2; apply H1). apply NoDup_app in Hn as (_ & Hd & _).
    destruct (kfree_run kend pgdir s2 l2 Hg Hk2) as [Ef Hk3]; [intros Hin; apply (Hd _ Hin); left|].
    unfold wp. rewrite Ef. exists (pgdir :: l2). split; [done|]. split; [by rewrite <- Hp2, <- Permutation_cons_append|].
    eapply only_trans; [exact Ho1|]. eapply only_trans; [exact Ho2|]. intros x Hx. apply freed_other. apply Hx.
    rewrite <- Hp2. in_list.
Qed.
(** ** allocuvm *)

Lemma space_perm A A' s l pgdir : A ≡ₚ A' -> space A s l pgdir -> space A' s l pgdir.
Proof. intros E [Hf Ha Hn Hp]. split; [done|by rewrite Ha|by rewrite <- E|by rewrite <- E]. Qed.
(** A page taken from the free list belongs to the caller. *)
Lemma kalloc_space A s l pgdir :
  space A s l pgdir ->
  (l = [] /\ kalloc s = Ok (s, 0)) \/
  exists p l1 A1 s1, l = p :: l1 /\ A ≡ₚ p :: A1 /\ kalloc s = Ok (s1, p) /\ space A1 s1 l1 pgdir /\
    pm s1 = pm s /\ page_ok p /\ ~ (p ∈ A1).
Proof.
  intros H. pose proof (kalloc_run kend s l (sp_free _ _ _ _ H)) as Ha. destruct l as [|p l1]; [by left|]. right.
  destruct Ha as (s1 & E & Hpm & Hk & Hp). exists p, l1, (l1 ++ owned (pm s) pgdir), s1.
  destruct H as [Hf HA Hn Hpg]. cbn in HA. rewrite <- HA in Hn, Hpg. apply NoDup_cons in Hn as [Hn1 Hn]. apply Forall_cons in Hpg as [_ Hpg].
  split; [done|]. split; [by rewrite <- HA|]. split; [done|]. split; [|done]. split; [done|by rewrite Hpm|done|done].
Qed.
(** Writing to a page of the caller's. *)
Lemma space_write A s l pgdir p m' :
  space A s l pgdir -> page_ok p -> ~ (p ∈ A) -> only [p] (pm s) m' ->
  space A (s <| pm := m' |>) l pgdir /\ (forall va, entry m' pgdir va = entry (pm s) pgdir va) /\
  tables m' pgdir = tables (pm s) pgdir.
Proof.
  intros H Hp HpA Ho. apply space_frame; [done|]. intros q x Hq Hx. apply Ho. intros p' ->%list_elem_of_singleton Hx'.
  apply HpA. assert (HqA : q ∈ A) by (by apply (space_in _ _ _ _ _ H)).
  assert (Hqp : page_ok q) by (apply (space_page _ _ _ _ q H); by rewrite (sp_all _ _ _ _ H)).
  by rewrite <- (page_disjoint kend q p x Hqp Hp Hx Hx').
Qed.
Lemma kfree_space A s l pgdir p :
  space A s l pgdir -> page_ok p -> ~ (p ∈ A) ->
  kfree kend p s = Ok (freed p s, tt) /\ space (p :: A) (freed p s) (p :: l) pgdir /\
  (forall va, entry (pm (freed p s)) pgdir va = entry (pm s) pgdir va) /\ only [p] (pm s) (pm (freed p s)).
Proof.
  intros H Hp HpA. assert (Ho : only [p] (pm s) (pm (freed p s))) by (intros x Hx; apply freed_other, Hx; left).
  destruct (space_write A s l pgdir p _ H Hp HpA Ho) as (H1 & He & Ht).
  assert (Hl : ~ (p ∈ l)) by (intros Hl; apply HpA; rewrite <- (sp_all _ _ _ _ H); in_list).
  destruct (kfree_run kend p s l Hp (sp_free _ _ _ _ H) Hl) as [E Hk]. split; [done|]. split; [|done].
  destruct H1 as [_ Ha Hn Hpg]. split; [done| |by constructor|by constructor]. cbn. by rewrite <- Ha.
Qed.
Lemma memset_only p c m : only [p] m (memset m p c page).
Proof. intros x Hx. rewrite memset_fill, decide_False; [done|]. apply (Hx p). left. Qed.
Lemma memset_zero p m x : on_page p x -> memset m p 0 page x = 0.
Proof. intros Hx. rewrite memset_fill, decide_True; [done|]. exact Hx. Qed.

Lemma wp_on_pm (g : mem -> mem) (Q : unit -> kmem -> Prop) s : Q tt (s <| pm := g (pm s) |>) -> wp (on_pm g) Q s.
Proof. done. Qed.
Lemma wp_zero_page p (Q : unit -> kmem -> Prop) s :
  (forall m2, only [p] (pm s) m2 -> (forall x, on_page p x -> m2 x = 0) -> Q tt (s <| pm := m2 |>)) ->
  wp (on_pm (fun m => memset m p 0 page)) Q s.
Proof.
  intros HQ. apply wp_on_pm, HQ; [apply memset_only|intros x; apply memset_zero].
Qed.

(** The pages from [k0] up to [k] were free and are mapped, zeroed. *)
Definition fresh_page ps pgdir va m : Prop :=
  exists p, p ∈ ps /\ page_ok p /\ entry m pgdir va = pte_of (V2P p) (Z.lor PTE_W PTE_U) /\ forall x, on_page p x -> m x = 0.
Record grown A s0 l0 pgdir k0 k s l : Prop := mkgrown {
  gr_space : space A s l pgdir;
  gr_only : only (meta (pm s0) l0 pgdir) (pm s0) (pm s);
  gr_meta : forall p, p ∈ meta (pm s) l pgdir -> p ∈ meta (pm s0) l0 pgdir;
  gr_old : forall va, is_u32 va -> ~ (k0 <= va / PGSIZE < k) -> entry (pm s) pgdir va = entry (pm s0) pgdir va;
  gr_new : forall va, is_u32 va -> k0 <= va / PGSIZE < k -> fresh_page (meta (pm s0) l0 pgdir) pgdir va (pm s);
}.
Lemma grown_refl A s l pgdir k : space A s l pgdir -> grown A s l pgdir k k s l.
Proof. intros H. split; [done|done|done|done|]. intros va Hva Hr. lia. Qed.
Lemma meta_pages A s l pgdir p : space A s l pgdir -> p ∈ meta (pm s) l pgdir -> page_ok p.
Proof. intros H Hp. apply (space_page _ _ _ _ p H). rewrite space_meta. in_list. Qed.
(** A page that is neither free nor of the page table is not written. *)
Lemma only_apart ps p m m' x :
  only ps m m' -> page_ok p -> Forall page_ok ps -> ~ (p ∈ ps) -> on_page p x -> m' x = m x.
Proof.
  intros Ho Hp Hps Hn Hx. apply Ho. intros q Hq Hxq. apply Hn. rewrite Forall_forall in Hps.
  by rewrite (page_disjoint kend p q x Hp (Hps q Hq) Hx Hxq).
Qed.
Lemma meta_forall A s l pgdir : space A s l pgdir -> Forall page_ok (meta (pm s) l pgdir).
Proof. intros H. apply Forall_forall. intros p. by apply (meta_pages A s). Qed.
Lemma grown_step A s0 l0 pgdir k0 k s l p l1 A1 s1 m2 s3 l3 :
  grown A s0 l0 pgdir k0 k s l -> k0 <= k -> 0 <= k < NUSER ->
  l = p :: l1 -> A ≡ₚ p :: A1 -> space A1 s1 l1 pgdir -> pm s1 = pm s -> page_ok p -> ~ (p ∈ A1) ->
  only [p] (pm s1) m2 -> (forall x, on_page p x -> m2 x = 0) ->
  space (p :: A1) s3 l3 pgdir -> meta (pm s3) l3 pgdir ≡ₚ meta m2 l1 pgdir ->
  only (meta m2 l1 pgdir) m2 (pm s3) ->
  entry_set pgdir (PGSIZE * k) (pte_of (V2P p) (Z.lor PTE_W PTE_U)) m2 (pm s3) ->
  grown A s0 l0 pgdir k0 (k + 1) s3 l3.
Proof.
  intros [HS HO HM HOld HNew] Hk Hkn -> HA H1 Hpm Hp HpA Ho2 Hz2 H3 Hm3 Ho3 He3. destruct (user_va k Hkn) as [Hku Hkd].
  destruct (space_write A1 s1 l1 pgdir p m2 H1 Hp HpA Ho2) as (H2 & He2 & Ht2).
  assert (Hsub : forall q, q ∈ meta m2 l1 pgdir -> q ∈ meta (pm s) (p :: l1) pgdir).
  { unfold meta. rewrite Ht2, Hpm. intros q. rewrite !elem_of_app, !elem_of_cons. tauto. }
  assert (Hpin : p ∈ meta (pm s0) l0 pgdir) by (apply HM; unfold meta; in_list).
  assert (Hpm2 : ~ (p ∈ meta m2 l1 pgdir)) by (intros Hin; by apply HpA, (space_in _ _ _ _ _ H2)).
  assert (Hmf : Forall page_ok (meta m2 l1 pgdir)) by apply (meta_forall _ _ _ _ H2). rewrite Hpm in He2.
  assert (Ho : only (meta (pm s) (p :: l1) pgdir) (pm s) (pm s3)).
  { eapply only_trans; [eapply only_weaken; [|rewrite <- Hpm; exact Ho2]|eapply only_weaken; [exact Hsub|exact Ho3]].
    intros q ->%list_elem_of_singleton. unfold meta. in_list. }
  split.
  - eapply space_perm; [symmetry; exact HA|exact H3].
  - eapply only_trans; [exact HO|]. eapply only_weaken; [exact HM|exact Ho].
  - intros q Hq. apply HM, Hsub. by rewrite <- Hm3.
  - intros va Hva Hr. rewrite He3 by done. rewrite Hkd, decide_False by lia. rewrite He2. apply HOld; [done|lia].
  - intros va Hva Hr. destruct (decide (va / PGSIZE = k)) as [E|E].
    + exists p. split; [done|]. split; [done|]. rewrite He3, Hkd, decide_True by done. split; [done|]. intros x Hx.
      rewrite (only_apart _ p _ _ x Ho3) by done. by apply Hz2.
    + destruct (HNew va Hva ltac:(lia)) as (q & Hq & Hqp & Eq & Hz). exists q. split; [done|]. split; [done|].
      rewrite He3, Hkd, decide_False, He2 by done. split; [done|]. intros x Hx.
      assert (Hqm : ~ (q ∈ meta (pm s) (p :: l1) pgdir)).
      { assert (Hvn : 0 <= va / PGSIZE < NUSER) by (unfold is_u32 in Hva; pose proof (Z.div_pos va PGSIZE); unfold PGSIZE in *; lia).
        destruct (user_va _ Hvn) as [Hu' Hd']. apply (space_user A s (p :: l1) pgdir (va / PGSIZE) q HS Hvn).
        unfold upage_of. rewrite (entry_page _ _ _ va), Eq by done. apply pte_page_of; [done|]. split; [discriminate|reflexivity]. }
      rewrite (only_apart _ q _ _ x Ho) by (done || by apply (meta_forall A)). by apply Hz.
Qed.
(** Apart from tables that stay, the space is what it was. *)
Record undone pgdir k0 k1 m0 m : Prop := mkundone {
  un_entry : forall va, is_u32 va -> ~ (k0 <= va / PGSIZE < k1) -> entry m pgdir va = entry m0 pgdir va;
  un_pages : forall n, 0 <= n < NUSER -> upage_of m pgdir n = upage_of m0 pgdir n;
  un_bytes : forall n p, 0 <= n < NUSER -> upage_of m0 pgdir n = Some p -> forall x, on_page p x -> m x = m0 x;
}.
Lemma alloc_undo A A1 s0 l0 s l pgdir k oldsz newsz :
  space A s0 l0 pgdir -> (forall p, p ∈ A1 -> p ∈ A) -> space A1 s l pgdir -> only (meta (pm s0) l0 pgdir) (pm s0) (pm s) ->
  (forall va, is_u32 va -> ~ (npages oldsz <= va / PGSIZE < k) -> entry (pm s) pgdir va = entry (pm s0) pgdir va) ->
  k <= npages newsz -> 0 <= oldsz < newsz -> newsz < KERNBASE ->
  (forall n, npages oldsz <= n < npages newsz -> upage_of (pm s0) pgdir n = None) ->
  wp (deallocuvm kend pgdir newsz oldsz) (fun _ s' => exists l', space A1 s' l' pgdir /\ only A (pm s0) (pm s') /\
    undone pgdir (npages oldsz) (npages newsz) (pm s0) (pm s')) s.
Proof.
  intros H0 HA H Ho He Hk Hsz Hkb Hno. eapply wp_mono; [apply (deallocuvm_spec A1 s l pgdir newsz oldsz H); lia|].
  cbn beta. intros r s' Hr. rewrite decide_False in Hr by lia. destruct Hr as (_ & l' & H' & Ho' & Hkept & Hc).
  exists l'. split; [done|]. split.
  { eapply only_trans; [eapply only_weaken; [|exact Ho]; intros p; apply (space_in _ _ _ _ _ H0)|]. by eapply only_weaken; [|exact Ho']. }
  assert (Hp : forall n, 0 <= n < NUSER -> upage_of (pm s') pgdir n = upage_of (pm s0) pgdir n).
  { intros n Hn. destruct (user_va n Hn) as [Hu Hd]. destruct (decide (npages oldsz <= n < npages newsz)) as [Hr|Hr].
    - rewrite Hno by done. unfold upage_of, pte_page. rewrite Hc, Hd by done. case_decide as D; [done|].
      destruct (has PTE_P (entry (pm s) pgdir (PGSIZE * n))) eqn:E; [|done]. exfalso. apply D. split; [lia|]. split; [|done].
      apply npages_spec; lia.
    - unfold upage_of. rewrite Hc, Hd by done. rewrite decide_False; [rewrite He by (done || lia); done|].
      intros (Hl & Hlt & _). apply npages_spec in Hlt; lia. }
  split; [|done|].
  - intros va Hva Hr. rewrite Hc by done. rewrite decide_False; [apply He; [done|lia]|]. intros (Hl & Hlt & _).
    apply npages_spec in Hlt; [lia|lia|]. unfold is_u32 in Hva. apply Z.div_pos; [lia|done].
  - intros n p Hn E x Hx. destruct (Hkept n p Hn) as [_ Hb]; [by rewrite Hp|]. rewrite Hb by done.
    destruct (space_user A s0 l0 pgdir n p H0 Hn E) as (Hpg & Hpm & _).
    apply (only_apart _ p _ _ x Ho); [done|by apply (meta_forall A)|done|done].
Qed.
Definition alloc_failed A s0 pgdir k0 k1 (s' : kmem) : Prop :=
  exists l', space A s' l' pgdir /\ only A (pm s0) (pm s') /\ undone pgdir k0 k1 (pm s0) (pm s').
(** A page that did not find a place is freed too. *)
Lemma undone_free A A1 s0 s l pgdir k0 k1 p :
  A ≡ₚ p :: A1 -> ~ (p ∈ A1) -> page_ok p -> (forall n, 0 <= n < NUSER -> upage_of (pm s0) pgdir n <> Some p) -> Forall page_ok A ->
  space A1 s l pgdir -> only A (pm s0) (pm s) -> undone pgdir k0 k1 (pm s0) (pm s) ->
  wp (kfree kend p) (fun _ s' => alloc_failed A s0 pgdir k0 k1 s') s.
Proof.
  intros HA HpA Hp Hup HAp H Ho [U1 U2 U3]. destruct (kfree_space A1 s l pgdir p H Hp HpA) as (E & H' & He & Ho').
  unfold wp. rewrite E. exists (p :: l). split; [by eapply space_perm; [symmetry|]|]. split.
  - eapply only_trans; [exact Ho|]. eapply only_weaken; [|exact Ho']. intros q ->%list_elem_of_singleton. rewrite HA. left.
  - split.
    + intros va Hva Hr. rewrite He. by apply U1.
    + intros n Hn. unfold upage_of. rewrite He. by apply U2.
    + intros n q Hn Eq x Hx. rewrite <- (U3 n q Hn Eq x Hx). apply Ho'. intros p' ->%list_elem_of_singleton Hx'.
      apply (Hup n Hn). rewrite Eq. f_equal. rewrite <- (U2 n Hn) in Eq.
      destruct (space_user A1 s l pgdir n q H Hn Eq) as (Hq & _ & _). by apply (page_disjoint kend q p x).
Qed.
(** There are not even enough pages for the whole space up to [newsz]. *)
Definition short A s0 pgdir newsz : Prop :=
  (forall n, npages newsz <= n < NUSER -> upage_of (pm s0) pgdir n = None) -> few A (npages newsz).
Lemma alloc_loop A s0 l0 pgdir oldsz newsz fuel : forall a s l,
  space A s0 l0 pgdir -> grown A s0 l0 pgdir (npages oldsz) (a / PGSIZE) s l -> a mod PGSIZE = 0 -> oldsz <= a -> npages oldsz <= a / PGSIZE <= npages newsz ->
  0 <= oldsz <= newsz -> newsz < KERNBASE ->
  (forall n, npages oldsz <= n < npages newsz -> upage_of (pm s0) pgdir n = None) ->
  (a < newsz -> (newsz - a) / PGSIZE < Z.of_nat fuel) ->
  wp (allocuvm_loop kend fuel pgdir a oldsz newsz) (fun r s' =>
    (r = newsz /\ exists l', grown A s0 l0 pgdir (npages oldsz) (npages newsz) s' l') \/
    (r = 0 /\ alloc_failed A s0 pgdir (npages oldsz) (npages newsz) s' /\ short A s0 pgdir newsz)) s.
Proof.
  induction fuel as [|fuel IH]; intros a s l H0 G Ha Hao Hak Hsz Hkb Hno Hf;
    (assert (Ha0 : 0 <= a / PGSIZE) by (apply Z.div_pos; [lia|done])).
  all: assert (Hdone : newsz <= a -> exists l', grown A s0 l0 pgdir (npages oldsz) (npages newsz) s l').
  1,3: intros Hle; exists l; replace (npages newsz) with (a / PGSIZE); [done|]; pose proof (page_of_mul a Ha);
       destruct (decide (a / PGSIZE < npages newsz)) as [Hl|]; [apply npages_spec in Hl; lia|lia].
  { apply wp_ret. left. split; [done|]. apply Hdone. destruct (decide (a < newsz)) as [Hlt|]; [|lia]. specialize (Hf Hlt).
    pose proof (Z.div_pos (newsz - a) PGSIZE). unfold PGSIZE in *. lia. }
  cbn [allocuvm_loop]. case_decide as Hlt; [|apply wp_ret; left; split; [done|]; apply Hdone; lia]. specialize (Hf Hlt).
  pose proof (page_of_mul a Ha) as Ea. set (k := a / PGSIZE) in *.
  assert (Hk1 : k < npages newsz) by (apply npages_spec; lia).
  assert (Hkn : 0 <= k < NUSER) by (rewrite NUSER_val; unfold KERNBASE, PGSIZE in *; lia).
  assert (Hnn : 0 <= npages newsz <= NUSER).
  { split; [lia|]. rewrite NUSER_val. unfold npages. apply Z.lt_succ_r. apply Z.div_lt_upper_bound; [done|]. unfold KERNBASE, PGSIZE in *. lia. }
  assert (Hlow' : forall m, (forall n, npages newsz <= n < NUSER -> upage_of (pm s0) pgdir n = None) ->
    (forall va, is_u32 va -> ~ (npages oldsz <= va / PGSIZE < k) -> entry m pgdir va = entry (pm s0) pgdir va) ->
    forall n, npages newsz <= n < NUSER -> upage_of m pgdir n = None).
  { intros m Hlow He n Hn. rewrite <- (Hlow n Hn). destruct (user_va n ltac:(lia)) as [Hu Hd]. unfold upage_of. rewrite He; [done|done|lia]. }
  destruct (user_va k Hkn) as [Hku Hkd]. apply wp_bind. unfold wp at 1.
  destruct (kalloc_space A s l pgdir (gr_space _ _ _ _ _ _ _ _ G)) as [[-> E]|(p & l1 & A1 & s1 & El & HA & E & H1 & Hpm & Hp & HpA)]; rewrite E.
  { rewrite decide_True by done. apply wp_bind. eapply wp_mono; [apply (alloc_undo A A s0 l0 s [] pgdir k oldsz newsz); try done; try apply G; lia|].
    cbn beta. intros _ s' Hu. apply wp_ret. right. split; [done|]. split; [done|].
    pose proof (fun Hlow => spent A s pgdir _ (gr_space _ _ _ _ _ _ _ _ G) Hnn (Hlow' (pm s) Hlow (gr_old _ _ _ _ _ _ _ _ G))) as Hsp.
    intros Hlow. specialize (Hsp Hlow). unfold few in *. lia. }
  rewrite decide_False by (pose proof (page_pos _ _ Hp); lia). apply wp_bind, wp_zero_page. intros m2 Ho2 Hz2.
  destruct (space_write A1 s1 l1 pgdir p m2 H1 Hp HpA Ho2) as (H2 & He2 & Ht2).
  set (s2 := s1 <| pm := m2 |>) in *. apply wp_bind. unfold wp at 1. rewrite <- Ea.
  assert (Hu2 : upage_of (pm s2) pgdir k = None).
  { unfold upage_of. change (pm s2) with m2. rewrite He2, Hpm. rewrite (gr_old _ _ _ _ _ _ _ _ G); [by apply Hno; lia|done|lia]. }
  destruct (map_user A1 s2 l1 pgdir k p (Z.lor PTE_W PTE_U) H2 Hp HpA Hkn Hu2) as [(s3 & l3 & E3 & H3 & Hm3 & Ho3 & He3)|[-> E3]];
    [split; [discriminate|reflexivity]| |]; rewrite E3.
  - rewrite decide_False by lia. assert (G3 : grown A s0 l0 pgdir (npages oldsz) (k + 1) s3 l3).
    { eapply (grown_step A s0 l0 pgdir (npages oldsz) k s l p l1 A1 s1 m2); (done || lia). }
    assert (Hd : (PGSIZE * k + PGSIZE) / PGSIZE = k + 1) by (replace (PGSIZE * k + PGSIZE) with ((k + 1) * PGSIZE) by lia; by apply Z.div_mul).
    rewrite u32_small by (unfold is_u32, KERNBASE, PGSIZE in *; lia). eapply wp_mono; [apply (IH (PGSIZE * k + PGSIZE) s3 l3); rewrite ?Hd; try done|].
    + replace (PGSIZE * k + PGSIZE) with ((k + 1) * PGSIZE) by lia. by apply Z.mod_mul.
    + unfold PGSIZE in *. lia.
    + lia.
    + intros _. replace (newsz - a) with (newsz - (PGSIZE * k + PGSIZE) + 1 * PGSIZE) in Hf by lia. rewrite Z.div_add in Hf by done. lia.
    + done.
  - rewrite decide_True by lia. apply wp_bind.
    assert (Hold2 : forall va, is_u32 va -> ~ (npages oldsz <= va / PGSIZE < k) -> entry (pm s2) pgdir va = entry (pm s0) pgdir va)
      by (intros va Hva Hr; change (pm s2) with m2; rewrite He2, Hpm; by apply (gr_old _ _ _ _ _ _ _ _ G)).
    assert (Hin : p ∈ meta (pm s0) l0 pgdir) by (apply (gr_meta _ _ _ _ _ _ _ _ G); rewrite El; unfold meta; in_list).
    eapply wp_mono; [apply (alloc_undo A A1 s0 l0 s2 [] pgdir k oldsz newsz); try done; try lia|].
    + intros q Hq. rewrite HA. by right.
    + eapply only_trans; [apply G|]. rewrite <- Hpm. eapply only_weaken; [|exact Ho2]. by intros q ->%list_elem_of_singleton.
    + cbn beta. intros _ s4 (l4 & H4 & Ho4 & Hu4). apply wp_bind.
      eapply wp_mono; [apply (undone_free A A1 s0 s4 l4 pgdir (npages oldsz) (npages newsz) p HA HpA Hp); try done; try apply H0|].
      * intros n Hn Eq. by destruct (space_user A s0 l0 pgdir n p H0 Hn Eq) as (_ & ? & _).
      * cbn beta. intros _ s5 Hfail. apply wp_ret. right. split; [done|]. split; [done|]. intros Hlow.
        pose proof (spent A1 s2 pgdir _ H2 Hnn (Hlow' (pm s2) Hlow Hold2)). unfold few. rewrite HA. cbn [length]. lia.
Qed.
(** allocuvm to [newsz] bytes: the new pages come from the free list and are
    zero, or nothing is kept. *)
Lemma allocuvm_spec A s l pgdir oldsz newsz :
  space A s l pgdir -> 0 <= oldsz -> is_u32 newsz ->
  (forall n, npages oldsz <= n < npages newsz -> n < NUSER -> upage_of (pm s) pgdir n = None) ->
  wp (allocuvm kend pgdir oldsz newsz) (fun r s' =>
    (newsz < KERNBASE /\ newsz < oldsz /\ r = oldsz /\ s' = s) \/
    (oldsz <= newsz < KERNBASE /\ r = newsz /\ exists l', grown A s l pgdir (npages oldsz) (npages newsz) s' l') \/
    (r = 0 /\ alloc_failed A s pgdir (npages oldsz) (npages newsz) s' /\ (newsz < KERNBASE -> oldsz <= newsz /\ short A s pgdir newsz))) s.
Proof.
  intros H Ho Hu Hno. unfold allocuvm. case_decide as H1.
  { apply wp_ret. right. right. split; [done|]. split; [|lia]. exists l. split; [done|]. split; [apply only_refl|]. by split. }
  case_decide as H2; [apply wp_ret; left; split; [lia|done]|].
  destruct (round_up_pages oldsz ltac:(lia)) as (E & Er & Em & Hle).
  assert (Hnp : npages oldsz <= npages newsz) by (apply Z.div_le_mono; [done|lia]).
  eapply wp_mono; [apply (alloc_loop A s l pgdir oldsz newsz _ (PGROUNDUP oldsz) s l H)|].
  - rewrite Er. by apply grown_refl.
  - done.
  - done.
  - lia.
  - lia.
  - lia.
  - intros n Hn. apply Hno; [done|]. destruct Hn as [Hn1 Hn2]. pose proof (Z.div_pos (oldsz + PGSIZE - 1) PGSIZE ltac:(unfold PGSIZE; lia) ltac:(done)) as Hp.
    fold (npages oldsz) in Hp. apply npages_spec in Hn2; [|unfold is_u32 in Hu; lia|lia]. rewrite NUSER_val. unfold KERNBASE, PGSIZE in *. lia.
  - intros _. unfold is_u32 in Hu. rewrite Nat2Z.inj_succ, Z2Nat.id by (apply Z.div_pos; [lia|done]).
    assert ((newsz - PGROUNDUP oldsz) / PGSIZE <= newsz / PGSIZE) by (apply Z.div_le_mono; [done|lia]). lia.
  - cbn beta. intros r s' [[-> Hg]|(-> & Hf & Hs)]; right; [left|right]; (split; [lia|]); [done|]. split; [done|]. intros _. split; [lia|done].
Qed.
(** ** setupkvm *)

Lemma map_kernel A s l pgdir va size pa perm :
  space A s l pgdir -> 0 <= perm < PGSIZE -> has PTE_U perm = false -> va mod PGSIZE = 0 -> pa mod PGSIZE = 0 -> size mod PGSIZE = 0 ->
  KERNBASE <= va -> 0 <= pa -> 0 < size -> va + size <= 2 ^ 32 -> pa + size <= 2 ^ 32 ->
  (forall x, is_u32 x -> va <= x -> has PTE_P (entry (pm s) pgdir x) = false) ->
  wp (mappages pgdir va size pa perm) (fun r s' =>
    exists l', space A s' l' pgdir /\ only (meta (pm s) l pgdir) (pm s) (pm s') /\
      meta (pm s') l' pgdir ≡ₚ meta (pm s) l pgdir /\ (r = 0 \/ r = -1 /\ l' = []) /\
      (forall x, is_u32 x -> ~ (va <= x < va + size) -> entry (pm s') pgdir x = entry (pm s) pgdir x) /\
      no_more_user pgdir (pm s) (pm s') /\
      (r = 0 -> forall x, is_u32 x -> va <= x < va + size -> has PTE_P (entry (pm s') pgdir x) = true)) s.
Proof.
  intros H Hperm Hpu0 Hva Hpa Hsz Hk Hp0 Hs0 Hve Hpe Hno. unfold mappages.
  pose proof (page_of_mul va Hva) as Eva. pose proof (page_of_mul size Hsz) as Esz. set (q := size / PGSIZE) in *.
  assert (Hq : 0 < q) by (unfold PGSIZE in *; lia).
  assert (Ea : PGROUNDDOWN va = va) by (rewrite round_down_spec; done).
  assert (El : PGROUNDDOWN (u32 (va + size - 1)) = va + PGSIZE * (q - 1)).
  { rewrite u32_small by (unfold is_u32, KERNBASE in *; lia). rewrite round_down_spec. rewrite <- Eva, <- Esz.
    replace (PGSIZE * (va / PGSIZE) + PGSIZE * q - 1) with (PGSIZE - 1 + (va / PGSIZE + q - 1) * PGSIZE) by lia.
    rewrite Z.div_add by done. change ((PGSIZE - 1) / PGSIZE) with 0. lia. }
  rewrite Ea, El. replace (va + PGSIZE * (q - 1) - va) with (PGSIZE * (q - 1)) by lia.
  rewrite (u32_small (PGSIZE * (q - 1))) by (unfold is_u32, KERNBASE, PGSIZE in *; lia).
  rewrite (Z.mul_comm PGSIZE (q - 1)), Z.div_mul by done.
  set (n := Z.to_nat (q - 1)). assert (En : q - 1 = Z.of_nat n) by lia. rewrite En, (Z.mul_comm (Z.of_nat n)).
  eapply wp_mono; [apply (map_kernel_loop pgdir perm n A va pa s l H); try done; try (unfold PGSIZE in *; lia)|].
  - intros x Hx Hle. destruct (decide (va <= x)) as [|Hlt]; [by apply Hno|]. rewrite (entry_page _ _ x va); [apply Hno; [|lia]| | |];
      try (unfold is_u32, KERNBASE in *; lia). assert (x / PGSIZE <= va / PGSIZE) by (apply Z.div_le_mono; [done|lia]). lia.
  - cbn beta. intros r s' (l' & H1 & H2 & H3 & H4 & H5 & H6 & H7). exists l'. split; [done|]. split; [done|]. split; [done|]. split; [done|].
    split; [intros x Hx Hn; apply H5; [done|]; intros Hr; apply Hn|split; [done|intros Hr0 x Hx Hn; apply H7; [done|done|]]];
   
      pose proof (Z.div_mod x PGSIZE ltac:(done)); pose proof (Z.mod_pos_bound x PGSIZE ltac:(done)); unfold PGSIZE in *; lia.
Qed.
(** The kernel's mappings lie one above the other from [b] on. *)
Fixpoint maps_ok b (ks : list kmap) : Prop :=
  match ks with
  | [] => True
  | k :: ks =>
      let size := u32 (phys_end k - phys_start k) in
      b <= virt k /\ virt k mod PGSIZE = 0 /\ phys_start k mod PGSIZE = 0 /\ size mod PGSIZE = 0 /\ 0 <= phys_start k /\ 0 < size /\
      virt k + size <= 2 ^ 32 /\ phys_start k + size <= 2 ^ 32 /\ 0 <= kperm k < PGSIZE /\ has PTE_U (kperm k) = false /\ maps_ok (virt k + size) ks
  end.
Definition gave_back A s (s' : kmem) : Prop := exists l', kmem_ok s' l' /\ l' ≡ₚ A /\ only A (pm s) (pm s').
Lemma setup_loop A pgdir ks : forall b s l,
  space A s l pgdir -> KERNBASE <= b -> maps_ok b ks ->
  (forall x, is_u32 x -> b <= x -> has PTE_P (entry (pm s) pgdir x) = false) ->
  (forall n, 0 <= n < NUSER -> upage_of (pm s) pgdir n = None) ->
  wp (setupkvm_loop kend pgdir ks) (fun r s' =>
    (r = pgdir /\ exists l', space A s' l' pgdir /\ only A (pm s) (pm s') /\
       (forall x, is_u32 x -> x < b -> entry (pm s') pgdir x = entry (pm s) pgdir x) /\ no_more_user pgdir (pm s) (pm s') /\
       forall k x, k ∈ ks -> is_u32 x -> virt k <= x < virt k + u32 (phys_end k - phys_start k) -> has PTE_P (entry (pm s') pgdir x) = true) \/
    (r = 0 /\ gave_back A s s' /\ few A 0)) s.
Proof.
  induction ks as [|k ks IH]; intros b s l H Hb Hok Hno Hnu; cbn [setupkvm_loop].
  { apply wp_ret. left. split; [done|]. exists l. split; [done|]. split; [done|]. split; [done|]. split; [apply no_more_refl|]. intros k x Hk. by apply elem_of_nil in Hk. }
  destruct Hok as (K1 & K2 & K3 & K4 & K5 & K6 & K7 & K8 & K9 & K10 & Hks). apply wp_bind.
  eapply wp_mono; [apply (map_kernel A s l pgdir _ _ _ _ H); try done; [lia|]; intros x Hx Hle; apply Hno; [done|lia]|].
  cbn beta. intros r s1 (l1 & H1 & Ho1 & Hm1 & Hr & He1 & Hu1 & Hp1).
  assert (Ho : only A (pm s) (pm s1)) by (eapply only_weaken; [|exact Ho1]; intros p; apply (space_in _ _ _ _ _ H)).
  assert (Hnu1 : forall n, 0 <= n < NUSER -> upage_of (pm s1) pgdir n = None).
  { intros n Hn. rewrite <- (Hnu n Hn). destruct (user_va n Hn) as [Hu Hd]. unfold upage_of. rewrite He1; [done|done|].
    rewrite NUSER_val in Hn. unfold KERNBASE, PGSIZE in *. lia. }
  case_decide as Hd.
  - destruct Hr as [|[_ ->]]; [lia|]. pose proof (spent A s1 pgdir 0 H1 ltac:(rewrite NUSER_val; lia) Hnu1) as Hfew.
    rename H1 into H1'. set (l1 := [] : list Z) in *. assert (H1 : space A s1 l1 pgdir) by exact H1'.
    apply wp_bind. eapply wp_mono; [by apply (freevm_spec A s1 l1)|]. cbn beta. intros _ s2 (l2 & Hk2 & Hp2 & Ho2).
    apply wp_ret. right. split; [done|]. split; [|unfold few in *; lia]. exists l2. split; [done|]. split; [done|]. by eapply only_trans.
  - eapply wp_mono; [apply (IH (virt k + u32 (phys_end k - phys_start k)) s1 l1 H1 ltac:(lia) Hks); [|done]|].
    + intros x Hx Hle. rewrite He1 by (done || lia). apply Hno; [done|lia].
    + cbn beta. intros r2 s2 [(-> & l2 & H2 & Ho2 & He2 & Hu2 & Hp2)|(-> & (l2 & Hk2 & Hp2 & Ho2) & Hfew)]; [left|right].
      * split; [done|]. exists l2. split; [done|]. split; [by eapply only_trans|].
        split; [intros x Hx Hlt; rewrite He2 by (done || lia); apply He1; [done|lia]|]. split; [intros x Hx; auto|].
        intros k' x [->|Hk']%elem_of_cons Hx Hin; [|by eapply Hp2]. rewrite He2 by (done || lia). apply Hp1; [lia|done|done].
      * split; [done|]. split; [|done]. exists l2. split; [done|]. split; [done|]. by eapply only_trans.
Qed.
(** A zeroed page is an empty page directory. *)
Lemma empty_dir s p l m2 :
  kmem_ok s l -> page_ok p -> ~ (p ∈ l) -> only [p] (pm s) m2 -> (forall x, on_page p x -> m2 x = 0) ->
  space (p :: l) (s <| pm := m2 |>) l p /\ forall va, entry m2 p va = 0.
Proof.
  intros [Hc Hn] Hp Hpl Ho Hz.
  assert (Hno : forall d, 0 <= d < 1024 -> present m2 p d = false).
  { intros d Hd. unfold present. rewrite (load32_ext _ (fun _ => 0)); [done|]. intros x Hx. apply Hz. by eapply word_on_page. }
  assert (He : forall va, entry m2 p va = 0) by (intros va; unfold entry; by rewrite (Hno _ (pdx_range va))).
  split; [|done]. pose proof (chain_pages _ _ _ _ Hc) as Hall. split.
  - split; [|done]. cbn. eapply chain_frame; [|exact Hc]. intros q x Hq Hx. rewrite Forall_forall in Hall.
    apply (only_apart _ q _ _ x Ho); [by apply Hall|by constructor|by intros ->%list_elem_of_singleton|done].
  - cbn. unfold owned. assert (tables m2 p = []) as ->.
    { apply omap_none. intros d Hd%in_dir_slots. unfold table_of. by rewrite Hno. }
    assert (upages m2 p = []) as ->; [|by rewrite <- Permutation_cons_append].
    apply no_user_pages. intros n Hn'. unfold upage_of. by rewrite He.
  - by constructor.
  - by constructor.
Qed.
Context (kdata : Z).
Hypothesis kdata_ok : KERNLINK < kdata < KERNBASE + PHYSTOP /\ kdata mod PGSIZE = 0.
Lemma kmaps_ok : maps_ok KERNBASE (kmaps kdata).
Proof.
  destruct kdata_ok as [Hd Hm]. unfold KERNLINK, EXTMEM, PHYSTOP, KERNBASE, PGSIZE in *.
  assert (Ev : V2P kdata = kdata - KERNBASE) by (unfold V2P, KERNBASE; apply u32_small; unfold is_u32; lia).
  assert (Em : (kdata - 2147483648) mod 4096 = 0) by (Z.to_euclidean_division_equations; lia).
  unfold maps_ok, kmaps. cbn [virt phys_start phys_end kperm]. rewrite Ev. unfold KERNBASE, PHYSTOP, KERNLINK, EXTMEM, PTE_W, DEVSPACE, PGSIZE.
  change (V2P (KERNBASE + 1048576)) with 1048576. change (2147483648 + 1048576) with 2148532224. change (V2P 2148532224) with 1048576.
  rewrite (u32_small (kdata - 2147483648 - 1048576)), (u32_small (234881024 - (kdata - 2147483648))) by (unfold is_u32; lia).
  change (u32 (1048576 - 0)) with 1048576. change (u32 (0 - 4261412864)) with 33554432.
  repeat split; try lia; try done; unfold KERNBASE; Z.to_euclidean_division_equations; lia.
Qed.
(** The kernel's half of a space: the user has no access, and the devices are
    mapped. *)
Definition kernel_half m pgdir : Prop :=
  (forall x, is_u32 x -> KERNBASE <= x -> has PTE_U (entry m pgdir x) = false) /\
  (forall x, is_u32 x -> DEVSPACE <= x -> has PTE_P (entry m pgdir x) = true).
(** setupkvm: a page directory without user pages from the free list, or 0 and
    no page lost. *)
Lemma setupkvm_spec s l :
  kmem_ok s l ->
  wp (setupkvm kend kdata) (fun r s' =>
    (r <> 0 /\ exists l', space l s' l' r /\ only l (pm s) (pm s') /\ (forall n, 0 <= n < NUSER -> upage_of (pm s') r n = None) /\
       kernel_half (pm s') r) \/
    (r = 0 /\ gave_back l s s' /\ few l 0)) s.
Proof.
  intros Hk. unfold setupkvm. apply wp_bind. unfold wp at 1. pose proof (kalloc_run kend s l Hk) as Ha.
  destruct l as [|p l1]; [rewrite Ha, decide_True by done; apply wp_ret; right; split; [done|]; split; [by exists []|unfold few; cbn; lia]|].
  destruct Ha as (s1 & E & Hpm & Hk1 & Hp). rewrite E. pose proof (page_pos _ _ Hp). rewrite decide_False by lia.
  apply wp_bind, wp_zero_page. intros m2 Ho2 Hz2. rewrite decide_False by (vm_compute; discriminate).
  assert (Hpl : ~ (p ∈ l1)) by (destruct Hk as [_ Hn]; by apply NoDup_cons in Hn as [? _]).
  destruct (empty_dir s1 p l1 m2 Hk1 Hp Hpl Ho2 Hz2) as [HS He].
  assert (Ho : only (p :: l1) (pm s) m2) by (rewrite <- Hpm; eapply only_weaken; [|exact Ho2]; intros q ->%list_elem_of_singleton; left).
  eapply wp_mono; [apply (setup_loop (p :: l1) p (kmaps kdata) KERNBASE _ l1 HS); [lia|apply kmaps_ok|..]|].
  - intros x Hx Hle. cbn. by rewrite He.
  - intros n Hn. unfold upage_of. cbn. by rewrite He.
  - cbn beta. intros r s' [(-> & l' & H' & Ho' & He' & Hu' & Hp')|(-> & (l' & Hk' & Hp' & Ho') & Hfew)]; [left|right].
    + split; [lia|]. exists l'. split; [done|]. split; [by eapply only_trans|]. split; [|split].
      2: { intros x Hx _. destruct (has PTE_U (entry (pm s') p x)) eqn:E'; [|done]. apply Hu' in E'; [|done]. cbn in E'. by rewrite He in E'. }
      2: { intros x Hx Hd. apply (Hp' (mkkmap DEVSPACE DEVSPACE 0 PTE_W)); [|done|unfold is_u32 in Hx; split; [exact Hd|apply Hx]].
           unfold kmaps. do 3 right. left. }
      intros n Hn. destruct (user_va n Hn) as [Hu _].
      unfold upage_of. rewrite He'; [cbn; by rewrite He|done|]. rewrite NUSER_val in Hn. unfold KERNBASE, PGSIZE. lia.
    + split; [done|]. split; [|done]. exists l'. split; [done|]. split; [done|]. by eapply only_trans.
Qed.
(** ** copyuvm *)

(** Writing elsewhere leaves a space as it is. *)
Lemma owned_frame m m' pgdir :
  (forall p x, p ∈ owned m pgdir -> on_page p x -> m' x = m x) ->
  (forall va, entry m' pgdir va = entry m pgdir va) /\ owned m' pgdir = owned m pgdir.
Proof.
  intros H. unfold owned in H. assert (Hg : forall x, on_page pgdir x -> m' x = m x) by (intros x; apply H; left).
  assert (He : forall va, entry m' pgdir va = entry m pgdir va).
  { intros va. apply entry_frame; [done|]. intros x Hp. apply H.
    assert (tab m pgdir (PDX va) ∈ tables m pgdir) by (apply in_tables; exists (PDX va); split; [apply pdx_range|done]). in_list. }
  split; [done|]. unfold owned. rewrite (tables_same m m'), (upages_same m m'); [done| |].
  - intros n Hn. unfold upage_of. by rewrite He.
  - intros d Hd. by apply dir_frame.
Qed.
(** In particular writing to free pages. *)
Lemma space_outside A s l pgdir m :
  space A s l pgdir -> only l (pm s) m ->
  (forall p x, p ∈ owned (pm s) pgdir -> on_page p x -> m x = pm s x) /\
  (forall va, entry m pgdir va = entry (pm s) pgdir va) /\ owned m pgdir = owned (pm s) pgdir.
Proof.
  intros H Ho. pose proof (space_apart _ _ _ _ H) as Hn. apply NoDup_app in Hn as (_ & Hd & _).
  assert (Hx : forall p x, p ∈ owned (pm s) pgdir -> on_page p x -> m x = pm s x).
  { intros p x Hp Hx. apply (only_apart l p _ _ x Ho).
    - apply (space_page _ _ _ _ p H). in_list.
    - apply Forall_forall. intros q Hq. apply (space_page _ _ _ _ q H). in_list.
    - intros Hl. by apply (Hd p Hl).
    - done. }
  split; [done|]. by apply owned_frame.
Qed.
(** Page [n] of [d] is a copy of page [n] of [pgdir], with the same flags. *)
Definition page_copied m0 pgdir m d n : Prop := exists p q,
  upage_of m0 pgdir n = Some p /\ upage_of m d n = Some q /\
  PTE_FLAGS (entry m d (PGSIZE * n)) = PTE_FLAGS (entry m0 pgdir (PGSIZE * n)) /\
  forall i, 0 <= i < PGSIZE -> m (q + i) = m0 (p + i).
Record copied l0 s0 pgdir d k s l : Prop := mkcopied {
  cp_space : space l0 s l d;
  cp_only : only l0 (pm s0) (pm s);
  cp_done : forall n, 0 <= n < k -> page_copied (pm s0) pgdir (pm s) d n;
  cp_rest : forall n, k <= n < NUSER -> upage_of (pm s) d n = None;
}.
Lemma flags_of p perm : page_ok p -> has PTE_P perm = true -> 0 <= perm < PGSIZE -> PTE_FLAGS (pte_of (V2P p) perm) = perm.
Proof.
  intros Hp Hpp Hperm. destruct (new_tab_word kend p Hp) as (_ & Hm & _ & _). rewrite pte_of_sum by done.
  assert (E : Z.lor perm PTE_P = perm).
  { change PTE_P with (2 ^ 0) in *. rewrite has_testbit in Hpp by lia. apply Z.bits_inj'. intros i Hi. rewrite Z.lor_spec.
    destruct (decide (i = 0)) as [->|]; [by rewrite Hpp|]. rewrite Z.pow2_bits_false by lia. apply orb_false_r. }
  rewrite E, pte_flags_spec. rewrite Z.add_mod, Hm by done. rewrite Z.add_0_l, !Z.mod_mod by done. by apply Z.mod_small.
Qed.
Lemma flags_range e : 0 <= PTE_FLAGS e < PGSIZE.
Proof. rewrite pte_flags_spec. by apply Z.mod_pos_bound. Qed.
Lemma flags_present e : has PTE_P e = true -> has PTE_P (PTE_FLAGS e) = true.
Proof.
  change PTE_P with (2 ^ 0). rewrite !has_testbit by lia. intros H. rewrite pte_flags_spec. unfold PGSIZE. change 4096 with (2 ^ 12).
  by rewrite Z.mod_pow2_bits_low by lia.
Qed.
Lemma wp_copy_page q p (Q : unit -> kmem -> Prop) s :
  (forall m2, only [q] (pm s) m2 -> (forall i, 0 <= i < PGSIZE -> m2 (q + i) = pm s (p + i)) -> Q tt (s <| pm := m2 |>)) ->
  wp (on_pm (fun m => memmove m q p page)) Q s.
Proof.
  intros HQ. apply wp_on_pm, HQ.
  - intros x Hx. rewrite memmove_copy, decide_False; [done|]. apply (Hx q). left.
  - intros i Hi. rewrite memmove_copy. change (Z.of_nat page) with PGSIZE. rewrite decide_True by lia. f_equal. lia.
Qed.
Lemma copy_step A s0 l0 pgdir d k s l p q l1 A1 s1 m2 s3 l3 e :
  space A s0 l0 pgdir -> copied l0 s0 pgdir d k s l -> 0 <= k < NUSER ->
  e = entry (pm s0) pgdir (PGSIZE * k) -> pte_page e = Some p ->
  l0 ≡ₚ q :: A1 -> space A1 s1 l1 d -> pm s1 = pm s -> page_ok q -> ~ (q ∈ A1) ->
  only [q] (pm s1) m2 -> (forall i, 0 <= i < PGSIZE -> m2 (q + i) = pm s1 (p + i)) ->
  space (q :: A1) s3 l3 d -> only (meta m2 l1 d) m2 (pm s3) ->
  entry_set d (PGSIZE * k) (pte_of (V2P q) (PTE_FLAGS e)) m2 (pm s3) ->
  copied l0 s0 pgdir d (k + 1) s3 l3.
Proof.
  intros HA [HS HO HD HR] Hk Ee Ep HA1 H1 Hpm Hq HqA Ho2 Hc2 H3 Ho3 He3. destruct (user_va k Hk) as [Hku Hkd].
  destruct (space_write A1 s1 l1 d q m2 H1 Hq HqA Ho2) as (H2 & He2 & Ht2).
  pose proof (meta_forall _ _ _ _ H2) as Hmf. cbn in Hmf.
  assert (Hqm : ~ (q ∈ meta m2 l1 d)) by (intros Hin; by apply HqA, (space_in _ _ _ _ _ H2)).
  assert (Hat := fun n Hn => upage_at m2 (pm s3) d (PGSIZE * k) _ n Hku Hn He3). rewrite Hkd in Hat.
  assert (Hup : forall n, upage_of m2 d n = upage_of (pm s) d n) by (intros n; unfold upage_of; by rewrite He2, Hpm).
  split.
  - eapply space_perm; [symmetry; exact HA1|exact H3].
  - eapply only_trans; [exact HO|]. rewrite <- Hpm. apply (only_trans l0 _ m2).
    + eapply only_weaken; [|exact Ho2]. intros t ->%list_elem_of_singleton. rewrite HA1. left.
    + eapply only_weaken; [|exact Ho3]. intros t Ht. rewrite HA1. right. by apply (space_in _ _ _ _ _ H2).
  - intros n Hn. destruct (decide (n = k)) as [->|Hne].
    + assert (Eu : upage_of (pm s0) pgdir k = Some p) by (unfold upage_of; by rewrite <- Ee). exists p, q. split; [done|]. split; [rewrite Hat, decide_True by done; apply pte_page_of; [done|apply flags_range]|].
      rewrite He3, Hkd, decide_True by done. rewrite <- Ee. unfold pte_page in Ep. destruct (has PTE_P e) eqn:Hp; [|done]. split.
      * apply flags_of; [done|by apply flags_present|apply flags_range].
      * intros i Hi. rewrite (only_apart _ q _ _ (q + i) Ho3) by (done || unfold on_page; lia). rewrite Hc2, Hpm by done.
        destruct (space_outside A s0 l0 pgdir (pm s) HA HO) as [Hb _]. apply (Hb p); [|unfold on_page; lia]. unfold owned.
        assert (p ∈ upages (pm s0) pgdir) by (apply in_upages; by exists k). in_list.
    + destruct (HD n ltac:(lia)) as (p' & q' & E1 & E2 & E3 & E4). assert (Hn' : 0 <= n < NUSER) by lia. destruct (user_va n Hn') as [Hnu Hnd].
      exists p', q'. split; [done|]. split; [by rewrite Hat, decide_False, Hup|]. rewrite He3, Hnd, Hkd, decide_False, He2, Hpm by done. split; [done|].
      intros i Hi. rewrite <- E4 by done. assert (E2' : upage_of (pm (s1 <| pm := m2 |>)) d n = Some q') by (cbn; by rewrite Hup).
      destruct (space_user A1 _ l1 d n q' H2 Hn' E2') as (Hq' & Hm' & HA').
      rewrite (only_apart _ q' _ _ (q' + i) Ho3) by (done || unfold on_page; lia). rewrite <- Hpm.
      apply (only_apart _ q' _ _ (q' + i) Ho2); [done|by constructor| |unfold on_page; lia]. by intros ->%list_elem_of_singleton.
  - intros n Hn. rewrite Hat, decide_False, Hup by lia. apply HR. lia.
Qed.
Lemma copy_fail l0 s0 d s l :
  space l0 s l d -> only l0 (pm s0) (pm s) -> wp (freevm kend d;; mret 0) (fun r s' => r = 0 /\ gave_back l0 s0 s') s.
Proof.
  intros HS HO. apply wp_bind. eapply wp_mono; [by apply (freevm_spec l0 s l d)|]. cbn beta.
  intros _ s' (l' & Hk & Hp & Ho). apply wp_ret. split; [done|]. exists l'. split; [done|]. split; [done|]. by eapply only_trans.
Qed.
(** The entry of a mapped page is found. *)
Lemma walk_present A s l pgdir va :
  space A s l pgdir -> has PTE_P (entry (pm s) pgdir va) = true ->
  exists a, walkpgdir pgdir va false s = Ok (s, a) /\ a <> 0 /\ load32 (pm s) a = entry (pm s) pgdir va.
Proof.
  intros H Hp. assert (Hpr : present (pm s) pgdir (PDX va) = true).
  { unfold entry in Hp. by destruct (present (pm s) pgdir (PDX va)). }
  eexists. split; [by apply walk_hit|]. destruct (pt_tab _ _ _ _ (space_pt _ _ _ _ H) _ (pdx_range va) Hpr) as (Ht & _).
  pose proof (page_pos _ _ Ht). pose proof (ptx_range va). split; [lia|]. unfold entry. by rewrite Hpr.
Qed.
(** Also while free pages are being written. *)
Lemma walk_outside A s0 l0 pgdir s va :
  space A s0 l0 pgdir -> only l0 (pm s0) (pm s) -> has PTE_P (entry (pm s0) pgdir va) = true ->
  exists a, walkpgdir pgdir va false s = Ok (s, a) /\ a <> 0 /\ load32 (pm s) a = entry (pm s0) pgdir va.
Proof.
  intros H Ho Hp. destruct (space_outside A s0 l0 pgdir (pm s) H Ho) as (Hb & He & _).
  assert (Hpr : present (pm s0) pgdir (PDX va) = true).
  { unfold entry in Hp. by destruct (present (pm s0) pgdir (PDX va)). }
  destruct (dir_frame (pm s0) (pm s) pgdir (PDX va) (pdx_range va)) as [Hd1 Hd2]; [intros x; apply Hb; left|].
  eexists. split; [apply walk_hit; by rewrite Hd1|]. destruct (pt_tab _ _ _ _ (space_pt _ _ _ _ H) _ (pdx_range va) Hpr) as (Ht & _).
  pose proof (page_pos _ _ Ht). pose proof (ptx_range va). rewrite Hd2. split; [lia|]. rewrite <- He. unfold entry. by rewrite Hd1, Hd2, Hpr.
Qed.
Lemma copy_loop A s0 l0 pgdir d sz fuel : forall i s l,
  space A s0 l0 pgdir -> copied l0 s0 pgdir d (i / PGSIZE) s l -> i mod PGSIZE = 0 -> 0 <= i -> 0 <= sz <= KERNBASE ->
  (forall n, 0 <= n < npages sz -> upage_of (pm s0) pgdir n <> None) -> i / PGSIZE <= npages sz ->
  (i < sz -> (sz - i) / PGSIZE < Z.of_nat fuel) ->
  wp (copyuvm_loop kend fuel pgdir d i sz) (fun r s' =>
    (r = d /\ exists l', copied l0 s0 pgdir d (npages sz) s' l') \/ (r = 0 /\ gave_back l0 s0 s' /\ few l0 (npages sz))) s.
Proof.
  induction fuel as [|fuel IH]; intros i s l H0 C Hi Hi0 Hsz Hall Hin Hf;
    (assert (Ei := page_of_mul i Hi); assert (Hk0 : 0 <= i / PGSIZE) by (apply Z.div_pos; [lia|done])).
  all: assert (Hdone : sz <= i -> exists l', copied l0 s0 pgdir d (npages sz) s l').
  1,3: intros Hle; exists l; replace (npages sz) with (i / PGSIZE); [done|];
       destruct (decide (i / PGSIZE < npages sz)) as [Hl|]; [apply npages_spec in Hl; lia|lia].
  { apply wp_ret. left. split; [done|]. apply Hdone. destruct (decide (i < sz)) as [Hlt|]; [|lia]. specialize (Hf Hlt).
    pose proof (Z.div_pos (sz - i) PGSIZE). unfold PGSIZE in *. lia. }
  cbn [copyuvm_loop]. case_decide as Hlt; [|apply wp_ret; left; split; [done|]; apply Hdone; lia]. specialize (Hf Hlt).
  set (k := i / PGSIZE) in *. assert (Hk1 : k < npages sz) by (apply npages_spec; lia).
  assert (Hkn : 0 <= k < NUSER) by (rewrite NUSER_val; unfold KERNBASE, PGSIZE in *; lia). destruct (user_va k Hkn) as [Hku Hkd].
  pose proof (Hall k ltac:(lia)) as Hk. destruct (upage_of (pm s0) pgdir k) as [p|] eqn:Ep; [|done]. unfold upage_of in Ep. rewrite Ei in Ep.
  assert (Epp := Ep). unfold pte_page in Epp. destruct (has PTE_P (entry (pm s0) pgdir i)) eqn:Hp; [|done]. injection Epp as Epp.
  destruct (walk_outside A s0 l0 pgdir s i H0 (cp_only _ _ _ _ _ _ _ C) Hp) as (a & Ew & Hane & El).
  apply wp_bind. unfold wp at 1. rewrite Ew, decide_False by done. apply wp_bind. unfold wp at 1, peek, gets. rewrite El.
  rewrite Hp. cbn [negb]. cbv zeta. rewrite Epp. set (e := entry (pm s0) pgdir i) in *. apply wp_bind. unfold wp at 1.
  destruct (kalloc_space l0 s l d (cp_space _ _ _ _ _ _ _ C)) as [[-> E]|(q & l1 & A1 & s1 & _ & HA & E & H1 & Hpm & Hq & HqA)]; rewrite E.
  { rewrite decide_True by done. eapply wp_mono; [apply (copy_fail l0 s0 d s []); apply C|]. intros r s' [-> Hg]. right. split; [done|]. split; [done|].
    pose proof (spent l0 s d k (cp_space _ _ _ _ _ _ _ C) ltac:(lia) (cp_rest _ _ _ _ _ _ _ C)). unfold few in *. lia. }
  rewrite decide_False by (pose proof (page_pos _ _ Hq); lia). apply wp_bind, wp_copy_page. intros m2 Ho2 Hc2.
  destruct (space_write A1 s1 l1 d q m2 H1 Hq HqA Ho2) as (H2 & He2 & Ht2). set (s2 := s1 <| pm := m2 |>) in *.
  assert (Hrest : forall n, k <= n < NUSER -> upage_of (pm s2) d n = None).
  { intros n Hn. unfold upage_of. change (pm s2) with m2. rewrite He2, Hpm. by apply (cp_rest _ _ _ _ _ _ _ C). }
  assert (Hu2 : upage_of (pm s2) d k = None) by (apply Hrest; lia).
  apply wp_bind. unfold wp at 1. rewrite <- Ei.
  destruct (map_user A1 s2 l1 d k q (PTE_FLAGS e) H2 Hq HqA Hkn Hu2 (flags_range e)) as [(s3 & l3 & E3 & H3 & Hm3 & Ho3 & He3)|[-> E3]]; rewrite E3.
  - rewrite decide_False by lia. assert (C3 : copied l0 s0 pgdir d (k + 1) s3 l3).
    { eapply (copy_step A s0 l0 pgdir d k s l p q l1 A1 s1 m2 s3 l3 e); try done. unfold e. by rewrite Ei. }
    assert (Hd : (PGSIZE * k + PGSIZE) / PGSIZE = k + 1) by (replace (PGSIZE * k + PGSIZE) with ((k + 1) * PGSIZE) by lia; by apply Z.div_mul).
    rewrite u32_small by (unfold is_u32, KERNBASE, PGSIZE in *; lia). eapply wp_mono; [apply (IH (PGSIZE * k + PGSIZE) s3 l3); rewrite ?Hd; try done|].
    + replace (PGSIZE * k + PGSIZE) with ((k + 1) * PGSIZE) by lia. by apply Z.mod_mul.
    + unfold PGSIZE in *. lia.
    + lia.
    + intros _. replace (sz - i) with (sz - (PGSIZE * k + PGSIZE) + 1 * PGSIZE) in Hf by lia. rewrite Z.div_add in Hf by done. lia.
    + done.
  - rewrite decide_True by lia. apply wp_bind. destruct (kfree_space A1 s2 [] d q H2 Hq HqA) as (Ef & H4 & _ & Ho4).
    unfold wp at 1. rewrite Ef. eapply wp_mono; [apply (copy_fail l0 s0 d (freed q s2) [q])|intros r s' [-> Hg]; right; split; [done|]; split; [done|]].
    + by eapply space_perm; [symmetry|].
    + assert (Hql : forall t, t ∈ [q] -> t ∈ l0) by (intros t ->%list_elem_of_singleton; rewrite HA; left).
      eapply only_trans; [apply C|]. rewrite <- Hpm. eapply only_trans; eapply only_weaken; eauto.
    + pose proof (spent A1 s2 d k H2 ltac:(lia) Hrest). unfold few in *. rewrite HA. cbn [length]. lia.
Qed.
(** copyuvm of a process of [sz] bytes: a space with the same bytes and flags on
    pages of its own, or 0 and no page lost; the process itself is not changed. *)
Lemma copyuvm_spec A s l pgdir sz :
  space A s l pgdir -> 0 <= sz <= KERNBASE -> (forall n, 0 <= n < npages sz -> upage_of (pm s) pgdir n <> None) ->
  wp (copyuvm kend kdata pgdir sz) (fun d s' =>
    (d <> 0 /\ exists l', copied l s pgdir d (npages sz) s' l') \/ (d = 0 /\ gave_back l s s' /\ few l (npages sz))) s.
Proof.
  intros H Hsz Hall. unfold copyuvm. apply wp_bind. eapply wp_mono; [apply (setupkvm_spec s l (sp_free _ _ _ _ H))|].
  cbn beta. intros d s1 [(Hd & l1 & H1 & Ho1 & Hu1)|(-> & Hg & Hfew)].
  - rewrite decide_False by done. eapply wp_mono; [apply (copy_loop A s l pgdir d sz _ 0 s1 l1 H); try done|].
    + split; [done|done|intros n Hn; change (0 / PGSIZE) with 0 in Hn; lia|]. intros n Hn. apply Hu1. change (0 / PGSIZE) with 0 in Hn. lia.
    + change (0 / PGSIZE) with 0. apply Z.div_pos; [unfold PGSIZE; lia|done].
    + intros _. rewrite Nat2Z.inj_succ, Z2Nat.id by (apply Z.div_pos; [lia|done]). rewrite Z.sub_0_r. lia.
    + cbn beta. intros r s' [[-> Hc]|[-> Hg]]; [by left|by right].
  - rewrite decide_True by done. apply wp_ret. right. split; [done|]. split; [done|].
    assert (0 <= npages sz) by (apply Z.div_pos; [unfold PGSIZE; lia|done]). unfold few in *. lia.
Qed.
End spaces.
