(* ===== verification/VmUser.v ===== *)
(** User memory of an address space: the bytes that loaduvm and copyout write
    and the guard page that clearpteu makes. *)
From S2P Require Import Prelude Cstring Kalloc Vm VmFacts VmSpace.

Section user.
Context (kend : Z).
Hypothesis kend_above : KERNBASE < kend.
Implicit Types (m : mem) (s : kmem) (A l : list Z) (d va n p x : Z).
Abbreviation page_ok := (page_ok kend).
Abbreviation space := (space kend).

Lemma upage_user m d va :
  is_u32 va -> va < KERNBASE -> user m d va = true -> upage_of m d (va / PGSIZE) = Some (upage m d va).
Proof.
  intros Hva Hk Hu. destruct (upage_va m d va Hva Hk) as [-> _]. unfold user in Hu. unfold pte_page, upage.
  by destruct (has PTE_P (entry m d va)).
Qed.
Lemma user_below m d va : is_u32 va -> kernel_half m d -> user m d va = true -> va < KERNBASE.
Proof.
  intros Hva [Hh _] Hu. destruct (decide (KERNBASE <= va)) as [Hk|]; [|lia]. unfold user in Hu. rewrite (Hh va Hva Hk) in Hu.
  by rewrite andb_false_r in Hu.
Qed.
Lemma space_user_ok A s l d : space A s l d -> kernel_half (pm s) d -> user_ok kend s l d.
Proof.
  intros H Hh. split; [by eapply space_pt| |].
  - intros x Hx Hu. pose proof (user_below _ _ _ Hx Hh Hu) as Hk. destruct (upage_va (pm s) d x Hx Hk) as [_ Hn].
    destruct (space_user kend A s l d _ _ H Hn (upage_user _ _ _ Hx Hk Hu)) as (Hp & Hm & _). unfold meta in Hm. split; [done|].
    split; [intros Hl; apply Hm; in_list|]. split; [intros E; apply Hm; rewrite E; in_list|].
    intros t Ht Hpr E. apply Hm. assert (upage (pm s) d x ∈ tables (pm s) d) by (apply in_tables; exists t; by rewrite E). in_list.
  - intros x y Hx Hy Hux Huy E. pose proof (user_below _ _ _ Hx Hh Hux) as Hkx. pose proof (user_below _ _ _ Hy Hh Huy) as Hky.
    destruct (upage_va (pm s) d x Hx Hkx) as [_ Hnx]. destruct (upage_va (pm s) d y Hy Hky) as [_ Hny].
    apply (user_inj kend A s l d _ _ (upage (pm s) d x) H Hnx Hny); [by apply upage_user|]. rewrite E. by apply upage_user.
Qed.
(** Writing to the page of a user address. *)
Lemma put_page A s l d n p m' :
  space A s l d -> 0 <= n < NUSER -> upage_of (pm s) d n = Some p -> only [p] (pm s) m' ->
  space A (s <| pm := m' |>) l d /\ (forall va, entry m' d va = entry (pm s) d va) /\ only A (pm s) m' /\
  forall t, 0 <= t < 1024 -> present m' d t = present (pm s) d t.
Proof.
  intros H Hn E Ho. destruct (space_user kend A s l d n p H Hn E) as (Hp & Hm & HA).
  assert (Hx : forall q x, q ∈ meta (pm s) l d -> on_page q x -> m' x = pm s x).
  { intros q x Hq Hx. apply (only_apart kend [p] q _ _ x Ho); [by apply (meta_pages kend A s l d)|by constructor| |done].
    by intros ->%list_elem_of_singleton. }
  destruct (space_frame kend A s l d m' H Hx) as (H1 & H2 & _). split; [done|]. split; [done|]. split.
  - eapply only_weaken; [|exact Ho]. by intros q ->%list_elem_of_singleton.
  - intros t Ht. apply dir_frame; [done|]. intros x. apply Hx. unfold meta. in_list.
Qed.
Lemma half_same m m' d : (forall va, entry m' d va = entry m d va) -> kernel_half m d -> kernel_half m' d.
Proof. intros He [H1 H2]. split; intros x Hx Hk; rewrite He; auto. Qed.
Lemma put_bytes_only m p o (bs : list Z) : 0 <= o -> o + Z.of_nat (length bs) <= PGSIZE -> only [p] m (put_bytes m (p + o) bs).
Proof.
  intros Ho Hl x Hx. unfold put_bytes. rewrite decide_False; [done|]. intros Hr. apply (Hx p); [left|]. unfold on_page. lia.
Qed.
(** copyout below KERNBASE, where there are page tables: what it wrote when it
    succeeds; no entry and no other page changes in any case. *)
Definition copied_out A l d va (buf : list Z) s (r : Z) (s' : kmem) : Prop :=
  space A s' l d /\ (forall x, entry (pm s') d x = entry (pm s) d x) /\ only A (pm s) (pm s') /\
  ((r = 0 /\ (forall y, va <= y < va + Z.of_nat (length buf) -> user (pm s) d y = true) /\ uwritten d va buf (pm s) (pm s')) \/
   (r = -1 /\ exists y, va <= y < va + Z.of_nat (length buf) /\ user (pm s) d y = false)).
(** A page with a table that the user may not access. *)
Lemma copyout_refused s d va buf fuel :
  is_u32 va -> buf <> [] -> present (pm s) d (PDX va) = true -> user (pm s) d va = false ->
  copyout_loop (S fuel) d va buf s = Ok (s, -1).
Proof.
  intros Hva Hb Hp Hu. cbn [copyout_loop]. rewrite decide_False by done. cbv zeta.
  assert (Hr : is_u32 (PGROUNDDOWN va)).
  { rewrite round_down_spec. unfold is_u32, PGSIZE in *. Z.to_euclidean_division_equations. lia. }
  destruct (page_index (PGROUNDDOWN va) va Hr Hva) as [E _]; [rewrite round_down_spec, Z.mul_comm; by apply Z.div_mul|].
  rewrite (bind_run _ _ s s 0); [done|]. rewrite uva2ka_run by (by rewrite E). unfold user in *.
  by rewrite (user_page_of (pm s) d va Hva), Hu.
Qed.
(** One turn of the loop, on an accessible page: [k] bytes go to the page. *)
Lemma copyout_turn A l d fuel va buf s :
  space A s l d -> kernel_half (pm s) d -> is_u32 va -> va < KERNBASE -> buf <> [] -> user (pm s) d va = true ->
  let k := Z.min (PGSIZE - va mod PGSIZE) (Z.of_nat (length buf)) in
  exists m1, copyout_loop (S fuel) d va buf s =
      copyout_loop fuel d (u32 (PGROUNDDOWN va + PGSIZE)) (drop (Z.to_nat k) buf) (s <| pm := m1 |>) /\
    space A (s <| pm := m1 |>) l d /\ (forall x, entry m1 d x = entry (pm s) d x) /\ only A (pm s) m1 /\
    (forall t, 0 <= t < 1024 -> present m1 d t = present (pm s) d t) /\
    uwritten d va (take (Z.to_nat k) buf) (pm s) m1.
Proof.
  intros H Hh Hvu Hvk Hb Hu k. assert (Hlen : (0 < length buf)%nat) by (destruct buf; [done|simpl; lia]).
  pose proof (user_page_of (pm s) d va Hvu) as He0. pose proof (round_down_spec va) as Erd.
  pose proof (Z.div_mod va PGSIZE ltac:(done)) as Ev. pose proof (Z.mod_pos_bound va PGSIZE ltac:(done)) as Hmod.
  set (va0 := PGROUNDDOWN va) in *. assert (Hu0 : user (pm s) d va0 = true) by (unfold user; by rewrite He0).
  destruct (upage_va (pm s) d va Hvu Hvk) as [_ Hn]. pose proof (upage_user _ _ _ Hvu Hvk Hu) as Eu.
  destruct (space_user kend A s l d _ _ H Hn Eu) as (Hp & _ & _).
  assert (Ht : length (take (Z.to_nat k) buf) = Z.to_nat k) by (rewrite length_take; lia).
  destruct (put_user kend s l d va (take (Z.to_nat k) buf) (space_user_ok _ _ _ _ H Hh) Hvu Hu) as (_ & _ & W1); [lia|].
  destruct (put_page A s l d _ _ _ H Hn Eu (put_bytes_only (pm s) _ (va mod PGSIZE) (take (Z.to_nat k) buf) ltac:(lia) ltac:(lia))) as (H1 & He1 & Ho1 & Hp1).
  exists (put_bytes (pm s) (upage (pm s) d va + va mod PGSIZE) (take (Z.to_nat k) buf)). split; [|done].
  cbn [copyout_loop]. rewrite decide_False by done. cbv zeta. fold va0.
  rewrite (bind_run _ _ _ _ _ (uva2ka_run s d va0 (user_present _ _ _ Hu0))), Hu0.
  replace (upage (pm s) d va0) with (upage (pm s) d va) by (unfold upage; by rewrite He0).
  rewrite decide_False by (apply page_pos in Hp; lia). replace (va - va0) with (va mod PGSIZE) by lia.
  replace (if decide (PGSIZE - va mod PGSIZE > Z.of_nat (length buf)) then Z.of_nat (length buf) else PGSIZE - va mod PGSIZE) with k
    by (unfold k; case_decide; lia).
  done.
Qed.
Lemma copyout_run A l d fuel : forall va buf s,
  space A s l d -> kernel_half (pm s) d -> 0 <= va -> va + Z.of_nat (length buf) <= KERNBASE ->
  (forall y, va <= y < va + Z.of_nat (length buf) -> present (pm s) d (PDX y) = true) -> (length buf < fuel)%nat ->
  wp (copyout_loop fuel d va buf) (copied_out A l d va buf s) s.
Proof.
  induction fuel as [|fuel IH]; intros va buf s H Hh Hva Hend Hall Hf; [lia|].
  destruct (decide (buf = [])) as [->|Hb].
  { apply wp_ret. split; [done|]. split; [done|]. split; [done|]. left. split; [done|]. split; [cbn; intros; lia|]. apply uwritten_nil. }
  assert (Hlen : (0 < length buf)%nat) by (destruct buf; [done|simpl; lia]).
  assert (Hvu : is_u32 va) by (unfold is_u32, KERNBASE in *; lia). assert (Hvk : va < KERNBASE) by lia.
  destruct (user (pm s) d va) eqn:Hu; [|unfold wp; by rewrite (copyout_refused s d va buf fuel Hvu Hb (Hall va ltac:(lia)) Hu); split; [|split; [|split; [|right; split; [|exists va; split; [lia|]]]]]].
  destruct (copyout_turn A l d fuel va buf s H Hh Hvu Hvk Hb Hu) as (m1 & E & H1 & He1 & Ho1 & Hp1 & W1). revert E W1.
  set (k := Z.min _ _). intros E W1. unfold wp. rewrite E. clear E. fold (wp (copyout_loop fuel d (u32 (PGROUNDDOWN va + PGSIZE)) (drop (Z.to_nat k) buf)) (copied_out A l d va buf s) (s <| pm := m1 |>)).
  pose proof (round_down_spec va) as Erd. pose proof (Z.div_mod va PGSIZE ltac:(done)) as Ev. pose proof (Z.mod_pos_bound va PGSIZE ltac:(done)) as Hmod.
  assert (Hus : forall y, va <= y < va + k -> user (pm s) d y = true).
  { intros y Hy. rewrite <- Hu. unfold user. rewrite (entry_page (pm s) d y va); [done|unfold is_u32, KERNBASE in *; lia|done|].
    symmetry. apply (Z.div_unique_pos y PGSIZE (va / PGSIZE) (va mod PGSIZE + (y - va))); lia. }
  destruct (decide (k = Z.of_nat (length buf))) as [Hlast|Hmore].
  - rewrite take_ge in W1 by lia. rewrite drop_ge by lia. destruct fuel as [|fuel]; [lia|].
    apply wp_ret. split; [done|]. split; [done|]. split; [done|]. left. split; [done|]. split; [by rewrite <- Hlast|done].
  - rewrite u32_small by (unfold is_u32, KERNBASE in *; lia). replace (PGROUNDDOWN va + PGSIZE) with (va + k) by lia.
    assert (Hd : length (drop (Z.to_nat k) buf) = (length buf - Z.to_nat k)%nat) by apply length_drop.
    eapply wp_mono; [apply (IH (va + k) (drop (Z.to_nat k) buf) _ H1)|]; [by apply (half_same (pm s))|lia|lia| |lia|].
    + intros y Hy. cbn. rewrite Hp1 by apply pdx_range. apply Hall. lia.
    + intros r s' (H2 & He2 & Ho2 & Hr). cbn in He2, Ho2, Hr. split; [done|]. split; [intros x; by rewrite He2|].
      split; [by eapply only_trans|]. destruct Hr as [(-> & Hu2 & W2)|(-> & y & Hy & Hny)].
      2: { right. split; [done|]. exists y. split; [lia|]. unfold user in *. by rewrite He1 in Hny. }
      left. split; [done|]. split.
      * intros y Hy. destruct (decide (y < va + k)); [apply Hus; lia|]. specialize (Hu2 y ltac:(lia)). unfold user in *. by rewrite He1 in Hu2.
      * rewrite <- (take_drop (Z.to_nat k) buf). eapply uwritten_app; [intros y _; apply He1|exact W1|].
        replace (va + Z.of_nat (length (take (Z.to_nat k) buf))) with (va + k) by (rewrite length_take; lia). done.
Qed.
(** ** The image of a program under construction

    [d] is made of pages that were free in [k0], the list [l0]; it has the pages
    of [sz] bytes, and the user can access all of them but the page [g] and
    reads [f] there. *)
Definition fput (f : Z -> Z) va (bs : list Z) : Z -> Z := put_bytes f va bs.
Record image l0 (k0 : kmem) d (sz : Z) (g : option Z) (f : Z -> Z) (k : kmem) l : Prop := mkimage {
  im_space : space l0 k l d;
  im_only : only l0 (pm k0) (pm k);
  im_half : kernel_half (pm k) d;
  im_sz : 0 <= sz < KERNBASE;
  im_user : forall y, 0 <= y < PGSIZE * npages sz ->
    is_u32 (entry (pm k) d y) /\ has PTE_P (entry (pm k) d y) = true /\
    has PTE_U (entry (pm k) d y) = negb (bool_decide (g = Some (y / PGSIZE)));
  im_rest : forall n, npages sz <= n < NUSER -> upage_of (pm k) d n = None;
  im_bytes : forall y, 0 <= y < PGSIZE * npages sz -> user (pm k) d y = true -> ubyte (pm k) d y = f y;
  im_zero : forall y, PGSIZE * npages sz <= y -> f y = 0;
}.
Lemma npages_bound sz : 0 <= sz < KERNBASE -> 0 <= npages sz <= NUSER.
Proof.
  intros H. split; [apply Z.div_pos; [unfold PGSIZE; lia|done]|]. rewrite NUSER_val. apply Z.lt_succ_r. apply Z.div_lt_upper_bound; [done|].
  unfold KERNBASE, PGSIZE in *. lia.
Qed.
Lemma image_range l0 k0 d sz g f k l y : image l0 k0 d sz g f k l -> 0 <= y < PGSIZE * npages sz -> is_u32 y /\ y < KERNBASE.
Proof.
  intros I Hy. pose proof (npages_bound sz (im_sz _ _ _ _ _ _ _ _ I)) as Hn. rewrite NUSER_val in Hn. unfold is_u32, KERNBASE, PGSIZE in *. lia.
Qed.
(** The entries are the same; the bytes are whatever they are now. *)
Lemma image_bytes l0 k0 d sz g f f' k l k' :
  image l0 k0 d sz g f k l -> space l0 k' l d -> (forall x, entry (pm k') d x = entry (pm k) d x) -> only l0 (pm k) (pm k') ->
  (forall y, 0 <= y < PGSIZE * npages sz -> user (pm k) d y = true -> ubyte (pm k') d y = f' y) ->
  (forall y, PGSIZE * npages sz <= y -> f' y = 0) -> image l0 k0 d sz g f' k' l.
Proof.
  intros I H He Ho Hb Hz. split; [done| | |apply I| | | |done].
  - eapply only_trans; [apply I|exact Ho].
  - eapply half_same; [exact He|apply I].
  - intros y Hy. rewrite He. by apply (im_user _ _ _ _ _ _ _ _ I).
  - intros n Hn. unfold upage_of. rewrite He. by apply (im_rest _ _ _ _ _ _ _ _ I).
  - intros y Hy Hu. apply Hb; [done|]. unfold user in *. by rewrite <- He.
Qed.
(** Bytes written where the user has access. *)
Lemma image_write l0 k0 d sz g f k l va bs k' :
  image l0 k0 d sz g f k l -> space l0 k' l d -> (forall x, entry (pm k') d x = entry (pm k) d x) ->
  only l0 (pm k) (pm k') -> uwritten d va bs (pm k) (pm k') -> 0 <= va -> va + Z.of_nat (length bs) <= PGSIZE * npages sz ->
  image l0 k0 d sz g (fput f va bs) k' l.
Proof.
  intros I H He Ho W Hva Hle. apply (image_bytes l0 k0 d sz g f _ k l k'); try done.
  - intros y Hy Hu. destruct (image_range _ _ _ _ _ _ _ _ y I Hy) as [Hyu _].
    rewrite (W y Hyu Hu). unfold fput, put_bytes. case_decide; [done|]. by apply (im_bytes _ _ _ _ _ _ _ _ I).
  - intros y Hy. unfold fput, put_bytes. rewrite decide_False by lia. by apply (im_zero _ _ _ _ _ _ _ _ I).
Qed.
Lemma image_user l0 k0 d sz g f k l y :
  image l0 k0 d sz g f k l -> 0 <= y < PGSIZE * npages sz -> g <> Some (y / PGSIZE) -> user (pm k) d y = true.
Proof.
  intros I Hy Hg. destruct (im_user _ _ _ _ _ _ _ _ I y Hy) as (_ & Hp & Hu). unfold user. rewrite Hp, Hu.
  by rewrite bool_decide_false.
Qed.
Lemma image_present l0 k0 d sz g f k l y :
  image l0 k0 d sz g f k l -> 0 <= y < PGSIZE * npages sz -> present (pm k) d (PDX y) = true.
Proof.
  intros I Hy. destruct (im_user _ _ _ _ _ _ _ _ I y Hy) as (_ & Hp & _). unfold entry in Hp. by destruct (present (pm k) d (PDX y)).
Qed.
(** One page of loaduvm. *)
Lemma image_load l0 k0 d sz f k l va (bs : list Z) :
  image l0 k0 d sz None f k l -> 0 <= va < PGSIZE * npages sz -> va mod PGSIZE = 0 -> Z.of_nat (length bs) <= PGSIZE ->
  image l0 k0 d sz None (fput f va bs) (k <| pm := put_bytes (pm k) (P2V (PTE_ADDR (entry (pm k) d va))) bs |>) l.
Proof.
  intros I Hva Hm Hl. destruct (image_range _ _ _ _ _ _ _ _ va I Hva) as [Hvu Hvk].
  assert (Hu : user (pm k) d va = true) by (by apply (image_user _ _ _ _ _ _ _ _ va I)).
  destruct (upage_va (pm k) d va Hvu Hvk) as [_ Hn]. pose proof (upage_user _ _ _ Hvu Hvk Hu) as Eu. fold (upage (pm k) d va).
  destruct (put_user kend k l d va bs (space_user_ok _ _ _ _ (im_space _ _ _ _ _ _ _ _ I) (im_half _ _ _ _ _ _ _ _ I)) Hvu Hu) as (_ & _ & W); [lia|].
  rewrite Hm, Z.add_0_r in W. pose proof (put_bytes_only (pm k) (upage (pm k) d va) 0 bs ltac:(lia) ltac:(lia)) as Ho. rewrite Z.add_0_r in Ho.
  destruct (put_page l0 k l d _ _ _ (im_space _ _ _ _ _ _ _ _ I) Hn Eu Ho) as (H1 & He1 & Ho1 & _).
  apply (image_write l0 k0 d sz None f k l); try done; [lia|]. pose proof (page_of_mul va Hm) as E. assert (va / PGSIZE < npages sz) by (unfold PGSIZE in *; lia). unfold PGSIZE in *. lia.
Qed.
(** copyout within the image. *)
Lemma image_copyout l0 k0 d sz g f k l va buf :
  image l0 k0 d sz g f k l -> 0 <= va -> va + Z.of_nat (length buf) <= PGSIZE * npages sz ->
  wp (copyout d va buf) (fun r k' => exists f', image l0 k0 d sz g f' k' l /\
    ((r = 0 /\ (forall y, va <= y < va + Z.of_nat (length buf) -> user (pm k) d y = true) /\ forall y, f' y = fput f va buf y) \/
     (r = -1 /\ exists y, va <= y < va + Z.of_nat (length buf) /\ user (pm k) d y = false))) k.
Proof.
  intros I Hva Hle. assert (Hkb : PGSIZE * npages sz <= KERNBASE).
  { pose proof (npages_bound sz (im_sz _ _ _ _ _ _ _ _ I)). rewrite NUSER_val in *. unfold PGSIZE, KERNBASE. lia. }
  eapply wp_mono; [apply (copyout_run l0 l d _ va buf k (im_space _ _ _ _ _ _ _ _ I) (im_half _ _ _ _ _ _ _ _ I) Hva); [lia| |lia]|].
  - intros y Hy. apply (image_present _ _ _ _ _ _ _ _ y I). lia.
  - intros r k' (H & He & Ho & [(-> & Hu & W)|(-> & Hny)]).
    + exists (fput f va buf). split; [by apply (image_write l0 k0 d sz g f k l)|by left].
    + exists (fun y => if decide (y < PGSIZE * npages sz) then ubyte (pm k') d y else 0). split; [|by right].
      apply (image_bytes l0 k0 d sz g f _ k l k'); try done; intros y Hy; [intros _; by rewrite decide_True by lia|by rewrite decide_False by lia].
Qed.
Lemma image_start l0 k0 d k l :
  space l0 k l d -> only l0 (pm k0) (pm k) -> (forall n, 0 <= n < NUSER -> upage_of (pm k) d n = None) -> kernel_half (pm k) d ->
  image l0 k0 d 0 None (fun _ => 0) k l.
Proof.
  intros H Ho Hu Hh. assert (E : PGSIZE * npages 0 = 0) by reflexivity. split; try done; [intros y Hy; rewrite E in Hy; lia|intros y Hy; rewrite E in Hy; lia].
Qed.
(** A page added by allocuvm. *)
Lemma fresh_user ps d y m :
  is_u32 y -> fresh_page kend ps d y m ->
  is_u32 (entry m d y) /\ has PTE_P (entry m d y) = true /\ has PTE_U (entry m d y) = true /\ ubyte m d y = 0.
Proof.
  intros Hy (p & _ & Hp & E & Hz). destruct (new_tab_word kend p Hp) as (_ & Hm & Hr & Hv). rewrite E.
  split; [apply pte_of_range; [apply u32_range|done|done]|]. split; [apply pte_of_present|]. split; [by rewrite pte_of_user|].
  unfold ubyte, upage. rewrite E, pte_of_addr, Hv by done. apply Hz. pose proof (Z.mod_pos_bound y PGSIZE ltac:(done)). unfold on_page. lia.
Qed.
Lemma grown_image l0 k0 d sz newsz f k l k' l' :
  image l0 k0 d sz None f k l -> sz <= newsz < KERNBASE -> grown kend l0 k l d (npages sz) (npages newsz) k' l' ->
  image l0 k0 d newsz None f k' l'.
Proof.
  intros I Hsz [HS HO HM Hold Hnew]. pose proof (npages_bound newsz ltac:(pose proof (im_sz _ _ _ _ _ _ _ _ I); lia)) as Hnb.
  assert (Hnp : npages sz <= npages newsz) by (apply Z.div_le_mono; [done|lia]).
  assert (Hr : forall y, 0 <= y < PGSIZE * npages newsz -> is_u32 y /\ y / PGSIZE < npages newsz).
  { intros y Hy. rewrite NUSER_val in Hnb. split; [unfold is_u32, PGSIZE in *; lia|]. apply Z.div_lt_upper_bound; [done|]. lia. }
  assert (Ho : forall y, 0 <= y < PGSIZE * npages sz -> y / PGSIZE < npages sz) by (intros y Hy; apply Z.div_lt_upper_bound; [done|lia]).
  assert (Hge : forall y, PGSIZE * npages sz <= y -> npages sz <= y / PGSIZE) by (intros y Hy; apply Z.div_le_lower_bound; [done|lia]).
  split; [done| | |pose proof (im_sz _ _ _ _ _ _ _ _ I); lia| | | |].
  - eapply only_trans; [apply I|]. eapply only_weaken; [|exact HO]. intros p. apply (space_in _ _ _ _ _ _ (im_space _ _ _ _ _ _ _ _ I)).
  - assert (Hk : forall x, KERNBASE <= x -> ~ (npages sz <= x / PGSIZE < npages newsz)).
    { intros x Hx. assert (NUSER <= x / PGSIZE) by (apply Z.div_le_lower_bound; [done|exact Hx]). lia. }
    destruct (im_half _ _ _ _ _ _ _ _ I) as [H1 H2].
    split; intros x Hx Hkx; (rewrite Hold; [auto|done|apply Hk; unfold DEVSPACE, KERNBASE in *; lia]).
  - intros y Hy. destruct (Hr y Hy) as [Hyu Hyn]. destruct (decide (y < PGSIZE * npages sz)) as [Hl|Hl].
    + rewrite Hold; [apply (im_user _ _ _ _ _ _ _ _ I); lia|done|]. pose proof (Ho y). lia.
    + destruct (fresh_user (meta (pm k) l d) d y (pm k') Hyu) as (F1 & F2 & F3 & _); [apply Hnew; [done|]; pose proof (Hge y); lia|]. done.
  - intros n Hn. assert (Hn' : 0 <= n < NUSER) by (pose proof (npages_bound sz (im_sz _ _ _ _ _ _ _ _ I)); lia). destruct (user_va n Hn') as [Hu Hd].
    unfold upage_of. rewrite Hold by (done || rewrite Hd; lia). apply (im_rest _ _ _ _ _ _ _ _ I). lia.
  - intros y Hy Hu. destruct (Hr y Hy) as [Hyu Hyn]. destruct (decide (y < PGSIZE * npages sz)) as [Hl|Hl].
    + assert (He : entry (pm k') d y = entry (pm k) d y) by (apply Hold; [done|]; pose proof (Ho y); lia).
      assert (Hu0 : user (pm k) d y = true) by (unfold user in *; by rewrite <- He). rewrite <- (im_bytes _ _ _ _ _ _ _ _ I y) by (done || lia).
      destruct (image_range _ _ _ _ _ _ _ _ y I ltac:(lia)) as [_ Hyk]. destruct (upage_va (pm k) d y Hyu Hyk) as [_ Hn].
      destruct (space_user kend l0 k l d _ _ (im_space _ _ _ _ _ _ _ _ I) Hn (upage_user _ _ _ Hyu Hyk Hu0)) as (Hp & Hpm & _).
      unfold ubyte. replace (upage (pm k') d y) with (upage (pm k) d y) by (unfold upage; by rewrite He).
      apply (only_apart kend _ (upage (pm k) d y) _ _ _ HO); [done|by apply (meta_forall kend l0), I|done|].
      pose proof (Z.mod_pos_bound y PGSIZE ltac:(done)). unfold on_page. lia.
    + destruct (fresh_user (meta (pm k) l d) d y (pm k') Hyu) as (_ & _ & _ & ->); [apply Hnew; [done|]; pose proof (Hge y); lia|].
      symmetry. apply (im_zero _ _ _ _ _ _ _ _ I). lia.
  - intros y Hy. apply (im_zero _ _ _ _ _ _ _ _ I). unfold PGSIZE in *. lia.
Qed.
Lemma image_alloc l0 k0 d sz f k l newsz :
  image l0 k0 d sz None f k l -> is_u32 newsz ->
  wp (allocuvm kend d sz newsz) (fun r k' => exists l', space l0 k' l' d /\ only l0 (pm k0) (pm k') /\
    ((r = 0 /\ (newsz < KERNBASE -> few l0 (npages newsz))) \/ (r = Z.max sz newsz /\ newsz < KERNBASE /\ image l0 k0 d r None f k' l'))) k.
Proof.
  intros I Hu. pose proof (im_sz _ _ _ _ _ _ _ _ I) as Hsz. eapply wp_mono; [apply (allocuvm_spec kend kend_above l0 k l d sz newsz (im_space _ _ _ _ _ _ _ _ I)); [lia|done|]|].
  - intros n Hn Hnu. apply (im_rest _ _ _ _ _ _ _ _ I). lia.
  - cbn beta. intros r k' [(H1 & H2 & -> & ->)|[(H1 & -> & l' & G)|(-> & (l' & H & Ho & _) & Hs)]].
    + exists l. split; [apply I|]. split; [apply I|]. right. split; [lia|]. by split.
    + pose proof (grown_image _ _ _ _ _ _ _ _ _ _ I H1 G) as I'. exists l'. split; [apply I'|]. split; [apply I'|]. right. split; [lia|]. split; [lia|done].
    + exists l'. split; [done|]. split; [eapply only_trans; [apply I|exact Ho]|]. left. split; [done|]. intros Hk. destruct (Hs Hk) as [Hle Hs'].
      apply Hs'. intros n Hn. apply (im_rest _ _ _ _ _ _ _ _ I). assert (npages sz <= npages newsz) by (apply Z.div_le_mono; [done|lia]). lia.
Qed.
(** clearpteu takes the access to one page. *)
Lemma clear_user_bits e i : 0 <= i -> Z.testbit (Z.land e (Z.lnot PTE_U)) i = Z.testbit e i && negb (bool_decide (i = 2)).
Proof.
  intros Hi. rewrite Z.land_spec, Z.lnot_spec by done. change PTE_U with (2 ^ 2). f_equal. f_equal. case_bool_decide as E.
  - subst i. by rewrite Z.pow2_bits_true.
  - by rewrite Z.pow2_bits_false by lia.
Qed.
Lemma clear_user_pte e : is_u32 e ->
  is_u32 (Z.land e (Z.lnot PTE_U)) /\ pte_page (Z.land e (Z.lnot PTE_U)) = pte_page e /\
  has PTE_P (Z.land e (Z.lnot PTE_U)) = has PTE_P e /\ has PTE_U (Z.land e (Z.lnot PTE_U)) = false.
Proof.
  intros He. set (e' := Z.land e (Z.lnot PTE_U)).
  assert (H1 : has PTE_P e' = has PTE_P e).
  { change PTE_P with (2 ^ 0). rewrite !has_testbit by lia. unfold e'. rewrite clear_user_bits by lia. apply andb_true_r. }
  assert (H2 : has PTE_U e' = false).
  { change PTE_U with (2 ^ 2). rewrite has_testbit by lia. unfold e'. rewrite clear_user_bits by lia. apply andb_false_r. }
  assert (H3 : PTE_ADDR e' = PTE_ADDR e).
  { unfold PTE_ADDR. apply Z.bits_inj'. intros i Hi. rewrite !Z.land_spec. unfold e'. rewrite clear_user_bits by done.
    case_bool_decide as E; [subst i; change (Z.testbit (Z.lnot 4095) 2) with false; by rewrite !andb_false_r|]. by rewrite andb_true_r. }
  split; [|split; [unfold pte_page; by rewrite H1, H3|done]]. unfold is_u32 in *. split; [unfold e'; apply Z.land_nonneg; lia|].
  assert (E : e' = e' mod 2 ^ 32); [|rewrite E; apply Z.mod_pos_bound; lia]. rewrite <- Z.land_ones by lia. unfold e'.
  by rewrite <- Z.land_assoc, (Z.land_comm (Z.lnot PTE_U)), Z.land_assoc, Z.land_ones, (Z.mod_small e) by lia.
Qed.
Lemma image_guard l0 k0 d sz f k l n :
  image l0 k0 d sz None f k l -> 0 <= n < npages sz ->
  wp (clearpteu d (PGSIZE * n)) (fun _ k' => image l0 k0 d sz (Some n) f k' l) k.
Proof.
  intros I Hn. pose proof (npages_bound sz (im_sz _ _ _ _ _ _ _ _ I)) as Hb. destruct (user_va n ltac:(lia)) as [Hu Hd].
  destruct (im_user _ _ _ _ _ _ _ _ I (PGSIZE * n)) as (Hr & Hp & _); [unfold PGSIZE; lia|].
  destruct (walk_present kend l0 k l d _ (im_space _ _ _ _ _ _ _ _ I) Hp) as (a & Ew & Ha & El).
  assert (Hpr : present (pm k) d (PDX (PGSIZE * n)) = true) by (apply (image_present _ _ _ _ _ _ _ _ _ I); unfold PGSIZE; lia).
  unfold clearpteu. apply wp_bind. unfold wp at 1. rewrite Ew, decide_False by done. apply wp_bind. unfold wp at 1, peek, gets. rewrite El.
  rewrite (walk_hit k d (PGSIZE * n) false Hpr) in Ew. injection Ew as <-. set (e := entry (pm k) d (PGSIZE * n)) in *.
  destruct (clear_user_pte e Hr) as (Hr' & Hpp & HP & HU).
  destruct (set_entry_meta kend k l d (PGSIZE * n) _ (space_pt _ _ _ _ _ (im_space _ _ _ _ _ _ _ _ I)) Hpr Hu Hr') as (Hk & Ht & He & Ho).
  unfold wp, poke, on_pm, modify. change (k <| pm ::= _ |>) with (set_entry d (PGSIZE * n) (Z.land e (Z.lnot PTE_U)) k).
  set (k' := set_entry d (PGSIZE * n) (Z.land e (Z.lnot PTE_U)) k) in *. rewrite Hd in He.
  assert (Hup : forall j, 0 <= j < NUSER -> upage_of (pm k') d j = upage_of (pm k) d j).
  { intros j Hj. destruct (user_va j Hj) as [Hju Hjd]. unfold upage_of. rewrite He, Hjd by done. case_decide as E; [|done]. subst j. by rewrite Hpp. }
  assert (HS : space l0 k' l d) by (eapply space_keep; [apply I|done|unfold meta; by rewrite Ht|done]).
  split; [done| | |apply I| | | |apply I].
  - eapply only_trans; [apply I|]. eapply only_weaken; [|exact Ho]. intros p Hpt. apply (space_in _ _ _ _ _ _ (im_space _ _ _ _ _ _ _ _ I)). unfold meta. in_list.
  - destruct (im_half _ _ _ _ _ _ _ _ I) as [H1 H2].
    split; intros x Hx Hkx; (rewrite He, decide_False; [auto|intros E|done]);
      (assert (NUSER <= x / PGSIZE) by (apply Z.div_le_lower_bound; [done|rewrite NUSER_val; unfold DEVSPACE, KERNBASE, PGSIZE in *; lia]); lia).
  - intros y Hy. destruct (image_range _ _ _ _ _ _ _ _ y I Hy) as [Hyu _]. rewrite He by done. case_decide as E.
    + rewrite E, bool_decide_true by done. by rewrite HP, HU.
    + rewrite bool_decide_false by congruence. by apply (im_user _ _ _ _ _ _ _ _ I y Hy).
  - intros j Hj. rewrite Hup by lia. by apply (im_rest _ _ _ _ _ _ _ _ I).
  - intros y Hy Huy. destruct (image_range _ _ _ _ _ _ _ _ y I Hy) as [Hyu Hyk]. unfold user in Huy. rewrite He in Huy by done.
    destruct (decide (y / PGSIZE = n)) as [E|E]; [by rewrite HU, andb_false_r in Huy|]. rewrite <- (im_bytes _ _ _ _ _ _ _ _ I y Hy) by done.
    unfold ubyte, upage. rewrite He, decide_False by done. fold (upage (pm k) d y). destruct (upage_va (pm k) d y Hyu Hyk) as [_ Hyn].
    destruct (space_user kend l0 k l d _ _ (im_space _ _ _ _ _ _ _ _ I) Hyn (upage_user _ _ _ Hyu Hyk Huy)) as (Hpg & Hpm & _).
    apply (only_apart kend _ (upage (pm k) d y) _ _ _ Ho); [done| | |].
    + apply Forall_forall. intros q Hq. apply (meta_pages kend l0 k l d); [apply I|]. unfold meta. in_list.
    + intros Hin. apply Hpm. unfold meta. in_list.
    + pose proof (Z.mod_pos_bound y PGSIZE ltac:(done)). unfold on_page. lia.
Qed.

(** ** The memory of a child *)

Context (kdata : Z).
Hypothesis kdata_ok : KERNLINK < kdata < KERNBASE + PHYSTOP /\ kdata mod PGSIZE = 0.
Definition same_memory m0 pgdir m d sz : Prop := forall va, 0 <= va < PGSIZE * npages sz ->
  ubyte m d va = ubyte m0 pgdir va /\ PTE_FLAGS (entry m d va) = PTE_FLAGS (entry m0 pgdir va).
Lemma copied_same A s l pgdir d sz s' l' :
  space A s l pgdir -> 0 <= sz <= KERNBASE -> copied kend l s pgdir d (npages sz) s' l' -> same_memory (pm s) pgdir (pm s') d sz.
Proof.
  intros H Hsz C va Hva. assert (Hnb : npages sz <= NUSER).
  { rewrite NUSER_val. unfold npages. apply Z.lt_succ_r. apply Z.div_lt_upper_bound; [done|]. unfold KERNBASE, PGSIZE in *. lia. }
  assert (Hn : 0 <= va / PGSIZE < npages sz) by (split; [apply Z.div_pos; [lia|done]|apply Z.div_lt_upper_bound; [done|lia]]).
  assert (Hu : is_u32 va) by (rewrite NUSER_val in Hnb; unfold is_u32, PGSIZE in *; lia).
  destruct (user_va (va / PGSIZE) ltac:(lia)) as [Hu' Hd]. destruct (cp_done _ _ _ _ _ _ _ _ C _ Hn) as (p & q & E1 & E2 & E3 & E4).
  assert (Hpage : forall m g r, upage_of m g (va / PGSIZE) = Some r -> upage m g va = r).
  { intros m g r. unfold upage_of, upage. rewrite (entry_page m g _ va) by done. unfold pte_page. case_match; [by intros [= <-]|done]. }
  unfold ubyte. rewrite (Hpage _ _ _ E1), (Hpage _ _ _ E2). split.
  - apply E4. by apply Z.mod_pos_bound.
  - by rewrite !(entry_page _ _ (PGSIZE * (va / PGSIZE)) va) in E3.
Qed.
(** C4: copyuvm of a process of [sz] bytes: a new address space with the same
    bytes and the same rights below [sz] and nothing above, made of pages that
    were free and so none of the parent's; or 0, for want of pages, and the
    pages it took are free again.  The parent's page table and memory are not
    touched. *)
Theorem copyuvm_correct A s l pgdir sz :
  space A s l pgdir -> 0 <= sz <= KERNBASE -> (forall n, 0 <= n < npages sz -> upage_of (pm s) pgdir n <> None) ->
  wp (copyuvm kend kdata pgdir sz) (fun d s' =>
    (forall p x, p ∈ owned (pm s) pgdir -> on_page p x -> pm s' x = pm s x) /\
    (forall va, entry (pm s') pgdir va = entry (pm s) pgdir va) /\
    if decide (d = 0) then few l (npages sz) /\ exists l', kmem_ok kend s' l' /\ l' ≡ₚ l
    else same_memory (pm s) pgdir (pm s') d sz /\ (forall n, npages sz <= n < NUSER -> upage_of (pm s') d n = None) /\
      (forall p, p ∈ owned (pm s') d -> ~ (p ∈ owned (pm s) pgdir)) /\
      exists l', kmem_ok kend s' l' /\ l' ++ owned (pm s') d ≡ₚ l) s.
Proof.
  intros H Hsz Hall. eapply wp_mono; [apply (copyuvm_spec kend kend_above kdata kdata_ok A s l pgdir sz H Hsz Hall)|]. cbn beta.
  intros d s' [(Hd & l' & C)|(-> & (l' & Hk & Hp & Ho) & Hf)].
  - destruct (space_outside kend kdata kdata_ok A s l pgdir (pm s') H (cp_only _ _ _ _ _ _ _ _ C)) as (H1 & H2 & _). split; [done|]. split; [done|].
    rewrite decide_False by done. pose proof (cp_space _ _ _ _ _ _ _ _ C) as HS. pose proof (sp_all _ _ _ _ _ HS) as Hperm.
    split; [by eapply copied_same|]. split; [apply C|]. split; [|exists l'; split; [apply HS|exact Hperm]].
    intros p Hin Hp. pose proof (space_apart kend A s l pgdir H) as Hn. apply NoDup_app in Hn as (_ & Hn & _). apply (Hn p); [|exact Hp].
    rewrite <- Hperm. apply elem_of_app. right. exact Hin.
  - destruct (space_outside kend kdata kdata_ok A s l pgdir (pm s') H Ho) as (H1 & H2 & _). split; [done|]. split; [done|].
    rewrite decide_True by done. split; [done|]. by exists l'.
Qed.
End user.

(** A kernel with 1100 free pages, and an empty address space. *)
Definition kdata_w : Z := pg 280.
Definition kend_w : Z := pg 300.
Definition km_boot : kmem := Prelude.exec (kinit1 kend_w kend_w (pg 1400)) kmem_zero.
Definition dir_w : Z := pg 1400.
Definition km_w : kmem := km_boot <| pm := string_c.memset (pm km_boot) dir_w 0 page |>.
Definition free_w : list Z := reverse (pages_from kend_w 1100).
Lemma km_boot_ok : kmem_ok kend_w km_boot free_w.
Proof.
  unfold km_boot. apply (wp_exec _ (fun s => kmem_ok kend_w s free_w)).
  assert (E : PGROUNDUP kend_w = kend_w) by reflexivity.
  eapply wp_mono; [apply (kinit1_ok kend_w kend_w (pg 1400) kmem_zero eq_refl)|].
  - apply Z.le_refl.
  - unfold kend_w, pg, KERNBASE, PGSIZE. lia.
  - unfold pg, KERNBASE, PHYSTOP, PGSIZE. lia.
  - rewrite E. unfold kend_w, pg, KERNBASE, PGSIZE. lia.
  - cbn beta. intros _ s. rewrite E. replace ((pg 1400 - kend_w) / PGSIZE) with 1100 by reflexivity.
    change (Z.to_nat 1100) with 1100%nat. intros H. exact H.
Qed.
Lemma free_w_length : length free_w = 1100%nat.
Proof. unfold free_w, pages_from. by rewrite length_reverse, length_fmap, length_seq. Qed.
Lemma free_w_low p : p ∈ free_w -> p < dir_w.
Proof.
  unfold free_w, pages_from. rewrite elem_of_reverse. intros Hp. apply list_elem_of_fmap in Hp as (i & -> & Hi%elem_of_seq).
  unfold kend_w, dir_w, pg, KERNBASE, PGSIZE. lia.
Qed.
#[local] Opaque km_boot free_w.
Lemma empty_w : space kend_w (dir_w :: free_w) km_w free_w dir_w /\ forall va, entry (pm km_w) dir_w va = 0.
Proof.
  apply empty_dir.
  - apply km_boot_ok.
  - split; [done|split; vm_compute; discriminate|done].
  - intros H%free_w_low. lia.
  - apply memset_only.
  - intros x. apply memset_zero.
Qed.
(** A process of one page. *)
Definition km_page : kmem := Prelude.exec (allocuvm kend_w dir_w 0 PGSIZE) km_w.
Lemma kend_w_above : KERNBASE < kend_w.
Proof. done. Qed.
Lemma kdata_w_ok : KERNLINK < kdata_w < KERNBASE + PHYSTOP /\ kdata_w mod PGSIZE = 0.
Proof. done. Qed.
Lemma km_page_ok : exists l, space kend_w (dir_w :: free_w) km_page l dir_w /\
  upage_of (pm km_page) dir_w 0 <> None /\ ubyte (pm km_page) dir_w 0 = 0.
Proof.
  unfold km_page. apply (wp_exec _ (fun s => exists l, space kend_w (dir_w :: free_w) s l dir_w /\
    upage_of (pm s) dir_w 0 <> None /\ ubyte (pm s) dir_w 0 = 0)).
  destruct empty_w as [HS He]. change (npages PGSIZE) with 1.
  eapply wp_mono; [apply (allocuvm_spec kend_w kend_w_above (dir_w :: free_w) km_w free_w dir_w 0 PGSIZE HS)|]; [lia|done| |].
  - intros n _ _. unfold upage_of. by rewrite He.
  - change (npages PGSIZE) with 1. change (npages 0) with 0.
    cbn beta. intros r s' [(_ & Hlt & _)|[(_ & _ & l' & G)|(-> & _ & Hs)]]; [done| |exfalso].
    + exists l'. split; [apply G|]. pose proof (gr_new _ _ _ _ _ _ _ _ _ G 0 ltac:(done) ltac:(change (0 / PGSIZE) with 0; lia)) as Hf.
      destruct (fresh_user kend_w _ dir_w 0 (pm s') ltac:(done) Hf) as (_ & Hp & _ & Hb). split; [|done].
      unfold upage_of. change (PGSIZE * 0) with 0. unfold pte_page. by rewrite Hp.
    + destruct (Hs ltac:(done)) as [_ Hs']. specialize (Hs' ltac:(intros n _; unfold upage_of; by rewrite He)).
      unfold few in Hs'. cbn [length] in Hs'. rewrite free_w_length in Hs'. change (npages PGSIZE) with 1 in Hs'. lia.
Qed.
Lemma copyuvm_correct_witness :
  wp (copyuvm kend_w kdata_w dir_w PGSIZE) (fun d s' => d = 0 \/ ubyte (pm s') d 0 = 0) km_page.
Proof.
  destruct km_page_ok as (l & HS & Hu & Hb). eapply wp_mono.
  - apply (copyuvm_correct kend_w kend_w_above kdata_w kdata_w_ok (dir_w :: free_w) km_page l dir_w PGSIZE HS); [split; vm_compute; discriminate|].
    intros n Hn. change (npages PGSIZE) with 1 in Hn. replace n with 0 by lia. exact Hu.
  - cbn beta. intros d s' (_ & _ & Hr). destruct (decide (d = 0)) as [E|E]; [left; exact E|right]. destruct Hr as [Hm _].
    rewrite <- Hb. apply Hm. change (npages PGSIZE) with 1. unfold PGSIZE. lia.
Defined.
