(* ===== verification/Pipe.v ===== *)
(** Pipes (pipe.c).

    The counters of a pipe run modulo 2^32 and index the buffer modulo
    PIPESIZE.  pipewrite and piperead hold the pipe's lock between sleeps, so a
    run of either from its start or from a wakeup to its next sleep or its
    return is one step; what is left to do is kept when it sleeps. *)
From S2P Require Import Prelude.

Definition PIPESIZE : nat := 512.
Record pipe := mkpipe { pdata : list Z; nread : Z; nwrite : Z; readopen : bool; writeopen : bool }.
#[export] Instance eta_pipe : Eta pipe := fun p =>
  mkpipe (pdata p) (nread p) (nwrite p) (readopen p) (writeopen p).
(** The addresses of the counters are the sleep channels. *)
Inductive pchan := NREAD | NWRITE.
#[export] Instance pchan_eq : EqDecision pchan.
Proof. solve_decision. Defined.

(** A new pipe in a page with contents [data]. *)
Definition pipe_new (data : list Z) : pipe := mkpipe data 0 0 true true.

(** How a run ends; a sleeper wakes up where it went to sleep. *)
Inductive wend := WReturns | WFails (rest : list Z) | WSleeps (rest : list Z).
Inductive rend := RReturns (got : list Z) | RFails | RSleeps.

Definition pfull (p : pipe) : bool := bool_decide (nwrite p = u32 (nread p + Z.of_nat PIPESIZE)).
Definition pempty (p : pipe) : bool := bool_decide (nread p = nwrite p).
Definition putc (c : Z) (p : pipe) : pipe :=
  p <| pdata ::= insert (Z.to_nat (nwrite p mod Z.of_nat PIPESIZE)) c |> <| nwrite := u32 (nwrite p + 1) |>.

(** pipewrite from the byte it is at: the pipe, the channels woken, the end. *)
Fixpoint pipewrite (killed : bool) (p : pipe) (src : list Z) : pipe * list pchan * wend :=
  match src with
  | [] => (p, [NREAD], WReturns)
  | c :: rest =>
      if pfull p then
        if negb (readopen p) || killed then (p, [], WFails src) else (p, [NREAD], WSleeps src)
      else pipewrite killed (putc c p) rest
  end.

(** The copy loop of piperead. *)
Fixpoint piperead_copy (n : nat) (p : pipe) : pipe * list Z :=
  match n with
  | O => (p, [])
  | S n =>
      if pempty p then (p, []) else
      let c := pdata p !!! Z.to_nat (nread p mod Z.of_nat PIPESIZE) in
      let r := piperead_copy n (p <| nread := u32 (nread p + 1) |>) in
      (r.1, c :: r.2)
  end.
Definition piperead (killed : bool) (p : pipe) (n : nat) : pipe * list pchan * rend :=
  if pempty p && writeopen p then
    if killed then (p, [], RFails) else (p, [], RSleeps)
  else
    let r := piperead_copy n p in (r.1, [NWRITE], RReturns r.2).

(** pipeclose; the last flag tells that the page is freed. *)
Definition pipeclose (p : pipe) (writable : bool) : pipe * list pchan * bool :=
  let r := if writable then (p <| writeopen := false |>, [NREAD]) else (p <| readopen := false |>, [NWRITE]) in
  (r.1, r.2, negb (readopen r.1) && negb (writeopen r.1)).

(** ** The queue in the buffer *)

Section queue.
Implicit Types (p : pipe).
Definition count p : Z := u32 (nwrite p - nread p).
Definition slot p (i : Z) : Z := pdata p !!! Z.to_nat ((nread p + i) mod Z.of_nat PIPESIZE).
(** The bytes written and not yet read, oldest first. *)
Definition queue p : list Z := slot p <$> seqZ 0 (count p).
Record pipe_ok p : Prop := {
  pk_len : length (pdata p) = PIPESIZE;
  pk_read : is_u32 (nread p); pk_write : is_u32 (nwrite p);
  pk_count : count p <= Z.of_nat PIPESIZE;
}.
Lemma count_range p : 0 <= count p < 2 ^ 32.
Proof. apply u32_range. Qed.
Lemma queue_length p : length (queue p) = Z.to_nat (count p).
Proof. unfold queue. by rewrite length_fmap, length_seqZ. Qed.
Lemma full_count p : pipe_ok p -> pfull p = bool_decide (count p = Z.of_nat PIPESIZE).
Proof.
  intros [_ Hr Hw Hc]. unfold pfull. apply bool_decide_ext. revert Hr Hw Hc. unfold count.
  change (Z.of_nat PIPESIZE) with 512. zarith.
Qed.
Lemma empty_count p : pipe_ok p -> pempty p = bool_decide (count p = 0).
Proof.
  intros [_ Hr Hw _]. unfold pempty. apply bool_decide_ext. revert Hr Hw. unfold count. zarith.
Qed.
(** The wrap-around of the counters does not move the slots. *)
Lemma mod_u32 z : u32 z mod Z.of_nat PIPESIZE = z mod Z.of_nat PIPESIZE.
Proof. change (Z.of_nat PIPESIZE) with 512. zarith. Qed.
Lemma index_lt z : (Z.to_nat (z mod Z.of_nat PIPESIZE) < PIPESIZE)%nat.
Proof. pose proof (Z.mod_pos_bound z (Z.of_nat PIPESIZE)). change (Z.of_nat PIPESIZE) with 512 in *. change PIPESIZE with (Z.to_nat 512). lia. Qed.

Lemma putc_ok c p : pipe_ok p -> pfull p = false -> pipe_ok (putc c p) /\ queue (putc c p) = queue p ++ [c].
Proof.
  intros H Hf. rewrite full_count in Hf by done. apply bool_decide_eq_false in Hf.
  pose proof (count_range p) as Hr. pose proof (pk_count _ H) as Hc. change (Z.of_nat PIPESIZE) with 512 in *.
  assert (Ec : count (putc c p) = count p + 1).
  { unfold count, putc in *. simpl. clear Hf. revert Hc Hr. generalize (nwrite p), (nread p). intros w r.
    intros. assert (H0 : u32 (w - r) + 1 = u32 (w - r + 1)) by (revert Hc; zarith). rewrite H0. zarith. }
  assert (Es : forall i, slot (putc c p) i =
    <[Z.to_nat (nwrite p mod Z.of_nat PIPESIZE) := c]> (pdata p) !!! Z.to_nat ((nread p + i) mod Z.of_nat PIPESIZE)) by done.
  split.
  - split; [unfold putc; simpl; rewrite length_insert; apply H|apply H|apply u32_range|].
    rewrite Ec. change (Z.of_nat PIPESIZE) with 512. lia.
  - apply list_eq. intros j. unfold queue. rewrite Ec. rewrite list_lookup_fmap.
    destruct (decide (Z.of_nat j < count p)) as [Hj|Hj].
    + rewrite lookup_app_l by (rewrite length_fmap, length_seqZ; lia). rewrite list_lookup_fmap.
      rewrite !lookup_seqZ_lt by lia. unfold fmap, option_fmap, option_map. f_equal. rewrite Es, Z.add_0_l.
      apply list_lookup_total_insert_ne. intros E. revert E. revert Hj Hc Hr Hf. unfold count.
      change (Z.of_nat PIPESIZE) with 512. pose proof (pk_read _ H). pose proof (pk_write _ H). zarith.
    + rewrite lookup_app_r by (rewrite length_fmap, length_seqZ; lia). rewrite length_fmap, length_seqZ.
      destruct (decide (Z.of_nat j = count p)) as [Ej|Ej].
      * rewrite lookup_seqZ_lt by lia. replace (j - Z.to_nat (count p))%nat with 0%nat by lia.
        unfold fmap, option_fmap, option_map. rewrite Es, Z.add_0_l.
        assert (E : (nread p + Z.of_nat j) mod Z.of_nat PIPESIZE = nwrite p mod Z.of_nat PIPESIZE).
        { rewrite Ej. unfold count. rewrite <- (mod_u32 (nwrite p)), <- (mod_u32 (nread p + _)). f_equal.
          pose proof (pk_read _ H). pose proof (pk_write _ H). zarith. }
        rewrite E. change ([c] !! 0%nat) with (Some c). f_equal. apply list_lookup_total_insert_eq. rewrite (pk_len _ H). apply index_lt.
      * rewrite lookup_seqZ_ge by lia. simpl. symmetry. apply lookup_ge_None. simpl. lia.
Qed.
Lemma pipewrite_spec killed : forall src p,
  pipe_ok p ->
  let '(p', w, e) := pipewrite killed p src in
  pipe_ok p' /\ readopen p' = readopen p /\ writeopen p' = writeopen p /\
  exists done_, queue p' = queue p ++ done_ /\
    match e with
    | WReturns => done_ = src
    | WFails rest => src = done_ ++ rest
    | WSleeps rest => src = done_ ++ rest /\ rest <> [] /\ pfull p' = true /\ readopen p' = true
    end /\
    match e with WFails _ => w = [] /\ (killed = true \/ readopen p = false) | _ => w = [NREAD] end.
Proof.
  induction src as [|c src IH]; intros p H; simpl.
  - do 3 (split; [done|]). exists []. rewrite app_nil_r. done.
  - destruct (pfull p) eqn:Hf.
    + destruct (negb (readopen p) || killed) eqn:E.
      * do 3 (split; [done|]). exists []. rewrite app_nil_r. split; [done|].
        split; [done|]. split; [done|]. apply orb_true_iff in E as [E%negb_true_iff|]; auto.
      * apply orb_false_iff in E as [E1%negb_false_iff _]. do 3 (split; [done|]). exists []. rewrite app_nil_r.
        done.
    + destruct (putc_ok c p H Hf) as [H1 Hq]. specialize (IH (putc c p) H1).
      destruct (pipewrite killed (putc c p) src) as [[p' w] e]. destruct IH as (Hok & Hro & Hwo & d & Hd & He & Hw).
      split; [done|]. split; [done|]. split; [done|]. exists (c :: d). rewrite Hd, Hq, <- app_assoc. split; [done|].
      split; [|done]. destruct e; [by subst|by subst|].
      destruct He as (-> & ?). by split.
Qed.

Lemma getc_ok p :
  pipe_ok p -> pempty p = false ->
  pipe_ok (p <| nread := u32 (nread p + 1) |>) /\
  queue p = pdata p !!! Z.to_nat (nread p mod Z.of_nat PIPESIZE) :: queue (p <| nread := u32 (nread p + 1) |>).
Proof.
  intros H He. rewrite empty_count in He by done. apply bool_decide_eq_false in He.
  pose proof (count_range p) as Hr. pose proof (pk_count _ H) as Hc. set (p' := p <| nread := u32 (nread p + 1) |>).
  assert (Ec : count p' = count p - 1).
  { unfold count, p' in *. simpl. revert He Hr. generalize (nwrite p), (nread p). intros w r. zarith. }
  split.
  - split; [apply H|apply u32_range|apply H|]. lia.
  - unfold queue. rewrite Ec. replace (count p) with (Z.succ (count p - 1)) at 1 by lia.
    rewrite seqZ_cons by lia. rewrite fmap_cons. f_equal; [unfold slot; by rewrite Z.add_0_r|].
    rewrite Z.pred_succ. change (Z.succ 0) with 1. apply list_eq. intros j. rewrite !list_lookup_fmap.
    destruct (decide (Z.of_nat j < count p - 1)).
    + rewrite !lookup_seqZ_lt by lia. unfold fmap, option_fmap, option_map. f_equal. unfold slot, p'. simpl pdata. simpl nread.
      rewrite <- (mod_u32 (u32 _ + _)), <- (mod_u32 (nread p + _)). do 3 f_equal. zarith.
    + by rewrite !lookup_seqZ_ge by lia.
Qed.
Lemma piperead_copy_spec n : forall p,
  pipe_ok p ->
  let r := piperead_copy n p in
  pipe_ok r.1 /\ queue p = r.2 ++ queue r.1 /\ length r.2 = Nat.min n (length (queue p)) /\
  readopen r.1 = readopen p /\ writeopen r.1 = writeopen p.
Proof.
  induction n as [|n IH]; intros p H; simpl; [done|]. destruct (pempty p) eqn:He; simpl.
  - split; [done|]. split; [done|]. split; [|done]. rewrite empty_count in He by done.
    apply bool_decide_eq_true in He. by rewrite queue_length, He.
  - destruct (getc_ok p H He) as [H1 Hq]. destruct (IH _ H1) as (A & B & C & D & E).
    split; [exact A|]. split; [rewrite Hq; f_equal; exact B|]. split; [rewrite Hq; simpl; f_equal; exact C|]. by split.
Qed.
End queue.

(** ** Readers and writers *)

(** A process in a call: ready to run (again), asleep on its channel, or done. *)
Inductive task (A : Type) := Ready (a : A) | Asleep (a : A) | Ended.
Arguments Ready {A} _.
Arguments Asleep {A} _.
Arguments Ended {A}.
Definition wake {A} (t : task A) : task A := match t with Asleep a => Ready a | t => t end.

(** A pipe with the writers (the bytes each has left) and the readers (the
    bytes each asks for), and the bytes put into and taken out of it so far. *)
Record psys := mkps {
  pp : pipe; writers : list (task (list Z)); readers : list (task nat); sent : list Z; got : list Z }.
#[export] Instance eta_psys : Eta psys := fun s => mkps (pp s) (writers s) (readers s) (sent s) (got s).
Definition wake_all (w : list pchan) (s : psys) : psys :=
  let s := if decide (NREAD ∈ w) then s <| readers ::= fmap wake |> else s in
  if decide (NWRITE ∈ w) then s <| writers ::= fmap wake |> else s.
Definition after_write (e : wend) : task (list Z) := match e with WSleeps rest => Asleep rest | _ => Ended end.
Definition left_over (e : wend) : list Z := match e with WReturns => [] | WFails rest | WSleeps rest => rest end.

(** [kills]: whether a writer may have been killed when it runs. *)
Inductive pstep (kills : bool) (s : psys) : psys -> Prop :=
| p_new_writer src : pstep kills s (s <| writers ::= fun l => l ++ [Ready src] |>)
| p_new_reader n : readopen (pp s) = true -> pstep kills s (s <| readers ::= fun l => l ++ [Ready n] |>)
| p_write i src killed p' w e :
    writers s !! i = Some (Ready src) -> (killed = true -> kills = true) ->
    pipewrite killed (pp s) src = (p', w, e) ->
    pstep kills s (wake_all w (s <| pp := p' |> <| writers ::= insert i (after_write e) |>
                                 <| sent ::= fun l => l ++ take (length src - length (left_over e)) src |>))
| p_read i n killed p' w e :
    readers s !! i = Some (Ready n) -> piperead killed (pp s) n = (p', w, e) ->
    pstep kills s (wake_all w (s <| pp := p' |>
      <| readers ::= insert i (match e with RSleeps => Asleep n | _ => Ended end) |>
      <| got ::= fun l => l ++ match e with RReturns bs => bs | _ => [] end |>))
| p_close_write p' w b : pipeclose (pp s) true = (p', w, b) -> pstep kills s (wake_all w (s <| pp := p' |>))
| p_close_read p' w b :
    Forall (fun t => t = Ended) (readers s) -> pipeclose (pp s) false = (p', w, b) ->
    pstep kills s (wake_all w (s <| pp := p' |>))
| p_kill_writer i src : writers s !! i = Some (Asleep src) -> kills = true ->
    pstep kills s (s <| writers ::= insert i (Ready src) |>)
| p_kill_reader i n : readers s !! i = Some (Asleep n) -> pstep kills s (s <| readers ::= insert i (Ready n) |>).
Definition psys_new (data : list Z) : psys := mkps (pipe_new data) [] [] [] [].

Section reach.
Implicit Types (s : psys).
Record fifo s : Prop := { ff_ok : pipe_ok (pp s); ff_bytes : sent s = got s ++ queue (pp s) }.
Lemma wake_all_fields w s :
  pp (wake_all w s) = pp s /\ sent (wake_all w s) = sent s /\ got (wake_all w s) = got s.
Proof. unfold wake_all. by repeat case_decide. Qed.
Lemma fifo_wake w s : fifo s -> fifo (wake_all w s).
Proof. intros [A B]. destruct (wake_all_fields w s) as (E1 & E2 & E3). split; by rewrite ?E1, ?E2, ?E3. Qed.
Lemma close_queue p b : pipe_ok p -> pipe_ok (pipeclose p b).1.1 /\ queue (pipeclose p b).1.1 = queue p.
Proof. intros H. destruct b; (split; [|done]); destruct H; by split. Qed.
Lemma pstep_fifo kills s s' : fifo s -> pstep kills s s' -> fifo s'.
Proof.
  intros [Hok Hb] Hstep. destruct Hstep as [src|n _|i src killed p' w e Hi _ Hw|i n killed p' w e Hi Hr|p' w b Hc|p' w b _ Hc|i src _ _|i n _].
  - by split.
  - by split.
  - apply fifo_wake. pose proof (pipewrite_spec killed src (pp s) Hok) as W. rewrite Hw in W.
    destruct W as (Hok' & _ & _ & d & Hq & He & _). split; [done|]. simpl. rewrite Hb, <- app_assoc. f_equal. rewrite Hq.
    f_equal. destruct e; simpl.
    + subst. rewrite Nat.sub_0_r. by apply take_ge.
    + subst. rewrite length_app. apply take_app_length'. lia.
    + destruct He as (-> & _). rewrite length_app. apply take_app_length'. lia.
  - apply fifo_wake. unfold piperead in Hr. destruct (pempty (pp s) && writeopen (pp s)).
    + destruct killed; simplify_eq; split; simpl; rewrite ?app_nil_r; done.
    + destruct (piperead_copy_spec n (pp s) Hok) as (A & B & _). simplify_eq. split; [done|]. simpl.
      by rewrite Hb, B, app_assoc.
  - apply fifo_wake. destruct (close_queue (pp s) true Hok) as [A B]. rewrite Hc in A, B. split; [done|]. simpl in *. by rewrite B.
  - apply fifo_wake. destruct (close_queue (pp s) false Hok) as [A B]. rewrite Hc in A, B. split; [done|]. simpl in *. by rewrite B.
  - by split.
  - by split.
Qed.

(** Sleepers sleep for a reason: a writer because the pipe is full, a reader
    because it is empty. *)
Record attentive s : Prop := {
  at_writer : forall i src, writers s !! i = Some (Asleep src) -> pfull (pp s) = true /\ readopen (pp s) = true;
  at_reader : forall i n, readers s !! i = Some (Asleep n) -> pempty (pp s) = true /\ writeopen (pp s) = true;
  at_closed : readopen (pp s) = false -> Forall (fun t => t = Ended) (readers s);
}.
Lemma wake_not_asleep {A} (l : list (task A)) i a : (wake <$> l) !! i = Some (Asleep a) -> False.
Proof. rewrite list_lookup_fmap. destruct (l !! i) as [[]|]; simpl; congruence. Qed.
Lemma wake_ended {A} (l : list (task A)) : Forall (fun t => t = Ended) l -> Forall (fun t => t = Ended) (wake <$> l).
Proof. intros H. apply Forall_fmap. eapply Forall_impl; [exact H|]. by intros ? ->. Qed.
Lemma inserted_asleep {A} (l : list (task A)) i t j a :
  <[i := t]> l !! j = Some (Asleep a) -> t = Asleep a \/ l !! j = Some (Asleep a).
Proof. intros [(_ & H & _)|[_ H]]%list_lookup_insert_Some; auto. Qed.
Lemma app_asleep {A} (l : list (task A)) x i a : (l ++ [Ready x]) !! i = Some (Asleep a) -> l !! i = Some (Asleep a).
Proof. intros [H|[_ H]]%lookup_app_Some; [done|]. destruct (i - length l)%nat as [|[|]]; simpl in H; congruence. Qed.
Lemma ended_not_asleep {A} (l : list (task A)) i a : Forall (fun t => t = Ended) l -> l !! i = Some (Asleep a) -> False.
Proof. intros H Hi. rewrite Forall_lookup in H. specialize (H _ _ Hi). done. Qed.
Lemma full_stays p p' d : pipe_ok p -> pipe_ok p' -> queue p' = queue p ++ d -> pfull p = true -> pfull p' = true.
Proof.
  intros H H' Hq Hf. rewrite full_count in * by done. apply bool_decide_eq_true in Hf. apply bool_decide_eq_true.
  apply (f_equal length) in Hq. rewrite length_app, !queue_length in Hq. pose proof (pk_count _ H').
  pose proof (count_range p'). pose proof (count_range p). lia.
Qed.
Lemma write_attentive s i src p' w e :
  fifo s -> attentive s -> writers s !! i = Some (Ready src) -> pipewrite false (pp s) src = (p', w, e) ->
  attentive (wake_all w (s <| pp := p' |> <| writers ::= insert i (after_write e) |>
                           <| sent ::= fun l => l ++ take (length src - length (left_over e)) src |>)).
Proof.
  intros [Hok _] [Hw Hr Hcl] Hi E. pose proof (pipewrite_spec false src (pp s) Hok) as W. rewrite E in W.
  destruct W as (Hok' & Hro & Hwo & d & Hq & He & Hwk).
  assert (Hws : forall j t, <[i := after_write e]> (writers s) !! j = Some (Asleep t) -> pfull p' = true /\ readopen p' = true).
  { intros j t [Ht|Hj]%inserted_asleep.
    - destruct e; simpl in Ht; try done. by destruct He as (_ & _ & ? & ?).
    - destruct (Hw j t Hj) as [Hf Hro']. split; [|congruence]. exact (full_stays (pp s) p' d Hok Hok' Hq Hf). }
  destruct e as [|rest|rest]; [subst w|destruct Hwk as [-> [?|Hro0]]; [done|]|subst w]; (split; simpl).
  - exact Hws.
  - intros j n Hj. by apply wake_not_asleep in Hj.
  - rewrite Hro. intros Hf. apply wake_ended. by apply Hcl.
  - exact Hws.
  - intros j n Hj. destruct (ended_not_asleep _ _ _ (Hcl Hro0) Hj).
  - rewrite Hro. exact Hcl.
  - exact Hws.
  - intros j n Hj. by apply wake_not_asleep in Hj.
  - rewrite Hro. intros Hf. apply wake_ended. by apply Hcl.
Qed.
Lemma read_attentive s i n killed p' w e :
  fifo s -> attentive s -> readers s !! i = Some (Ready n) -> piperead killed (pp s) n = (p', w, e) ->
  attentive (wake_all w (s <| pp := p' |>
      <| readers ::= insert i (match e with RSleeps => Asleep n | _ => Ended end) |>
      <| got ::= fun l => l ++ match e with RReturns bs => bs | _ => [] end |>)).
Proof.
  intros [Hok _] [Hw Hr Hcl] Hi E.
  assert (Hopen : readopen (pp s) = true).
  { destruct (readopen (pp s)) eqn:Ho; [done|]. specialize (Hcl eq_refl). rewrite Forall_lookup in Hcl.
    specialize (Hcl _ _ Hi). done. }
  unfold piperead in E. destruct (pempty (pp s) && writeopen (pp s)) eqn:Hc.
  - apply andb_true_iff in Hc as [He Hwo]. destruct killed; simplify_eq; split; simpl; try (rewrite Hopen; done); try exact Hw.
    + intros j m [Ht|Hj]%inserted_asleep; [done|by eapply Hr].
    + intros j m [_|Hj]%inserted_asleep; done.
  - destruct (piperead_copy_spec n (pp s) Hok) as (_ & _ & _ & Hro & Hwo). simplify_eq. split; simpl.
    + intros j src Hj. by apply wake_not_asleep in Hj.
    + intros j m [Ht|Hj]%inserted_asleep; [done|]. destruct (Hr j m Hj) as [A B]. rewrite A, B in Hc. done.
    + rewrite Hro, Hopen. done.
Qed.
Lemma pstep_attentive s s' : fifo s -> attentive s -> pstep false s s' -> attentive s'.
Proof.
  intros F A Hstep. pose proof A as [Hw Hr Hcl].
  destruct Hstep as [src|n Ho|i src killed p' w e Hi Hk E|i n killed p' w e Hi E|p' w b Hc|p' w b He Hc|i src _ Hk|i n Hi].
  - split; [|exact Hr|exact Hcl]. intros j t Hj. apply app_asleep in Hj. eauto.
  - split; [exact Hw| |simpl; rewrite Ho; done]. intros j t Hj. apply app_asleep in Hj. eauto.
  - destruct killed; [by specialize (Hk eq_refl)|]. by eapply write_attentive.
  - by eapply read_attentive.
  - unfold pipeclose in Hc. simplify_eq. split; simpl; [exact Hw| |intros Hf; by apply wake_ended, Hcl].
    intros j t Hj. by apply wake_not_asleep in Hj.
  - unfold pipeclose in Hc. simplify_eq. split; simpl; [|intros j t Hj; destruct (ended_not_asleep _ _ _ He Hj)|done].
    intros j t Hj. by apply wake_not_asleep in Hj.
  - done.
  - split; simpl; [exact Hw| |].
    + intros j t [Ht|Hj]%inserted_asleep; [done|eauto].
    + intros Hf. specialize (Hcl Hf). destruct (ended_not_asleep _ _ _ Hcl Hi).
Qed.
Lemma new_fifo data : length data = PIPESIZE -> fifo (psys_new data).
Proof.
  intros H. assert (Hc : count (pipe_new data) = 0) by done. split.
  - split; [done|unfold is_u32; simpl; lia|unfold is_u32; simpl; lia|].
    change (count (pipe_new data) <= Z.of_nat PIPESIZE). rewrite Hc. lia.
  - change ([] = [] ++ queue (pipe_new data)). unfold queue. by rewrite Hc.
Qed.
Lemma new_attentive data : attentive (psys_new data).
Proof. split; simpl; try done; intros i ? Hi; by rewrite lookup_nil in Hi. Qed.

(** C11: a pipe is a queue: whatever processes write to it, read from it, close
    its ends or are killed, in any interleaving and for any number of
    wrap-arounds of its counters, the bytes taken out so far followed by the
    bytes in the buffer are exactly the bytes put in, in order, and the buffer
    never holds more than PIPESIZE bytes. *)
Theorem pipe_fifo data s :
  length data = PIPESIZE -> rtc (pstep true) (psys_new data) s ->
  sent s = got s ++ queue (pp s) /\ (length (queue (pp s)) <= PIPESIZE)%nat.
Proof.
  intros Hd Hr. assert (F : fifo s).
  { eapply (rtc_invariant (pstep true) fifo); [by apply new_fifo|intros x y; apply pstep_fifo|exact Hr]. }
  split; [apply F|]. rewrite queue_length. pose proof (pk_count _ (ff_ok _ F)). lia.
Qed.
(** C28: no wakeup is lost unless a writer is killed: a sleeping writer's pipe is
    full and still has its read end open, a sleeping reader's pipe is empty and
    still has its write end open; so readers and writers never sleep at once,
    and no one sleeps when it could go on. *)
Theorem pipe_sleepers data s :
  length data = PIPESIZE -> rtc (pstep false) (psys_new data) s ->
  (forall i src, writers s !! i = Some (Asleep src) -> pfull (pp s) = true /\ readopen (pp s) = true) /\
  (forall i n, readers s !! i = Some (Asleep n) -> pempty (pp s) = true /\ writeopen (pp s) = true) /\
  (forall i j src n, writers s !! i = Some (Asleep src) -> readers s !! j = Some (Asleep n) -> False).
Proof.
  intros Hd Hr. assert (FA : fifo s /\ attentive s).
  { eapply (rtc_invariant (pstep false) (fun s => fifo s /\ attentive s));
      [split; [by apply new_fifo|apply new_attentive]| |exact Hr].
    intros x y [F A] Hs. split; [by eapply pstep_fifo|by eapply pstep_attentive]. }
  destruct FA as [[Hok _] [Hw Hrd _]]. split; [exact Hw|]. split; [exact Hrd|].
  intros i j src n Hi Hj. destruct (Hw i src Hi) as [Hf _], (Hrd j n Hj) as [He _].
  rewrite full_count in Hf by done. rewrite empty_count in He by done.
  apply bool_decide_eq_true in Hf, He. rewrite Hf in He. discriminate He.
Qed.
(** C35: a killed writer can leave a reader asleep on a full pipe: pipewrite
    returns without a wakeup when it finds the pipe full and the process
    killed, although it has put bytes in since the reader went to sleep. *)
Theorem killed_writer_loses_wakeup :
  exists s, rtc (pstep true) (psys_new (replicate PIPESIZE 0)) s /\ pfull (pp s) = true /\
    readers s !! 0%nat = Some (Asleep 1%nat) /\ Forall (fun t => t = Ended) (writers s).
Proof.
  set (s0 := psys_new (replicate PIPESIZE 0)). set (src := replicate (S PIPESIZE) 7).
  set (s1 := s0 <| readers ::= fun l => l ++ [Ready 1%nat] |>).
  set (s2 := s1 <| readers ::= insert 0%nat (Asleep 1%nat) |> <| got ::= fun l => l ++ [] |>).
  set (s3 := s2 <| writers ::= fun l => l ++ [Ready src] |>).
  set (r := pipewrite true (pp s3) src).
  set (s4 := wake_all r.1.2 (s3 <| pp := r.1.1 |> <| writers ::= insert 0%nat (after_write r.2) |>
               <| sent ::= fun l => l ++ take (length src - length (left_over r.2)) src |>)).
  exists s4. split.
  - apply (rtc_l _ _ s1); [exact (p_new_reader true s0 1 eq_refl)|].
    apply (rtc_l _ _ s2); [exact (p_read true s1 0 1 false (pp s1) [] RSleeps eq_refl eq_refl)|].
    apply (rtc_l _ _ s3); [exact (p_new_writer true s2 src)|].
    apply rtc_once. apply (p_write true s3 0 src true r.1.1 r.1.2 r.2 eq_refl (fun _ => eq_refl)).
    fold r. by destruct r as [[]].
  - split; [vm_compute; reflexivity|]. split; [vm_compute; reflexivity|].
    assert (E : writers s4 = [Ended]) by (vm_compute; reflexivity). rewrite E. by repeat constructor.
Qed.

Lemma zeros_page : length (replicate PIPESIZE 0) = PIPESIZE.
Proof. apply length_replicate. Qed.
Definition ps_written : psys :=
  (psys_new (replicate PIPESIZE 0)) <| writers ::= fun l => l ++ [Ready [1; 2]] |>.
Lemma pipe_fifo_witness :
  rtc (pstep true) (psys_new (replicate PIPESIZE 0)) ps_written /\ sent ps_written = got ps_written ++ queue (pp ps_written).
Proof.
  assert (R : rtc (pstep true) (psys_new (replicate PIPESIZE 0)) ps_written).
  { apply rtc_once. exact (p_new_writer true _ [1; 2]). }
  split; [exact R|]. apply (pipe_fifo _ _ zeros_page R).
Defined.
Lemma pipe_sleepers_witness :
  exists s, rtc (pstep false) (psys_new (replicate PIPESIZE 0)) s /\ readers s !! 0%nat = Some (Asleep 1%nat) /\
    pempty (pp s) = true /\ writeopen (pp s) = true.
Proof.
  set (s0 := psys_new (replicate PIPESIZE 0)).
  set (s1 := s0 <| readers ::= fun l => l ++ [Ready 1%nat] |>).
  set (s2 := s1 <| readers ::= insert 0%nat (Asleep 1%nat) |> <| got ::= fun l => l ++ [] |>).
  assert (R : rtc (pstep false) s0 s2).
  { apply (rtc_l _ _ s1); [exact (p_new_reader false s0 1 eq_refl)|].
    apply rtc_once. exact (p_read false s1 0 1 false (pp s1) [] RSleeps eq_refl eq_refl). }
  exists s2. split; [exact R|]. split; [reflexivity|].
  destruct (pipe_sleepers _ s2 zeros_page R) as (_ & H & _). exact (H 0%nat 1%nat eq_refl).
Defined.
End reach.
