(* ===== verification/Syscall.v ===== *)
(** System call arguments and dispatch (syscall.c).

    [uctx] is what the argument functions read of the current process: its
    memory as the kernel sees it through the process's page table, its size
    and the user stack pointer of its trap frame. *)
From S2P Require Import Prelude Cstring Kalloc.

Record uctx := mkuctx { umem : mem; usz : Z; uesp : Z }.

(** [None] is the return value -1. *)
Definition fetchint (u : uctx) (addr : Z) : option Z :=
  if decide (addr >= usz u \/ u32 (addr + 4) > usz u) then None
  else Some (s32 (load32 (umem u) addr)).

(** The loop of fetchstr from [s] on: the length of the string at [p]. *)
Fixpoint fetchstr_from (m : mem) (p s ep : Z) (fuel : nat) : option Z :=
  match fuel with
  | O => None
  | S fuel => if decide (s < ep) then
                if decide (m s = 0) then Some (s - p) else fetchstr_from m p (s + 1) ep fuel
              else None
  end.
(** The pointer and the length. *)
Definition fetchstr (u : uctx) (addr : Z) : option (Z * Z) :=
  if decide (addr >= usz u) then None else
  n ← fetchstr_from (umem u) addr addr (usz u) (S (Z.to_nat (usz u - addr)));
  Some (addr, n).

Definition argint (u : uctx) (n : Z) : option Z := fetchint u (u32 (uesp u + 4 + 4 * n)).
Definition argptr (u : uctx) (n size : Z) : option Z :=
  i ← argint u n;
  if decide (size < 0 \/ u32 i >= usz u \/ u32 (u32 i + size) > usz u) then None else Some (u32 i).
Definition argstr (u : uctx) (n : Z) : option (Z * Z) :=
  addr ← argint u n;
  fetchstr u (u32 addr).

(** The system calls, by their numbers in syscall.h. *)
Inductive sysno :=
| SYS_fork | SYS_exit | SYS_wait | SYS_pipe | SYS_read | SYS_kill | SYS_exec | SYS_fstat | SYS_chdir
| SYS_dup | SYS_getpid | SYS_sbrk | SYS_sleep | SYS_uptime | SYS_open | SYS_write | SYS_mknod
| SYS_unlink | SYS_link | SYS_mkdir | SYS_close | SYS_wolfie | SYS_getprocs | SYS_setpriority | SYS_getstats.
Definition syscalls : list (option sysno) :=
  [ None; Some SYS_fork; Some SYS_exit; Some SYS_wait; Some SYS_pipe; Some SYS_read; Some SYS_kill;
    Some SYS_exec; Some SYS_fstat; Some SYS_chdir; Some SYS_dup; Some SYS_getpid; Some SYS_sbrk;
    Some SYS_sleep; Some SYS_uptime; Some SYS_open; Some SYS_write; Some SYS_mknod; Some SYS_unlink;
    Some SYS_link; Some SYS_mkdir; Some SYS_close; Some SYS_wolfie; Some SYS_getprocs;
    Some SYS_setpriority; Some SYS_getstats ].
(** syscall: [run] executes a handler; the result goes to eax. *)
Definition syscall {S} (run : sysno -> M S Z) (eax : Z) : M S Z :=
  let num := s32 eax in
  match (if decide (num > 0 /\ num < Z.of_nat (length syscalls)) then syscalls !!! Z.to_nat num else None) with
  | Some h => r ← run h; mret (u32 r)
  | None => mret (u32 (-1))
  end.

(** ** What the checks guarantee *)

(** Sizes of processes are below KERNBASE, which growproc and exec ensure. *)
Definition user_size (u : uctx) : Prop := 0 <= usz u <= KERNBASE.

Lemma fetchstr_from_spec m p s ep fuel n :
  p <= s -> fetchstr_from m p s ep fuel = Some n ->
  s <= p + n < ep /\ m (p + n) = 0 /\ forall x, s <= x < p + n -> m x <> 0.
Proof.
  revert s. induction fuel as [|fuel IH]; intros s Hs; simpl; [done|]. case_decide; [|done].
  case_decide as Hz.
  - intros [= <-]. replace (p + (s - p)) with s by lia. split; [lia|]. split; [done|]. lia.
  - intros H'. destruct (IH (s + 1) ltac:(lia) H') as (H1 & H2 & H3). split; [lia|]. split; [done|].
    intros x Hx. destruct (decide (x = s)) as [->|]; [done|]. apply H3. lia.
Qed.
Lemma fetchstr_from_none m p s ep fuel :
  fetchstr_from m p s ep fuel = None -> (Z.to_nat (ep - s) < fuel)%nat -> forall x, s <= x < ep -> m x <> 0.
Proof.
  revert s. induction fuel as [|fuel IH]; intros s; simpl; [lia|]. case_decide; [|lia].
  case_decide as Hz; [done|]. intros Hn Hf x Hx. destruct (decide (x = s)) as [->|]; [done|].
  apply (IH (s + 1) Hn); lia.
Qed.

Lemma argptr_range u n size p :
  user_size u -> is_s32 size -> argptr u n size = Some p -> 0 <= p /\ 0 <= size /\ p + size <= usz u.
Proof.
  unfold user_size, KERNBASE, argptr. intros Hu Hs. destruct (argint u n) as [i|]; [|done]. simpl.
  case_decide as H; [done|]. intros [= <-].
  apply Decidable.not_or in H as [H1 H]. apply Decidable.not_or in H as [H2 H3].
  pose proof (u32_range i) as Hi. unfold is_u32, is_s32 in *. rewrite u32_small in H3 by (unfold is_u32; lia). lia.
Qed.

(** C23: the kernel never follows a user pointer outside the process: a range
    argptr accepts lies inside the process, whatever the pointer and however
    large the size; a string argstr accepts ends with a NUL inside the process,
    its length is that of the C string, and argstr refuses a string only when
    it starts outside or no NUL follows before the end; no check is fooled by
    the wrap-around of 32-bit sums. *)
Theorem args_in_bounds u n size p :
  user_size u -> is_s32 size ->
  (argptr u n size = Some p -> 0 <= p /\ 0 <= size /\ p + size <= usz u) /\
  (forall addr v, is_u32 addr -> fetchint u addr = Some v -> addr + 4 <= usz u) /\
  (forall len, argstr u n = Some (p, len) ->
     0 <= p /\ p + len < usz u /\ umem u (p + len) = 0 /\ forall x, p <= x < p + len -> umem u x <> 0) /\
  (forall a, argint u n = Some a -> argstr u n = None ->
     u32 a >= usz u \/ forall x, u32 a <= x < usz u -> umem u x <> 0).
Proof.
  intros Hu Hs. split; [by apply argptr_range|]. unfold user_size, KERNBASE in Hu. split; [|split].
  - intros addr v Ha. unfold fetchint. case_decide as H; [done|]. intros _.
    apply Decidable.not_or in H as [H1 H2]. unfold is_u32 in *. rewrite u32_small in H2 by (unfold is_u32; lia). lia.
  - intros len. unfold argstr. destruct (argint u n) as [a|]; [|done]. simpl. unfold fetchstr. case_decide; [done|].
    destruct (fetchstr_from _ _ _ _ _) as [k|] eqn:E; [|done]. simpl. intros [= <- <-].
    apply fetchstr_from_spec in E; [|lia]. destruct E as (H1 & H2 & H3).
    pose proof (u32_range a) as Ha. unfold is_u32 in Ha. split; [lia|]. split; [lia|]. done.
  - intros a Ha. unfold argstr. rewrite Ha. simpl. unfold fetchstr. case_decide; [by left|].
    destruct (fetchstr_from _ _ _ _ _) as [k|] eqn:E; [done|]. intros _. right.
    intros x Hx. eapply fetchstr_from_none; [exact E|lia|done].
Qed.
(** A process of 4096 bytes with stack pointer 100 and argument 0 the pointer
    200 to the string of two characters. *)
Definition u_small : uctx :=
  mkuctx (fun x => if decide (x = 104) then 200 else if decide (x = 200) then 97 else
                   if decide (x = 201) then 98 else 0) 4096 100.
Lemma args_in_bounds_witness :
  argptr u_small 0 50 = Some 200 /\ 200 + 50 <= usz u_small /\ argstr u_small 0 = Some (200, 2).
Proof.
  assert (E : argptr u_small 0 50 = Some 200) by (vm_compute; reflexivity).
  split; [exact E|]. split; [|vm_compute; reflexivity].
  apply (args_in_bounds u_small 0 50 200); [unfold user_size, KERNBASE; cbn; lia|unfold is_s32; lia|exact E].
Defined.
