(* ===== verification/Sysproc.v ===== *)
(** The process system calls (sysproc.c) on the process table of Proc.

    [User] is the memory of a process: what its page table maps, read by the
    argument functions of Syscall and written through user pointers.  A call
    that sleeps gives [None] and continues as the comment says. *)
From S2P Require Import Prelude Cstring Kalloc Spinlock Proc ProcFacts Syscall.

(** User memory under a page directory. *)
Class User (E : Type) := {
  uread : Z -> E -> mem;
  uwrite : Z -> Z -> list Z -> M E unit;
}.
(** A store through a mapped user pointer reads back. *)
Class UserLaws (E : Type) `{!User E} := {
  uwrite_law pd a bs e :
    wp (uwrite pd a bs) (fun _ e' => forall x, uread pd e' x = put_bytes (uread pd e) a bs x) e;
}.

(** findproc, a static function of sysproc.c. *)
Definition findproc (t : list proc) (n : Z) : option nat :=
  find_slot (fun p => bool_decide (pid p = n)) 0 t.

(** The number of an enum procstate. *)
Definition state_no (st : procstate) : Z :=
  match st with
  | UNUSED => 0 | EMBRYO => 1 | SLEEPING => 2 | RUNNABLE => 3 | RUNNING => 4 | ZOMBIE => 5
  end.
(** struct uproc as its bytes: pid, name[16], state; the assignments to the
    fields of [tmp], which keeps the bytes behind the name's NUL. *)
Definition UPROC : Z := 24.
Definition uproc_fill (p : proc) (tmp : list Z) : list Z :=
  let tmp := set32 tmp 0 (pid p) in
  let tmp := set32 tmp 20 (state_no (state p)) in
  splice tmp 4 (take 15 (name p) ++ [0]).

Section user.
Context {E : Type} `{!User E}.

(** What the argument functions see of the current process. *)
Definition ucurrent (c : nat) : K (E := E) uctx :=
  i ← curproc c;
  p ← getp i;
  m ← gets (fun s => uread (pgdir p) (env s));
  mret (mkuctx m (sz p) (tf_esp (tf p))).
(** [if(argint(n, &x) < 0) return -1; k x] *)
Definition or_fail {A} (o : option A) (k : A -> K (E := E) Z) : K Z :=
  match o with Some x => k x | None => mret (-1) end.

(** The loop of sys_getprocs over the slots [t], [i] entries written. *)
Fixpoint getprocs_loop (pd ubuf max : Z) (t : list proc) (tmp : list Z) (i : Z) : K (E := E) Z :=
  match t with
  | [] => mret i
  | p :: t =>
      if decide (i < max) then
        if decide (state p = UNUSED) then getprocs_loop pd ubuf max t tmp i else
        let tmp := uproc_fill p tmp in
        on_env (uwrite pd (u32 (ubuf + UPROC * i)) tmp);;
        getprocs_loop pd ubuf max t tmp (i + 1)
      else mret i
  end.
(** [tmp0] is what the kernel stack holds where [tmp] is placed. *)
Definition sys_getprocs (c : nat) (tmp0 : list Z) : K (E := E) Z :=
  u ← ucurrent c;
  or_fail (argint u 1) (fun max =>
  if decide (max <= 0) then mret (-1) else
  or_fail (argptr u 0 (s32 (max * UPROC))) (fun ubuf =>
  i ← curproc c;
  me ← getp i;
  on_lk (acquire c PTABLE_LOCK);;
  t ← gets ptable;
  n ← getprocs_loop (pgdir me) ubuf max t tmp0 0;
  on_lk (release c PTABLE_LOCK);;
  mret n)).

Definition sys_getpid (c : nat) : K (E := E) Z :=
  i ← curproc c;
  p ← getp i;
  mret (pid p).
Definition sys_kill (c : nat) : K (E := E) Z :=
  u ← ucurrent c;
  or_fail (argint u 0) (fun n => kill c n).
Definition sys_setpriority (c : nat) : K (E := E) Z :=
  u ← ucurrent c;
  or_fail (argint u 0) (fun n =>
  or_fail (argint u 1) (fun prio => setpriority c n prio)).
Definition sys_uptime (c : nat) : K (E := E) Z :=
  on_lk (acquire c TICKS_LOCK);;
  xticks ← gets ticks;
  on_lk (release c TICKS_LOCK);;
  mret (s32 xticks).

(** The loop of sys_sleep with tickslock held; the comparison is unsigned.
    After [None] the process continues with [sys_sleep_resume]. *)
Definition sys_sleep_loop (c : nat) (ticks0 n : Z) : K (E := E) (option Z) :=
  tk ← gets ticks;
  if decide (u32 (tk - ticks0) < u32 n) then
    i ← curproc c;
    p ← getp i;
    if killed p then on_lk (release c TICKS_LOCK);; mret (Some (-1)) else
    sleep c (Some (AddrChan TICKS_CHAN)) TICKS_LOCK (KSleep TICKS_LOCK);;
    mret None
  else on_lk (release c TICKS_LOCK);; mret (Some 0).
(** sleep() takes tickslock again before it returns. *)
Definition sys_sleep_resume (c : nat) (ticks0 n : Z) : K (E := E) (option Z) :=
  on_lk (acquire c TICKS_LOCK);; sys_sleep_loop c ticks0 n.
(** The tick count at the call, and the result. *)
Definition sys_sleep (c : nat) : K (E := E) (Z * option Z) :=
  u ← ucurrent c;
  match argint u 0 with
  | None => mret (0, Some (-1))
  | Some n =>
      on_lk (acquire c TICKS_LOCK);;
      ticks0 ← gets ticks;
      r ← sys_sleep_loop c ticks0 n;
      mret (ticks0, r)
  end.
End user.

Section kernel_calls.
Context {E : Type} `{!Kernel E, !User E}.
Definition sys_fork (c : nat) : K (E := E) Z := fork c.
Definition sys_exit (c : nat) : K (E := E) unit := exit c.
Definition sys_wait (c : nat) : K (E := E) (option Z) := wait c.
Definition sys_sbrk (c : nat) : K (E := E) Z :=
  u ← ucurrent c;
  or_fail (argint u 0) (fun n =>
  i ← curproc c;
  p ← getp i;
  r ← growproc c n;
  mret (if decide (r < 0) then -1 else s32 (sz p))).
(** struct pstat is five ints. *)
Definition PSTAT : Z := 20.
Definition sys_getstats (c : nat) : K (E := E) Z :=
  u ← ucurrent c;
  or_fail (argint u 0) (fun n =>
  or_fail (argptr u 1 PSTAT) (fun ptr => getstats c n ptr)).
End kernel_calls.

(** ** sys_getprocs *)

Definition used (t : list proc) : list proc := filter (fun p => state p <> UNUSED) t.
(** The bytes of a struct uproc that describes [p]. *)
Definition uproc_is (p : proc) (bs : list Z) : Prop :=
  get32 bs 0 = u32 (pid p) /\ get32 bs 20 = state_no (state p) /\
  slice bs 4 (S (length (take 15 (name p)))) = take 15 (name p) ++ [0].

Lemma uproc_fill_length p tmp : length tmp = 24%nat -> length (uproc_fill p tmp) = 24%nat.
Proof.
  intros Ht. unfold uproc_fill.
  assert (length (take 15 (name p)) <= 15)%nat by (rewrite length_take; lia).
  assert (H1 : length (set32 tmp 0 (pid p)) = 24%nat) by (rewrite set32_length; lia).
  assert (H2 : length (set32 (set32 tmp 0 (pid p)) 20 (state_no (state p))) = 24%nat) by (rewrite set32_length; lia).
  rewrite splice_length; [done|]. rewrite length_app, H2. simpl length. lia.
Qed.
Lemma uproc_fill_is p tmp : length tmp = 24%nat -> uproc_is p (uproc_fill p tmp).
Proof.
  intros Ht. unfold uproc_fill. set (nm := take 15 (name p) ++ [0]).
  assert (Hn : (length nm <= 16)%nat) by (unfold nm; rewrite length_app, length_take; simpl length; lia).
  assert (H1 : length (set32 tmp 0 (pid p)) = 24%nat) by (rewrite set32_length; lia).
  assert (H2 : length (set32 (set32 tmp 0 (pid p)) 20 (state_no (state p))) = 24%nat) by (rewrite set32_length; lia).
  split; [|split].
  - rewrite get32_splice_ne, get32_set32_ne, get32_set32 by lia. done.
  - rewrite get32_splice_ne, get32_set32 by lia. by destruct (state p).
  - replace (S (length (take 15 (name p)))) with (length nm) by (unfold nm; rewrite length_app; simpl length; lia).
    fold nm. apply slice_splice_same. rewrite H2. lia.
Qed.
Section getprocs.
Context {E : Type} `{!User E, !UserLaws E}.
Implicit Types (s : kst E).

Lemma wp_curproc c i s (Q : nat -> kst E -> Prop) :
  kready c s -> runs s c = Some i ->
  (forall l, kready c (s <| klk := l |>) -> runs (s <| klk := l |>) c = Some i -> Q i (s <| klk := l |>)) ->
  wp (curproc c) Q s.
Proof.
  intros Hr Hi HQ. pose proof Hr as [Hv Hw Hf]. unfold curproc. apply wp_bind. unfold wp. rewrite k_myproc by done.
  rewrite Hi. unfold cpu_of, runs, cpu_of in *. apply HQ.
  - split; simpl; unfold cpu_of; simpl; rewrite ?the_on_cpu by done; [by apply valid_on_cpu| |done].
    unfold noted. destruct (the_cpu (klk s) c). exact Hw.
  - unfold runs, cpu_of. simpl. by rewrite the_on_cpu.
Qed.

(** The entries from [i] on, and nothing else of the user's memory. *)
Record filled (pd ubuf i n : Z) (ps : list proc) (s s' : kst E) : Prop := {
  fl_state : s' = s <| env := env s' |>;
  fl_entry : forall k p, ps !! k = Some p -> i + Z.of_nat k < n ->
    uproc_is p (bytes_at (uread pd (env s')) (ubuf + UPROC * (i + Z.of_nat k)) 24);
  fl_frame : forall x, ~ (ubuf + UPROC * i <= x < ubuf + UPROC * n) ->
    uread pd (env s') x = uread pd (env s) x;
}.

Lemma getprocs_loop_spec pd ubuf max t : forall tmp i s,
  length tmp = 24%nat -> 0 <= ubuf ->
  ubuf + UPROC * Z.min max (i + Z.of_nat (length (used t))) < 2 ^ 32 -> 0 <= i <= max ->
  wp (getprocs_loop pd ubuf max t tmp i)
     (fun n s' => n = Z.min max (i + Z.of_nat (length (used t))) /\ filled pd ubuf i n (used t) s s') s.
Proof.
  induction t as [|p t IH]; intros tmp i s Ht Hu Hm Hi; cbn [getprocs_loop].
  { apply wp_ret. split; [simpl; lia|]. split; [by destruct s|done|done]. }
  destruct (decide (i < max)) as [Hl|Hl].
  2:{ apply wp_ret. split; [lia|]. split; [by destruct s| |done]. intros k q _ Hk. lia. }
  destruct (decide (state p = UNUSED)) as [Hs|Hs].
  { unfold used in *. rewrite (filter_cons_False _ p) in * by auto. by apply IH. }
  unfold used in *. rewrite (filter_cons_True _ p) in * by done. simpl length in *.
  apply wp_bind. unfold on_env. apply wp_zoom. eapply wp_mono; [apply uwrite_law|]. intros ? e' He.
  eapply wp_mono; [apply IH; [by apply uproc_fill_length|done|lia|lia]|]. intros n s' [-> [F1 F2 F3]].
  simpl env in *. split; [lia|].
  pose proof (uproc_fill_length p tmp Ht) as Hlen. unfold UPROC in *.
  rewrite u32_small in He by (unfold is_u32; lia). split.
  - rewrite F1. by destruct s.
  - unfold UPROC. intros [|k] q Hq Hk; simpl in Hq.
    + simplify_eq. rewrite (bytes_at_ext _ (uread pd e')).
      * replace (ubuf + 24 * (i + Z.of_nat 0)) with (ubuf + 24 * i) by lia.
        assert (Eb : bytes_at (uread pd e') (ubuf + 24 * i) 24 = uproc_fill q tmp).
        { pose proof (bytes_at_put (uread pd (env s)) (ubuf + 24 * i) (uproc_fill q tmp)) as Eb.
          rewrite Hlen in Eb. rewrite <- Eb. apply bytes_at_ext. auto. }
        rewrite Eb. by apply uproc_fill_is.
      * intros x Hx. apply F3. lia.
    + replace (ubuf + 24 * (i + Z.of_nat (S k))) with (ubuf + 24 * (i + 1 + Z.of_nat k)) by lia.
      apply F2; [done|lia].
  - unfold UPROC. intros x Hx. rewrite F3 by lia. rewrite He. unfold put_bytes. by rewrite decide_False by lia.
Qed.

(** The state the call sees: the arguments, and the lock free. *)
Definition uctx_of s (i : nat) : uctx :=
  let p := ptable s !!! i in mkuctx (uread (pgdir p) (env s)) (sz p) (tf_esp (tf p)).
Lemma wp_ucurrent c i s (Q : uctx -> kst E -> Prop) :
  kready c s -> runs s c = Some i ->
  (forall l, kready c (s <| klk := l |>) -> runs (s <| klk := l |>) c = Some i ->
             Q (uctx_of s i) (s <| klk := l |>)) ->
  wp (ucurrent c) Q s.
Proof.
  intros Hr Hi HQ. unfold ucurrent. apply wp_bind. apply (wp_curproc _ i); [done..|]. intros l Hr' Hi'.
  unfold getp. wp_run. apply HQ; done.
Qed.

Lemma sys_getprocs_run c i tmp0 max ubuf s (Q : Z -> kst E -> Prop) :
  kready c s -> runs s c = Some i -> argint (uctx_of s i) 1 = Some max -> 0 < max ->
  argptr (uctx_of s i) 0 (s32 (max * UPROC)) = Some ubuf ->
  (forall l, wp (getprocs_loop (pgdir (ptable s !!! i)) ubuf max (ptable s) tmp0 0)
     (fun n s' => s' = (s <| klk := l |>) <| env := env s' |> /\
                  forall l', Q n (s' <| klk := l' |>)) (s <| klk := l |>)) ->
  wp (sys_getprocs c tmp0) Q s.
Proof.
  intros Hr Hi Hm Hpos Hp HL. unfold sys_getprocs. apply wp_bind. apply (wp_ucurrent _ i); [done..|]. intros l Hr' Hi'.
  rewrite Hm. simpl or_fail. rewrite decide_False by lia. rewrite Hp. simpl or_fail.
  apply wp_bind. apply (wp_curproc _ i); [done..|]. intros l2 Hr2 Hi2. unfold getp. apply wp_bind, wp_gets.
  apply wp_bind. unfold wp at 1. rewrite k_acquire by done. apply wp_bind, wp_gets. apply wp_bind.
  eapply wp_mono; [exact (HL (lk_take c l2))|]. intros n s' [Es HQ].
  apply wp_bind. unfold wp at 1. rewrite k_release.
  - apply wp_ret. apply HQ.
  - pose proof (k_taken c _ Hr2) as [H1 H2 H3 H4]. rewrite Es. split; [exact H1|exact H2|exact H3|exact H4].
Qed.

(** Getprocs with a buffer whose size fits an int and lies in the process
    fills min(max, processes) entries, in slot order, each with the pid, the
    name truncated to a NUL-terminated 15 characters and the state of its
    process, returns their number, and changes no process and no other byte of
    the user's memory. *)
Theorem getprocs_correct c i tmp0 max ubuf s :
  kready c s -> runs s c = Some i -> length tmp0 = 24%nat ->
  user_size (uctx_of s i) -> argint (uctx_of s i) 1 = Some max -> 0 < max -> is_s32 (max * UPROC) ->
  argptr (uctx_of s i) 0 (s32 (max * UPROC)) = Some ubuf ->
  let pd := pgdir (ptable s !!! i) in
  wp (sys_getprocs c tmp0) (fun n s' =>
    n = Z.min max (Z.of_nat (length (used (ptable s)))) /\ ptable s' = ptable s /\
    (forall k p, used (ptable s) !! k = Some p -> Z.of_nat k < n ->
       uproc_is p (bytes_at (uread pd (env s')) (ubuf + UPROC * Z.of_nat k) 24)) /\
    (forall x, ~ (ubuf <= x < ubuf + UPROC * n) -> uread pd (env s') x = uread pd (env s) x)) s.
Proof.
  intros Hr Hi Ht Hu Hm Hpos Hfit Hp pd. eapply sys_getprocs_run; [done..|]. intros l.
  rewrite s32_small in Hp by done.
  assert (B : 0 <= ubuf /\ ubuf + max * UPROC <= KERNBASE).
  { apply argptr_range in Hp; [|done|done]. unfold user_size in Hu. lia. }
  unfold KERNBASE, UPROC in *.
  eapply wp_mono; [apply getprocs_loop_spec; [done|lia|unfold UPROC; lia|lia]|]. intros n s' [-> [F1 F2 F3]].
  split; [exact F1|]. intros l'. split; [lia|]. split; [by rewrite F1|]. split.
  - intros k p Hk Hn. exact (F2 k p Hk Hn).
  - intros x Hx. apply F3. unfold UPROC. lia.
Qed.

End getprocs.

(** One process, whose memory is the environment. *)
#[export] Instance flat_user : User mem := {
  uread := fun _ e => e;
  uwrite := fun _ a bs e => Ok (put_bytes e a bs, tt);
}.
#[export] Instance flat_user_laws : UserLaws mem.
Proof. split. intros. done. Defined.
(** The stack holds the two arguments of getprocs; slot 0 runs. *)
Definition sh_proc : proc :=
  proc_zero <| sz := 4096 |> <| state := RUNNING |> <| pid := 7 |> <| name := [115; 104] |>
            <| tf := tf_zero <| tf_esp := 100 |> |>.
Definition one_proc (ubuf max : Z) : kst mem :=
  mkkst (mklk [mkcpu true 0 false (Some 0%nat)] ∅) (sh_proc :: replicate 63 proc_zero) None 8 0 true
    (put_bytes (put_bytes (fun _ => 0) 104 (le_enc 4 ubuf)) 108 (le_enc 4 max)).
Lemma one_proc_ready ubuf max : kready 0 (one_proc ubuf max).
Proof. split; [unfold valid_cpu; simpl; lia|split; [cbn; lia|cbn; lia]|reflexivity]. Qed.

Lemma getprocs_correct_witness :
  wp (sys_getprocs 0 (replicate 24 0)) (fun n s' => n = 1 /\ uproc_is sh_proc (bytes_at (env s') 200 24))
     (one_proc 200 2).
Proof.
  eapply wp_mono.
  - apply (getprocs_correct 0 0 (replicate 24 0) 2 200 (one_proc 200 2)); [apply one_proc_ready|done|done| | |done| |].
    + unfold user_size, KERNBASE. cbn. lia.
    + vm_compute. reflexivity.
    + unfold is_s32, UPROC. lia.
    + vm_compute. reflexivity.
  - intros n s' (-> & _ & H & _). split; [reflexivity|]. exact (H 0%nat sh_proc eq_refl ltac:(vm_compute; reflexivity)).
Defined.
