(* ===== verification/File.v ===== *)
(** Open files (file.c) and the descriptors of processes.

    [sys] is what the file system calls of a process change: the file system
    with the count of transactions under way, the table of open files, the
    pipes by the address of their page, the page allocator, and of each process
    its descriptors, current directory and memory.  A [struct file *] is an
    index into the table.  Log models what begin_op and end_op do; here a
    transaction is granted at once and counted, and log_write outside of one
    stops the kernel, as the check at its start does. *)
From S2P Require Import Prelude Cstring Kalloc Sleeplock Fs Pipe Syscall.

Definition NFILE : nat := 100.
Definition NOFILE : nat := 16.
Definition MAXOPBLOCKS : Z := 10.

Inductive fdtype := FD_NONE | FD_PIPE | FD_INODE.
#[export] Instance fdtype_eq : EqDecision fdtype.
Proof. solve_decision. Defined.
Record file := mkfile {
  ftype : fdtype; fref : Z; readable : bool; writable : bool; fpipe : Z; fip : nat; foff : Z }.
#[export] Instance eta_file : Eta file := fun f =>
  mkfile (ftype f) (fref f) (readable f) (writable f) (fpipe f) (fip f) (foff f).
Definition file_zero : file := mkfile FD_NONE 0 false false 0 0 0.
#[export] Instance file_inhabited : Inhabited file := populate file_zero.

(** A process: [fblocked] is a pipewrite that sleeps: the pipe, the bytes
    still to write and the count to return. *)
Record fproc := mkfproc {
  fpid : Z; fkilled : bool; ofile : list (option nat); fcwd : nat; fuser : uctx;
  fblocked : option (Z * list Z * Z) }.
#[export] Instance eta_fproc : Eta fproc := fun p =>
  mkfproc (fpid p) (fkilled p) (ofile p) (fcwd p) (fuser p) (fblocked p).
#[export] Instance fproc_inhabited : Inhabited fproc :=
  populate (mkfproc 0 false [] 0 (mkuctx (fun _ => 0) 0 0) None).
#[export] Instance eta_uctx : Eta uctx := fun u => mkuctx (umem u) (usz u) (uesp u).

Record sys := mksys {
  fsys : fs; ops : Z; ftable : list file; pipes : gmap Z pipe; kpages : kmem; procs : list fproc }.
#[export] Instance eta_sys : Eta sys := fun s =>
  mksys (fsys s) (ops s) (ftable s) (pipes s) (kpages s) (procs s).

Definition getf (f : nat) : M sys file := gets (fun s => ftable s !!! f).
Definition setf (f : nat) (g : file -> file) : M sys unit := modify (fun s => s <| ftable ::= alter g f |>).

(** Calls of fs.c. *)
Definition onfs {A} (m : M fs A) : M sys A := fun s =>
  match m (fsys s) with
  | Ok (t, a) => if decide (ops s < 1 /\ logged t <> logged (fsys s))
                 then Panic "log_write outside of trans" else Ok (s <| fsys := t |>, a)
  | Panic e => Panic e
  | Sleeps c => Sleeps c
  end.
Definition begin_op : M sys unit := modify (fun s => s <| ops ::= Z.add 1 |>).
(** The last end_op commits what was logged. *)
Definition end_op : M sys unit :=
  modify (fun s => s <| ops ::= Z.add (-1) |>);;
  n ← gets ops;
  if decide (n = 0) then modify (fun s => s <| fsys := (fsys s) <| logged := [] |> |>) else mret tt.

Definition filealloc : M sys (option nat) :=
  l ← gets ftable;
  match list_find (fun f => fref f = 0) l with
  | Some (f, _) => setf f (fun x => x <| fref := 1 |>);; mret (Some f)
  | None => mret None
  end.
Definition filedup (f : nat) : M sys nat :=
  x ← getf f;
  if decide (fref x < 1) then panic "filedup" else
  setf f (fun x => x <| fref := s32 (fref x + 1) |>);; mret f.

Section files.
(** The process that runs, the end of the kernel's own memory, and the device
    functions. *)
Context (me : nat) (kend : Z).
Context (devread : Z -> option (nat -> Z -> M fs (Z * list Z))).
Context (devwrite : Z -> option (nat -> list Z -> M fs Z)).

Definition getp : M sys fproc := gets (fun s => procs s !!! me).
Definition setp (g : fproc -> fproc) : M sys unit := modify (fun s => s <| procs ::= alter g me |>).
Definition onkm {A} (m : M kmem A) : M sys A := zoom kpages (fun t s => s <| kpages := t |>) m.

(** A pipe whose page was freed is not there to be used. *)
Definition get_pipe (a : Z) : M sys pipe :=
  r ← gets (fun s => pipes s !! a);
  match r with Some p => mret p | None => panic "use of a freed pipe" end.
Definition put_pipe (a : Z) (p : pipe) : M sys unit := modify (fun s => s <| pipes ::= insert a p |>).
Definition close_pipe (a : Z) (w : bool) : M sys unit :=
  p ← get_pipe a;
  let r := pipeclose p w in
  if r.2 : bool then modify (fun s => s <| pipes ::= delete a |>);; onkm (kfree kend a)
  else put_pipe a r.1.1.

Definition fileclose (f : nat) : M sys unit :=
  ff ← getf f;
  if decide (fref ff < 1) then panic "fileclose" else
  if decide (fref ff - 1 > 0) then setf f (fun x => x <| fref := fref x - 1 |>) else
  setf f (fun x => x <| fref := 0 |> <| ftype := FD_NONE |>);;
  match ftype ff with
  | FD_PIPE => close_pipe (fpipe ff) (writable ff)
  | FD_INODE => p ← getp; begin_op;; onfs (iput (fpid p) (fip ff));; end_op
  | FD_NONE => mret tt
  end.

Definition filestat (f : nat) : M sys (option stat) :=
  x ← getf f;
  match ftype x with
  | FD_INODE =>
      p ← getp;
      onfs (ilock (fpid p) (fip x));;
      st ← onfs (stati (fip x));
      onfs (iunlock (fpid p) (fip x));;
      mret (Some st)
  | _ => mret None
  end.

(** piperead on a pipe; asleep, the call starts over when woken. *)
Definition read_pipe (a : Z) (n : Z) : M sys (Z * list Z) :=
  p ← getp;
  pp ← get_pipe a;
  match piperead (fkilled p) pp (Z.to_nat n) with
  | (pp', _, RReturns bs) => put_pipe a pp';; mret (Z.of_nat (length bs), bs)
  | (_, _, RFails) => mret (-1, [])
  | (_, _, RSleeps) => sleeps "pipe"
  end.
(** The count and the bytes read. *)
Definition fileread (f : nat) (n : Z) : M sys (Z * list Z) :=
  x ← getf f;
  if negb (readable x) then mret (-1, []) else
  match ftype x with
  | FD_PIPE => read_pipe (fpipe x) n
  | FD_INODE =>
      p ← getp;
      onfs (ilock (fpid p) (fip x));;
      r ← onfs (readi devread (fip x) (foff x) n);
      (if decide (r.1 > 0) then setf f (fun x => x <| foff := u32 (foff x + r.1) |>) else mret tt);;
      onfs (iunlock (fpid p) (fip x));;
      mret r
  | FD_NONE => panic "fileread"
  end.

(** pipewrite on a pipe, from its start or after a sleep; [None] when it went
    to sleep. *)
Definition write_pipe (a : Z) (src : list Z) (n : Z) : M sys (option Z) :=
  p ← getp;
  pp ← get_pipe a;
  match pipewrite (fkilled p) pp src with
  | (pp', _, WReturns) => put_pipe a pp';; setp (fun p => p <| fblocked := None |>);; mret (Some n)
  | (pp', _, WFails _) => put_pipe a pp';; setp (fun p => p <| fblocked := None |>);; mret (Some (-1))
  | (pp', _, WSleeps rest) => put_pipe a pp';; setp (fun p => p <| fblocked := Some (a, rest, n) |>);; mret None
  end.
(** The loop of filewrite over chunks of a file. *)
Definition wmax : nat := Z.to_nat ((MAXOPBLOCKS - 1 - 1 - 2) / 2 * 512).
Fixpoint filewrite_loop (fuel : nat) (f ip : nat) (src : list Z) (i : Z) : M sys Z :=
  match fuel with
  | O => mret i
  | S fuel =>
      match src with
      | [] => mret i
      | _ =>
          let chunk := take wmax src in
          p ← getp;
          begin_op;;
          onfs (ilock (fpid p) ip);;
          x ← getf f;
          r ← onfs (writei devwrite ip chunk (foff x));
          (if decide (r > 0) then setf f (fun x => x <| foff := u32 (foff x + r) |>) else mret tt);;
          onfs (iunlock (fpid p) ip);;
          end_op;;
          if decide (r < 0) then mret i else
          if decide (r <> Z.of_nat (length chunk)) then panic "short filewrite" else
          filewrite_loop fuel f ip (drop wmax src) (i + r)
      end
  end.
Definition filewrite (f : nat) (src : list Z) : M sys (option Z) :=
  let n := Z.of_nat (length src) in
  x ← getf f;
  if negb (writable x) then mret (Some (-1)) else
  match ftype x with
  | FD_PIPE => write_pipe (fpipe x) src n
  | FD_INODE =>
      i ← filewrite_loop (S (length src / wmax)) f (fip x) src 0;
      mret (Some (if decide (i = n) then n else -1))
  | FD_NONE => panic "filewrite"
  end.

(** ** pipealloc of pipe.c *)

(** The buffer of a struct pipe follows its spin lock of 52 bytes. *)
Definition PIPE_DATA : Z := 52.
Definition pipealloc : M sys (option (nat * nat)) :=
  f0 ← filealloc;
  match f0 with
  | None => mret None
  | Some r =>
      f1 ← filealloc;
      match f1 with
      | None => fileclose r;; mret None
      | Some w =>
          a ← onkm kalloc;
          if decide (a = 0) then fileclose r;; fileclose w;; mret None else
          m ← gets (fun s => pm (kpages s));
          put_pipe a (pipe_new (bytes_at m (a + PIPE_DATA) PIPESIZE));;
          setf r (fun x => x <| ftype := FD_PIPE |> <| readable := true |> <| writable := false |> <| fpipe := a |>);;
          setf w (fun x => x <| ftype := FD_PIPE |> <| readable := false |> <| writable := true |> <| fpipe := a |>);;
          mret (Some (r, w))
      end
  end.
End files.
