(* ===== verification/Sysfile.v ===== *)
(** The file system calls (sysfile.c) of process [me]. *)
From S2P Require Import Prelude Cstring Kalloc Sleeplock Fs Pipe Syscall File.

(** "." and ".." *)
Definition DOT : list Z := [46].
Definition DOTDOT : list Z := [46; 46].

(** struct stat in memory: the fields stati assigns; the padding stays. *)
Definition STAT : Z := 20.
Definition put_stat (m : mem) (a : Z) (st : stat) : mem :=
  let m := put_bytes m (a + 4) (le_enc 4 (st_dev st)) in
  let m := put_bytes m (a + 8) (le_enc 4 (st_ino st)) in
  let m := put_bytes m a (le_enc 2 (st_type st)) in
  let m := put_bytes m (a + 12) (le_enc 2 (st_nlink st)) in
  put_bytes m (a + 16) (le_enc 4 (st_size st)).

Section sysfile.
Context (me : nat) (kend : Z).
Context (devread : Z -> option (nat -> Z -> M fs (Z * list Z))).
Context (devwrite : Z -> option (nat -> list Z -> M fs Z)).
Abbreviation getp := (getp me).
Abbreviation setp := (setp me).
Abbreviation fileclose := (fileclose me kend).

(** [if(x < 0) return -1; k x] *)
Definition try {A B} (fail : B) (o : option A) (k : A -> M sys B) : M sys B :=
  match o with Some x => k x | None => mret fail end.
Abbreviation try' := (try (-1)).
Definition store_user (a : Z) (bs : list Z) : M sys unit :=
  setp (fun p => p <| fuser := (fuser p) <| umem := put_bytes (umem (fuser p)) a bs |> |>).
(** A path argument: its characters. *)
Definition argpath (u : uctx) (n : Z) : option (list Z) :=
  r ← argstr u n;
  Some (bytes_at (umem u) r.1 (Z.to_nat r.2)).

Definition argfd (p : fproc) (n : Z) : option (nat * nat) :=
  fd ← argint (fuser p) n;
  if decide (fd < 0 \/ fd >= Z.of_nat NOFILE) then None else
  f ← mjoin (ofile p !! Z.to_nat fd);
  Some (Z.to_nat fd, f).
Definition fdalloc (f : nat) : M sys (option nat) :=
  p ← getp;
  match list_find (fun o => o = None) (take NOFILE (ofile p)) with
  | Some (fd, _) => setp (fun p => p <| ofile ::= insert fd (Some f) |>);; mret (Some fd)
  | None => mret None
  end.

Definition sys_dup : M sys Z :=
  p ← getp;
  try' (argfd p 0) (fun r =>
  fd ← fdalloc r.2;
  try' fd (fun fd => filedup r.2;; mret (Z.of_nat fd))).

Definition sys_read : M sys Z :=
  p ← getp;
  try' (argfd p 0) (fun r =>
  try' (argint (fuser p) 2) (fun n =>
  try' (argptr (fuser p) 1 n) (fun a =>
  got ← fileread me devread r.2 n;
  store_user a got.2;;
  mret got.1))).
(** [None]: asleep in pipewrite; [sys_write_resume] goes on. *)
Definition sys_write : M sys (option Z) :=
  p ← getp;
  try (Some (-1)) (argfd p 0) (fun r =>
  try (Some (-1)) (argint (fuser p) 2) (fun n =>
  try (Some (-1)) (argptr (fuser p) 1 n) (fun a =>
  filewrite me devwrite r.2 (bytes_at (umem (fuser p)) a (Z.to_nat n))))).
Definition sys_write_resume : M sys (option Z) :=
  p ← getp;
  match fblocked p with
  | Some (a, rest, n) => write_pipe me a rest n
  | None => mret (Some (-1))
  end.

Definition sys_close : M sys Z :=
  p ← getp;
  try' (argfd p 0) (fun r =>
  setp (fun p => p <| ofile ::= insert r.1 None |>);;
  fileclose r.2;;
  mret 0).

Definition sys_fstat : M sys Z :=
  p ← getp;
  try' (argfd p 0) (fun r =>
  try' (argptr (fuser p) 1 STAT) (fun a =>
  st ← filestat me r.2;
  try' st (fun st =>
  setp (fun p => p <| fuser := (fuser p) <| umem := put_stat (umem (fuser p)) a st |> |>);;
  mret 0))).

Definition sys_link : M sys Z :=
  p ← getp;
  try' (argpath (fuser p) 0) (fun old =>
  try' (argpath (fuser p) 1) (fun new =>
  begin_op;;
  r ← onfs (namei (fpid p) (fcwd p) devread old);
  match r with
  | None => end_op;; mret (-1)
  | Some ip =>
      onfs (ilock (fpid p) ip);;
      i ← onfs (geti ip);
      if decide (itype i = T_DIR) then onfs (iunlockput (fpid p) ip);; end_op;; mret (-1) else
      onfs (seti ip (fun i => i <| inlink := s16 (inlink i + 1) |>));;
      onfs (iupdate ip);;
      onfs (iunlock (fpid p) ip);;
      let bad :=
        onfs (ilock (fpid p) ip);;
        onfs (seti ip (fun i => i <| inlink := s16 (inlink i - 1) |>));;
        onfs (iupdate ip);;
        onfs (iunlockput (fpid p) ip);;
        end_op;;
        mret (-1) in
      r ← onfs (nameiparent (fpid p) (fcwd p) devread new);
      match r with
      | None => bad
      | Some (dp, name) =>
          onfs (ilock (fpid p) dp);;
          d ← onfs (geti dp);
          i ← onfs (geti ip);
          w ← (if decide (idev d <> idev i) then mret (-1)
               else onfs (dirlink (fpid p) devread devwrite dp name (inum i)));
          if decide (w < 0) then onfs (iunlockput (fpid p) dp);; bad else
          onfs (iunlockput (fpid p) dp);;
          onfs (iput (fpid p) ip);;
          end_op;;
          mret 0
      end
  end)).

(** isdirempty's loop from [off]. *)
Fixpoint isdirempty_from (fuel : nat) (dp : nat) (off : Z) : M fs bool :=
  match fuel with
  | O => mret true
  | S fuel =>
      d ← geti dp;
      if decide (off < isize d) then
        r ← readi devread dp off DIRENT;
        if decide (r.1 <> DIRENT) then panic "isdirempty: readi" else
        if decide (de_inum r.2 <> 0) then mret false else isdirempty_from fuel dp (off + DIRENT)
      else mret true
  end.
Definition isdirempty (dp : nat) : M fs bool :=
  d ← geti dp;
  isdirempty_from (S (Z.to_nat (isize d / DIRENT))) dp (2 * DIRENT).

Definition sys_unlink : M sys Z :=
  p ← getp;
  try' (argpath (fuser p) 0) (fun path =>
  begin_op;;
  r ← onfs (nameiparent (fpid p) (fcwd p) devread path);
  match r with
  | None => end_op;; mret (-1)
  | Some (dp, name) =>
      onfs (ilock (fpid p) dp);;
      let bad := onfs (iunlockput (fpid p) dp);; end_op;; mret (-1) in
      if decide (namecmp name DOT = 0 \/ namecmp name DOTDOT = 0) then bad else
      r ← onfs (dirlookup devread dp name);
      match r with
      | None => bad
      | Some (ip, off) =>
          onfs (ilock (fpid p) ip);;
          i ← onfs (geti ip);
          if decide (inlink i < 1) then panic "unlink: nlink < 1" else
          e ← (if decide (itype i = T_DIR) then onfs (isdirempty ip) else mret true);
          if negb e then onfs (iunlockput (fpid p) ip);; bad else
          w ← onfs (writei devwrite dp (replicate (Z.to_nat DIRENT) 0) off);
          if decide (w <> DIRENT) then panic "unlink: writei" else
          i ← onfs (geti ip);
          (if decide (itype i = T_DIR) then
             onfs (seti dp (fun d => d <| inlink := s16 (inlink d - 1) |>));; onfs (iupdate dp)
           else mret tt);;
          onfs (iunlockput (fpid p) dp);;
          onfs (seti ip (fun i => i <| inlink := s16 (inlink i - 1) |>));;
          onfs (iupdate ip);;
          onfs (iunlockput (fpid p) ip);;
          end_op;;
          mret 0
      end
  end).

(** create: the locked inode. *)
Definition create (p : fproc) (path : list Z) (type major minor : Z) : M fs (option nat) :=
  r ← nameiparent (fpid p) (fcwd p) devread path;
  match r with
  | None => mret None
  | Some (dp, name) =>
      ilock (fpid p) dp;;
      r ← dirlookup devread dp name;
      match r with
      | Some (ip, _) =>
          iunlockput (fpid p) dp;;
          ilock (fpid p) ip;;
          i ← geti ip;
          if decide (type = T_FILE /\ itype i = T_FILE) then mret (Some ip) else
          iunlockput (fpid p) ip;; mret None
      | None =>
          d ← geti dp;
          ip ← ialloc (idev d) type;
          ilock (fpid p) ip;;
          seti ip (fun i => i <| imajor := s16 major |> <| iminor := s16 minor |> <| inlink := 1 |>);;
          iupdate ip;;
          i ← geti ip;
          (if decide (type = T_DIR) then
             seti dp (fun d => d <| inlink := s16 (inlink d + 1) |>);;
             iupdate dp;;
             r1 ← dirlink (fpid p) devread devwrite ip DOT (inum i);
             if decide (r1 < 0) then panic "create dots" else
             d ← geti dp;
             r2 ← dirlink (fpid p) devread devwrite ip DOTDOT (inum d);
             if decide (r2 < 0) then panic "create dots" else mret tt
           else mret tt);;
          r3 ← dirlink (fpid p) devread devwrite dp name (inum i);
          if decide (r3 < 0) then panic "create: dirlink" else
          iunlockput (fpid p) dp;;
          mret (Some ip)
      end
  end.

(** The end of sys_open, with the inode locked. *)
Definition open_file (p : fproc) (ip : nat) (omode : Z) : M sys Z :=
  f ← filealloc;
  fd ← (match f with Some f => fdalloc f | None => mret None end);
  match f, fd with
  | Some f, Some fd =>
      onfs (iunlock (fpid p) ip);;
      end_op;;
      setf f (fun x => x <| ftype := FD_INODE |> <| fip := ip |> <| foff := 0 |>
        <| readable := bool_decide (Z.land omode O_WRONLY = 0) |>
        <| writable := bool_decide (Z.land omode O_WRONLY <> 0 \/ Z.land omode O_RDWR <> 0) |>);;
      mret (Z.of_nat fd)
  | _, _ =>
      (match f with Some f => fileclose f | None => mret tt end);;
      onfs (iunlockput (fpid p) ip);;
      end_op;;
      mret (-1)
  end.
Definition sys_open : M sys Z :=
  p ← getp;
  try' (argpath (fuser p) 0) (fun path =>
  try' (argint (fuser p) 1) (fun omode =>
  begin_op;;
  if decide (Z.land omode O_CREATE <> 0) then
    r ← onfs (create p path T_FILE 0 0);
    match r with
    | None => end_op;; mret (-1)
    | Some ip => open_file p ip omode
    end
  else
    r ← onfs (namei (fpid p) (fcwd p) devread path);
    match r with
    | None => end_op;; mret (-1)
    | Some ip =>
        onfs (ilock (fpid p) ip);;
        i ← onfs (geti ip);
        if decide (itype i = T_DIR /\ omode <> O_RDONLY) then
          onfs (iunlockput (fpid p) ip);; end_op;; mret (-1)
        else open_file p ip omode
    end)).

(** The common end of mkdir and mknod: [mk] is the call of create, with the
    argument checks before it. *)
Definition made (p : fproc) (mk : option (M fs (option nat))) : M sys Z :=
  begin_op;;
  r ← (match mk with Some m => onfs m | None => mret None end);
  match r with
  | None => end_op;; mret (-1)
  | Some ip => onfs (iunlockput (fpid p) ip);; end_op;; mret 0
  end.
Definition sys_mkdir : M sys Z :=
  p ← getp;
  made p (path ← argpath (fuser p) 0; Some (create p path T_DIR 0 0)).
Definition sys_mknod : M sys Z :=
  p ← getp;
  made p (path ← argpath (fuser p) 0;
          major ← argint (fuser p) 1;
          minor ← argint (fuser p) 2;
          Some (create p path T_DEV major minor)).

Definition sys_chdir : M sys Z :=
  p ← getp;
  begin_op;;
  r ← (match argpath (fuser p) 0 with
       | Some path => onfs (namei (fpid p) (fcwd p) devread path)
       | None => mret None
       end);
  match r with
  | None => end_op;; mret (-1)
  | Some ip =>
      onfs (ilock (fpid p) ip);;
      i ← onfs (geti ip);
      if decide (itype i <> T_DIR) then onfs (iunlockput (fpid p) ip);; end_op;; mret (-1) else
      onfs (iunlock (fpid p) ip);;
      onfs (iput (fpid p) (fcwd p));;
      end_op;;
      setp (fun p => p <| fcwd := ip |>);;
      mret 0
  end.

Definition sys_pipe : M sys Z :=
  p ← getp;
  try' (argptr (fuser p) 0 8) (fun a =>
  r ← pipealloc me kend;
  try' r (fun '(rf, wf) =>
  fd0 ← fdalloc rf;
  fd1 ← (match fd0 with Some _ => fdalloc wf | None => mret None end);
  match fd0, fd1 with
  | Some fd0, Some fd1 =>
      store_user a (le_enc 4 (Z.of_nat fd0));;
      store_user (a + 4) (le_enc 4 (Z.of_nat fd1));;
      mret 0
  | _, _ =>
      (match fd0 with
       | Some fd0 => setp (fun p => p <| ofile ::= insert fd0 None |>)
       | None => mret tt
       end);;
      fileclose rf;;
      fileclose wf;;
      mret (-1)
  end)).

(** What fork (proc.c) does with descriptors and directory for the new process
    in slot [np], and exit for its own. *)
Definition fork_files (np : nat) : M sys unit :=
  p ← getp;
  mfor (seq 0 NOFILE) (fun i =>
    match mjoin (ofile p !! i) with
    | None => mret tt
    | Some f => f' ← filedup f; File.setp np (fun q => q <| ofile ::= insert i (Some f') |>)
    end);;
  w ← onfs (idup (fcwd p));
  File.setp np (fun q => q <| fcwd := w |> <| fuser := fuser p |>).
Definition exit_files : M sys unit :=
  mfor (seq 0 NOFILE) (fun fd =>
    p ← getp;
    match mjoin (ofile p !! fd) with
    | None => mret tt
    | Some f => fileclose f;; setp (fun p => p <| ofile ::= insert fd None |>)
    end);;
  begin_op;;
  p ← getp;
  onfs (iput (fpid p) (fcwd p));;
  end_op.
End sysfile.
