(* ===== verification/FileFacts.v ===== *)
(** Descriptors, open files and pipes under the file system calls.

    [inv] is the invariant between the statements of a call: the reference
    count of every open file is the number of descriptors that name it plus
    the references the call holds ([d]); an open file other than those just
    allocated ([fresh]) has a type; every end of a pipe that is open belongs to
    exactly one open file, and every pipe in use has such a file and a page of
    its own.  [safe] runs a call and checks that it ends in none of the panics
    that would show a broken count, a freed pipe or a log_write outside of a
    transaction. *)
From S2P Require Import Prelude Cstring Kalloc Sleeplock Fs Pipe Syscall File Sysfile.

Definition TRANS : string := "log_write outside of trans".
Definition misuse : list string :=
  ["filedup"; "fileclose"; "fileread"; "filewrite"; "use of a freed pipe"; "kfree"].

(** The panics of vm.c, which no file operation ends in. *)
Definition vm_panics : list string :=
  ["kfree"; "remap"; "freevm: no pgdir"; "PHYSTOP too high"; "loaduvm: addr must be page aligned";
   "loaduvm: address should exist"; "clearpteu"; "switchuvm: no kstack"; "switchuvm: no pgdir"].

(** ** Runs that avoid a panic *)

Section safe.
Context {S : Type} (B : list string).
Definition safe {A} (m : M S A) (Q : A -> S -> Prop) (s : S) : Prop :=
  match m s with Ok (s', a) => Q a s' | Panic e => ~ (e ∈ B) | Sleeps _ => True end.
Lemma safe_bind {A C} (m : M S A) (f : A -> M S C) Q s :
  safe m (fun a s' => safe (f a) Q s') s -> safe (mbind f m) Q s.
Proof. unfold safe, mbind, M_bind. by destruct (m s) as [[]| |]. Qed.
Lemma safe_ret {A} (a : A) (Q : A -> S -> Prop) s : Q a s -> safe (mret a) Q s.
Proof. done. Qed.
Lemma safe_gets {A} (f : S -> A) (Q : A -> S -> Prop) s : Q (f s) s -> safe (gets f) Q s.
Proof. done. Qed.
Lemma safe_modify f (Q : unit -> S -> Prop) s : Q tt (f s) -> safe (modify f) Q s.
Proof. done. Qed.
Lemma safe_sleeps {A} c (Q : A -> S -> Prop) s : safe (sleeps c) Q s.
Proof. done. Qed.
Lemma safe_mono {A} (m : M S A) (Q R : A -> S -> Prop) s :
  safe m Q s -> (forall a s', Q a s' -> R a s') -> safe m R s.
Proof. unfold safe. destruct (m s) as [[]| |]; auto. Qed.
Lemma safe_mfor {A} (l : list A) (body : A -> M S unit) (I : S -> Prop) (Q : unit -> S -> Prop) s :
  I s -> (forall x s', x ∈ l -> I s' -> safe (body x) (fun _ => I) s') ->
  (forall s', I s' -> Q tt s') -> safe (mfor l body) Q s.
Proof.
  intros HI Hstep HQ. revert s HI Hstep.
  induction l as [|x l IH]; intros s HI Hstep; simpl; [by apply safe_ret, HQ|].
  apply safe_bind. eapply safe_mono; [apply Hstep; [left|done]|].
  intros ? s' Hs'. apply IH; [done|]. intros. apply Hstep; [by right|done].
Qed.
(** [m] ends in none of the panics, whatever the state. *)
Definition clean {A} (m : M S A) : Prop := forall s, match m s with Panic e => ~ (e ∈ B) | _ => True end.
Lemma clean_bind {A C} (m : M S A) (f : A -> M S C) : clean m -> (forall a, clean (f a)) -> clean (mbind f m).
Proof. intros Hm Hf s. specialize (Hm s). unfold mbind, M_bind. destruct (m s) as [[s' a]| |]; [apply Hf|done|done]. Qed.
Lemma clean_ret {A} (a : A) : clean (mret a).
Proof. done. Qed.
Lemma clean_gets {A} (f : S -> A) : clean (gets f).
Proof. done. Qed.
Lemma clean_modify f : clean (modify f).
Proof. done. Qed.
Lemma clean_sleeps {A} c : clean (sleeps (A := A) c).
Proof. done. Qed.
Lemma clean_mfor {A} (l : list A) (body : A -> M S unit) : (forall x, clean (body x)) -> clean (mfor l body).
Proof. intros H. induction l; simpl; [apply clean_ret|]. apply clean_bind; auto. Qed.
End safe.
Lemma clean_panic {S A} B e : bool_decide (e ∈ B) = false -> clean B (panic (S := S) (A := A) e).
Proof. intros H s. by apply bool_decide_eq_false in H. Qed.

Definition panics : list string := TRANS :: misuse ++ vm_panics.
Create HintDb clean discriminated.
#[export] Hint Resolve clean_bind clean_ret clean_gets clean_modify clean_sleeps clean_mfor : clean.
#[export] Hint Extern 1 (clean _ (panic _)) => apply clean_panic; vm_compute; reflexivity : clean.
Ltac clean_step :=
  match goal with
  | |- clean _ (mbind _ _) => apply clean_bind; [|intros ?]
  | |- clean _ (mfor _ _) => apply clean_mfor; intros ?
  | |- clean _ (if ?b then _ else _) => destruct b
  | |- clean _ (match ?x with _ => _ end) => destruct x
  | |- clean _ (let _ := _ in _) => intros ?; cbv beta iota zeta
  | |- clean _ _ => solve [auto with clean]
  end.
Ltac clean := repeat (cbv beta iota zeta; clean_step).

(** ** The file system *)

Section fs_clean.
Context (devread : Z -> option (nat -> Z -> M fs (Z * list Z))).
Context (devwrite : Z -> option (nat -> list Z -> M fs Z)).
Hypothesis dr_clean : forall n rd i k, devread n = Some rd -> clean panics (rd i k).
Hypothesis dw_clean : forall n wr i l, devwrite n = Some wr -> clean panics (wr i l).
Abbreviation clean := (clean panics).

Lemma c_bread dev n : clean (bread dev n).
Proof. unfold bread. clean. Qed.
Lemma c_log n d : clean (log_write n d).
Proof. unfold log_write. clean. Qed.
Lemma c_geti i : clean (geti i).
Proof. unfold geti. clean. Qed.
Lemma c_seti i f : clean (seti i f).
Proof. unfold seti. clean. Qed.
Local Hint Resolve c_bread c_log c_geti c_seti : clean.
Lemma c_balloc dev : clean (balloc dev).
Proof.
  unfold balloc. apply clean_bind; [clean|]. intros s. generalize (S (Z.to_nat (sb_size s / BPB))) 0. intros fuel.
  induction fuel; intros b; cbn [balloc_from]; [clean|]. unfold bzero. clean.
Qed.
Lemma c_bfree dev b : clean (bfree dev b).
Proof. unfold bfree. clean. Qed.
Lemma c_iget dev n : clean (iget dev n).
Proof. unfold iget. clean. Qed.
Local Hint Resolve c_balloc c_bfree c_iget : clean.
Lemma c_ialloc dev ty : clean (ialloc dev ty).
Proof.
  unfold ialloc. apply clean_bind; [clean|]. intros s. generalize (Z.to_nat (sb_ninodes s)) 1. intros fuel.
  induction fuel; intros b; cbn [ialloc_from]; [clean|]. clean.
Qed.
Lemma c_iupdate i : clean (iupdate i).
Proof. unfold iupdate. clean. Qed.
Lemma c_lock me i : clean (lock_inode me i).
Proof. unfold lock_inode. clean. Qed.
Lemma c_unlock i : clean (unlock_inode i).
Proof. unfold unlock_inode. clean. Qed.
Local Hint Resolve c_ialloc c_iupdate c_lock c_unlock : clean.
Lemma c_ilock me i : clean (ilock me i).
Proof. unfold ilock. clean. Qed.
Lemma c_iunlock me i : clean (iunlock me i).
Proof. unfold iunlock. clean. Qed.
Lemma c_bmap i bn : clean (bmap i bn).
Proof. unfold bmap. clean. Qed.
Lemma c_itrunc i : clean (itrunc i).
Proof. unfold itrunc. clean. Qed.
Local Hint Resolve c_ilock c_iunlock c_bmap c_itrunc : clean.
Lemma c_iput me i : clean (iput me i).
Proof. unfold iput. clean. Qed.
Local Hint Resolve c_iput : clean.
Lemma c_iunlockput me i : clean (iunlockput me i).
Proof. unfold iunlockput. clean. Qed.
Lemma c_stati i : clean (stati i).
Proof. unfold stati. clean. Qed.
Lemma c_idup i : clean (idup i).
Proof. unfold idup. clean. Qed.
Lemma c_readi i off n : clean (readi devread i off n).
Proof.
  unfold readi. apply clean_bind; [clean|]. intros ip. case_decide.
  - destruct (if decide _ then _ else _) as [rd|] eqn:E; [|clean]. case_decide; [done|]. by eapply dr_clean.
  - case_decide; [clean|]. cbv zeta. apply clean_bind; [|intros; clean]. clear.
    generalize (if decide (off + n > isize ip) then isize ip - off else n). intros k.
    generalize (turns k). intros fuel. revert off k. induction fuel; intros off k; cbn [readi_loop]; [clean|]. clean.
Qed.
Lemma c_writei i src off : clean (writei devwrite i src off).
Proof.
  unfold writei. cbv zeta. apply clean_bind; [clean|]. intros ip. case_decide.
  - destruct (if decide _ then _ else _) as [wr|] eqn:E; [|clean]. case_decide; [done|]. by eapply dw_clean.
  - case_decide; [clean|]. case_decide; [clean|]. apply clean_bind; [|intros; clean]. clear.
    generalize (turns (Z.of_nat (length src))). intros fuel. revert src off.
    induction fuel; intros src off; cbn [writei_loop]; [clean|]. destruct src; [clean|]. clean.
Qed.
Local Hint Resolve c_iunlockput c_stati c_idup c_readi c_writei : clean.
Lemma c_dirlookup dp name : clean (dirlookup devread dp name).
Proof.
  unfold dirlookup. apply clean_bind; [clean|]. intros d. case_decide; [clean|].
  generalize (S (Z.to_nat (isize d / DIRENT))) 0. intros fuel.
  induction fuel; intros off; cbn [dirlookup_from]; clean.
Qed.
Lemma c_dirlink_slot fuel dp : forall off, clean (dirlink_slot devread fuel dp off).
Proof. induction fuel; intros off; cbn [dirlink_slot]; clean. Qed.
Local Hint Resolve c_dirlookup c_dirlink_slot : clean.
Lemma c_dirlink me dp name n : clean (dirlink me devread devwrite dp name n).
Proof. unfold dirlink. clean. Qed.
Lemma c_namex me cwd path b : clean (namex me cwd devread path b).
Proof.
  unfold namex. apply clean_bind; [clean|]. intros ip.
  generalize (S (length path)) ([] : list Z). intros fuel. revert ip path.
  induction fuel; intros ip path nm; cbn [namex_loop]; clean.
Qed.
Local Hint Resolve c_dirlink c_namex : clean.
Lemma c_namei me cwd path : clean (namei me cwd devread path).
Proof. unfold namei. clean. Qed.
Lemma c_nameiparent me cwd path : clean (nameiparent me cwd devread path).
Proof. unfold nameiparent. clean. Qed.
Lemma c_isdirempty dp : clean (isdirempty devread dp).
Proof.
  unfold isdirempty. apply clean_bind; [clean|]. intros d. generalize (S (Z.to_nat (isize d / DIRENT))) (2 * DIRENT).
  intros fuel. induction fuel; intros off; cbn [isdirempty_from]; clean.
Qed.
Local Hint Resolve c_namei c_nameiparent c_isdirempty : clean.
Lemma c_create p path ty ma mi : clean (create devread devwrite p path ty ma mi).
Proof. unfold create. clean. Qed.
End fs_clean.

(** Calls that log nothing. *)
Definition quiet {A} (m : M fs A) : Prop :=
  forall t, match m t with Ok (t', _) => logged t' = logged t | _ => True end.
Section quiet.
Lemma q_bind {A C} (m : M fs A) (f : A -> M fs C) : quiet m -> (forall a, quiet (f a)) -> quiet (mbind f m).
Proof.
  intros Hm Hf t. specialize (Hm t). unfold mbind, M_bind. destruct (m t) as [[t' a]| |]; [|done|done].
  specialize (Hf a t'). destruct (f a t') as [[t'' c]| |]; congruence.
Qed.
Lemma q_gets {A} (f : fs -> A) : quiet (gets f).
Proof. done. Qed.
Lemma q_seti i f : quiet (seti i f).
Proof. done. Qed.
Lemma q_ilock me i : quiet (ilock me i).
Proof.
  unfold ilock, lock_inode, geti, bread. repeat first
    [ apply q_bind; [|intros ?] | apply q_gets | apply q_seti | done
    | match goal with |- quiet (if ?b then _ else _) => destruct b end
    | match goal with |- quiet (match ?b with _ => _ end) => destruct b end ].
Qed.
Lemma q_iunlock me i : quiet (iunlock me i).
Proof. unfold iunlock, geti, unlock_inode. apply q_bind; [done|]. intros ip. by destruct (negb _ || _). Qed.
Lemma q_stati i : quiet (stati i).
Proof. done. Qed.
Lemma q_idup i : quiet (idup i).
Proof. done. Qed.
End quiet.
#[export] Hint Resolve q_ilock q_iunlock q_stati q_idup : clean.

(** ** Counting descriptors *)

Definition cnt (f : nat) (l : list (option nat)) : nat := length (filter (fun o => o = Some f) l).
Definition sum_with {A} (g : A -> nat) (l : list A) : nat := foldr (fun x n => (g x + n)%nat) 0%nat l.
(** How many descriptors of all processes name [f]. *)
Definition names (s : sys) (f : nat) : nat := sum_with (fun p => cnt f (ofile p)) (procs s).
Definition one (f : nat) (o : option nat) : nat := if decide (o = Some f) then 1 else 0.

(** Only the processes matter to [names]. *)
Ltac names_of s :=
  repeat match goal with
  | |- context [names ?t ?f] =>
      lazymatch t with s => fail | _ => change (names t f) with (names s f) end
  end.
Section counting.
Lemma sum_alter {A} (g : A -> nat) (h : A -> A) l i x :
  l !! i = Some x -> (sum_with g (alter h i l) + g x = sum_with g l + g (h x))%nat.
Proof.
  revert i. induction l as [|y l IH]; intros [|i] Hi; simpl in *; try done.
  - simplify_eq. lia.
  - specialize (IH i Hi). fold (alter (M := list A) h i l). lia.
Qed.
Lemma sum_elem {A} (g : A -> nat) l i x : l !! i = Some x -> (g x <= sum_with g l)%nat.
Proof.
  revert i. induction l as [|y l IH]; intros [|i] Hi; simpl in *; try done; [simplify_eq; lia|].
  specialize (IH i Hi). lia.
Qed.
Lemma sum_two {A} (g : A -> nat) l i j x y :
  i <> j -> l !! i = Some x -> l !! j = Some y -> (g x + g y <= sum_with g l)%nat.
Proof.
  revert i j. induction l as [|z l IH]; intros [|i] [|j] Hij Hi Hj; simpl in *; try done.
  - simplify_eq. pose proof (sum_elem g l j y Hj). lia.
  - simplify_eq. pose proof (sum_elem g l i x Hi). lia.
  - specialize (IH i j ltac:(congruence) Hi Hj). lia.
Qed.
Lemma sum_at_most {A} (g : A -> nat) k l : (forall x, x ∈ l -> g x <= k)%nat -> (sum_with g l <= k * length l)%nat.
Proof.
  induction l as [|x l IH]; intros H; simpl; [lia|].
  pose proof (H x ltac:(left)). assert (sum_with g l <= k * length l)%nat by (apply IH; intros; apply H; by right). lia.
Qed.
Lemma cnt_cons f o l : cnt f (o :: l) = (one f o + cnt f l)%nat.
Proof. unfold cnt, one. rewrite filter_cons. by case_decide. Qed.
Lemma cnt_insert f l i o o' :
  l !! i = Some o -> (cnt f (<[i := o']> l) + one f o = cnt f l + one f o')%nat.
Proof.
  revert i. induction l as [|x l IH]; intros [|i] Hi; simpl in *; try done; rewrite ?cnt_cons.
  - simplify_eq. lia.
  - specialize (IH i Hi). fold (insert (M := list (option nat)) i o' l). lia.
Qed.
Lemma cnt_pos f l i : l !! i = Some (Some f) -> (1 <= cnt f l)%nat.
Proof.
  intros Hi. destruct (cnt f l) eqn:E; [|lia]. unfold cnt in E. apply nil_length_inv in E.
  assert (H : Some f ∈ filter (fun o => o = Some f) l); [|rewrite E in H; by apply not_elem_of_nil in H].
  apply list_elem_of_filter. split; [done|]. by eapply list_elem_of_lookup_2.
Qed.
Lemma cnt_le f l : (cnt f l <= length l)%nat.
Proof. apply length_filter. Qed.
Lemma cnt_none f l : Forall (fun o => o = None) l -> cnt f l = 0%nat.
Proof. induction 1 as [|o l -> _ IH]; [done|]. rewrite cnt_cons, IH. done. Qed.
Lemma one_same f : one f (Some f) = 1%nat.
Proof. unfold one. by rewrite decide_True. Qed.
Lemma one_none f : one f None = 0%nat.
Proof. done. Qed.
End counting.

(** ** The invariant *)

Definition NPROC : nat := 64.
Definition endopen (w : bool) (p : pipe) : bool := if w then writeopen p else readopen p.
(** An open file on pipe [a]. *)
Definition pipe_file (x : file) (a : Z) : Prop := 0 < fref x /\ ftype x = FD_PIPE /\ fpipe x = a.

Section invariant.
Context (kend : Z).
(** The page of a pipe is in use. *)
Definition pages_ok (s : sys) : Prop :=
  exists l, kmem_ok kend (kpages s) l /\ forall a, is_Some (pipes s !! a) -> page_ok kend a /\ ~ (a ∈ l).
Record pipes_inv (s : sys) : Prop := {
  pi_open : forall f x a, ftable s !! f = Some x -> pipe_file x a ->
    exists p, pipes s !! a = Some p /\ endopen (writable x) p = true;
  pi_unique : forall f g x y a, ftable s !! f = Some x -> ftable s !! g = Some y ->
    pipe_file x a -> pipe_file y a -> writable x = writable y -> f = g;
  pi_file : forall a p w, pipes s !! a = Some p -> endopen w p = true ->
    exists f x, ftable s !! f = Some x /\ pipe_file x a /\ writable x = w;
  pi_used : forall a p, pipes s !! a = Some p -> exists w, endopen w p = true;
  pi_pages : pages_ok s;
}.
(** A process asleep in pipewrite holds a descriptor of the pipe. *)
Definition blocked_ok (s : sys) : Prop := forall i p a l n,
  procs s !! i = Some p -> fblocked p = Some (a, l, n) ->
  exists f x, Some f ∈ ofile p /\ ftable s !! f = Some x /\ pipe_file x a.
Record inv (k : Z) (d : nat -> Z) (fresh : list nat) (s : sys) : Prop := {
  iv_ops : ops s = k;
  iv_table : length (ftable s) = NFILE;
  iv_procs : length (procs s) = NPROC;
  iv_ofile : forall p, p ∈ procs s -> length (ofile p) = NOFILE /\ forall f, Some f ∈ ofile p -> (f < NFILE)%nat;
  iv_ref : forall f x, ftable s !! f = Some x -> fref x = Z.of_nat (names s f) + d f /\ 0 <= fref x;
  iv_type : forall f x, ftable s !! f = Some x -> (f ∈ fresh -> ftype x = FD_NONE /\ 0 < fref x) /\
    (~ (f ∈ fresh) -> (ftype x = FD_NONE <-> fref x = 0));
  iv_pipes : pipes_inv s;
  iv_blocked : blocked_ok s;
}.
End invariant.
Definition none_held : nat -> Z := fun _ => 0.
Definition hold (f : nat) (n : Z) (d : nat -> Z) : nat -> Z := fun g => if decide (g = f) then d g + n else d g.

(** ** What keeps it *)

Section keep.
Context (kend : Z).
Implicit Types (s : sys) (k : Z) (d : nat -> Z) (fr : list nat).
Abbreviation inv := (inv kend).
Abbreviation pipes_inv := (pipes_inv kend).

Lemma inv_frame k k' d fr s s' :
  inv k d fr s -> ops s' = k' -> ftable s' = ftable s -> procs s' = procs s -> pipes s' = pipes s ->
  kpages s' = kpages s -> inv k' d fr s'.
Proof.
  intros [H1 H2 H3 H4 H5 H6 H7 H8] Eo Ef Ep Ei Ek.
  assert (En : forall f, names s' f = names s f) by (intros; unfold names; by rewrite Ep).
  split; unfold blocked_ok in *; rewrite ?Ef, ?Ep; try done.
  - intros f x Hx. rewrite En. auto.
  - destruct H7 as [A1 A2 A3 A4 A5]. split; unfold pages_ok in *; rewrite ?Ef, ?Ei, ?Ek; done.
Qed.
Lemma inv_ext k d d' fr s : (forall f, d' f = d f) -> inv k d fr s -> inv k d' fr s.
Proof.
  intros E [H1 H2 H3 H4 H5 H6 H7 H8]. split; try done. intros f x Hx. rewrite E. auto.
Qed.

(** A file changes, but not as the end of a pipe. *)
Lemma pipes_inv_same s f g x :
  pipes_inv s -> ftable s !! f = Some x ->
  (forall a, pipe_file (g x) a <-> pipe_file x a) -> (forall a, pipe_file x a -> writable (g x) = writable x) ->
  pipes_inv (s <| ftable ::= alter g f |>).
Proof.
  intros [A1 A2 A3 A4 A5] Hx Hp Hw.
  assert (L : forall h y a, alter g f (ftable s) !! h = Some y -> pipe_file y a ->
    exists y0, ftable s !! h = Some y0 /\ pipe_file y0 a /\ writable y = writable y0).
  { intros h y a Hy Hf. destruct (decide (f = h)) as [<-|Hn].
    - rewrite list_lookup_alter_eq, Hx in Hy. simplify_eq/=. exists x. split; [done|].
      apply Hp in Hf. split; [done|]. by apply (Hw a).
    - rewrite list_lookup_alter_ne in Hy by done. eauto. }
  split; simpl.
  - intros h y a Hy Hf. destruct (L h y a Hy Hf) as (y0 & H1 & H2 & ->). by eapply A1.
  - intros h h' y y' a Hy Hy' Hf Hf'. destruct (L _ _ _ Hy Hf) as (y0 & H1 & H2 & ->).
    destruct (L _ _ _ Hy' Hf') as (y0' & H1' & H2' & ->). by eapply A2.
  - intros a p w Ha Hw'. destruct (A3 a p w Ha Hw') as (h & y & Hy & Hf & <-).
    destruct (decide (f = h)) as [<-|Hn].
    + assert (y = x) as -> by congruence. exists f, (g x). rewrite list_lookup_alter_eq, Hx.
      split; [done|]. split; [by apply Hp|by apply (Hw a)].
    + exists h, y. by rewrite list_lookup_alter_ne.
  - exact A4.
  - exact A5.
Qed.
Lemma blocked_same s f g x :
  blocked_ok s -> ftable s !! f = Some x -> (forall a, pipe_file x a -> pipe_file (g x) a) ->
  blocked_ok (s <| ftable ::= alter g f |>).
Proof.
  intros Hb Hx Hp i p a l n Hi Hn. destruct (Hb i p a l n Hi Hn) as (h & y & H1 & H2 & H3). exists h.
  simpl. destruct (decide (f = h)) as [<-|].
  - assert (y = x) as -> by congruence. rewrite list_lookup_alter_eq, Hx. exists (g x). split; [done|]. split; [done|]. auto.
  - rewrite list_lookup_alter_ne by done. eauto.
Qed.
(** A file changes its reference count by [n] and keeps its pipe end. *)
Lemma inv_setf k d fr s f g x n :
  inv k d fr s -> ftable s !! f = Some x -> fref (g x) = fref x + n -> 0 < fref x -> 0 < fref x + n ->
  ftype (g x) = ftype x -> fpipe (g x) = fpipe x -> writable (g x) = writable x ->
  inv k (hold f n d) fr (s <| ftable ::= alter g f |>).
Proof.
  intros [H1 H2 H3 H4 H5 H6 H7 H8] Hx Hr Hp Hp' Ht Hpi Hw.
  assert (L : forall h y, alter g f (ftable s) !! h = Some y -> (h = f /\ y = g x) \/ (h <> f /\ ftable s !! h = Some y)).
  { intros h y Hy. destruct (decide (f = h)) as [<-|Hn].
    - rewrite list_lookup_alter_eq, Hx in Hy. simplify_eq/=. by left.
    - rewrite list_lookup_alter_ne in Hy by done. right. by split; [congruence|]. }
  assert (P : forall a, pipe_file (g x) a <-> pipe_file x a).
  { intros a. unfold pipe_file. rewrite Hr, Ht, Hpi. intuition lia. }
  split; simpl; try done.
  - by rewrite length_alter.
  - intros h y [[-> ->]|[Hn Hy]]%L; unfold hold.
    + rewrite decide_True by done. destruct (H5 f x Hx). names_of s. lia.
    + rewrite decide_False by done. by apply H5.
  - intros h y [[-> ->]|[Hn Hy]]%L; [|by apply H6]. destruct (H6 f x Hx) as [T1 T2]. rewrite Ht, Hr. split.
    + intros Hf. destruct (T1 Hf). split; [done|lia].
    + intros Hf. rewrite (T2 Hf). lia.
  - apply (pipes_inv_same _ _ _ x); auto.
  - apply (blocked_same _ _ _ x); [done|done|]. intros a. by apply P.
Qed.

(** A process changes one descriptor, [o] to [o']. *)
Lemma inv_setp k d d' fr s i p g fd o o' :
  inv k d fr s -> procs s !! i = Some p -> ofile p !! fd = Some o -> ofile (g p) = <[fd := o']> (ofile p) ->
  fblocked (g p) = fblocked p -> (fblocked p = None \/ o = None) ->
  (forall f, o' = Some f -> (f < NFILE)%nat) ->
  (forall f, d' f + Z.of_nat (one f o') = d f + Z.of_nat (one f o)) ->
  inv k d' fr (s <| procs ::= alter g i |>).
Proof.
  intros [H1 H2 H3 H4 H5 H6 H7 H8] Hi Ho Hof Hbl Hor Hlt Hd.
  assert (Hlen : (fd < length (ofile p))%nat) by (by eapply lookup_lt_Some).
  assert (N : forall f, (names (s <| procs ::= alter g i |>) f + one f o = names s f + one f o')%nat).
  { intros f. unfold names. simpl. pose proof (sum_alter (fun p => cnt f (ofile p)) g (procs s) i p Hi) as E.
    simpl in E. rewrite Hof in E. pose proof (cnt_insert f (ofile p) fd o o' Ho). lia. }
  split; simpl; try done.
  - by rewrite length_alter.
  - intros q [j Hj]%list_elem_of_lookup. destruct (decide (i = j)) as [<-|Hn].
    + rewrite list_lookup_alter_eq, Hi in Hj. simplify_eq/=. rewrite Hof.
      destruct (H4 p ltac:(by eapply list_elem_of_lookup_2)) as [L1 L2]. rewrite length_insert. split; [done|].
      intros f [m Hm]%list_elem_of_lookup. apply list_lookup_insert_Some in Hm as [(_ & -> & _)|[_ Hm]]; [by apply Hlt|].
      apply L2. by eapply list_elem_of_lookup_2.
    + rewrite list_lookup_alter_ne in Hj by done. apply H4. by eapply list_elem_of_lookup_2.
  - intros f x Hx. specialize (N f). simpl in N. specialize (Hd f). destruct (H5 f x Hx). lia.
  - destruct H7 as [A1 A2 A3 A4 A5]. split; done.
  - intros j q a l n Hj Hq. simpl in Hj. destruct (decide (i = j)) as [<-|Hn].
    + rewrite list_lookup_alter_eq, Hi in Hj. simplify_eq/=. rewrite Hbl in Hq.
      destruct (H8 i p a l n Hi Hq) as (f & x & F1 & F2). exists f, x. split; [|done]. rewrite Hof.
      destruct Hor as [Hnone| ->]; [congruence|]. apply list_elem_of_lookup in F1 as [m Hm].
      apply list_elem_of_lookup. exists m. rewrite list_lookup_insert_ne; [done|]. intros ->. congruence.
    + rewrite list_lookup_alter_ne in Hj by done. by eapply H8.
Qed.
(** A process changes neither descriptors nor what it waits for. *)
Lemma inv_setp_same k d fr s i g :
  (forall p, ofile (g p) = ofile p /\ fblocked (g p) = fblocked p) ->
  inv k d fr s -> inv k d fr (s <| procs ::= alter g i |>).
Proof.
  intros Hg H. destruct (procs s !! i) as [p|] eqn:Hi.
  2:{ apply (inv_frame k k d fr s); try done; [apply H|]. simpl. by apply alter_none. }
  destruct H as [H1 H2 H3 H4 H5 H6 H7 H8]. destruct (Hg p) as [G1 G2]. split; simpl; try done.
  - by rewrite length_alter.
  - intros q [j Hj]%list_elem_of_lookup. destruct (decide (i = j)) as [<-|Hn].
    + rewrite list_lookup_alter_eq, Hi in Hj. simplify_eq/=. rewrite G1. apply H4. by eapply list_elem_of_lookup_2.
    + rewrite list_lookup_alter_ne in Hj by done. apply H4. by eapply list_elem_of_lookup_2.
  - intros f x Hx. assert (E : names (s <| procs ::= alter g i |>) f = names s f).
    { unfold names. simpl. pose proof (sum_alter (fun p => cnt f (ofile p)) g (procs s) i p Hi) as E.
      simpl in E. rewrite G1 in E. lia. }
    simpl in E. rewrite E. by apply H5.
  - destruct H7 as [A1 A2 A3 A4 A5]. split; done.
  - intros j q a l n Hj Hq. simpl in Hj. destruct (decide (i = j)) as [<-|Hn].
    + rewrite list_lookup_alter_eq, Hi in Hj. simplify_eq/=. rewrite G2 in Hq. rewrite G1. by eapply H8.
    + rewrite list_lookup_alter_ne in Hj by done. by eapply H8.
Qed.

(** ** Closing *)

Definition clear_file (x : file) : file := x <| fref := 0 |> <| ftype := FD_NONE |>.
Lemma clear_lookup f (t : list file) h y a :
  alter clear_file f t !! h = Some y -> pipe_file y a -> h <> f /\ t !! h = Some y.
Proof.
  intros Hy Hf. destruct (decide (f = h)) as [<-|Hn].
  - rewrite list_lookup_alter_eq in Hy. destruct (t !! f) as [x|]; simplify_eq/=.
    destruct Hf as [Hf _]. simpl in Hf. lia.
  - rewrite list_lookup_alter_ne in Hy by done. split; [congruence|done].
Qed.
(** A file that was open once, and is not the end of a pipe any more. *)
Lemma inv_clear k d fr s s' f x :
  inv k d fr s -> ftable s !! f = Some x -> fref x = 1 ->
  (forall i p, procs s !! i = Some p -> fblocked p <> None -> ~ (Some f ∈ ofile p)) ->
  ops s' = ops s -> procs s' = procs s -> ftable s' = alter clear_file f (ftable s) -> pipes_inv s' ->
  inv k (hold f (-1) d) (filter (fun h => h <> f) fr) s'.
Proof.
  intros [H1 H2 H3 H4 H5 H6 H7 H8] Hx Hr Hb Eo Ep Ef Hp.
  assert (N : forall h, names s' h = names s h) by (intros; unfold names; by rewrite Ep).
  split; rewrite ?Eo, ?Ep; try done.
  - by rewrite Ef, length_alter.
  - intros h y Hy. rewrite Ef in Hy. rewrite N. unfold hold. destruct (decide (f = h)) as [<-|Hn].
    + rewrite decide_True by done. rewrite list_lookup_alter_eq, Hx in Hy. simplify_eq/=. destruct (H5 f x Hx). lia.
    + rewrite decide_False by congruence. rewrite list_lookup_alter_ne in Hy by done. auto.
  - intros h y Hy. rewrite Ef in Hy. rewrite list_elem_of_filter. destruct (decide (f = h)) as [<-|Hn].
    + rewrite list_lookup_alter_eq, Hx in Hy. simplify_eq/=. split; [naive_solver|done].
    + rewrite list_lookup_alter_ne in Hy by done. destruct (H6 h y Hy) as [T1 T2]. split; [naive_solver|].
      intros Hin. apply T2. intros ?. apply Hin. split; [congruence|done].
  - intros i p a l n Hi Hq. rewrite Ep in Hi. destruct (H8 i p a l n Hi Hq) as (h & y & F1 & F2 & F3).
    exists h, y. split; [done|]. split; [|done]. rewrite Ef, list_lookup_alter_ne; [done|]. intros <-.
    apply (Hb i p Hi); [congruence|done].
Qed.
(** pipeclose closes the end of the file, and only that. *)
Lemma closed_end p w b : endopen b (pipeclose p w).1.1 = (if decide (b = w) then false else endopen b p).
Proof. destruct w, b; done. Qed.
Lemma closed_free p w : (pipeclose p w).2 = negb (endopen (negb w) p).
Proof. destruct w; simpl; by destruct (readopen p), (writeopen p). Qed.
Lemma other_end (b w : bool) : b <> w -> b = negb w.
Proof. by destruct b, w. Qed.

Section close_end.
Context (s : sys) (f : nat) (x : file) (a : Z) (p : pipe).
Hypothesis Hpi : pipes_inv s.
Hypothesis Hx : ftable s !! f = Some x.
Hypothesis Hf : pipe_file x a.
Hypothesis Hp : pipes s !! a = Some p.
Lemma other_file h y a' w :
  ftable s !! h = Some y -> pipe_file y a' -> writable y = w -> (a' <> a \/ w <> writable x) -> h <> f.
Proof.
  intros Hy Hy' Hw Hor ->. assert (y = x) as -> by congruence. destruct Hf as (_ & _ & E1), Hy' as (_ & _ & E2).
  destruct Hor; congruence.
Qed.
Lemma kept_file h y : h <> f -> ftable s !! h = Some y -> alter clear_file f (ftable s) !! h = Some y.
Proof. intros. by rewrite list_lookup_alter_ne by congruence. Qed.
(** The other end of [a] belongs to no other file of the same kind. *)
Lemma other_writable h y : h <> f -> ftable s !! h = Some y -> pipe_file y a -> writable y <> writable x.
Proof. intros Hn Hy Hy' E. apply Hn. by eapply (pi_unique _ _ Hpi). Qed.

Lemma pipes_close s' :
  endopen (negb (writable x)) p = true ->
  ftable s' = alter clear_file f (ftable s) ->
  pipes s' = <[a := (pipeclose p (writable x)).1.1]> (pipes s) -> kpages s' = kpages s -> pipes_inv s'.
Proof.
  intros Ho Ef Ei Ek. destruct Hpi as [A1 A2 A3 A4 A5]. split; rewrite ?Ef, ?Ei.
  - intros h y a' Hy Hy'. destruct (clear_lookup _ _ _ _ _ Hy Hy') as [Hn Hy0].
    destruct (A1 _ _ _ Hy0 Hy') as (q & Hq & Hq'). destruct (decide (a' = a)) as [->|Hne].
    + exists (pipeclose p (writable x)).1.1. rewrite lookup_insert_eq. split; [done|]. rewrite closed_end.
      rewrite decide_False by (by eapply other_writable). congruence.
    + exists q. by rewrite lookup_insert_ne.
  - intros h h' y y' a' Hy Hy' F F'. destruct (clear_lookup _ _ _ _ _ Hy F), (clear_lookup _ _ _ _ _ Hy' F'). eauto.
  - intros a' q w Hq Hw.
    assert (T : exists q0, pipes s !! a' = Some q0 /\ endopen w q0 = true /\ (a' <> a \/ w <> writable x)).
    { destruct (decide (a' = a)) as [->|Hne].
      - rewrite lookup_insert_eq in Hq. simplify_eq. rewrite closed_end in Hw. case_decide; [done|]. eauto.
      - rewrite lookup_insert_ne in Hq by done. eauto. }
    destruct T as (q0 & Hq0 & Hw0 & Hor). destruct (A3 _ _ _ Hq0 Hw0) as (h & y & Hy & Hy' & Hyw).
    exists h, y. split; [|done]. apply kept_file; [|done]. by eapply other_file.
  - intros a' q Hq. destruct (decide (a' = a)) as [->|Hne].
    + rewrite lookup_insert_eq in Hq. simplify_eq. exists (negb (writable x)). rewrite closed_end.
      rewrite decide_False; [done|]. by destruct (writable x).
    + rewrite lookup_insert_ne in Hq by done. eauto.
  - destruct A5 as (l & L1 & L2). exists l. rewrite Ek, Ei. split; [done|]. intros a' Ha. apply L2.
    destruct (decide (a' = a)) as [->|Hne]; [by rewrite Hp|]. by rewrite lookup_insert_ne in Ha.
Qed.
Lemma pipes_free s' l km :
  endopen (negb (writable x)) p = false ->
  ftable s' = alter clear_file f (ftable s) -> pipes s' = delete a (pipes s) ->
  kpages s' = km -> kmem_ok kend km (a :: l) ->
  (forall a', is_Some (pipes s !! a') -> page_ok kend a' /\ ~ (a' ∈ l)) -> pipes_inv s'.
Proof.
  intros Ho Ef Ei Ek Hk Hl. destruct Hpi as [A1 A2 A3 A4 A5]. split; rewrite ?Ef, ?Ei.
  - intros h y a' Hy Hy'. destruct (clear_lookup _ _ _ _ _ Hy Hy') as [Hn Hy0].
    destruct (A1 _ _ _ Hy0 Hy') as (q & Hq & Hq'). exists q. destruct (decide (a' = a)) as [->|Hne].
    + pose proof (other_end _ _ (other_writable _ _ Hn Hy0 Hy')) as E. rewrite E in Hq'. congruence.
    + by rewrite lookup_delete_ne by done.
  - intros h h' y y' a' Hy Hy' F F'. destruct (clear_lookup _ _ _ _ _ Hy F), (clear_lookup _ _ _ _ _ Hy' F'). eauto.
  - intros a' q w Hq Hw. apply lookup_delete_Some in Hq as [Hne Hq].
    destruct (A3 _ _ _ Hq Hw) as (h & y & Hy & Hy' & Hyw). exists h, y. split; [|done].
    apply kept_file; [|done]. eapply other_file; [done|done|done|]. left. congruence.
  - intros a' q Hq. apply lookup_delete_Some in Hq as [Hne Hq]. eauto.
  - exists (a :: l). rewrite Ek, Ei. split; [done|]. intros a' [q Hq]. apply lookup_delete_Some in Hq as [Hne Hq].
    destruct (Hl a' ltac:(by rewrite Hq)) as [L1 L2]. split; [done|]. rewrite elem_of_cons. intros [->|]; done.
Qed.
End close_end.
End keep.
