(* ===== verification/Descriptors.v ===== *)
(** The file system calls keep the descriptor invariant of FileFacts: the
    rules for the operations of file.c, then each call of sysfile.c, then every
    sequence of calls of any processes. *)
From S2P Require Import Prelude Cstring Kalloc Sleeplock Fs Pipe Syscall File Sysfile FileFacts.

Section calls.
Context (kend : Z) (me : nat).
Context (devread : Z -> option (nat -> Z -> M fs (Z * list Z))).
Context (devwrite : Z -> option (nat -> list Z -> M fs Z)).
Hypothesis dr_clean : forall n rd i k, devread n = Some rd -> clean panics (rd i k).
Hypothesis dw_clean : forall n wr i l, devwrite n = Some wr -> clean panics (wr i l).
Hypothesis me_ok : (me < NPROC)%nat.
Context (B : list string).
Hypothesis B_panics : forall e, e ∈ B -> e ∈ panics.
Abbreviation inv := (inv kend).
Abbreviation safe := (safe B).
Implicit Types (s : sys) (k : Z) (d : nat -> Z) (fr : list nat).

(** ** Rules *)

Lemma safe_onfs {A} (m : M fs A) (Q : A -> sys -> Prop) k d fr s :
  inv k d fr s -> clean panics m -> (1 <= k \/ quiet m \/ ~ (TRANS ∈ B)) ->
  (forall a t, inv k d fr (s <| fsys := t |>) -> Q a (s <| fsys := t |>)) -> safe (onfs m) Q s.
Proof.
  intros I Hc Hk HQ. unfold FileFacts.safe, onfs. specialize (Hc (fsys s)).
  destruct (m (fsys s)) as [[t a]|e|] eqn:E; [|by intros ?%B_panics|done].
  case_decide as Ht.
  - destruct Hk as [Hk|[Hq|Hn]]; [rewrite (iv_ops _ _ _ _ _ I) in Ht; lia| |exact Hn].
    specialize (Hq (fsys s)). rewrite E in Hq. destruct Ht. done.
  - apply HQ. eapply inv_frame; [exact I|apply I|done..].
Qed.
Lemma safe_begin (Q : unit -> sys -> Prop) k d fr s :
  inv k d fr s -> (forall s', inv (k + 1) d fr s' -> procs s' = procs s -> ftable s' = ftable s -> Q tt s') ->
  safe begin_op Q s.
Proof.
  intros I HQ. apply safe_modify. apply HQ; [|done|done].
  eapply inv_frame; [exact I|simpl; rewrite (iv_ops _ _ _ _ _ I); lia|done..].
Qed.
Lemma safe_end (Q : unit -> sys -> Prop) k d fr s :
  inv (k + 1) d fr s -> (forall s', inv k d fr s' -> procs s' = procs s -> ftable s' = ftable s -> Q tt s') ->
  safe end_op Q s.
Proof.
  intros I HQ. unfold end_op. apply safe_bind, safe_modify, safe_bind, safe_gets.
  assert (I' : inv k d fr (s <| ops ::= Z.add (-1) |>)).
  { eapply inv_frame; [exact I|simpl; rewrite (iv_ops _ _ _ _ _ I); lia|done..]. }
  case_decide; [apply safe_modify|apply safe_ret]; apply HQ; try done.
  eapply inv_frame; [exact I'|apply I'|done..].
Qed.
Lemma safe_getp (Q : fproc -> sys -> Prop) k d fr s :
  inv k d fr s -> (forall p, procs s !! me = Some p -> Q p s) -> safe (getp me) Q s.
Proof.
  intros I HQ. apply safe_gets. apply HQ. destruct (lookup_lt_is_Some_2 (procs s) me) as [p Hp].
  - by rewrite (iv_procs _ _ _ _ _ I).
  - by rewrite Hp, (list_lookup_total_correct _ _ _ Hp).
Qed.
Lemma safe_getf (Q : file -> sys -> Prop) k d fr f s :
  inv k d fr s -> (f < NFILE)%nat -> (forall x, ftable s !! f = Some x -> Q x s) -> safe (getf f) Q s.
Proof.
  intros I Hf HQ. apply safe_gets. apply HQ. destruct (lookup_lt_is_Some_2 (ftable s) f) as [x Hx].
  - by rewrite (iv_table _ _ _ _ _ I).
  - by rewrite Hx, (list_lookup_total_correct _ _ _ Hx).
Qed.
Lemma safe_setp_same (g : fproc -> fproc) (Q : unit -> sys -> Prop) i k d fr s :
  (forall p, ofile (g p) = ofile p /\ fblocked (g p) = fblocked p) ->
  inv k d fr s -> (forall s', inv k d fr s' -> Q tt s') -> safe (setp i g) Q s.
Proof. intros Hg I HQ. apply safe_modify, HQ. by apply inv_setp_same. Qed.

Lemma names_bound s k d fr f : inv k d fr s -> (names s f <= 1024)%nat.
Proof.
  intros I. unfold names. pose proof (sum_at_most (fun p => cnt f (ofile p)) NOFILE (procs s)) as H.
  rewrite (iv_procs _ _ _ _ _ I) in H. apply H. intros p Hp.
  destruct (iv_ofile _ _ _ _ _ I p Hp) as [<- _]. apply cnt_le.
Qed.

Lemma names_zero s f i p : names s f = 0%nat -> procs s !! i = Some p -> ~ (Some f ∈ ofile p).
Proof.
  intros Hn Hi [j Hj]%list_elem_of_lookup. pose proof (sum_elem (fun p => cnt f (ofile p)) _ _ _ Hi) as H.
  pose proof (cnt_pos _ _ _ Hj). unfold names in Hn. simpl in H. lia.
Qed.

Lemma filealloc_safe (Q : option nat -> sys -> Prop) k d fr s :
  inv k d fr s -> (forall f, 0 <= d f) -> Q None s ->
  (forall f s', (f < NFILE)%nat -> ~ (f ∈ fr) -> names s f = 0%nat -> d f = 0 ->
     inv k (hold f 1 d) (f :: fr) s' -> procs s' = procs s -> Q (Some f) s') ->
  safe filealloc Q s.
Proof.
  intros I Hd HN HS. unfold filealloc. apply safe_bind, safe_gets.
  destruct (list_find _ _) as [[f x]|] eqn:E; [|by apply safe_ret].
  apply list_find_Some in E as (Hx & Hr & _). apply safe_bind, safe_modify, safe_ret.
  pose proof (lookup_lt_Some _ _ _ Hx) as Hlt. rewrite (iv_table _ _ _ _ _ I) in Hlt.
  destruct I as [H1 H2 H3 H4 H5 H6 H7 H8].
  destruct (H5 f x Hx) as [Er _], (H6 f x Hx) as [T1 T2]. specialize (Hd f).
  assert (Hfr : ~ (f ∈ fr)) by (intros [_ ?]%T1; lia). pose proof (proj2 (T2 Hfr) Hr) as Ht.
  apply HS; [done|done|lia|lia| |done]. split; simpl; try done.
  - by rewrite length_alter.
  - intros h y Hy. names_of s. unfold hold. destruct (decide (h = f)) as [->|Hn].
    + rewrite list_lookup_alter_eq, Hx in Hy. simplify_eq/=. lia.
    + rewrite list_lookup_alter_ne in Hy by congruence. auto.
  - intros h y Hy. rewrite elem_of_cons. destruct (decide (h = f)) as [->|Hn].
    + rewrite list_lookup_alter_eq, Hx in Hy. simplify_eq/=. split; [done|naive_solver].
    + rewrite list_lookup_alter_ne in Hy by congruence. destruct (H6 h y Hy) as [U1 U2]. split; [naive_solver|].
      intros Hin. apply U2. naive_solver.
  - apply (pipes_inv_same _ _ _ _ x); [done|done| |]; intros a; unfold pipe_file; simpl; rewrite Ht; naive_solver.
  - apply (blocked_same _ _ _ x); [done|done|]. intros a (Hp & _). lia.
Qed.

Lemma filedup_safe (Q : nat -> sys -> Prop) k d fr f x s :
  inv k d fr s -> ftable s !! f = Some x -> 0 < fref x -> d f <= 1 ->
  (forall s', inv k (hold f 1 d) fr s' -> procs s' = procs s -> Q f s') ->
  safe (filedup f) Q s.
Proof.
  intros I Hx Hr Hd HQ. pose proof (lookup_lt_Some _ _ _ Hx) as Hlt. rewrite (iv_table _ _ _ _ _ I) in Hlt.
  unfold filedup. apply safe_bind. eapply safe_getf; [exact I|done|]. intros y Hy. simplify_eq.
  rewrite decide_False by lia. apply safe_bind, safe_modify, safe_ret. apply HQ; [|done].
  pose proof (names_bound s k d fr f I) as Hn. destruct (iv_ref _ _ _ _ _ I f x Hx) as [Er _].
  eapply (inv_setf _ _ _ _ _ _ _ x); [done|done| |done|lia|done..].
  simpl. apply s32_small. unfold is_s32. lia.
Qed.

Lemma close_pipe_safe (Q : unit -> sys -> Prop) s s0 f x :
  pipes_inv kend s -> ftable s !! f = Some x -> pipe_file x (fpipe x) ->
  s0 = s <| ftable ::= alter clear_file f |> ->
  (forall s', pipes_inv kend s' -> ops s' = ops s -> procs s' = procs s -> ftable s' = ftable s0 -> Q tt s') ->
  safe (close_pipe kend (fpipe x) (writable x)) Q s0.
Proof.
  intros Hpi Hx Hf -> HQ. destruct (pi_open _ _ Hpi f x _ Hx Hf) as (p & Hp & He).
  unfold close_pipe, get_pipe. apply safe_bind, safe_bind, safe_gets.
  change (pipes (s <| ftable ::= alter clear_file f |>)) with (pipes s). rewrite Hp. apply safe_ret. cbv zeta.
  rewrite closed_free. destruct (endopen (negb (writable x)) p) eqn:Eo; simpl negb; cbv iota.
  - apply safe_modify. apply HQ; try done. by eapply (pipes_close kend s f x (fpipe x) p).
  - apply safe_bind, safe_modify. destruct (pi_pages _ _ Hpi) as (l & L1 & L2).
    destruct (L2 (fpipe x) ltac:(by rewrite Hp)) as [P1 P2].
    destruct (kfree_run kend (fpipe x) (kpages s) l P1 L1 P2) as [R1 R2].
    unfold FileFacts.safe, onkm, zoom. simpl. rewrite R1. apply HQ; try done.
    by eapply (pipes_free kend s f x (fpipe x) p).
Qed.

Lemma fileclose_safe (Q : unit -> sys -> Prop) k d fr f x s :
  inv k d fr s -> 0 <= k -> ftable s !! f = Some x -> 0 < fref x -> (f ∈ fr -> fref x = 1) ->
  (fref x = 1 -> forall i p, procs s !! i = Some p -> fblocked p <> None -> ~ (Some f ∈ ofile p)) ->
  (forall s', inv k (hold f (-1) d) (filter (fun h => h <> f) fr) s' -> procs s' = procs s ->
     (forall h, h <> f -> ftable s' !! h = ftable s !! h) -> Q tt s') ->
  safe (fileclose me kend f) Q s.
Proof.
  intros I Hk Hx Hr Hfr Hbl HQ. pose proof (lookup_lt_Some _ _ _ Hx) as Hlt. rewrite (iv_table _ _ _ _ _ I) in Hlt.
  unfold fileclose. apply safe_bind. eapply safe_getf; [exact I|done|]. intros z Hz. assert (z = x) as -> by congruence. clear Hz.
  rewrite decide_False by lia. destruct (decide (fref x - 1 > 0)) as [Hgt|Hgt].
  { apply safe_modify. apply HQ; [|done|].
    - rewrite filter_id; [|apply Forall_forall; intros h Hin ->; specialize (Hfr Hin); lia].
      eapply (inv_setf _ _ _ _ _ _ _ x); try done; lia.
    - intros h Hh. simpl. by rewrite list_lookup_alter_ne by congruence. }
  assert (E1 : fref x = 1) by lia. specialize (Hbl E1).
  set (s1 := s <| ftable ::= alter clear_file f |>).
  assert (HT : forall s', ftable s' = ftable s1 -> forall h, h <> f -> ftable s' !! h = ftable s !! h).
  { intros s' -> h Hh. unfold s1. simpl. by rewrite list_lookup_alter_ne by congruence. }
  apply safe_bind, safe_modify. change (s <| ftable ::= alter _ f |>) with s1.
  assert (HN : (forall a, ~ pipe_file x a) -> inv k (hold f (-1) d) (filter (fun h => h <> f) fr) s1).
  { intros Hp. apply (inv_clear kend k d fr s s1 f x); try done.
    apply (pipes_inv_same _ _ _ _ x); [apply I|done| |].
    - intros a. split; [intros [H _]; simpl in H; lia|by intros ?%Hp].
    - by intros a ?%Hp. }
  destruct (ftype x) eqn:Et.
  - apply safe_ret, HQ; [|done|by apply HT]. apply HN. unfold pipe_file. rewrite Et. naive_solver.
  - eapply (close_pipe_safe _ s); [apply I|exact Hx|done|done|]. intros s' P1 P2 P3 P4.
    apply HQ; [|done|by apply HT]. by apply (inv_clear kend k d fr s s' f x).
  - assert (I1 : inv k (hold f (-1) d) (filter (fun h => h <> f) fr) s1).
    { apply HN. unfold pipe_file. rewrite Et. naive_solver. }
    apply safe_bind. eapply safe_getp; [exact I1|]. intros p Hp. apply safe_bind. eapply safe_begin; [exact I1|].
    intros s2 I2 E2 F2. apply safe_bind. eapply safe_onfs; [exact I2|apply c_iput|lia|]. intros _ t I3.
    eapply safe_end; [exact I3|]. intros s4 I4 E4 F4. apply HQ; [done|by rewrite E4|].
    apply HT. by rewrite F4.
Qed.

Lemma fdalloc_safe (Q : option nat -> sys -> Prop) k d fr f s :
  inv k d fr s -> (f < NFILE)%nat -> Q None s ->
  (forall p fd s', procs s !! me = Some p -> ofile p !! fd = Some None ->
     inv k (hold f (-1) d) fr s' -> ftable s' = ftable s ->
     procs s' = alter (fun p => p <| ofile ::= insert fd (Some f) |>) me (procs s) -> Q (Some fd) s') ->
  safe (fdalloc me f) Q s.
Proof.
  intros I Hf HN HS. unfold fdalloc. apply safe_bind. eapply safe_getp; [exact I|]. intros p Hp.
  destruct (list_find _ _) as [[fd o]|] eqn:E; [|by apply safe_ret].
  apply list_find_Some in E as (Hfd & -> & _). apply lookup_take_Some in Hfd as [Hfd _].
  apply safe_bind, safe_modify, safe_ret. apply (HS p); [done|done| |done|done].
  apply (inv_setp kend k d _ fr s me p _ fd None (Some f)); try done; [by right|by intros ? [= <-]|].
  intros g. unfold hold, one. destruct (decide (g = f)) as [->|Hn].
  - rewrite (decide_True (P := Some f = Some f)) by done. simpl. lia.
  - rewrite (decide_False (P := Some f = Some g)) by congruence. simpl. lia.
Qed.
(** Descriptor [fd] of the process is closed, and the reference is in hand. *)
Lemma clear_fd k d d' fr f fd s p :
  inv k d fr s -> procs s !! me = Some p -> ofile p !! fd = Some (Some f) -> fblocked p = None ->
  (forall g, d' g = hold f 1 d g) ->
  inv k d' fr (s <| procs ::= alter (fun p => p <| ofile ::= insert fd None |>) me |>).
Proof.
  intros I Hp Hfd Hb Hd. apply (inv_setp kend k d _ fr s me p _ fd (Some f) None); try done; [by left|].
  intros g. rewrite Hd. unfold hold, one. destruct (decide (g = f)) as [->|Hn].
  - rewrite (decide_True (P := Some f = Some f)) by done. simpl. lia.
  - rewrite (decide_False (P := Some f = Some g)) by congruence. simpl. lia.
Qed.
Lemma argfd_fd p n fd f : argfd p n = Some (fd, f) -> ofile p !! fd = Some (Some f).
Proof.
  unfold argfd. destruct (argint _ _) as [i|]; [|done]. simpl. case_decide; [done|].
  destruct (ofile p !! Z.to_nat i) as [[g|]|] eqn:E; simpl; intros; simplify_eq. done.
Qed.
(** A descriptor names an open file. *)
Lemma fd_open k d fr s i p fd f :
  inv k d fr s -> procs s !! i = Some p -> ofile p !! fd = Some (Some f) -> 0 <= d f ->
  (f < NFILE)%nat /\ exists x, ftable s !! f = Some x /\ 0 < fref x.
Proof.
  intros I Hp Hfd Hd. destruct (iv_ofile _ _ _ _ _ I p ltac:(by eapply list_elem_of_lookup_2)) as [_ H].
  specialize (H f ltac:(by eapply list_elem_of_lookup_2)). split; [done|].
  destruct (lookup_lt_is_Some_2 (ftable s) f) as [x Hx]; [by rewrite (iv_table _ _ _ _ _ I)|].
  exists x. split; [done|]. destruct (iv_ref _ _ _ _ _ I f x Hx) as [-> _].
  pose proof (sum_elem (fun p => cnt f (ofile p)) _ _ _ Hp) as H1. simpl in H1.
  pose proof (cnt_pos _ _ _ Hfd). unfold names. lia.
Qed.

(** A pipe changes, but not which ends are open. *)
Lemma inv_put_pipe k d fr s a p p' :
  inv k d fr s -> pipes s !! a = Some p -> (forall w, endopen w p' = endopen w p) ->
  inv k d fr (s <| pipes ::= insert a p' |>).
Proof.
  intros [H1 H2 H3 H4 H5 H6 H7 H8] Hp He. split; try done. destruct H7 as [A1 A2 A3 A4 (l & L1 & L2)].
  assert (T : forall b q, <[a := p']> (pipes s) !! b = Some q ->
    exists q0, pipes s !! b = Some q0 /\ forall w, endopen w q = endopen w q0).
  { intros b q. destruct (decide (b = a)) as [->|Hn].
    - rewrite lookup_insert_eq. intros [= <-]. eauto.
    - rewrite lookup_insert_ne by done. eauto. }
  split; simpl; try done.
  - intros f x b Hx Hf. destruct (A1 f x b Hx Hf) as (q & Hq & Hq'). destruct (decide (b = a)) as [->|Hn].
    + exists p'. rewrite lookup_insert_eq, He. split; [done|]. congruence.
    + exists q. by rewrite lookup_insert_ne.
  - intros b q w (q0 & Hq & ->)%T. apply (A3 b q0 w Hq).
  - intros b q (q0 & Hq & E)%T. destruct (A4 b q0 Hq) as [w Hw]. exists w. by rewrite E.
  - exists l. split; [done|]. intros b [q (q0 & Hq & _)%T]. apply L2. by rewrite Hq.
Qed.
Lemma piperead_ends kl p n w : endopen w (piperead kl p n).1.1 = endopen w p.
Proof.
  unfold piperead. destruct (pempty p && writeopen p); [by destruct kl|]. cbn [fst snd].
  revert p. induction n as [|n IH]; intros p; simpl; [done|]. destruct (pempty p); [done|]. simpl. rewrite IH. by destruct w.
Qed.
Lemma pipewrite_ends kl src : forall p w, endopen w (pipewrite kl p src).1.1 = endopen w p.
Proof.
  induction src as [|c src IH]; intros p w; simpl; [done|]. destruct (pfull p); [by destruct (negb _ || kl)|].
  rewrite IH. by destruct w.
Qed.
(** The process waits, or stops waiting, on a pipe it has open. *)
Lemma inv_block k d fr s p o :
  inv k d fr s -> procs s !! me = Some p ->
  (forall a l n, o = Some (a, l, n) -> exists f x, Some f ∈ ofile p /\ ftable s !! f = Some x /\ pipe_file x a) ->
  inv k d fr (s <| procs ::= alter (fun p => p <| fblocked := o |>) me |>).
Proof.
  intros I Hp Ho. pose proof (iv_blocked _ _ _ _ _ I) as Hb.
  assert (N : forall f, names (s <| procs ::= alter (fun p => p <| fblocked := o |>) me |>) f = names s f).
  { intros f. unfold names. simpl.
    pose proof (sum_alter (fun p => cnt f (ofile p)) (fun p => p <| fblocked := o |>) (procs s) me p Hp) as E.
    simpl in E. lia. }
  destruct I as [H1 H2 H3 H4 H5 H6 H7 H8]. split; simpl; try done.
  - by rewrite length_alter.
  - intros q [j Hj]%list_elem_of_lookup. destruct (decide (me = j)) as [<-|Hn].
    + rewrite list_lookup_alter_eq, Hp in Hj. simplify_eq/=. apply H4. by eapply list_elem_of_lookup_2.
    + rewrite list_lookup_alter_ne in Hj by done. apply H4. by eapply list_elem_of_lookup_2.
  - intros f x Hx. specialize (N f). simpl in N. rewrite N. by apply H5.
  - destruct H7 as [A1 A2 A3 A4 A5]. split; done.
  - intros j q a l n Hj Hq. simpl in Hj. destruct (decide (me = j)) as [<-|Hn].
    + rewrite list_lookup_alter_eq, Hp in Hj. simplify_eq/=. eauto.
    + rewrite list_lookup_alter_ne in Hj by done. by eapply Hb.
Qed.

(** ** The calls *)

Ltac fs_clean := first
  [ apply c_ilock | apply c_iunlock | apply c_iput | apply c_iunlockput | apply c_geti | apply c_seti
  | apply c_iupdate | apply c_stati | apply c_idup | apply (c_readi _ dr_clean) | apply (c_writei _ dw_clean)
  | apply (c_namei _ dr_clean) | apply (c_nameiparent _ dr_clean) | apply (c_dirlookup _ dr_clean)
  | apply (c_dirlink _ _ dr_clean dw_clean) | apply (c_isdirempty _ dr_clean)
  | apply (c_create _ _ dr_clean dw_clean) ].
(** One statement of a call that holds the invariant. *)
Ltac call_step :=
  lazymatch goal with
  | I : FileFacts.inv _ _ _ _ ?s |- FileFacts.safe _ (onfs _) _ ?s =>
      eapply safe_onfs; [exact I|fs_clean|first [left; lia|right; left; solve [auto with clean]|right; right; assumption]|];
      clear I; intros ? ? I
  | I : FileFacts.inv _ _ _ _ ?s |- FileFacts.safe _ begin_op _ ?s =>
      eapply safe_begin; [exact I|]; clear I; intros ? I ? ?
  | I : FileFacts.inv _ _ _ _ ?s |- FileFacts.safe _ end_op _ ?s =>
      eapply safe_end; [exact I|]; clear I; intros ? I ? ?
  | I : FileFacts.inv _ _ _ _ ?s |- FileFacts.safe _ (getp me) _ ?s => eapply safe_getp; [exact I|]; intros ? ?
  | |- FileFacts.safe _ (mbind _ _) _ _ => apply safe_bind
  | |- FileFacts.safe _ (mret _) _ _ => apply safe_ret
  | |- FileFacts.safe _ (panic _) _ _ => intros ?%B_panics%list_elem_of_In; simpl in *; naive_solver
  | |- FileFacts.safe _ (try _ ?o _) _ _ => destruct o eqn:?; cbn [try]
  | |- FileFacts.safe _ (if ?b then _ else _) _ _ => destruct b
  | |- FileFacts.safe _ (match ?x with _ => _ end) _ _ => destruct x
  end.
Ltac call := repeat (cbv beta zeta; cbn [try]; call_step).

(** The invariant between calls. *)
Definition files_inv (k : Z) (s : sys) : Prop := inv k none_held [] s.
Definition keeps {A} (m : M sys A) : Prop := forall k s,
  0 <= k -> files_inv k s -> (forall p, procs s !! me = Some p -> fblocked p = None) ->
  safe m (fun _ s' => files_inv k s') s.

Lemma sys_link_keeps : keeps (sys_link me devread devwrite).
Proof. intros k s Hk I _. unfold files_inv in *. unfold sys_link. call; try done. Qed.
Lemma sys_unlink_keeps : keeps (sys_unlink me devread devwrite).
Proof. intros k s Hk I _. unfold files_inv in *. unfold sys_unlink. call; try done. Qed.
Lemma made_safe p mk k s :
  0 <= k -> files_inv k s -> (forall m, mk = Some m -> clean panics m) ->
  safe (made p mk) (fun _ s' => files_inv k s') s.
Proof.
  intros Hk I Hm. unfold files_inv in *. unfold made. call_step. call_step. apply safe_bind. destruct mk as [m|].
  - eapply safe_onfs; [exact I|by apply Hm|left; lia|]. intros. call; done.
  - call. done.
Qed.
Lemma sys_mkdir_keeps : keeps (sys_mkdir me devread devwrite).
Proof.
  intros k s Hk I _. unfold sys_mkdir. apply safe_bind. eapply safe_getp; [exact I|]. intros p _.
  apply made_safe; [done|done|]. intros m. destruct (argpath _ _); [|done]. intros [= <-]. fs_clean.
Qed.
Lemma sys_mknod_keeps : keeps (sys_mknod me devread devwrite).
Proof.
  intros k s Hk I _. unfold sys_mknod. apply safe_bind. eapply safe_getp; [exact I|]. intros p _.
  apply made_safe; [done|done|]. intros m. destruct (argpath _ _); [|done].
  destruct (argint _ 1); [|done]. destruct (argint _ 2); [|done]. intros [= <-]. fs_clean.
Qed.
Lemma sys_chdir_keeps : keeps (sys_chdir me devread).
Proof.
  intros k s Hk I _. unfold files_inv in *. unfold sys_chdir. call; try done.
  eapply safe_setp_same; [|done|]; done.
Qed.
Lemma sys_dup_keeps : keeps (sys_dup me).
Proof.
  intros k s Hk I _. unfold files_inv in *. unfold sys_dup. call; try done.
  destruct p0 as [fd f]. pose proof (argfd_fd _ _ _ _ Heqo) as Hfd.
  destruct (fd_open _ _ _ _ _ _ _ _ I H Hfd) as [Hf (x & Hx & Hr)]; [done|].
  eapply fdalloc_safe; [exact I|done|by call|]. intros p' fd' s' _ _ I' Ef _. cbn [try].
  apply safe_bind. eapply (filedup_safe _ _ _ _ _ x); [exact I'|by rewrite Ef|done| |].
  - unfold hold, none_held. by rewrite decide_True.
  - intros s2 I2 _. apply safe_ret. eapply inv_ext; [|exact I2]. intros g. unfold hold, none_held. by repeat case_decide.
Qed.
Lemma sys_close_keeps : keeps (sys_close me kend).
Proof.
  intros k s Hk I Hb. unfold files_inv in *. unfold sys_close. call; try done.
  destruct p0 as [fd f]. pose proof (argfd_fd _ _ _ _ Heqo) as Hfd.
  destruct (fd_open _ _ _ _ _ _ _ _ I H Hfd) as [Hf (x & Hx & Hr)]; [done|]. apply safe_modify. cbn [fst snd].
  pose proof (clear_fd k none_held (hold f 1 none_held) [] f fd s p I H Hfd (Hb _ H) (fun _ => eq_refl)) as I'.
  apply safe_bind. eapply (fileclose_safe _ _ _ _ _ x); [exact I'|done|done|done| | |].
  - intros ?%not_elem_of_nil. done.
  - intros E i q Hi _. eapply names_zero; [|exact Hi].
    destruct (iv_ref _ _ _ _ _ I' f x Hx) as [Er _]. unfold hold, none_held in Er. rewrite decide_True in Er by done. lia.
  - intros s2 I2 _ _. apply safe_ret. eapply inv_ext; [|exact I2]. intros g. unfold hold, none_held. by repeat case_decide.
Qed.
Lemma sys_fstat_keeps : keeps (sys_fstat me).
Proof.
  intros k s Hk I _. unfold files_inv in *. unfold sys_fstat. call; try done.
  destruct p0 as [fd f]. pose proof (argfd_fd _ _ _ _ Heqo) as Hfd.
  destruct (fd_open _ _ _ _ _ _ _ _ I H Hfd) as [Hf _]; [done|].
  unfold filestat. apply safe_bind. eapply safe_getf; [exact I|done|]. intros x Hx.
  destruct (ftype x); call; try done. eapply safe_setp_same; [|done|]; done.
Qed.

(** An open file on a pipe has the pipe; one that is not fresh has a type. *)
Lemma file_pipe k d s f x :
  inv k d [] s -> ftable s !! f = Some x -> 0 < fref x ->
  (ftype x = FD_PIPE -> exists p, pipes s !! fpipe x = Some p) /\ ftype x <> FD_NONE.
Proof.
  intros I Hx Hr. split.
  - intros Ht. destruct (pi_open _ _ (iv_pipes _ _ _ _ _ I) f x (fpipe x) Hx) as (p & Hp & _); [done|]. eauto.
  - intros Ht. destruct (iv_type _ _ _ _ _ I f x Hx) as [_ T]. apply T in Ht; [lia|]. apply not_elem_of_nil.
Qed.
Lemma set_off_inv k s f x g :
  files_inv k s -> ftable s !! f = Some x -> 0 < fref x ->
  fref (g x) = fref x -> ftype (g x) = ftype x -> fpipe (g x) = fpipe x -> writable (g x) = writable x ->
  files_inv k (s <| ftable ::= alter g f |>).
Proof.
  intros I Hx Hr E1 E2 E3 E4. eapply (inv_ext kend k (hold f 0 none_held)).
  - intros h. unfold hold, none_held. by case_decide.
  - eapply (inv_setf kend k none_held [] s f g x 0); try done; lia.
Qed.
Lemma read_pipe_safe (Q : Z * list Z -> sys -> Prop) k s a pp n :
  files_inv k s -> pipes s !! a = Some pp -> (forall r s', files_inv k s' -> Q r s') -> safe (read_pipe me a n) Q s.
Proof.
  intros I Hp HQ. unfold read_pipe, get_pipe. apply safe_bind. eapply safe_getp; [exact I|]. intros q _.
  apply safe_bind, safe_bind, safe_gets. rewrite Hp. apply safe_ret.
  pose proof (piperead_ends (fkilled q) pp (Z.to_nat n)) as E.
  destruct (piperead _ _ _) as [[p' w] [bs| |]]; simpl in E; [|by apply safe_ret, HQ|done].
  apply safe_bind, safe_modify, safe_ret, HQ. by eapply inv_put_pipe.
Qed.
(** A read that finds a hole in the file would log outside of a transaction;
    nothing else goes wrong. *)
Lemma sys_read_keeps : ~ (TRANS ∈ B) -> keeps (sys_read me devread).
Proof.
  intros Hno k s Hk I _. unfold files_inv in *. unfold sys_read. call; try done.
  destruct p0 as [fd f]. pose proof (argfd_fd _ _ _ _ Heqo) as Hfd.
  destruct (fd_open _ _ _ _ _ _ _ _ I H Hfd) as [Hf (x & Hx & Hr)]; [done|].
  destruct (file_pipe _ _ _ _ _ I Hx Hr) as [Hpipe Hty]. cbn [fst snd].
  eapply (safe_mono B _ (fun _ s' => files_inv k s')).
  2:{ intros r s' I'. apply safe_bind. eapply safe_setp_same; [|exact I'|]; done. }
  unfold fileread. apply safe_bind. eapply safe_getf; [exact I|done|]. intros y Hy. assert (y = x) as -> by congruence.
  destruct (negb _); [by apply safe_ret|]. destruct (ftype x) eqn:Et; [done| |].
  - destruct (Hpipe eq_refl) as [pp Hp]. by eapply read_pipe_safe.
  - apply safe_bind, (safe_getp _ k none_held []); [done|]. intros q _. do 4 call_step. apply safe_bind.
    assert (W : forall s', files_inv k s' ->
      safe (onfs (iunlock (fpid q) (fip x));; mret a0) (fun _ s' => files_inv k s') s').
    { intros s' I'. unfold files_inv in *. call. done. }
    case_decide; [apply safe_modify|apply safe_ret]; apply W; [|done]. by eapply (set_off_inv _ _ _ x).
Qed.

(** A process that holds an open file on the pipe writes to it. *)
Lemma write_pipe_safe k s p f x src n :
  files_inv k s -> procs s !! me = Some p -> Some f ∈ ofile p -> ftable s !! f = Some x -> 0 < fref x ->
  ftype x = FD_PIPE -> safe (write_pipe me (fpipe x) src n) (fun _ s' => files_inv k s') s.
Proof.
  intros I Hp Hin Hx Hr Ht. destruct (file_pipe _ _ _ _ _ I Hx Hr) as [Hpipe _]. destruct (Hpipe Ht) as [pp Hpp].
  unfold write_pipe, get_pipe. apply safe_bind. eapply safe_getp; [exact I|]. intros q Hq.
  assert (q = p) as -> by congruence. apply safe_bind, safe_bind, safe_gets. rewrite Hpp. apply safe_ret.
  pose proof (pipewrite_ends (fkilled p) src pp) as E.
  destruct (pipewrite _ _ _) as [[p' w] e]; simpl in E.
  pose proof (inv_put_pipe _ _ _ _ _ _ p' I Hpp E) as I'.
  destruct e; apply safe_bind, safe_modify, safe_bind, safe_modify, safe_ret;
    eapply (inv_block _ _ _ _ p); try done. intros a l m [= <- <- <-]. exists f, x. done.
Qed.
Lemma filewrite_loop_safe k f ip fuel : forall src i s,
  0 <= k -> files_inv k s -> (f < NFILE)%nat -> (forall x, ftable s !! f = Some x -> 0 < fref x) ->
  safe (filewrite_loop me devwrite fuel f ip src i) (fun _ s' => files_inv k s') s.
Proof.
  induction fuel as [|fuel IH]; intros src i s Hk I Hf Hr; cbn [filewrite_loop]; [by apply safe_ret|].
  destruct src as [|c src]; [by apply safe_ret|]. cbv zeta. unfold files_inv in *. do 6 call_step.
  apply safe_bind. eapply safe_getf; [exact I|done|]. intros x Hx. change (ftable _) with (ftable s') in Hx. rewrite H1 in Hx.
  do 2 call_step. apply safe_bind.
  assert (W : forall s', files_inv (k + 1) s' -> (forall x, ftable s' !! f = Some x -> 0 < fref x) ->
    safe (onfs (iunlock (fpid p) ip);; end_op;;
      if decide (a0 < 0) then mret i else
      if decide (a0 <> Z.of_nat (length (take wmax (c :: src)))) then panic "short filewrite" else
      filewrite_loop me devwrite fuel f ip (drop wmax (c :: src)) (i + a0)) (fun _ s' => files_inv k s') s').
  { intros s2 I2 Hr2. unfold files_inv in *. do 4 call_step. case_decide; [by apply safe_ret|].
    case_decide; [call|]. apply IH; [done|done|done|]. intros y Hy. apply Hr2. rewrite H3 in Hy. exact Hy. }
  assert (Hx' : ftable (s' <| fsys := t |> <| fsys := t0 |>) !! f = Some x) by (simpl; by rewrite H1).
  destruct (decide (a0 > 0)); [apply safe_modify|apply safe_ret]; apply W.
  - eapply (set_off_inv _ _ _ x); try done. by apply Hr.
  - intros y. simpl. rewrite list_lookup_alter_eq, H1, Hx. intros [= <-]. simpl. by apply Hr.
  - done.
  - intros y Hy. apply Hr. congruence.
Qed.
Lemma sys_write_keeps : keeps (sys_write me devwrite).
Proof.
  intros k s Hk I _. unfold files_inv in *. unfold sys_write. call; try done.
  destruct p0 as [fd f]. pose proof (argfd_fd _ _ _ _ Heqo) as Hfd.
  destruct (fd_open _ _ _ _ _ _ _ _ I H Hfd) as [Hf (x & Hx & Hr)]; [done|].
  destruct (file_pipe _ _ _ _ _ I Hx Hr) as [Hpipe Hty]. cbn [fst snd].
  unfold filewrite. cbv zeta. apply safe_bind. eapply safe_getf; [exact I|done|]. intros y Hy. assert (y = x) as -> by congruence.
  destruct (negb _); [by apply safe_ret|]. destruct (ftype x) eqn:Et; [done| |].
  - eapply write_pipe_safe; try done. by eapply list_elem_of_lookup_2.
  - apply safe_bind. eapply safe_mono; [apply filewrite_loop_safe; try done|by intros ? ? ?; apply safe_ret].
    intros y Hy'. congruence.
Qed.
(** Resuming needs no descriptor argument: the process still has the pipe. *)
Lemma sys_write_resume_keeps k s :
  files_inv k s -> safe (sys_write_resume me) (fun _ s' => files_inv k s') s.
Proof.
  intros I. unfold sys_write_resume. apply safe_bind. eapply safe_getp; [exact I|]. intros p Hp.
  destruct (fblocked p) as [[[a l] n]|] eqn:Eb; [|by apply safe_ret].
  destruct (iv_blocked _ _ _ _ _ I me p a l n Hp Eb) as (f & x & H1 & H2 & Hr & Ht & <-).
  by eapply write_pipe_safe.
Qed.

(** A file just allocated that no descriptor names is given back. *)
Lemma close_held (Q : unit -> sys -> Prop) k d fr f s :
  inv k d fr s -> 0 <= k -> (f < NFILE)%nat -> names s f = 0%nat -> d f = 1 ->
  (forall s', inv k (hold f (-1) d) (filter (fun h => h <> f) fr) s' -> procs s' = procs s -> Q tt s') ->
  safe (fileclose me kend f) Q s.
Proof.
  intros I Hk Hf Hn Hd HQ. destruct (lookup_lt_is_Some_2 (ftable s) f) as [x Hx]; [by rewrite (iv_table _ _ _ _ _ I)|].
  destruct (iv_ref _ _ _ _ _ I f x Hx) as [Er _]. assert (fref x = 1) by lia.
  eapply (fileclose_safe _ _ _ _ _ x); try done; [lia| |auto]. intros _ i p Hi _. by eapply names_zero.
Qed.
(** The type of a fresh file is set. *)
Lemma inv_inode k d fr s f g :
  inv k d fr s -> f ∈ fr -> (f < NFILE)%nat -> (forall x, fref (g x) = fref x /\ ftype (g x) = FD_INODE) ->
  inv k d (filter (fun h => h <> f) fr) (s <| ftable ::= alter g f |>).
Proof.
  intros I Hf Hlt Hg. pose proof (iv_type _ _ _ _ _ I) as T.
  destruct (lookup_lt_is_Some_2 (ftable s) f) as [x Hx]; [by rewrite (iv_table _ _ _ _ _ I)|].
  destruct (T f x Hx) as [T1 _]. destruct (T1 Hf) as [Ht Hr]. destruct (Hg x) as [G1 G2].
  destruct I as [H1 H2 H3 H4 H5 H6 H7 H8]. split; simpl; try done.
  - by rewrite length_alter.
  - intros h y Hy. names_of s. destruct (decide (f = h)) as [<-|Hn].
    + rewrite list_lookup_alter_eq, Hx in Hy. simplify_eq/=. rewrite G1. auto.
    + rewrite list_lookup_alter_ne in Hy by done. auto.
  - intros h y Hy. rewrite list_elem_of_filter. destruct (decide (f = h)) as [<-|Hn].
    + rewrite list_lookup_alter_eq, Hx in Hy. simplify_eq/=. rewrite G1, G2. split; [naive_solver|]. intros _. split; [done|lia].
    + rewrite list_lookup_alter_ne in Hy by done. destruct (H6 h y Hy) as [U1 U2]. split; [naive_solver|].
      intros Hin. apply U2. intros ?. apply Hin. split; [congruence|done].
  - apply (pipes_inv_same _ _ _ _ x); [done|done| |]; intros a; unfold pipe_file; rewrite ?G1, ?G2, Ht; naive_solver.
  - apply (blocked_same _ _ _ x); [done|done|]. intros a (_ & Hp & _). congruence.
Qed.
Lemma held_back (f : nat) : forall g, none_held g = hold f (-1) (hold f 1 none_held) g.
Proof. intros g. unfold hold, none_held. by repeat case_decide. Qed.
Lemma filter_self (f : nat) : filter (fun h => h <> f) [f] = [].
Proof. rewrite filter_cons_False by auto. done. Qed.

Lemma open_file_safe p ip omode k s :
  0 <= k -> inv (k + 1) none_held [] s -> safe (open_file me kend p ip omode) (fun _ s' => files_inv k s') s.
Proof.
  intros Hk I. unfold files_inv, open_file. apply safe_bind. eapply filealloc_safe; [exact I|done| |].
  { call. done. }
  intros f s' Hf _ Hn _ I' Ep. clear I. rename I' into I. apply safe_bind.
  assert (Hn' : names s' f = 0%nat) by (unfold names in *; by rewrite Ep).
  eapply fdalloc_safe; [exact I|done| |].
  - apply safe_bind. eapply (close_held _ _ _ _ _ _ I); [lia|done|done| |].
    + unfold hold, none_held. by rewrite decide_True.
    + intros s2 I2 _. rewrite filter_self in I2. apply (inv_ext _ _ _ none_held) in I2; [|apply held_back].
      clear I. rename I2 into I. call. done.
  - intros q fd s2 _ _ I2 _ _. apply (inv_ext _ _ _ none_held) in I2; [|apply held_back].
    clear I. rename I2 into I. do 4 call_step. apply safe_bind, safe_modify, safe_ret.
    rewrite <- (filter_self f). apply inv_inode; [done|by left|done|done].
Qed.
Lemma sys_open_keeps : keeps (sys_open me kend devread devwrite).
Proof.
  intros k s Hk I _. unfold files_inv in *. unfold sys_open.
  call; try done; by apply open_file_safe.
Qed.

(** Two fresh files become the ends of a new pipe. *)
Definition read_end (a : Z) (x : file) : file :=
  x <| ftype := FD_PIPE |> <| readable := true |> <| writable := false |> <| fpipe := a |>.
Definition write_end (a : Z) (x : file) : file :=
  x <| ftype := FD_PIPE |> <| readable := false |> <| writable := true |> <| fpipe := a |>.
Section new_pipe.
Context (s s' : sys) (r w : nat) (x y : file) (a : Z) (p : pipe).
Hypothesis Hrw : r <> w.
Hypothesis Hx : ftable s !! r = Some x.
Hypothesis Hy : ftable s !! w = Some y.
Hypothesis Fx : ftype x = FD_NONE /\ 0 < fref x.
Hypothesis Fy : ftype y = FD_NONE /\ 0 < fref y.
Hypothesis Ha : pipes s !! a = None.
Hypothesis Hends : forall b, endopen b p = true.
Hypothesis Et : ftable s' = alter (write_end a) w (alter (read_end a) r (ftable s)).
Hypothesis Ei : pipes s' = <[a := p]> (pipes s).
Lemma new_ends h z : ftable s' !! h = Some z ->
  (h = r /\ z = read_end a x) \/ (h = w /\ z = write_end a y) \/ (h <> r /\ h <> w /\ ftable s !! h = Some z).
Proof.
  rewrite Et. intros Hz. destruct (decide (w = h)) as [<-|].
  - rewrite list_lookup_alter_eq, list_lookup_alter_ne, Hy in Hz by done. simplify_eq/=. auto.
  - rewrite list_lookup_alter_ne in Hz by done. destruct (decide (r = h)) as [<-|].
    + rewrite list_lookup_alter_eq, Hx in Hz. simplify_eq/=. auto.
    + rewrite list_lookup_alter_ne in Hz by done. auto.
Qed.
Lemma new_read : ftable s' !! r = Some (read_end a x).
Proof. by rewrite Et, list_lookup_alter_ne, list_lookup_alter_eq, Hx. Qed.
Lemma new_write : ftable s' !! w = Some (write_end a y).
Proof. by rewrite Et, list_lookup_alter_eq, list_lookup_alter_ne, Hy. Qed.
Lemma old_file h z b : ftable s !! h = Some z -> pipe_file z b -> h <> r /\ h <> w /\ ftable s' !! h = Some z.
Proof.
  intros Hz (_ & F & _). assert (h <> r) by (intros ->; destruct Fx; congruence).
  assert (h <> w) by (intros ->; destruct Fy; congruence). split; [done|]. split; [done|].
  by rewrite Et, !list_lookup_alter_ne.
Qed.
Lemma new_pipes : pipes_inv kend s -> pages_ok kend s' -> pipes_inv kend s'.
Proof.
  intros [A1 A2 A3 A4 _] Hpg.
  assert (O : forall h z b, ftable s !! h = Some z -> pipe_file z b -> b <> a).
  { intros h z b Hz Hb ->. destruct (A1 _ _ _ Hz Hb) as (q & Hq & _). congruence. }
  split; [| | | |exact Hpg].
  - intros h z b Hz Hb. rewrite Ei. destruct (new_ends h z Hz) as [[-> ->]|[[-> ->]|(N1 & N2 & Hz')]].
    + destruct Hb as (_ & _ & <-). exists p. by rewrite lookup_insert_eq.
    + destruct Hb as (_ & _ & <-). exists p. by rewrite lookup_insert_eq.
    + rewrite lookup_insert_ne by (by apply not_eq_sym, (O h z)). eauto.
  - intros h g z z' b Hz Hz' Hb Hb' Hw.
    destruct (new_ends h z Hz) as [[-> ->]|[[-> ->]|(N1 & N2 & U)]],
      (new_ends g z' Hz') as [[-> ->]|[[-> ->]|(N1' & N2' & U')]]; try done.
    + destruct Hb as (_ & _ & <-). by destruct (O _ _ _ U' Hb').
    + destruct Hb as (_ & _ & <-). by destruct (O _ _ _ U' Hb').
    + destruct Hb' as (_ & _ & <-). by destruct (O _ _ _ U Hb).
    + destruct Hb' as (_ & _ & <-). by destruct (O _ _ _ U Hb).
    + eauto.
  - intros b q v Hq Hv. rewrite Ei in Hq. destruct (decide (b = a)) as [->|Hn].
    + destruct v; [exists w, (write_end a y)|exists r, (read_end a x)].
      * split; [apply new_write|]. split; [|done]. split; [apply Fy|done].
      * split; [apply new_read|]. split; [|done]. split; [apply Fx|done].
    + rewrite lookup_insert_ne in Hq by done. destruct (A3 b q v Hq Hv) as (h & z & Hz & Hb & Hw).
      exists h, z. split; [|done]. by eapply old_file.
  - intros b q Hq. rewrite Ei in Hq. destruct (decide (b = a)) as [->|Hn].
    + rewrite lookup_insert_eq in Hq. simplify_eq. exists true. apply Hends.
    + rewrite lookup_insert_ne in Hq by done. eauto.
Qed.
Lemma new_pipe_inv k d fr :
  inv k d fr s -> r ∈ fr -> w ∈ fr -> ops s' = ops s -> procs s' = procs s -> pages_ok kend s' ->
  inv k d (filter (fun h => h <> w) (filter (fun h => h <> r) fr)) s'.
Proof.
  intros [H1 H2 H3 H4 H5 H6 H7 H8] Hr Hw Eo Ep Hpg.
  assert (N : forall f, names s' f = names s f) by (intros; unfold names; by rewrite Ep).
  split; rewrite ?Eo, ?Ep; try done.
  - by rewrite Et, !length_alter.
  - intros h z Hz. rewrite N. destruct (new_ends h z Hz) as [[-> ->]|[[-> ->]|(N1 & N2 & U)]]; [exact (H5 r x Hx)|exact (H5 w y Hy)|auto].
  - intros h z Hz. rewrite !list_elem_of_filter. destruct (new_ends h z Hz) as [[-> ->]|[[-> ->]|(N1 & N2 & U)]].
    + simpl. destruct Fx. split; [naive_solver|]. intros _. split; [done|lia].
    + simpl. destruct Fy. split; [naive_solver|]. intros _. split; [done|lia].
    + destruct (H6 h z U) as [U1 U2]. split; [naive_solver|]. intros Hin. apply U2. naive_solver.
  - by apply new_pipes.
  - intros i q b l n Hi Hq. rewrite Ep in Hi. destruct (H8 i q b l n Hi Hq) as (h & z & F1 & F2 & F3).
    exists h, z. split; [done|]. split; [|done]. by eapply old_file.
Qed.
End new_pipe.

Lemma held_two (r w : nat) : r <> w ->
  forall g, none_held g = hold w (-1) (hold r (-1) (hold w 1 (hold r 1 none_held))) g.
Proof. intros Hn g. unfold hold, none_held. by repeat case_decide; subst. Qed.
Lemma hold_r (r w : nat) : r <> w -> hold w 1 (hold r 1 none_held) r = 1.
Proof. intros Hn. unfold hold, none_held. by rewrite decide_False, decide_True. Qed.
Lemma hold_w (r w : nat) : r <> w -> hold r (-1) (hold w 1 (hold r 1 none_held)) w = 1.
Proof. intros Hn. unfold hold, none_held. rewrite decide_False by done. by rewrite decide_True, decide_False. Qed.
(** Both files in hand are given back. *)
Lemma close_both {A} (m : M sys A) (Q : A -> sys -> Prop) k r w fr s :
  inv k (hold w 1 (hold r 1 none_held)) fr s -> 0 <= k -> r <> w -> (r < NFILE)%nat -> (w < NFILE)%nat ->
  names s r = 0%nat -> names s w = 0%nat -> (forall f, f ∈ fr -> f = r \/ f = w) ->
  (forall s', files_inv k s' -> safe m Q s') -> safe (fileclose me kend r;; fileclose me kend w;; m) Q s.
Proof.
  intros I Hk Hrw Hr Hw Nr Nw Hfr HQ. apply safe_bind.
  eapply (close_held _ _ _ _ _ _ I); [done|done|done|by apply hold_r|]. intros s1 I1 E1. apply safe_bind.
  eapply (close_held _ _ _ _ _ _ I1); [done|done| |by apply hold_w|].
  { unfold names in *. by rewrite E1. }
  intros s2 I2 _. apply HQ. unfold files_inv. apply (inv_ext _ _ _ none_held) in I2; [|by apply held_two].
  assert (E : filter (fun h => h <> w) (filter (fun h => h <> r) fr) = []).
  { destruct (filter _ (filter _ _)) as [|f l] eqn:E; [done|].
    assert (Hin : f ∈ f :: l) by left. rewrite <- E, !list_elem_of_filter in Hin. destruct Hin as (N1 & N2 & Hin).
    by destruct (Hfr f Hin). }
  by rewrite E in I2.
Qed.
Lemma pipealloc_safe (Q : option (nat * nat) -> sys -> Prop) k s :
  0 <= k -> files_inv k s -> (forall s', files_inv k s' -> Q None s') ->
  (forall r w s', r <> w -> (r < NFILE)%nat -> (w < NFILE)%nat -> names s r = 0%nat -> names s w = 0%nat ->
     inv k (hold w 1 (hold r 1 none_held)) [] s' -> procs s' = procs s -> Q (Some (r, w)) s') ->
  safe (pipealloc me kend) Q s.
Proof.
  intros Hk I HN HS. unfold pipealloc. apply safe_bind.
  eapply filealloc_safe; [exact I|done|by apply safe_ret, HN|]. intros r s1 Hr _ Nr _ I1 E1. apply safe_bind.
  assert (N1 : forall f, names s1 f = names s f) by (intros; unfold names; by rewrite E1).
  eapply filealloc_safe; [exact I1| | |].
  { intros f. unfold hold, none_held. case_decide; lia. }
  { apply safe_bind. eapply (close_held _ _ _ _ _ _ I1); [done|done|by rewrite N1| |].
    - unfold hold, none_held. by rewrite decide_True.
    - intros s2 I2 _. apply safe_ret, HN. rewrite filter_self in I2. eapply inv_ext; [|exact I2]. apply held_back. }
  intros w s2 Hw Hnin Nw _ I2 E2. assert (Hrw : r <> w) by (intros ->; apply Hnin; by left).
  assert (N2 : forall f, names s2 f = names s f) by (intros; unfold names; by rewrite E2, E1).
  rewrite N1 in Nw. apply safe_bind.
  destruct (pi_pages _ _ (iv_pipes _ _ _ _ _ I2)) as (l & L1 & L2). pose proof (kalloc_run kend _ _ L1) as Hal.
  unfold FileFacts.safe at 1, onkm, zoom. destruct l as [|a l].
  - rewrite Hal. rewrite decide_True by done.
    assert (I3 : inv k (hold w 1 (hold r 1 none_held)) [w; r] (s2 <| kpages := kpages s2 |>)).
    { eapply inv_frame; [exact I2|apply I2|done..]. }
    eapply (close_both _ _ _ _ _ _ _ I3); try done.
    + names_of s2. by rewrite N2.
    + names_of s2. by rewrite N2.
    + intros f. rewrite !elem_of_cons, elem_of_nil. naive_solver.
  - destruct Hal as (km & Hal & Epm & Hkm & Hpg). rewrite Hal.
    rewrite decide_False by (pose proof (page_pos _ _ Hpg); lia).
    apply safe_bind, safe_gets, safe_bind, safe_modify, safe_bind, safe_modify, safe_bind, safe_modify, safe_ret.
    destruct (lookup_lt_is_Some_2 (ftable s2) r) as [x Hx]; [by rewrite (iv_table _ _ _ _ _ I2)|].
    destruct (lookup_lt_is_Some_2 (ftable s2) w) as [y Hy]; [by rewrite (iv_table _ _ _ _ _ I2)|].
    assert (Fx : ftype x = FD_NONE /\ 0 < fref x) by (apply (iv_type _ _ _ _ _ I2 r x Hx); right; left).
    assert (Fy : ftype y = FD_NONE /\ 0 < fref y) by (apply (iv_type _ _ _ _ _ I2 w y Hy); left).
    assert (Hfree : pipes s2 !! a = None).
    { destruct (pipes s2 !! a) eqn:E; [|done]. destruct (L2 a ltac:(by rewrite E)) as [_ []]. left. }
    apply HS; try done; [|by rewrite <- E1, <- E2].
    assert (E : filter (fun h => h <> w) (filter (fun h => h <> r) [w; r]) = []).
    { rewrite (filter_cons_True _ w) by done. rewrite (filter_cons_False _ r) by auto. simpl.
      rewrite (filter_cons_False _ w) by auto. done. }
    rewrite <- E. eapply (new_pipe_inv s2 _ r w x y a); try done; [by intros []|by right; left|left|].
    exists l. split; [done|]. intros b Hb. simpl in Hb. destruct (decide (b = a)) as [->|Hn].
    + split; [done|]. pose proof (km_nodup _ _ _ L1) as Hnd. by inversion Hnd.
    + rewrite lookup_insert_ne in Hb by done. destruct (L2 b Hb) as [P1 P2]. split; [done|]. intros ?. apply P2. by right.
Qed.

(** Clearing the descriptor just set gives back the processes. *)
Lemma unset_fd (l : list fproc) (i fd f : nat) p :
  l !! i = Some p -> ofile p !! fd = Some None ->
  alter (fun p => p <| ofile ::= insert fd None |>) i (alter (fun p => p <| ofile ::= insert fd (Some f) |>) i l) = l.
Proof.
  intros Hp Hfd. apply list_eq. intros j. destruct (decide (i = j)) as [<-|Hn].
  - rewrite !list_lookup_alter_eq, Hp. simpl. f_equal. destruct p as [a b o c u e]. simpl in *. f_equal.
    rewrite list_insert_insert_eq. by apply list_insert_id.
  - by rewrite !list_lookup_alter_ne.
Qed.
Lemma sys_pipe_keeps : keeps (sys_pipe me kend).
Proof.
  intros k s Hk I Hb. unfold files_inv in *. unfold sys_pipe. call; try done.
  eapply pipealloc_safe; [done|exact I|intros; by apply safe_ret|].
  intros r w s1 Hrw Hr Hw Nr Nw I1 E1. cbn [try]. apply safe_bind.
  eapply fdalloc_safe; [exact I1|done| |].
  { apply safe_bind, safe_ret, safe_bind, safe_ret. eapply (close_both _ _ _ _ _ _ _ I1); try done.
    - unfold names in *. by rewrite E1.
    - unfold names in *. by rewrite E1.
    - by intros f ?%not_elem_of_nil. }
  intros q fd0 s2 Hq Hfd I2 F2 P2. apply safe_bind. eapply fdalloc_safe; [exact I2|done| |].
  - assert (P3 : alter (fun p => p <| ofile ::= insert fd0 None |>) me (procs s2) = procs s).
    { by rewrite P2, (unset_fd _ _ _ _ q), E1. }
    apply safe_bind, safe_modify. eapply close_both; [|done|exact Hrw|done|done| | | |].
    + eapply (clear_fd _ _ _ _ r fd0 s2 (q <| ofile ::= insert fd0 (Some r) |>)); [exact I2| | | |].
      * by rewrite P2, list_lookup_alter_eq, Hq.
      * simpl. apply list_lookup_insert_eq. by eapply lookup_lt_Some.
      * apply (Hb q). by rewrite <- E1.
      * intros g. unfold hold, none_held. by repeat case_decide; subst.
    + exact (eq_trans (f_equal (sum_with _) P3) Nr).
    + exact (eq_trans (f_equal (sum_with _) P3) Nw).
    + by intros f ?%not_elem_of_nil.
    + intros s' I'. by apply safe_ret.
  - intros q' fd1 s3 _ _ I3 _ _. apply safe_bind. eapply safe_setp_same; [|exact I3|]; [done|]. intros s4 I4.
    apply safe_bind. eapply safe_setp_same; [|exact I4|]; [done|]. intros s5 I5. apply safe_ret.
    eapply inv_ext; [|exact I5]. by apply held_two.
Qed.

Lemma fork_files_safe k s np q :
  files_inv k s -> np <> me -> procs s !! np = Some q -> (forall i, (i < NOFILE)%nat -> ofile q !! i = Some None) ->
  fblocked q = None -> safe (fork_files me np) (fun _ s' => files_inv k s') s.
Proof.
  intros I Hne Hq Hfree Hbq. unfold fork_files. apply safe_bind. eapply safe_getp; [exact I|]. intros p Hp. apply safe_bind.
  assert (L : forall n j s', files_inv k s' -> procs s' !! me = Some p ->
    (exists q, procs s' !! np = Some q /\ fblocked q = None /\ forall i, (j <= i < NOFILE)%nat -> ofile q !! i = Some None) ->
    (j + n = NOFILE)%nat ->
    safe (mfor (seq j n) (fun i => match mjoin (ofile p !! i) with
      | None => mret tt
      | Some f => f' ← filedup f; File.setp np (fun q => q <| ofile ::= insert i (Some f') |>)
      end)) (fun _ s' => files_inv k s') s').
  { clear s q I Hp Hq Hfree Hbq. induction n as [|n IH]; intros j s I Hp (q & Hq & Hbq & Hfree) Hj; cbn [seq mfor]; [by apply safe_ret|].
    apply safe_bind. destruct (ofile p !! j) as [[f|]|] eqn:Ej; simpl mjoin.
    - destruct (fd_open _ _ _ _ _ _ _ _ I Hp Ej) as [Hf (x & Hx & Hr)]; [done|].
      apply safe_bind. eapply (filedup_safe _ _ _ _ _ x); [exact I|done|done|done|]. intros s2 I2 E2.
      apply safe_modify. apply IH; [| | |lia].
      + eapply (inv_setp kend k (hold f 1 none_held) none_held [] s2 np q _ j None (Some f)); try done.
        * by rewrite E2.
        * apply Hfree. lia.
        * by left.
        * by intros ? [= <-].
        * intros g. unfold hold, none_held, one. destruct (decide (g = f)) as [->|Hn].
          -- by rewrite (decide_True (P := Some f = Some f)) by done.
          -- by rewrite (decide_False (P := Some f = Some g)) by congruence.
      + simpl. rewrite list_lookup_alter_ne by done. by rewrite E2.
      + exists (q <| ofile ::= insert j (Some f) |>). simpl. rewrite list_lookup_alter_eq, E2, Hq. split; [done|].
        split; [done|]. intros i Hi. rewrite list_lookup_insert_ne by lia. apply Hfree. lia.
    - apply safe_ret. apply IH; [done|done| |lia]. exists q. split; [done|]. split; [done|]. intros i Hi. apply Hfree. lia.
    - apply safe_ret. apply IH; [done|done| |lia]. exists q. split; [done|]. split; [done|]. intros i Hi. apply Hfree. lia. }
  eapply safe_mono.
  - apply (L NOFILE 0%nat s I Hp); [|lia]. exists q. split; [done|]. split; [done|]. intros i Hi. apply Hfree. lia.
  - clear I. intros u s' I. cbv beta in I. clear u. unfold files_inv in *. do 2 call_step. eapply safe_setp_same; [|exact I|]; done.
Qed.
Lemma exit_files_keeps : keeps (exit_files me kend).
Proof.
  intros k s Hk I Hb. unfold exit_files. apply safe_bind.
  apply (safe_mfor B _ _ (fun s => files_inv k s /\ forall p, procs s !! me = Some p -> fblocked p = None)); [done| |].
  - clear s I Hb. intros fd s _ [I Hb]. apply safe_bind. eapply safe_getp; [exact I|]. intros p Hp.
    destruct (ofile p !! fd) as [[f|]|] eqn:Efd; simpl mjoin; [|by apply safe_ret|by apply safe_ret].
    destruct (fd_open _ _ _ _ _ _ _ _ I Hp Efd) as [Hf (x & Hx & Hr)]; [done|]. apply safe_bind.
    eapply (fileclose_safe _ _ _ _ _ x); [exact I|done|done|done|by intros ?%not_elem_of_nil| |].
    + intros E1 i q Hi Hbq [j Hj]%list_elem_of_lookup. destruct (iv_ref _ _ _ _ _ I f x Hx) as [Er _].
      unfold none_held in Er. assert (Hne : i <> me) by (intros ->; apply Hbq; auto).
      pose proof (sum_two (fun p => cnt f (ofile p)) _ _ _ _ _ Hne Hi Hp) as H2. simpl in H2.
      pose proof (cnt_pos _ _ _ Hj). pose proof (cnt_pos _ _ _ Efd). unfold names in Er. lia.
    + intros s2 I2 E2 _. rewrite <- E2 in Hp. apply safe_modify. split.
      * eapply (clear_fd _ _ _ _ f fd s2 p I2); [done|done| |].
        -- apply Hb. by rewrite <- E2.
        -- intros g. unfold hold, none_held. by repeat case_decide.
      * intros q. simpl. rewrite list_lookup_alter_eq, Hp. intros [= <-]. simpl. apply Hb. by rewrite <- E2.
  - clear I Hb. intros s' [I _]. unfold files_inv in *. call. done.
Qed.
End calls.

(** ** Sequences of calls *)

Inductive fcall :=
| CDup | CRead | CWrite | CResume | CClose | CFstat | CLink | CUnlink | COpen | CMkdir | CMknod | CChdir
| CPipe | CFork (np : nat) | CExit.
#[export] Instance fcall_eq : EqDecision fcall.
Proof. solve_decision. Defined.

Section system.
Context (kend : Z).
Context (devread : Z -> option (nat -> Z -> M fs (Z * list Z))).
Context (devwrite : Z -> option (nat -> list Z -> M fs Z)).
Implicit Types (s : sys).

Definition run (me : nat) (c : fcall) : M sys unit :=
  match c with
  | CDup => sys_dup me;; mret tt
  | CRead => sys_read me devread;; mret tt
  | CWrite => sys_write me devwrite;; mret tt
  | CResume => sys_write_resume me;; mret tt
  | CClose => sys_close me kend;; mret tt
  | CFstat => sys_fstat me;; mret tt
  | CLink => sys_link me devread devwrite;; mret tt
  | CUnlink => sys_unlink me devread devwrite;; mret tt
  | COpen => sys_open me kend devread devwrite;; mret tt
  | CMkdir => sys_mkdir me devread devwrite;; mret tt
  | CMknod => sys_mknod me devread devwrite;; mret tt
  | CChdir => sys_chdir me devread;; mret tt
  | CPipe => sys_pipe me kend;; mret tt
  | CFork np => fork_files me np
  | CExit => exit_files me kend
  end.
(** A process asleep in pipewrite only goes on with it; a new process gets a
    slot with no descriptors. *)
Definition enabled (me : nat) (c : fcall) s : Prop :=
  (me < NPROC)%nat /\
  (c = CResume \/ forall p, procs s !! me = Some p -> fblocked p = None) /\
  forall np, c = CFork np -> np <> me /\ exists q, procs s !! np = Some q /\
    (forall i, (i < NOFILE)%nat -> ofile q !! i = Some None) /\ fblocked q = None.
(** A call, the process's own computation, or a kill. *)
Inductive fstep s : sys -> Prop :=
| f_call me c s' : enabled me c s -> run me c s = Ok (s', tt) -> fstep s s'
| f_user i u : fstep s (s <| procs ::= alter (fun p => p <| fuser := u |>) i |>)
| f_kill i : fstep s (s <| procs ::= alter (fun p => p <| fkilled := true |>) i |>).

(** The state after boot: nothing is open. *)
Record files_init s : Prop := {
  fi_ops : ops s = 0;
  fi_table : ftable s = replicate NFILE file_zero;
  fi_procs : length (procs s) = NPROC;
  fi_ofile : forall p, p ∈ procs s -> ofile p = replicate NOFILE None /\ fblocked p = None;
  fi_pipes : pipes s = ∅;
  fi_pages : exists l, kmem_ok kend (kpages s) l;
}.
Lemma init_inv s : files_init s -> files_inv kend 0 s.
Proof.
  intros [H1 H2 H3 H4 H5 H6].
  assert (T : forall f x, ftable s !! f = Some x -> x = file_zero).
  { intros f x. rewrite H2. by intros [-> _]%lookup_replicate. }
  assert (N : forall f, names s f = 0%nat).
  { intros f. unfold names. assert (sum_with (fun p => cnt f (ofile p)) (procs s) <= 0 * length (procs s))%nat; [|lia].
    apply sum_at_most. intros p Hp. destruct (H4 p Hp) as [-> _]. rewrite cnt_none; [done|]. by apply Forall_replicate. }
  split; try done.
  - by rewrite H2, length_replicate.
  - intros p Hp. destruct (H4 p Hp) as [-> _]. rewrite length_replicate. split; [done|].
    intros f [i Hi]%list_elem_of_lookup. by apply lookup_replicate in Hi as [Hi _].
  - intros f x ->%T. rewrite N. done.
  - intros f x ->%T. split; [by intros ?%not_elem_of_nil|done].
  - split.
    + intros f x a ->%T [Hr _]. simpl in Hr. lia.
    + intros f g x y a ->%T _ [Hr _]. simpl in Hr. lia.
    + intros a p w. rewrite H5. by rewrite lookup_empty.
    + intros a p. rewrite H5. by rewrite lookup_empty.
    + destruct H6 as [l Hl]. exists l. split; [done|]. intros a. rewrite H5, lookup_empty. by intros [? ?].
  - intros i p a l n Hi Hb. destruct (H4 p ltac:(by eapply list_elem_of_lookup_2)) as [_ E]. congruence.
Qed.

Hypothesis dr_clean : forall n rd i k, devread n = Some rd -> clean panics (rd i k).
Hypothesis dw_clean : forall n wr i l, devwrite n = Some wr -> clean panics (wr i l).

Lemma run_safe B me c s :
  (forall e, e ∈ B -> e ∈ panics) -> (c = CRead -> ~ (TRANS ∈ B)) -> enabled me c s -> files_inv kend 0 s ->
  safe B (run me c) (fun _ s' => files_inv kend 0 s') s.
Proof.
  intros HB Hr (Hme & Hb & Hnp) I.
  assert (K : forall A (m : M sys A), c <> CResume -> keeps kend me B m ->
    safe B (m;; mret tt) (fun _ s' => files_inv kend 0 s') s).
  { intros A m Hc Hm. apply safe_bind. eapply safe_mono; [apply (Hm 0 s); [done|done|by destruct Hb]|].
    intros a s' I'. by apply safe_ret. }
  destruct c; cbn [run]; try (apply K; [done|]).
  - by apply sys_dup_keeps.
  - apply sys_read_keeps; auto.
  - by apply sys_write_keeps.
  - apply safe_bind. eapply safe_mono; [by apply sys_write_resume_keeps|]. intros a s' I'. by apply safe_ret.
  - by apply sys_close_keeps.
  - by apply sys_fstat_keeps.
  - by apply sys_link_keeps.
  - by apply sys_unlink_keeps.
  - by apply sys_open_keeps.
  - by apply sys_mkdir_keeps.
  - by apply sys_mknod_keeps.
  - by apply sys_chdir_keeps.
  - by apply sys_pipe_keeps.
  - destruct (Hnp np eq_refl) as (Hne & q & Hq & Hfree & Hbq). by eapply fork_files_safe.
  - apply exit_files_keeps; try done. by destruct Hb.
Qed.
Lemma reach_inv s0 s : files_init s0 -> rtc fstep s0 s -> files_inv kend 0 s.
Proof.
  intros H0. apply rtc_invariant; [by apply init_inv|]. intros x y I Hs. destruct Hs as [me c s' He Hrun|i u|i].
  - pose proof (run_safe [] me c x ltac:(intros e ?; set_solver) ltac:(intros _; set_solver) He I) as H.
    unfold safe in H. by rewrite Hrun in H.
  - by apply inv_setp_same.
  - by apply inv_setp_same.
Qed.

(** C7: whatever the processes do with files, after any sequence of file
    system calls, forks, exits and kills the reference count of every open file
    is the number of descriptors that name it, so a file is neither freed early
    nor leaked; a pipe and its page exist exactly as long as a file is open on
    it; and no transaction is left open. *)
Theorem descriptors_counted s0 s :
  files_init s0 -> rtc fstep s0 s ->
  (forall f x, ftable s !! f = Some x -> fref x = Z.of_nat (names s f) /\ (ftype x = FD_NONE <-> fref x = 0)) /\
  (forall a, is_Some (pipes s !! a) <-> exists f x, ftable s !! f = Some x /\ pipe_file x a) /\
  ops s = 0.
Proof.
  intros H0 Hr. pose proof (reach_inv _ _ H0 Hr) as I. split; [|split; [|apply I]].
  - intros f x Hx. destruct (iv_ref _ _ _ _ _ I f x Hx) as [E _]. unfold none_held in E. split; [lia|].
    apply (iv_type _ _ _ _ _ I f x Hx). apply not_elem_of_nil.
  - destruct (iv_pipes _ _ _ _ _ I) as [A1 A2 A3 A4 _]. intros a. split.
    + intros [p Hp]. destruct (A4 a p Hp) as [w Hw]. destruct (A3 a p w Hp Hw) as (f & x & H1 & H2 & _). eauto.
    + intros (f & x & Hx & Hp). destruct (A1 f x a Hx Hp) as (p & E & _). by rewrite E.
Qed.
(** C13: no file system call ever panics because it duplicates, closes, reads
    or writes a file that is not open, uses a freed pipe or frees a page twice;
    and none but a read of a file with holes writes to the log outside of a
    transaction. *)
Theorem calls_never_misuse s0 s me c e :
  files_init s0 -> rtc fstep s0 s -> enabled me c s -> run me c s = Panic e ->
  ~ (e ∈ misuse) /\ (c <> CRead -> e <> TRANS).
Proof.
  intros H0 Hr He Hp. pose proof (reach_inv _ _ H0 Hr) as I.
  assert (P : forall B : list string, (forall e, e ∈ B -> e ∈ panics) -> (c = CRead -> ~ (TRANS ∈ B)) -> ~ (e ∈ B)).
  { intros B HB Hc. pose proof (run_safe B me c s HB Hc He I) as H. unfold safe in H. by rewrite Hp in H. }
  split.
  - apply P; [intros; right; apply elem_of_app; by left|]. intros _. refine (proj1 (bool_decide_eq_false _) _). vm_compute. reflexivity.
  - intros Hc ->. apply (P [TRANS]); [intros ? ->%list_elem_of_singleton; left|done|left].
Qed.
End system.

(** A machine with two free pages and no files; process 0 calls with the
    argument 200, which points to the path of the root. *)
Definition no_dev {A} : Z -> option A := fun _ => None.
Definition fs_empty : fs := mkfs (fun _ => []) [] [] (mksb 0 0 0 0 0 0 0).
Definition caller : fproc :=
  mkfproc 1 false (replicate NOFILE None) 0
    (mkuctx (put_bytes (put_bytes (fun _ => 0) 104 (le_enc 4 200)) 200 [SLASH]) 4096 100) None.
Definition sys0 : sys :=
  mksys fs_empty 0 (replicate NFILE file_zero) ∅ kmem_two (replicate NPROC caller).
Lemma sys0_init : files_init KERNBASE sys0.
Proof.
  split; try reflexivity.
  - intros p [i [-> _]%lookup_replicate]%list_elem_of_lookup. done.
  - exists [pg 1; pg 0]. apply kmem_two_ok.
Qed.
Lemma sys0_enabled c : c = CPipe \/ c = COpen -> enabled 0 c sys0.
Proof.
  intros Hc. split; [unfold NPROC; lia|]. split; [right|].
  - intros p Hp. change (replicate NPROC caller !! 0%nat = Some p) in Hp.
    by apply lookup_replicate in Hp as [-> _].
  - intros np ->. by destruct Hc.
Qed.
Definition sys1 : sys := exec (run KERNBASE no_dev no_dev 0 CPipe) sys0.
Lemma sys1_run : run KERNBASE no_dev no_dev 0 CPipe sys0 = Ok (sys1, tt).
Proof.
  unfold sys1, exec. destruct (run _ _ _ 0 CPipe sys0) as [[s []]|e|e] eqn:E; [done| |];
    (assert (H : match run KERNBASE no_dev no_dev 0 CPipe sys0 with Ok _ => true | _ => false end = true)
       by (vm_compute; reflexivity)); by rewrite E in H.
Qed.
Lemma descriptors_counted_witness :
  rtc (fstep KERNBASE no_dev no_dev) sys0 sys1 /\
  (forall f x, ftable sys1 !! f = Some x -> fref x = Z.of_nat (names sys1 f) /\ (ftype x = FD_NONE <-> fref x = 0)).
Proof.
  assert (R : rtc (fstep KERNBASE no_dev no_dev) sys0 sys1).
  { apply rtc_once. apply (f_call _ _ _ _ 0 CPipe); [apply sys0_enabled; by left|apply sys1_run]. }
  split; [exact R|]. apply (descriptors_counted KERNBASE no_dev no_dev) with (s0 := sys0); [done|done|apply sys0_init|exact R].
Defined.
Lemma calls_never_misuse_witness :
  run KERNBASE no_dev no_dev 0 COpen sys0 = Panic "iget: no inodes" /\ ~ ("iget: no inodes" ∈ misuse).
Proof.
  assert (E : run KERNBASE no_dev no_dev 0 COpen sys0 = Panic "iget: no inodes") by (vm_compute; reflexivity).
  split; [exact E|].
  apply (calls_never_misuse KERNBASE no_dev no_dev) with (s0 := sys0) (s := sys0) (me := 0%nat) (c := COpen);
    [done|done|apply sys0_init|apply rtc_refl|apply sys0_enabled; by right|exact E].
Defined.
