(* ===== verification/Exec.v ===== *)
(** Loading programs (exec.c, elf.h, and sys_exec of sysfile.c).

    exec works on three parts of the kernel: the file system and the page
    allocator, which are in [sys], and the current process.  The strings of
    argv are those sys_exec found in the memory of the process, which exec
    leaves alone until it has succeeded. *)
From S2P Require Import Prelude Spinlock Proc Cstring Kalloc Vm Sleeplock Fs Pipe Syscall File Sysfile.

Definition MAXARG : nat := 32.
Definition ELF_MAGIC : Z := 1179403647.
Definition ELF_PROG_LOAD : Z := 1.
(** The fields of the two headers exec reads, in their places. *)
Record elfhdr := mkelf { magic : Z; entry_ : Z; phoff : Z; phnum : Z }.
Definition ELFHDR : Z := 52.
Definition get_elfhdr (b : list Z) : elfhdr := mkelf (u32 (get32 b 0)) (u32 (get32 b 24)) (u32 (get32 b 28)) (u16 (get16 b 44)).
Record proghdr := mkph { ph_type : Z; ph_off : Z; ph_vaddr : Z; ph_filesz : Z; ph_memsz : Z }.
Definition PROGHDR : Z := 32.
Definition get_proghdr (b : list Z) : proghdr := mkph (u32 (get32 b 0)) (u32 (get32 b 4)) (u32 (get32 b 8)) (u32 (get32 b 16)) (u32 (get32 b 20)).

(** The state: [xproc] is the current process as the process table has it. *)
Record xst := mkxst { xsys : sys; xproc : Proc.proc }.
#[export] Instance eta_xst : Eta xst := fun s => mkxst (xsys s) (xproc s).
Definition onsys {A} (m : M sys A) : M xst A := zoom xsys (fun t s => s <| xsys := t |>) m.
Definition onk (A : Type) (m : M kmem A) : M xst A := onsys (onkm m).
Arguments onk {A}.

Section exec.
Context (me : nat) (kend kdata : Z).
Context (devread : Z -> option (nat -> Z -> M fs (Z * list Z))).
Context (devwrite : Z -> option (nat -> list Z -> M fs Z)).

Definition pid_ (s : xst) : Z := fpid (procs (xsys s) !!! me).
Definition cwd_ (s : xst) : nat := fcwd (procs (xsys s) !!! me).
Definition xreadi (ip : nat) (off n : Z) : M xst (Z * list Z) := onsys (onfs (readi devread ip off n)).
Definition xput (ip : nat) : M xst unit :=
  p ← gets pid_;
  onsys (onfs (iunlockput p ip));;
  onsys end_op.

(** The label bad. *)
Definition bad (pgdir : Z) (ip : option nat) : M xst Z :=
  (if decide (pgdir = 0) then mret tt else onk (Vm.freevm kend pgdir));;
  (match ip with Some ip => xput ip | None => mret tt end);;
  mret (-1).
(** One program header of the loop: the size after it; [None] is a jump to bad. *)
Definition load_segment (ip : nat) (pgdir : Z) (ph : proghdr) (sz : Z) : M xst (option Z) :=
  if decide (ph_memsz ph < ph_filesz ph) then mret None else
  if decide (u32 (ph_vaddr ph + ph_memsz ph) < ph_vaddr ph) then mret None else
  sz ← onk (Vm.allocuvm kend pgdir sz (u32 (ph_vaddr ph + ph_memsz ph)));
  if decide (sz = 0) then mret None else
  if decide (ph_vaddr ph mod Kalloc.PGSIZE <> 0) then mret None else
  r ← loaduvm (@onk) (xreadi ip) pgdir (ph_vaddr ph) (ph_off ph) (ph_filesz ph);
  if decide (r < 0) then mret None else mret (Some sz).
Fixpoint load_segments (n : nat) (ip : nat) (pgdir off sz : Z) : M xst (option Z) :=
  match n with
  | O => mret (Some sz)
  | S n =>
      r ← xreadi ip off PROGHDR;
      if decide (r.1 <> PROGHDR) then mret None else
      let ph := get_proghdr r.2 in
      if decide (ph_type ph <> ELF_PROG_LOAD) then load_segments n ip pgdir (u32 (off + PROGHDR)) sz else
      r ← load_segment ip pgdir ph sz;
      match r with
      | None => mret None
      | Some sz => load_segments n ip pgdir (u32 (off + PROGHDR)) sz
      end
  end.
(** The loop over the arguments: the stack pointer and the pointers in ustack. *)
Fixpoint push_args (argc : nat) (argv : list (list Z)) (pgdir sp : Z) (ustack : list Z) : M xst (option (Z * list Z)) :=
  match argv with
  | [] => mret (Some (sp, ustack))
  | arg :: argv =>
      if decide (MAXARG <= argc)%nat then mret None else
      let sp := Z.land (u32 (sp - (Z.of_nat (length arg) + 1))) (Z.lnot 3) in
      r ← onk (copyout pgdir sp (arg ++ [0]));
      if decide (r < 0) then mret None else
      push_args (S argc) argv pgdir sp (ustack ++ [sp])
  end.
(** The last element of the path. *)
Fixpoint last_elem (last path : list Z) : list Z :=
  match path with
  | [] => last
  | c :: path => if decide (c = SLASH) then last_elem path path else last_elem last path
  end.
Definition words (l : list Z) : list Z := mjoin (le_enc 4 <$> l).
(** switchuvm of the current process. *)
Definition xswitchuvm : M xst unit :=
  p ← gets xproc;
  if decide (Proc.kstack p = 0) then panic "switchuvm: no kstack" else
  if decide (Proc.pgdir p = 0) then panic "switchuvm: no pgdir" else mret tt.

(** From the stack on; the inode has been released. *)
Definition exec_stack (path : list Z) (argv : list (list Z)) (elf : elfhdr) (pgdir sz : Z) : M xst Z :=
  let sz := PGROUNDUP sz in
  sz ← onk (Vm.allocuvm kend pgdir sz (u32 (sz + 2 * Kalloc.PGSIZE)));
  if decide (sz = 0) then bad pgdir None else
  onk (clearpteu pgdir (u32 (sz - 2 * Kalloc.PGSIZE)));;
  r ← push_args 0 argv pgdir sz [];
  match r with
  | None => bad pgdir None
  | Some (sp, us) =>
      let argc := Z.of_nat (length argv) in
      let ustack := [4294967295; argc; u32 (sp - (argc + 1) * 4)] ++ us ++ [0] in
      let sp := u32 (sp - (3 + argc + 1) * 4) in
      r ← onk (copyout pgdir sp (words ustack));
      if decide (r < 0) then bad pgdir None else
      modify (fun s => s <| xproc ::= fun p => p <| Proc.name := take 15 (last_elem path path) |> |>);;
      oldpgdir ← gets (fun s => Proc.pgdir (xproc s));
      modify (fun s => s <| xproc ::= fun p => p <| Proc.pgdir := pgdir |> <| Proc.sz := sz |>
                              <| Proc.tf := (Proc.tf p) <| tf_eip := entry_ elf |> <| tf_esp := sp |> |> |>);;
      xswitchuvm;;
      onk (Vm.freevm kend oldpgdir);;
      mret 0
  end.
(** With the inode locked. *)
Definition exec_file (path : list Z) (argv : list (list Z)) (ip : nat) : M xst Z :=
  h ← xreadi ip 0 ELFHDR;
  if decide (h.1 <> ELFHDR) then bad 0 (Some ip) else
  let elf := get_elfhdr h.2 in
  if decide (magic elf <> ELF_MAGIC) then bad 0 (Some ip) else
  pgdir ← onk (Vm.setupkvm kend kdata);
  if decide (pgdir = 0) then bad pgdir (Some ip) else
  sz ← load_segments (Z.to_nat (phnum elf)) ip pgdir (phoff elf) 0;
  match sz with
  | None => bad pgdir (Some ip)
  | Some sz => xput ip;; exec_stack path argv elf pgdir sz
  end.
Definition exec (path : list Z) (argv : list (list Z)) : M xst Z :=
  onsys begin_op;;
  p ← gets pid_;
  cwd ← gets cwd_;
  r ← onsys (onfs (namei p cwd devread path));
  match r with
  | None => onsys end_op;; mret (-1)
  | Some ip =>
      onsys (onfs (ilock p ip));;
      exec_file path argv ip
  end.

(** The loop of sys_exec over the pointers at [uargv]. *)
Fixpoint fetch_args (n : nat) (u : uctx) (uargv : Z) : option (list (list Z)) :=
  match n with
  | O => None
  | S n =>
      uarg ← fetchint u uargv;
      if decide (u32 uarg = 0) then Some [] else
      r ← fetchstr u (u32 uarg);
      rest ← fetch_args n u (u32 (uargv + 4));
      Some (bytes_at (umem u) r.1 (Z.to_nat r.2) :: rest)
  end.
Definition sys_exec : M xst Z :=
  p ← gets (fun s => procs (xsys s) !!! me);
  let u := fuser p in
  match (path ← argpath u 0; uargv ← argint u 1; Some (path, u32 uargv)) with
  | None => mret (-1)
  | Some (path, uargv) =>
      match fetch_args MAXARG u uargv with
      | None => mret (-1)
      | Some argv => exec path argv
      end
  end.
End exec.
