(* ===== verification/ExecFacts.v ===== *)
(** What exec guarantees: it fails without a trace or installs the image of the
    program, whatever the file contains. *)
From S2P Require Import Prelude Spinlock Proc Cstring Sleeplock Fs FsFacts FsFile Kalloc Vm VmFacts VmSpace VmUser Pipe Syscall File Sysfile FileFacts Exec.

Section exec.
Context (me : nat) (kend kdata : Z).
Context (devread : Z -> option (nat -> Z -> M fs (Z * list Z))).
Hypothesis kend_above : KERNBASE < kend.
Hypothesis kdata_ok : KERNLINK < kdata < KERNBASE + PHYSTOP /\ kdata mod Kalloc.PGSIZE = 0.
(** Reading a device ends in no panic of the files or of the page tables, and
    gives no more than the bytes asked for. *)
Hypothesis dr_clean : forall n rd i k, devread n = Some rd -> clean panics (rd i k).
Hypothesis dr_len : forall n rd i k t t' r, devread n = Some rd -> rd i k t = Ok (t', r) -> Z.of_nat (length r.2) <= k.
Abbreviation PGSIZE := Kalloc.PGSIZE.
Abbreviation safe := (safe vm_panics).
Implicit Types (s : xst) (P : Proc.proc) (d sz : Z) (l : list Z).

Definition km s : kmem := kpages (xsys s).

(** ** Steps on the parts of the state *)

Lemma safe_onk {A} (m : M kmem A) (Q : A -> xst -> Prop) s :
  wp m (fun a k => forall s', km s' = k -> xproc s' = xproc s -> fsys (xsys s') = fsys (xsys s) -> Q a s') (km s) -> safe (onk m) Q s.
Proof.
  unfold wp, safe, FileFacts.safe, onk, onsys, onkm, zoom, km. destruct (m (kpages (xsys s))) as [[k a]| |]; [|done|done]. intros H. by apply H.
Qed.
Lemma safe_fs {A} (m : M fs A) (Q : A -> xst -> Prop) s :
  clean panics m ->
  (forall a t s', m (fsys (xsys s)) = Ok (t, a) -> km s' = km s -> xproc s' = xproc s -> fsys (xsys s') = t -> Q a s') -> safe (onsys (onfs m)) Q s.
Proof.
  intros Hc HQ. specialize (Hc (fsys (xsys s))). unfold safe, FileFacts.safe, onsys, onfs, zoom.
  destruct (m (fsys (xsys s))) as [[t a]|e|] eqn:E; [| |done].
  - case_decide; [refine (proj1 (bool_decide_eq_false _) _); vm_compute; reflexivity|]. by eapply HQ.
  - intros He. apply Hc. unfold panics. right. apply elem_of_app. by right.
Qed.
Lemma exec_begin (Q : unit -> xst -> Prop) s :
  (forall s', km s' = km s -> xproc s' = xproc s -> fsys (xsys s') = fsys (xsys s) -> pid_ me s' = pid_ me s -> cwd_ me s' = cwd_ me s -> Q tt s') ->
  safe (onsys begin_op) Q s.
Proof. intros HQ. by apply HQ. Qed.
Lemma exec_end (Q : unit -> xst -> Prop) s :
  (forall s', km s' = km s -> xproc s' = xproc s -> Q tt s') -> safe (onsys end_op) Q s.
Proof.
  intros HQ. unfold safe, FileFacts.safe, onsys, zoom, end_op, modify, gets, mbind, M_bind. cbn. case_decide; by apply HQ.
Qed.
Lemma readi_loop_len i fuel : forall off n t t' bs,
  readi_loop fuel i off n t = Ok (t', bs) -> 0 <= n -> Z.of_nat (length bs) <= n.
Proof.
  induction fuel as [|fuel IH]; intros off n t t' bs H Hn; cbn [readi_loop] in H; [inv_ok; cbn; lia|].
  destruct (decide (n <= 0)); [inv_ok; cbn; lia|]. inv_ok. pose proof (Z.mod_pos_bound off (Z.of_nat BSIZE) ltac:(done)).
  apply IH in Hr2; [|lia]. rewrite length_app. unfold slice. rewrite length_take. lia.
Qed.
Lemma readi_len i off n t t' r : 0 <= n -> readi devread i off n t = Ok (t', r) -> Z.of_nat (length r.2) <= n.
Proof.
  intros Hn H. unfold readi in H. inv_ok_step. inv_ok_step.
  - destruct (decide (imajor a < 0 \/ imajor a >= NDEV)); [by injection H as _ <-|].
    destruct (devread (imajor a)) eqn:E; [by eapply dr_len|by injection H as _ <-].
  - inv_ok_step; [inv_ok; done|]. inv_ok. cbn. apply readi_loop_len in Hr0; case_decide; lia.
Qed.
Lemma few_mono (L : list Z) a b : few L (npages a) -> a <= b -> few L (npages b).
Proof. intros H Hab. assert (npages a <= npages b) by (apply Z.div_le_mono; [done|lia]). unfold few in *. lia. Qed.
(** ** Loading

    [good] holds of the file system while the program is read and [data] is
    what the file contains, if that is known ([track]). *)
Section load.
Context (ip : nat) (P : Proc.proc) (l0 : list Z) (k0 : kmem) (d : Z).
Context (good : fs -> Prop) (data : list Z) (track : Prop).
(** A read of [n] bytes gets them all if they are there. *)
Definition got (off n : Z) (r : Z * list Z) : Prop :=
  (r.1 = n <-> off + n <= Z.of_nat (length data)) /\ (r.1 = n -> r.2 = slice data (Z.to_nat off) (Z.to_nat n)).
Hypothesis reads : forall t t' off n r,
  good t -> is_u32 off -> 0 < n <= PGSIZE -> readi devread ip off n t = Ok (t', r) ->
  good t' /\ (track -> got off n r).
Hypothesis data_small : Z.of_nat (length data) < 2 ^ 31.
Abbreviation image := (image kend l0 k0 d).

Definition keeps s : Prop := xproc s = P /\ good (fsys (xsys s)).
Lemma safe_read off n (Q : Z * list Z -> xst -> Prop) s :
  keeps s -> is_u32 off -> 0 < n <= PGSIZE ->
  (forall r s', keeps s' -> km s' = km s -> Z.of_nat (length r.2) <= n -> (track -> got off n r) -> Q r s') ->
  safe (xreadi devread ip off n) Q s.
Proof.
  intros [HP Hg] Ho Hn HQ. unfold xreadi. apply safe_fs; [by apply c_readi|]. intros r t s' E Hk Hp Ht.
  destruct (reads _ _ _ _ _ Hg Ho Hn E) as [Hg' Hd]. apply HQ; [split; [congruence|by rewrite Ht]|done|by eapply readi_len; [lia|]|done].
Qed.
Lemma fput_nil f va y : fput f va [] y = f y.
Proof. unfold fput, put_bytes. rewrite decide_False; [done|]. cbn. lia. Qed.
Lemma fput_app f va b1 b2 y : fput (fput f va b1) (va + Z.of_nat (length b1)) b2 y = fput f va (b1 ++ b2) y.
Proof.
  unfold fput, put_bytes. rewrite length_app, Nat2Z.inj_add. destruct (decide (va + Z.of_nat (length b1) <= y < _)).
  - rewrite decide_True by lia. rewrite lookup_total_app_r by lia. f_equal. lia.
  - destruct (decide (va <= y < va + Z.of_nat (length b1))).
    + rewrite decide_True by lia. by rewrite lookup_total_app_l by lia.
    + by rewrite decide_False by lia.
Qed.
Lemma fput_ext f g va bs y : (forall y, f y = g y) -> fput f va bs y = fput g va bs y.
Proof. intros H. unfold fput, put_bytes. by rewrite H. Qed.
Lemma slice_split {A} (b : list A) o n1 n2 : slice b o (n1 + n2) = slice b o n1 ++ slice b (o + n1) n2.
Proof. unfold slice. rewrite <- drop_drop. rewrite <- (take_drop n1 (take (n1 + n2) (drop o b))). rewrite take_take, skipn_firstn_comm. f_equal; f_equal; lia. Qed.

(** One turn of the loop and the others. *)
Lemma fput_turn f addr offset i n w (b : list Z) y :
  b = slice data (Z.to_nat (offset + i)) (Z.to_nat w) -> offset + i + w <= Z.of_nat (length data) ->
  0 < w <= PGSIZE /\ w <= n - i /\ (w < PGSIZE -> w = n - i) -> 0 <= offset -> 0 <= i ->
  fput (fput f (addr + i) b) (addr + (i + PGSIZE)) (slice data (Z.to_nat (offset + (i + PGSIZE))) (Z.to_nat (n - (i + PGSIZE)))) y =
  fput f (addr + i) (slice data (Z.to_nat (offset + i)) (Z.to_nat (n - i))) y.
Proof.
  intros Hd Hb Hw Ho Hi. assert (Hl : length b = Z.to_nat w) by (rewrite Hd; apply slice_length; lia).
  destruct (decide (w = n - i)) as [Ew'|Nw].
  - replace (Z.to_nat (n - (i + PGSIZE))) with 0%nat by lia. unfold slice at 1. cbn [take]. rewrite fput_nil, Hd, Ew'. done.
  - assert (w = PGSIZE) as Ep by (unfold PGSIZE in *; lia). replace (Z.to_nat (n - i)) with (Z.to_nat w + Z.to_nat (n - (i + PGSIZE)))%nat by lia.
    rewrite slice_split, <- Hd, <- fput_app, Hl. replace (Z.to_nat (offset + i) + Z.to_nat w)%nat with (Z.to_nat (offset + (i + PGSIZE))) by lia.
    by replace (addr + i + Z.of_nat (Z.to_nat w)) with (addr + (i + PGSIZE)) by lia.
Qed.
Definition loaded sz f addr offset i n (r : Z) s' l : Prop :=
  keeps s' /\ exists f', image sz None f' (km s') l /\
    ((r = 0 /\ (track -> (i < n -> offset + n <= Z.of_nat (length data)) /\
        forall y, f' y = fput f (addr + i) (slice data (Z.to_nat (offset + i)) (Z.to_nat (n - i))) y)) \/
     (r = -1 /\ (track -> i < n /\ Z.of_nat (length data) < offset + n))).
Lemma safe_loaduvm_loop sz addr offset n l fuel : forall f i s,
  image sz None f (km s) l -> keeps s -> addr mod PGSIZE = 0 -> 0 <= addr -> addr + n <= sz ->
  i mod PGSIZE = 0 -> 0 <= i -> 0 <= offset -> (track -> offset + i < 2 ^ 32) -> (i < n -> (n - i) / PGSIZE < Z.of_nat fuel) ->
  safe (loaduvm_loop (@onk) (xreadi devread ip) fuel d addr offset i n) (fun r s' => loaded sz f addr offset i n r s' l) s.
Proof.
  induction fuel as [|fuel IH]; intros f i s I HK Ha Ha0 Han Hi Hi0 Ho0 Hoi Hf.
  all: assert (Hdone : n <= i -> loaded sz f addr offset i n 0 s l).
  1,3: intros Hle; split; [done|]; exists f; split; [done|]; left; split; [done|]; intros _; split; [lia|]; intros y; replace (Z.to_nat (n - i)) with 0%nat by lia; symmetry; apply fput_nil.
  { apply safe_ret, Hdone. destruct (decide (i < n)) as [Hlt|]; [|lia]. specialize (Hf Hlt). pose proof (Z.div_pos (n - i) PGSIZE). unfold PGSIZE in *. lia. }
  cbn [loaduvm_loop]. destruct (decide (i < n)) as [Hlt|]; [|apply safe_ret, Hdone; lia]. specialize (Hf Hlt).
  pose proof (im_sz _ _ _ _ _ _ _ _ _ I) as Hsz.
  assert (Hva : 0 <= addr + i < PGSIZE * npages sz).
  { split; [lia|]. destruct (round_up_pages sz ltac:(lia)) as (E & _ & _ & Hle). lia. }
  assert (Hm : (addr + i) mod PGSIZE = 0) by (rewrite Z.add_mod, Ha, Hi by done; done).
  rewrite (u32_small (addr + i)) by (unfold is_u32, KERNBASE in *; lia).
  destruct (im_user _ _ _ _ _ _ _ _ _ I (addr + i) Hva) as (_ & Hp & _).
  destruct (walk_present kend l0 (km s) l d _ (im_space _ _ _ _ _ _ _ _ _ I) Hp) as (a & Ew & Hane & El).
  apply safe_bind, safe_onk. unfold wp. rewrite Ew. intros s1 Hk1 Hp1 Hfs1. rewrite decide_False by done.
  apply safe_bind, safe_onk. unfold wp, peek, gets. rewrite Hk1, El. intros s2 Hk2 Hp2 Hfs2. cbv zeta.
  set (w := if decide (n - i < PGSIZE) then n - i else PGSIZE). assert (Hw : 0 < w <= PGSIZE /\ w <= n - i /\ (w < PGSIZE -> w = n - i)) by (unfold w; case_decide; unfold PGSIZE in *; lia).
  assert (HK2 : keeps s2) by (destruct HK; split; congruence).
  apply safe_bind, safe_read; [done|apply u32_range|lia|]. intros r s3 HK3 Hk3 Hlen Hdat.
  apply safe_bind, safe_onk, wp_on_pm. intros s4 Hk4 Hp4 Hfs4. cbn beta.
  assert (I4 : image sz None (fput f (addr + i) r.2) (km s4) l) by (rewrite Hk4, Hk3, Hk2; apply image_load; (done || lia)).
  assert (HK4 : keeps s4) by (destruct HK3; split; congruence).
  assert (Hoff : track -> u32 (offset + i) = offset + i) by (intros Ht; apply u32_small; unfold is_u32; specialize (Hoi Ht); lia).
  destruct (decide (r.1 <> w)) as [Hne|Heq].
  { apply safe_ret. split; [done|]. exists (fput f (addr + i) r.2). split; [done|]. right. split; [done|]. intros Ht. split; [done|].
    destruct (Hdat Ht) as [[_ Hb] _]. rewrite (Hoff Ht) in Hb. destruct (decide (offset + i + w <= Z.of_nat (length data))); [by apply Hb in l1|lia]. }
  assert (Eq : r.1 = w) by (destruct (decide (r.1 = w)); [done|exfalso; auto]).
  assert (Hgot : track -> offset + i + w <= Z.of_nat (length data) /\ r.2 = slice data (Z.to_nat (offset + i)) (Z.to_nat w)).
  { intros Ht. destruct (Hdat Ht) as [[Hb _] Hd]. rewrite (Hoff Ht) in Hb, Hd. auto. }
  pose proof (page_of_mul i Hi) as Ei.
  rewrite (u32_small (i + PGSIZE)) by (unfold is_u32, KERNBASE, PGSIZE in *; lia).
  eapply safe_mono; [apply (IH (fput f (addr + i) r.2) (i + PGSIZE) s4 I4 HK4); try done|].
  - rewrite <- Z.add_mod_idemp_l, Hi by done. done.
  - unfold PGSIZE. lia.
  - intros Ht. destruct (Hgot Ht) as [Hb _]. unfold PGSIZE in *. lia.
  - intros Hl. replace (n - i) with (n - (i + PGSIZE) + 1 * PGSIZE) in Hf by lia. rewrite Z.div_add in Hf by done. lia.
  - intros r' s5 (HK5 & f' & I5 & Hr'). split; [done|]. exists f'. split; [done|].
    destruct Hr' as [[-> Hf']|[-> Hf']]; [left|right]; (split; [done|]); intros Ht; specialize (Hf' Ht).
    + destruct (Hgot Ht) as [Hb Hd]. destruct Hf' as [Hn Hf']. split.
      { intros _. destruct (decide (i + PGSIZE < n)); [auto|lia]. }
      intros y. rewrite Hf'. by apply (fput_turn f addr offset i n w).
    + unfold PGSIZE in *. lia.
Qed.
(** What the program headers say the memory holds. *)
Fixpoint program (n : nat) (off : Z) (f : Z -> Z) : Z -> Z :=
  match n with
  | O => f
  | S n =>
      let ph := get_proghdr (slice data (Z.to_nat off) (Z.to_nat PROGHDR)) in
      program n (off + PROGHDR)
        (if decide (ph_type ph <> ELF_PROG_LOAD) then f
         else fput f (ph_vaddr ph) (slice data (Z.to_nat (ph_off ph)) (Z.to_nat (ph_filesz ph))))
  end.
Lemma program_ext n : forall off f g y, (forall y, f y = g y) -> program n off f y = program n off g y.
Proof.
  induction n as [|n IH]; intros off f g y H; cbn; [done|]. apply IH. intros y'. case_decide; [done|]. by apply fput_ext.
Qed.
(** The pages of [d] are accounted for. *)
Definition holds s l : Prop := space kend l0 (km s) l d /\ only l0 (pm k0) (pm (km s)).
Lemma image_holds sz g f s l : image sz g f (km s) l -> holds s l.
Proof. intros I. split; apply I. Qed.
(** The size of the image, if the headers are in order. *)
Definition seg_ok (ph : proghdr) sz : Prop :=
  ph_filesz ph <= ph_memsz ph /\ ph_vaddr ph + ph_memsz ph < KERNBASE /\ Z.max sz (ph_vaddr ph + ph_memsz ph) <> 0 /\
  ph_vaddr ph mod PGSIZE = 0 /\ (0 < ph_filesz ph -> ph_off ph + ph_filesz ph <= Z.of_nat (length data)).
#[export] Instance seg_ok_dec ph sz : Decision (seg_ok ph sz).
Proof. unfold seg_ok. apply _. Defined.
Fixpoint prog_size (n : nat) (off sz : Z) : option Z :=
  match n with
  | O => Some sz
  | S n =>
      if decide (off + PROGHDR <= Z.of_nat (length data)) then
        let ph := get_proghdr (slice data (Z.to_nat off) (Z.to_nat PROGHDR)) in
        if decide (ph_type ph <> ELF_PROG_LOAD) then prog_size n (off + PROGHDR) sz else
        if decide (seg_ok ph sz) then prog_size n (off + PROGHDR) (Z.max sz (ph_vaddr ph + ph_memsz ph)) else None
      else None
  end.
Lemma prog_size_le n : forall off sz e, prog_size n off sz = Some e -> sz <= e.
Proof.
  induction n as [|n IH]; intros off sz e; cbn [prog_size]; [by intros [= ->]|]. case_decide; [|done]. cbv zeta.
  case_decide; [apply IH|]. case_decide; [|done]. intros H2%IH. lia.
Qed.
Lemma ph_range b : is_u32 (ph_vaddr (get_proghdr b)) /\ is_u32 (ph_memsz (get_proghdr b)) /\ is_u32 (ph_filesz (get_proghdr b)) /\ is_u32 (ph_off (get_proghdr b)).
Proof. cbn. repeat split; apply u32_range. Qed.
Definition segment_done ph sz f (r : option Z) s' : Prop :=
  keeps s' /\ exists l', holds s' l' /\
    match r with
    | None => track -> seg_ok ph sz -> few l0 (npages (ph_vaddr ph + ph_memsz ph))
    | Some sz' => exists f', image sz' None f' (km s') l' /\ (track -> seg_ok ph sz /\ sz' = Z.max sz (ph_vaddr ph + ph_memsz ph) /\
        forall y, f' y = fput f (ph_vaddr ph) (slice data (Z.to_nat (ph_off ph)) (Z.to_nat (ph_filesz ph))) y)
    end.
Lemma safe_load_segment ph sz f s l :
  image sz None f (km s) l -> keeps s ->
  is_u32 (ph_vaddr ph) /\ is_u32 (ph_memsz ph) /\ is_u32 (ph_filesz ph) /\ is_u32 (ph_off ph) ->
  safe (load_segment kend devread ip d ph sz) (segment_done ph sz f) s.
Proof.
  intros I HK (Hv & Hms & Hfs & Hpo). unfold load_segment.
  assert (Hbad : forall s' l', keeps s' -> holds s' l' -> (track -> seg_ok ph sz -> few l0 (npages (ph_vaddr ph + ph_memsz ph))) -> safe (mret None) (segment_done ph sz f) s').
  { intros s' l' HK' HH Hr. apply safe_ret. split; [done|]. by exists l'. }
  destruct (decide (ph_memsz ph < ph_filesz ph)) as [|Hmf]; [eapply Hbad; [done|by eapply image_holds|intros _ Hok; destruct Hok; lia]|].
  destruct (decide (u32 (ph_vaddr ph + ph_memsz ph) < ph_vaddr ph)) as [Hw|Hov].
  { eapply Hbad; [done|by eapply image_holds|]. intros _ (_ & Hk & _). rewrite u32_small in Hw by (unfold is_u32, KERNBASE in *; lia). unfold is_u32 in *. lia. }
  assert (Hno : u32 (ph_vaddr ph + ph_memsz ph) = ph_vaddr ph + ph_memsz ph).
  { unfold u32, is_u32 in *. destruct (decide (ph_vaddr ph + ph_memsz ph < 2 ^ 32)); [by apply Z.mod_small; lia|].
    exfalso. apply Hov. rewrite <- (Z.mod_unique_pos _ (2 ^ 32) 1 (ph_vaddr ph + ph_memsz ph - 2 ^ 32)); lia. }
  rewrite Hno in *. apply safe_bind, safe_onk. eapply wp_mono; [apply (image_alloc kend kend_above l0 k0 d sz f (km s) l _ I); rewrite <- Hno; apply u32_range|].
  cbn beta. intros sz1 k1 (l1 & HS1 & HO1 & Hr1) s2 Hk2 Hp2 Hfs2.
  assert (HK2 : keeps s2) by (destruct HK; split; congruence). assert (HH2 : holds s2 l1) by (split; by rewrite Hk2).
  destruct (decide (sz1 = 0)) as [Hz|Hnz].
  { eapply Hbad; [done|done|]. intros _ (_ & Hk & Hnz & _). destruct Hr1 as [[_ Hr1]|(-> & _)]; [by apply Hr1|done]. }
  destruct Hr1 as [[-> _]|(-> & Hkb & I1)]; [done|]. rewrite <- Hk2 in I1.
  destruct (decide (ph_vaddr ph mod PGSIZE <> 0)) as [|Hal]; [eapply Hbad; [done|done|by intros _ (_ & _ & _ & ? & _)]|].
  assert (Hal' : ph_vaddr ph mod PGSIZE = 0) by (destruct (decide (ph_vaddr ph mod PGSIZE = 0)); [done|exfalso; auto]).
  unfold loaduvm. rewrite decide_False by done. unfold is_u32 in *.
  apply safe_bind. eapply safe_mono; [apply (safe_loaduvm_loop _ (ph_vaddr ph) (ph_off ph) (ph_filesz ph) l1 _ f 0 s2 I1 HK2); try done; try lia|].
  - intros _. rewrite Nat2Z.inj_succ, Z2Nat.id by (apply Z.div_pos; [lia|done]). rewrite Z.sub_0_r. lia.
  - cbn beta. intros r2 s3 (HK3 & f2 & I2 & Hr2). destruct (decide (r2 < 0)) as [|Hr0].
    { eapply Hbad; [done|by eapply image_holds|]. intros Ht (_ & _ & _ & _ & Hle). destruct Hr2 as [[-> _]|[_ Hr2]]; [lia|]. specialize (Hr2 Ht). lia. }
    destruct Hr2 as [[-> Hr2]|[-> _]]; [|lia]. apply safe_ret. split; [done|]. exists l1. split; [by eapply image_holds|]. exists f2. split; [done|].
    intros Ht. destruct (Hr2 Ht) as [Hle Hf2]. split; [split; [lia|]; split; [done|]; split; [done|]; split; [done|]; lia|]. split; [done|].
    intros y. by rewrite Hf2, !Z.add_0_r, Z.sub_0_r.
Qed.
Definition segments_done n off sz f (r : option Z) s' : Prop :=
  keeps s' /\ exists l', holds s' l' /\
    match r with
    | None => track -> forall e, prog_size n off sz = Some e -> few l0 (npages e)
    | Some sz' => exists f', image sz' None f' (km s') l' /\ (track -> prog_size n off sz = Some sz' /\ forall y, f' y = program n off f y)
    end.
Lemma safe_load_segments n : forall off sz f s l,
  image sz None f (km s) l -> keeps s -> is_u32 off ->
  safe (load_segments kend devread n ip d off sz) (segments_done n off sz f) s.
Proof.
  induction n as [|n IH]; intros off sz f s l I HK Ho.
  { apply safe_ret. split; [done|]. exists l. split; [by eapply image_holds|]. by exists f. }
  cbn [load_segments]. apply safe_bind, safe_read; [done|done|done|]. intros r s1 HK1 Hk1 Hlen Hdat. rewrite <- Hk1 in I.
  assert (Hbad : forall s' l', keeps s' -> holds s' l' -> (track -> forall e, prog_size (S n) off sz = Some e -> few l0 (npages e)) ->
    safe (mret None) (segments_done (S n) off sz f) s').
  { intros s' l' HK' HH Hr. apply safe_ret. split; [done|]. by exists l'. }
  destruct (decide (r.1 <> PROGHDR)) as [Hne|Heq].
  { eapply Hbad; [done|by eapply image_holds|]. intros Ht e. cbn [prog_size]. rewrite decide_False; [done|]. intros Hle. by apply Hne, Hdat. }
  assert (Eq : r.1 = PROGHDR) by (destruct (decide (r.1 = PROGHDR)); [done|exfalso; auto]). cbv zeta.
  pose proof (ph_range r.2) as Hrange. set (ph := get_proghdr r.2) in *.
  assert (Hhdr : track -> off + PROGHDR <= Z.of_nat (length data) /\ u32 (off + PROGHDR) = off + PROGHDR /\
    get_proghdr (slice data (Z.to_nat off) (Z.to_nat PROGHDR)) = ph).
  { intros Ht. destruct (Hdat Ht) as [[Hb _] Hd]. specialize (Hb Eq). split; [done|]. split; [apply u32_small; unfold is_u32 in *; lia|]. unfold ph. by rewrite Hd. }
  destruct (decide (ph_type ph <> ELF_PROG_LOAD)) as [Hty|Hty].
  { eapply safe_mono; [apply (IH (u32 (off + PROGHDR)) sz f s1 l I HK1 (u32_range _))|]. intros r' s' (HK' & l' & HH & Hr).
    split; [done|]. exists l'. split; [done|]. cbn [prog_size program]. cbv zeta. destruct r' as [sz'|].
    - destruct Hr as (f' & I' & Hr). exists f'. split; [done|]. intros Ht. destruct (Hhdr Ht) as (Hle & Hn & ->). rewrite Hn in Hr. rewrite !decide_True by done. by apply Hr.
    - intros Ht. destruct (Hhdr Ht) as (Hle & Hn & ->). rewrite Hn in Hr. rewrite !decide_True by done. by apply Hr. }
  apply safe_bind. eapply safe_mono; [apply (safe_load_segment ph sz f s1 l I HK1 Hrange)|]. cbn beta. intros [sz1|] s2 (HK2 & l2 & HH2 & Hr2).
  2: { eapply Hbad; [done|done|]. intros Ht e. destruct (Hhdr Ht) as (Hle & Hn & E). cbn [prog_size]. cbv zeta. rewrite E, decide_True, decide_False by auto.
       case_decide as Hok; [|done]. intros He%prog_size_le. eapply few_mono; [by apply Hr2|lia]. }
  destruct Hr2 as (f2 & I2 & Hr2). eapply safe_mono; [apply (IH _ _ f2 s2 l2 I2 HK2 (u32_range _))|]. intros r' s' (HK' & l' & HH & Hr).
  assert (Hps : track -> prog_size (S n) off sz = prog_size n (u32 (off + PROGHDR)) sz1).
  { intros Ht. destruct (Hhdr Ht) as (Hle & Hn & E). destruct (Hr2 Ht) as (Hok & -> & _). cbn [prog_size]. cbv zeta. by rewrite E, Hn, decide_True, decide_False, decide_True by auto. }
  split; [done|]. exists l'. split; [done|]. destruct r' as [sz'|].
  - destruct Hr as (f' & I' & Hr). exists f'. split; [done|]. intros Ht. destruct (Hr Ht) as [Hsz Hf']. split; [by rewrite Hps|]. intros y. rewrite Hf'.
    destruct (Hhdr Ht) as (_ & -> & E). cbn [program]. cbv zeta. rewrite E, decide_False by auto. apply program_ext. intros y'. by apply Hr2.
  - intros Ht. rewrite Hps by done. by apply Hr.
Qed.
End load.

(** ** The stack *)

(** Where the strings go, and the stack pointer behind the last. *)
Definition arg_sp (sp : Z) (a : list Z) : Z := 4 * ((sp - (Z.of_nat (length a) + 1)) / 4).
Fixpoint stack_ptrs (sp : Z) (argv : list (list Z)) : list Z :=
  match argv with [] => [] | a :: argv => arg_sp sp a :: stack_ptrs (arg_sp sp a) argv end.
Fixpoint stack_sp (sp : Z) (argv : list (list Z)) : Z :=
  match argv with [] => sp | a :: argv => stack_sp (arg_sp sp a) argv end.
(** The memory with the strings in it. *)
Fixpoint push_strings (sp : Z) (argv : list (list Z)) (f : Z -> Z) : Z -> Z :=
  match argv with [] => f | a :: argv => push_strings (arg_sp sp a) argv (fput f (arg_sp sp a) (a ++ [0])) end.
Lemma arg_sp_low sp a : arg_sp sp a + (Z.of_nat (length a) + 1) <= sp.
Proof.
  unfold arg_sp. pose proof (Z.div_mod (sp - (Z.of_nat (length a) + 1)) 4 ltac:(done)).
  pose proof (Z.mod_pos_bound (sp - (Z.of_nat (length a) + 1)) 4 ltac:(done)). lia.
Qed.
Lemma stack_sp_low argv : forall sp, stack_sp sp argv <= sp.
Proof.
  induction argv as [|a argv IH]; intros sp; cbn [stack_sp]; [lia|]. etrans; [apply IH|]. pose proof (arg_sp_low sp a). lia.
Qed.
Lemma lnot3 x : Z.land x (Z.lnot 3) = 4 * (x / 4).
Proof.
  change 3 with (Z.ones 2). rewrite <- Z.ldiff_land, Z.ldiff_ones_r by lia. rewrite Z.shiftr_div_pow2, Z.shiftl_mul_pow2 by lia. change (2 ^ 2) with 4. lia.
Qed.
(** A stack pointer that wraps around points to the devices. *)
Lemma sp_next sp (a : list Z) :
  0 <= sp < KERNBASE -> Z.of_nat (length a) < 2 ^ 24 ->
  let sp' := Z.land (u32 (sp - (Z.of_nat (length a) + 1))) (Z.lnot 3) in
  (0 <= arg_sp sp a /\ sp' = arg_sp sp a /\ arg_sp sp a + (Z.of_nat (length a) + 1) <= sp /\ sp - 4 <= arg_sp sp a + Z.of_nat (length a)) \/
  (is_u32 sp' /\ DEVSPACE <= sp' /\ arg_sp sp a < 0).
Proof.
  intros Hsp Ha. cbv zeta. rewrite lnot3. unfold arg_sp. set (x := sp - (Z.of_nat (length a) + 1)).
  pose proof (Z.div_mod x 4 ltac:(done)). pose proof (Z.mod_pos_bound x 4 ltac:(done)).
  destruct (decide (0 <= x)) as [Hx|Hx]; [left|right].
  - rewrite (u32_small x) by (unfold is_u32, KERNBASE in *; lia). lia.
  - assert (E : u32 x = x + 2 ^ 32) by (unfold u32; symmetry; apply (Z.mod_unique_pos x (2 ^ 32) (-1)); lia). rewrite E.
    pose proof (Z.div_mod (x + 2 ^ 32) 4 ltac:(done)). pose proof (Z.mod_pos_bound (x + 2 ^ 32) 4 ltac:(done)). unfold is_u32, DEVSPACE. lia.
Qed.

Section stack.
Context (P : Proc.proc) (l0 : list Z) (k0 : kmem) (d sz : Z).
Hypothesis sz_pages : sz = PGSIZE * npages sz.
Hypothesis sz_two : 2 <= npages sz.
Abbreviation image := (image kend l0 k0 d sz (Some (npages sz - 2))).
Lemma copyout_devices f k l va buf : image f k l -> is_u32 va -> DEVSPACE <= va -> buf <> [] -> copyout d va buf k = Ok (k, -1).
Proof.
  intros I Hva Hd Hb. destruct (im_half _ _ _ _ _ _ _ _ _ I) as [H1 H2]. specialize (H2 va Hva Hd). unfold copyout. apply copyout_refused; [done|done| |].
  - unfold entry in H2. by destruct (present (pm k) d (PDX va)).
  - unfold user. rewrite H1, andb_false_r by (done || unfold DEVSPACE, KERNBASE in *; lia). done.
Qed.
(** A string that was copied lies above the guard page. *)
Lemma above_guard f k l sp a :
  image f k l -> sz - PGSIZE <= sp <= sz -> sp mod 4 = 0 ->
  0 <= arg_sp sp a -> arg_sp sp a + (Z.of_nat (length a) + 1) <= sp -> sp - 4 <= arg_sp sp a + Z.of_nat (length a) ->
  (forall y, arg_sp sp a <= y < arg_sp sp a + Z.of_nat (length (a ++ [0])) -> user (pm k) d y = true) -> sz - PGSIZE <= arg_sp sp a.
Proof.
  intros I Hsp Hm H0 Hend Hgap Hu. rewrite length_app in Hu. cbn [length] in Hu.
  destruct (decide (sz - PGSIZE <= arg_sp sp a)) as [|Hlt]; [done|]. exfalso.
  assert (Hy : exists y, arg_sp sp a <= y <= arg_sp sp a + Z.of_nat (length a) /\ sz - 2 * PGSIZE <= y < sz - PGSIZE).
  { destruct (decide (sz - PGSIZE <= arg_sp sp a + Z.of_nat (length a))).
    - exists (sz - PGSIZE - 1). unfold PGSIZE in *. lia.
    - exists (arg_sp sp a + Z.of_nat (length a)). unfold PGSIZE in *. lia. }
  destruct Hy as (y & Hy1 & Hy2). specialize (Hu y ltac:(lia)).
  assert (E : y / PGSIZE = npages sz - 2) by (symmetry; apply (Z.div_unique_pos y PGSIZE (npages sz - 2) (y - PGSIZE * (npages sz - 2))); lia).
  destruct (im_user _ _ _ _ _ _ _ _ _ I y) as (_ & _ & Hn); [unfold PGSIZE in *; lia|]. rewrite E, bool_decide_true in Hn by done.
  unfold user in Hu. by rewrite Hn, andb_false_r in Hu.
Qed.
(** The stack page is the user's. *)
Lemma stack_user f k l y : image f k l -> sz - PGSIZE <= y < sz -> user (pm k) d y = true.
Proof.
  intros I Hy. destruct (im_user _ _ _ _ _ _ _ _ _ I y) as (_ & Hp & Hn); [unfold PGSIZE in *; lia|].
  assert (E : y / PGSIZE = npages sz - 1) by (symmetry; apply (Z.div_unique_pos y PGSIZE (npages sz - 1) (y - PGSIZE * (npages sz - 1))); lia).
  rewrite E, bool_decide_false in Hn by (intros [= ?]; lia). unfold user. by rewrite Hp, Hn.
Qed.
Definition pushed argc us sp argv f (r : option (Z * list Z)) s' l : Prop :=
  xproc s' = P /\ exists f', image f' (km s') l /\
    match r with
    | None => ~ ((argc + length argv <= MAXARG)%nat /\ sz - PGSIZE <= stack_sp sp argv)
    | Some (sp', us') => sz - PGSIZE <= sp' <= sp /\ sp' mod 4 = 0 /\ sp' = stack_sp sp argv /\ us' = us ++ stack_ptrs sp argv /\
        (argc + length argv <= MAXARG)%nat /\ Forall (fun p => 0 <= p) (stack_ptrs sp argv) /\ forall y, f' y = push_strings sp argv f y
    end.
Lemma push_strings_ext argv : forall sp f g y, (forall y, f y = g y) -> push_strings sp argv f y = push_strings sp argv g y.
Proof. induction argv as [|a argv IH]; intros sp f g y H; cbn [push_strings]; [done|]. apply IH. intros y'. by apply fput_ext. Qed.
Lemma safe_push_args l argv : forall argc sp us f s,
  image f (km s) l -> xproc s = P -> sz - PGSIZE <= sp <= sz -> sp mod 4 = 0 ->
  Forall (fun a : list Z => Z.of_nat (length a) < 2 ^ 24) argv -> (argc <= MAXARG)%nat ->
  safe (push_args argc argv d sp us) (fun r s' => pushed argc us sp argv f r s' l) s.
Proof.
  induction argv as [|a argv IH]; intros argc sp us f s I HP Hsp Hm Ha Hc; cbn [push_args].
  { apply safe_ret. split; [done|]. exists f. split; [done|]. split; [lia|]. split; [done|]. split; [done|].
    split; [by rewrite app_nil_r|]. split; [cbn; lia|]. split; [constructor|done]. }
  apply Forall_cons in Ha as [Ha Hrest]. pose proof (im_sz _ _ _ _ _ _ _ _ _ I) as Hsz.
  assert (Hbad : forall s', xproc s' = P -> (exists f', image f' (km s') l) ->
    ~ ((argc + length (a :: argv) <= MAXARG)%nat /\ sz - PGSIZE <= stack_sp sp (a :: argv)) -> safe (mret None) (fun r s' => pushed argc us sp (a :: argv) f r s' l) s').
  { intros s' HP' [f' I'] Hno. apply safe_ret. split; [done|]. by exists f'. }
  cbn [stack_sp length] in Hbad. pose proof (stack_sp_low argv (arg_sp sp a)) as Hlow.
  destruct (decide (MAXARG <= argc)%nat); [apply Hbad; [done|by exists f|lia]|]. cbv zeta. apply safe_bind, safe_onk.
  destruct (sp_next sp a ltac:(unfold PGSIZE in *; lia) Ha) as [(H0 & -> & Hend & Hgap)|(Hu & Hd & Hneg)].
  - eapply wp_mono; [apply (image_copyout kend l0 k0 d sz _ f (km s) l (arg_sp sp a) (a ++ [0]) I H0); rewrite length_app; cbn [length]; lia|].
    cbn beta. intros r k1 (f' & I1 & Hr) s1 Hk1 Hp1 _. rewrite <- Hk1 in I1. destruct (decide (r < 0)) as [|Hr0].
    { apply Hbad; [congruence|by exists f'|]. intros [_ Hge]. destruct Hr as [(-> & _)|(_ & y & Hy & Hny)]; [lia|]. rewrite length_app in Hy. cbn [length] in Hy.
      rewrite (stack_user f (km s) l y I) in Hny by lia. done. }
    destruct Hr as [(-> & Hu & Hf)|[-> _]]; [|lia]. pose proof (above_guard f (km s) l sp a I Hsp Hm H0 Hend Hgap Hu) as Hg.
    assert (Hm' : arg_sp sp a mod 4 = 0) by (unfold arg_sp; rewrite Z.mul_comm; by apply Z.mod_mul).
    eapply safe_mono; [apply (IH (S argc) (arg_sp sp a) (us ++ [arg_sp sp a]) f' s1 I1); [congruence|lia|done|done|lia]|].
    intros [[sp' us']|] s' (HP' & f2 & I2 & Hr2); [|split; [done|]; exists f2; split; [done|]; cbn [stack_sp length]; lia]. destruct Hr2 as (R1 & R2 & R3 & R4 & R5 & R6 & R7).
    split; [done|]. exists f2. split; [done|]. split; [lia|]. split; [done|]. split; [done|]. split; [by rewrite R4, <- app_assoc|].
    split; [cbn [length]; lia|]. split; [by constructor|]. intros y. rewrite R7. cbn [push_strings]. by apply push_strings_ext.
  - unfold wp. rewrite (copyout_devices f (km s) l _ (a ++ [0]) I Hu Hd) by (by destruct a). intros s1 Hk1 Hp1 _.
    rewrite decide_True by lia. apply Hbad; [congruence|exists f; by rewrite Hk1|unfold PGSIZE in *; lia].
Qed.
End stack.

(** *** What the program finds on the stack *)
Lemma push_above argv : forall sp f y, sp <= y -> push_strings sp argv f y = f y.
Proof.
  induction argv as [|a argv IH]; intros sp f y Hy; cbn [push_strings]; [done|]. pose proof (arg_sp_low sp a).
  rewrite IH by lia. unfold fput, put_bytes. rewrite length_app. cbn [length]. rewrite decide_False by lia. done.
Qed.
Lemma stack_ptrs_length sp argv : length (stack_ptrs sp argv) = length argv.
Proof. revert sp. induction argv as [|a argv IH]; intros sp; cbn; [done|]. by rewrite IH. Qed.
(** Each pointer leads to its string. *)
Lemma strings_at argv : forall sp f i a p,
  argv !! i = Some a -> stack_ptrs sp argv !! i = Some p ->
  stack_sp sp argv <= p < sp /\ bytes_at (push_strings sp argv f) p (S (length a)) = a ++ [0].
Proof.
  induction argv as [|b argv IH]; intros sp f [|i] a p Ha Hp; cbn in Ha, Hp; try done.
  - injection Ha as ->. injection Hp as <-. cbn [push_strings stack_sp]. pose proof (arg_sp_low sp a). split; [split; [apply stack_sp_low|lia]|].
    rewrite (bytes_at_ext _ (fput f (arg_sp sp a) (a ++ [0]))).
    + pose proof (bytes_at_put f (arg_sp sp a) (a ++ [0])) as E. rewrite length_app in E. cbn [length] in E. by rewrite Nat.add_1_r in E.
    + intros x Hx. apply push_above. lia.
  - cbn [push_strings stack_sp]. pose proof (arg_sp_low sp b). destruct (IH _ (fput f (arg_sp sp b) (b ++ [0])) _ _ _ Ha Hp) as [? ?]. split; [lia|done].
Qed.
(** The words of argc, argv and the array, and the strings behind them. *)
Definition stack_ok (f : Z -> Z) (esp : Z) (argv : list (list Z)) : Prop :=
  load32 f esp = 2 ^ 32 - 1 /\ load32 f (esp + 4) = Z.of_nat (length argv) /\ load32 f (esp + 8) = esp + 12 /\
  load32 f (esp + 12 + 4 * Z.of_nat (length argv)) = 0 /\
  forall i a, argv !! i = Some a -> bytes_at f (load32 f (esp + 12 + 4 * Z.of_nat i)) (S (length a)) = a ++ [0].
Lemma stack_ok_ext f g esp argv : (forall y, f y = g y) -> stack_ok g esp argv -> stack_ok f esp argv.
Proof.
  intros H. assert (Hl : forall a, load32 f a = load32 g a) by (intros a; unfold load32; f_equal; by apply bytes_at_ext).
  intros (H1 & H2 & H3 & H4 & H5). unfold stack_ok. rewrite !Hl. split; [done|]. split; [done|]. split; [done|]. split; [done|].
  intros i a Ha. rewrite Hl, <- (H5 i a Ha). by apply bytes_at_ext.
Qed.
Lemma load_word f va (ws : list Z) k w :
  ws !! k = Some w -> is_u32 w -> load32 (fput f va (words ws)) (va + 4 * Z.of_nat k) = w.
Proof.
  intros Hk Hw. pose proof (lookup_lt_Some _ _ _ Hk) as Hl. unfold load32, fput, words.
  replace (bytes_at _ _ 4) with (slice (mjoin (le_enc 4 <$> ws)) (4 * k) 4).
  - rewrite slice_words by done. rewrite (list_lookup_total_correct _ _ _ Hk), le_dec_enc. by apply Z.mod_small.
  - apply list_eq. intros j. rewrite bytes_at_lookup, slice_lookup by (rewrite words_length; lia). case_decide; [|done].
    unfold put_bytes. rewrite words_length. rewrite decide_True by lia. replace (va + 4 * Z.of_nat k + Z.of_nat j - va) with (Z.of_nat (4 * k + j)) by lia.
    rewrite Nat2Z.id. apply list_lookup_lookup_total_lt. rewrite words_length. lia.
Qed.
Lemma stack_laid f sp argv :
  let sp1 := stack_sp sp argv in
  let esp := sp1 - (3 + Z.of_nat (length argv) + 1) * 4 in
  let ustack := [4294967295; Z.of_nat (length argv); sp1 - (Z.of_nat (length argv) + 1) * 4] ++ stack_ptrs sp argv ++ [0] in
  0 <= esp -> sp < KERNBASE -> Z.of_nat (length argv) < 2 ^ 31 -> Forall (fun p => 0 <= p) (stack_ptrs sp argv) ->
  stack_ok (fput (push_strings sp argv f) esp (words ustack)) esp argv.
Proof.
  intros sp1 esp ustack He Hsp Hlen Hnn. assert (Hw := load_word (push_strings sp argv f) esp ustack).
  pose proof (stack_sp_low argv sp) as Hlow. fold sp1 in Hlow. assert (Hpl := stack_ptrs_length sp argv).
  assert (Hus : length ustack = (4 + length argv)%nat) by (unfold ustack; rewrite !length_app, Hpl; cbn; lia).
  pose proof (Hw 0%nat _ eq_refl ltac:(unfold is_u32; lia)) as W0. change (4 * Z.of_nat 0) with 0 in W0. rewrite Z.add_0_r in W0.
  pose proof (Hw 1%nat _ eq_refl ltac:(unfold is_u32; lia)) as W1. change (4 * Z.of_nat 1) with 4 in W1.
  pose proof (Hw 2%nat _ eq_refl ltac:(unfold is_u32, esp, KERNBASE in *; lia)) as W2. change (4 * Z.of_nat 2) with 8 in W2.
  split; [done|]. split; [done|]. split; [rewrite W2; unfold esp; lia|]. split.
  - replace (esp + 12 + 4 * Z.of_nat (length argv)) with (esp + 4 * Z.of_nat (3 + length argv)) by lia. apply Hw; [|unfold is_u32; lia].
    unfold ustack. rewrite lookup_app_r by (cbn; lia). cbn [length]. rewrite lookup_app_r by lia. by replace (3 + length argv - 3 - length (stack_ptrs sp argv))%nat with 0%nat by lia.
  - intros i a Ha. assert (Hi : (i < length argv)%nat) by (by eapply lookup_lt_Some).
    destruct (lookup_lt_is_Some_2 (stack_ptrs sp argv) i) as [p Hp]; [lia|]. destruct (strings_at argv sp f i a p Ha Hp) as [Hge Hb]. fold sp1 in Hge.
    assert (Hpp : 0 <= p) by (rewrite Forall_lookup in Hnn; by eapply Hnn).
    replace (esp + 12 + 4 * Z.of_nat i) with (esp + 4 * Z.of_nat (3 + i)) by lia. rewrite (Hw (3 + i)%nat p).
    + rewrite <- Hb. apply bytes_at_ext. intros x Hx. unfold fput at 1, put_bytes. unfold words. rewrite words_length, Hus. rewrite decide_False by (unfold esp; lia). done.
    + unfold ustack. rewrite lookup_app_r by (cbn; lia). cbn [length]. replace (3 + i - 3)%nat with i by lia. by rewrite lookup_app_l by lia.
    + unfold is_u32, KERNBASE in *. lia.
Qed.

(** ** exec *)

#[local] Opaque dir_slots user_slots NUSER upages tables.
Section whole.
Context (P : Proc.proc) (A l0 : list Z) (k0 : kmem).
Abbreviation old := (Proc.pgdir P).
Hypothesis old_space : space kend A k0 l0 old.
Hypothesis old_kstack : Proc.kstack P <> 0.

(** exec has failed: the process and its memory are as before, and so are the
    free pages but for their order. *)
Definition failed s' : Prop :=
  xproc s' = P /\ exists l', kmem_ok kend (km s') l' /\ l' ≡ₚ l0 /\ only l0 (pm k0) (pm (km s')).
(** exec has succeeded: the process has the image and its stack; the pages of
    the old one are free. *)
Definition installed path argv elf sz f s' : Prop :=
  let p := xproc s' in
  exists d l' f', p = P <| Proc.name := take 15 (last_elem path path) |> <| Proc.pgdir := d |> <| Proc.sz := sz |>
      <| Proc.tf := (Proc.tf P) <| tf_eip := entry_ elf |> <| tf_esp := tf_esp (Proc.tf p) |> |> /\
    image kend A (km s') d sz (Some (npages sz - 2)) f' (km s') l' /\
    sz = PGSIZE * npages sz /\ sz - PGSIZE <= tf_esp (Proc.tf p) < sz /\ 2 <= npages sz /\
    stack_ok f' (tf_esp (Proc.tf p)) argv /\
    forall y, y < sz - PGSIZE -> f' y = f y.
Lemma holds_page d s l : holds l0 k0 d s l -> page_ok kend d.
Proof. intros [H _]. apply (space_page kend l0 (km s) l d); [done|]. unfold owned. in_list. Qed.
Lemma safe_xput ip (Q : unit -> xst -> Prop) s :
  (forall s', km s' = km s -> xproc s' = xproc s -> Q tt s') -> safe (xput me ip) Q s.
Proof.
  intros HQ. unfold xput. apply safe_bind, safe_gets, safe_bind, safe_fs; [by apply c_iunlockput|].
  intros [] t s1 _ Hk1 Hp1 _. apply exec_end. intros s2 Hk2 Hp2. apply HQ; congruence.
Qed.
Lemma safe_put_opt ip (Q : unit -> xst -> Prop) s :
  (forall s', km s' = km s -> xproc s' = xproc s -> Q tt s') -> safe (match ip with Some ip => xput me ip | None => mret tt end) Q s.
Proof. intros HQ. destruct ip; [by apply safe_xput|]. by apply safe_ret, HQ. Qed.
Lemma safe_xswitchuvm (Q : unit -> xst -> Prop) s :
  Proc.kstack (xproc s) <> 0 -> Proc.pgdir (xproc s) <> 0 -> Q tt s -> safe xswitchuvm Q s.
Proof. intros H1 H2 HQ. apply safe_bind, safe_gets. rewrite !decide_False by done. by apply safe_ret. Qed.
Lemma safe_bad d s l ip (Q : Z -> xst -> Prop) :
  holds l0 k0 d s l -> xproc s = P -> (forall s', failed s' -> Q (-1) s') -> safe (bad me kend d ip) Q s.
Proof.
  intros HH HP HQ. pose proof (page_pos _ _ (holds_page d s l HH)). destruct HH as [HS HO]. unfold bad.
  rewrite decide_False by lia. apply safe_bind, safe_onk. eapply wp_mono; [by apply (freevm_spec kend kend_above l0 (km s) l d)|].
  cbn beta. intros _ k1 (l1 & Hk & Hp & Ho) s1 Hk1 Hp1 _. apply safe_bind, safe_put_opt. intros s2 Hk2 Hp2. apply safe_ret, HQ.
  split; [congruence|]. exists l1. rewrite Hk2, Hk1. split; [done|]. split; [done|]. by eapply only_trans.
Qed.
Lemma safe_bad_early s ip (Q : Z -> xst -> Prop) :
  km s = k0 -> xproc s = P -> (forall s', failed s' -> Q (-1) s') -> safe (bad me kend 0 ip) Q s.
Proof.
  intros HK HP HQ. unfold bad. rewrite decide_True by done. apply safe_bind, safe_ret, safe_bind, safe_put_opt. intros s2 Hk2 Hp2.
  apply safe_ret, HQ. split; [congruence|]. exists l0. rewrite Hk2, HK. split; [apply old_space|done].
Qed.
(** The old space is freed and the new one is left alone. *)
Lemma swap_spaces d sz g f k l :
  image kend l0 k0 d sz g f k l ->
  wp (Vm.freevm kend old) (fun _ k' => exists l', image kend A k' d sz g f k' l') k.
Proof.
  intros I. pose proof (im_only _ _ _ _ _ _ _ _ _ I) as HO. pose proof (im_space _ _ _ _ _ _ _ _ _ I) as HS.
  destruct (space_outside kend kdata kdata_ok A k0 l0 old (pm k) old_space HO) as (_ & _ & Eo).
  pose proof (sp_all _ _ _ _ _ HS) as Hl0. pose proof (sp_all _ _ _ _ _ old_space) as HA.
  assert (Hperm : l ++ owned (pm k) d ++ owned (pm k) old ≡ₚ A) by (rewrite app_assoc, Hl0, Eo; exact HA).
  assert (Hnd : NoDup (l ++ owned (pm k) d ++ owned (pm k) old)) by (rewrite Hperm; apply old_space).
  assert (Hpg : Forall (page_ok kend) (l ++ owned (pm k) d ++ owned (pm k) old)) by (rewrite Hperm; apply old_space).
  assert (HS2 : space kend (l ++ owned (pm k) old) k l old).
  { split; [apply HS|reflexivity| |].
    - apply NoDup_app in Hnd as (N1 & N2 & N3). apply NoDup_app in N3 as (N3 & N4 & N5). apply NoDup_app. split; [exact N1|]. split; [|exact N5].
      intros x Hx Hy. apply (N2 x Hx). apply elem_of_app. right. exact Hy.
    - rewrite !Forall_app in *. tauto. }
  eapply wp_mono; [apply (freevm_spec kend kend_above _ k l old HS2)|]. cbn beta. intros _ k' (l' & Hk' & Hp' & Ho').
  assert (Hfar : forall p x, p ∈ owned (pm k) d -> on_page p x -> pm k' x = pm k x).
  { intros p x Hp Hx. apply NoDup_app in Hnd as (N1 & N2 & N3). apply NoDup_app in N3 as (N3 & N4 & N5). rewrite !Forall_app in Hpg.
    apply (only_apart kend _ p _ _ x Ho'); [|rewrite Forall_app; tauto| |exact Hx].
    - destruct Hpg as (_ & Hpg & _). rewrite Forall_forall in Hpg. by apply Hpg.
    - rewrite elem_of_app. intros [Hl|Hl]; [apply (N2 p Hl); apply elem_of_app; left; exact Hp|exact (N4 p Hp Hl)]. }
  destruct (owned_frame kdata kdata_ok (pm k) (pm k') d Hfar) as [He Ew].
  exists l'. split.
  - split; [done| |apply old_space|apply old_space]. rewrite Ew, Hp', <- Hperm. rewrite <- app_assoc. f_equiv. apply Permutation_app_comm.
  - apply only_refl.
  - eapply half_same; [exact He|apply I].
  - apply I.
  - intros y Hy. rewrite He. by apply (im_user _ _ _ _ _ _ _ _ _ I).
  - intros n Hn. unfold upage_of. rewrite He. by apply (im_rest _ _ _ _ _ _ _ _ _ I).
  - intros y Hy Hu. assert (Hu0 : user (pm k) d y = true) by (unfold user in *; by rewrite <- He). rewrite <- (im_bytes _ _ _ _ _ _ _ _ _ I y Hy Hu0).
    unfold ubyte, upage. rewrite He. fold (upage (pm k) d y). destruct (image_range _ _ _ _ _ _ _ _ _ y I Hy) as [Hyu Hyk].
    destruct (upage_va (pm k) d y Hyu Hyk) as [_ Hn]. apply (Hfar (upage (pm k) d y)).
    + unfold owned. assert (upage (pm k) d y ∈ upages (pm k) d) by (apply in_upages; exists (y / PGSIZE); split; [done|by apply upage_user]). in_list.
    + pose proof (Z.mod_pos_bound y PGSIZE ltac:(done)). unfold on_page. lia.
  - apply I.
Qed.
Lemma npages_mul n : npages (PGSIZE * n) = n.
Proof. unfold npages. symmetry. apply (Z.div_unique_pos _ PGSIZE n (PGSIZE - 1)); unfold PGSIZE; lia. Qed.
Lemma image_round d sz g f k l :
  image kend l0 k0 d sz g f k l -> PGROUNDUP sz < KERNBASE -> image kend l0 k0 d (PGROUNDUP sz) g f k l.
Proof.
  intros I Hk. pose proof (im_sz _ _ _ _ _ _ _ _ _ I) as Hs. destruct (round_up_pages sz ltac:(lia)) as (E & _ & _ & Hle).
  destruct I. split; try assumption; [lia|..]; by rewrite E, npages_mul.
Qed.
(** Room for the stack: one page for it above one that is closed. *)
Definition stack_end sz : Z := PGROUNDUP sz + 2 * PGSIZE.
Lemma stack_end_pages sz : 0 <= sz < KERNBASE -> stack_end sz = PGSIZE * npages (stack_end sz) /\ 2 <= npages (stack_end sz).
Proof.
  intros Hs. destruct (round_up_pages sz ltac:(lia)) as (E & _). unfold stack_end. pose proof (npages_bound sz Hs).
  replace (PGROUNDUP sz + 2 * PGSIZE) with (PGSIZE * (npages sz + 2)) by lia. rewrite npages_mul. lia.
Qed.
Lemma stack_room d sz f s l (Q : Z -> xst -> Prop) k2 :
  image kend l0 k0 d sz None f (km s) l -> xproc s = P ->
  (forall s' l', holds l0 k0 d s' l' -> xproc s' = P -> (stack_end sz < KERNBASE -> few l0 (npages (stack_end sz))) -> safe (k2 0) Q s') ->
  (forall s' l', image kend l0 k0 d (stack_end sz) None f (km s') l' -> xproc s' = P -> safe (k2 (stack_end sz)) Q s') ->
  safe (r ← onk (Vm.allocuvm kend d (PGROUNDUP sz) (u32 (PGROUNDUP sz + 2 * PGSIZE))); k2 r) Q s.
Proof.
  intros I HP Hno Hyes. pose proof (im_sz _ _ _ _ _ _ _ _ _ I) as Hs. destruct (round_up_pages sz ltac:(lia)) as (E & _ & _ & Hle).
  pose proof (npages_bound sz Hs) as Hn. pose proof NUSER_val as HN. fold (stack_end sz).
  assert (Hu : u32 (stack_end sz) = stack_end sz) by (apply u32_small; unfold stack_end, is_u32, PGSIZE in *; lia).
  rewrite Hu. apply safe_bind, safe_onk. destruct (decide (stack_end sz >= KERNBASE)) as [Hbig|Hfit].
  { unfold Vm.allocuvm. rewrite decide_True by done. apply wp_ret. intros s' Hk Hp _. apply (Hno s' l); [|congruence|lia]. split; rewrite Hk; apply I. }
  assert (I' : image kend l0 k0 d (PGROUNDUP sz) None f (km s) l) by (apply image_round; [done|unfold stack_end, PGSIZE in *; lia]).
  eapply wp_mono; [apply (image_alloc kend kend_above l0 k0 d _ f (km s) l _ I'); rewrite <- Hu; apply u32_range|].
  cbn beta. intros r k1 (l1 & HS & HO & Hr) s' Hk Hp _. destruct Hr as [[-> Hf]|(-> & _ & I1)].
  - apply (Hno s' l1); [|congruence|done]. split; by rewrite Hk.
  - rewrite Z.max_r in * by (unfold stack_end, PGSIZE; lia). rewrite <- Hk in I1. apply (Hyes s' l1); [done|congruence].
Qed.
(** The pointers fit in the stack page too if they could be copied. *)
Lemma words_above d sz f k l sp n :
  image kend l0 k0 d sz (Some (npages sz - 2)) f k l -> sz = PGSIZE * npages sz -> 2 <= npages sz ->
  sz - PGSIZE <= sp <= sz -> 0 < n <= 4 * 36 ->
  (forall y, sp - n <= y < sp - n + n -> user (pm k) d y = true) -> sz - PGSIZE <= sp - n.
Proof.
  intros I Hp H2 Hsp Hn Hu. destruct (decide (sz - PGSIZE <= sp - n)) as [|Hlt]; [done|]. exfalso. specialize (Hu (sp - n) ltac:(lia)).
  assert (E : (sp - n) / PGSIZE = npages sz - 2) by (symmetry; apply (Z.div_unique_pos _ PGSIZE (npages sz - 2) (sp - n - PGSIZE * (npages sz - 2))); unfold PGSIZE in *; lia).
  destruct (im_user _ _ _ _ _ _ _ _ _ I (sp - n)) as (_ & _ & Hc); [unfold PGSIZE in *; lia|]. rewrite E, bool_decide_true in Hc by done.
  unfold user in Hu. by rewrite Hc, andb_false_r in Hu.
Qed.
Lemma push_below argv : forall sp f y, y < stack_sp sp argv -> push_strings sp argv f y = f y.
Proof.
  induction argv as [|a argv IH]; intros sp f y Hy; cbn [push_strings stack_sp] in *; [done|]. rewrite IH by done.
  pose proof (stack_sp_low argv (arg_sp sp a)). unfold fput, put_bytes. rewrite decide_False by lia. done.
Qed.
(** The strings and the pointers to them fit in the page below [e]. *)
Definition stack_fits (e : Z) (argv : list (list Z)) : Prop :=
  e < KERNBASE /\ (length argv <= MAXARG)%nat /\ e - PGSIZE <= stack_sp e argv - (3 + Z.of_nat (length argv) + 1) * 4.
#[export] Instance stack_fits_dec e argv : Decision (stack_fits e argv).
Proof. unfold stack_fits. apply _. Defined.
Definition exec_post path argv elf e f (r : Z) s' : Prop :=
  (r = -1 /\ failed s' /\ (stack_fits e argv -> few l0 (npages e))) \/
  (r = 0 /\ installed path argv elf e f s' /\ stack_fits e argv).
Lemma safe_exec_stack path argv elf d sz0 f s l :
  image kend l0 k0 d sz0 None f (km s) l -> xproc s = P -> Forall (fun a : list Z => Z.of_nat (length a) < 2 ^ 24) argv ->
  safe (exec_stack me kend path argv elf d sz0) (exec_post path argv elf (stack_end sz0) f) s.
Proof.
  intros I HP Ha. pose proof (stack_end_pages sz0 (im_sz _ _ _ _ _ _ _ _ _ I)) as [Hpg H2].
  unfold exec_stack. cbv zeta. eapply stack_room; [exact I|exact HP|..].
  { intros s' l' HH HP' Hfew. rewrite decide_True by done. eapply safe_bad; [exact HH|done|]. intros s2 HF. left. split; [done|]. split; [done|]. intros (Hk & _). auto. }
  clear s l I HP. set (sz := stack_end sz0) in *. clearbody sz. intros s l I HP. pose proof (im_sz _ _ _ _ _ _ _ _ _ I) as Hs.
  rewrite decide_False by (unfold PGSIZE in *; lia). rewrite u32_small by (unfold is_u32, KERNBASE, PGSIZE in *; lia).
  replace (sz - 2 * PGSIZE) with (PGSIZE * (npages sz - 2)) by lia.
  apply safe_bind, safe_onk. eapply wp_mono; [by apply (image_guard kend l0 k0 d sz f (km s) l); [|lia]|]. cbn beta. intros _ k1 I1 s1 Hk1 Hp1 _. rewrite <- Hk1 in I1.
  assert (Hbad : forall f1 s', image kend l0 k0 d sz (Some (npages sz - 2)) f1 (km s') l -> xproc s' = P -> ~ stack_fits sz argv ->
    safe (bad me kend d None) (exec_post path argv elf sz f) s').
  { intros f1 s' I' HP' Hno. eapply safe_bad; [eapply image_holds; exact I'|done|]. intros s2 HF. by left. }
  apply safe_bind. eapply safe_mono; [apply (safe_push_args P l0 k0 d sz Hpg H2 l argv 0 sz [] f s1 I1); [congruence|unfold PGSIZE; lia| |done|unfold MAXARG; lia]|].
  { rewrite Hpg. unfold PGSIZE. replace (4096 * npages sz) with (1024 * npages sz * 4) by lia. by apply Z.mod_mul. }
  intros [[sp us]|] s2 (HP2 & f2 & I2 & Hr); [|eapply Hbad; [exact I2|done|]; intros (_ & ? & ?); apply Hr; cbn; lia]. destruct Hr as (Hsp & Hm & Esp & Eus & Hc & Hnn & Hf2). cbn [app] in Eus. subst us.
  cbn [Nat.add] in Hc. unfold MAXARG in Hc. set (argc := Z.of_nat (length argv)).
  assert (Hlo : 0 <= sp - (3 + argc + 1) * 4) by (unfold PGSIZE in *; lia).
  rewrite (u32_small (sp - (argc + 1) * 4)), (u32_small (sp - (3 + argc + 1) * 4)) by (unfold is_u32, KERNBASE, PGSIZE in *; lia).
  set (ustack := [4294967295; argc; sp - (argc + 1) * 4] ++ stack_ptrs sz argv ++ [0]).
  assert (Hul : Z.of_nat (length (words ustack)) = (3 + argc + 1) * 4).
  { unfold words. rewrite words_length. unfold ustack. rewrite !length_app, stack_ptrs_length. cbn [length]. lia. }
  apply safe_bind, safe_onk. eapply wp_mono; [apply (image_copyout kend l0 k0 d sz _ f2 (km s2) l _ (words ustack) I2 Hlo); lia|].
  cbn beta. intros r k3 (f3 & I3 & Hr) s3 Hk3 Hp3 _. rewrite <- Hk3 in I3. destruct (decide (r < 0)).
  { eapply Hbad; [exact I3|congruence|]. intros (_ & _ & Hge). destruct Hr as [(-> & _)|(_ & y & Hy & Hny)]; [lia|]. rewrite Hul in Hy.
    rewrite (stack_user l0 k0 d sz Hpg H2 f2 (km s2) l y I2) in Hny; [done|]. fold argc in Hge. lia. }
  destruct Hr as [(-> & Hu & Hf3)|[-> _]]; [|lia]. rewrite Hul in Hu.
  pose proof (words_above d sz f2 (km s2) l sp ((3 + argc + 1) * 4) I2 Hpg H2 ltac:(lia) ltac:(lia) Hu) as Hesp.
  apply safe_bind, safe_modify, safe_bind, safe_gets, safe_bind, safe_modify.
  pose proof (page_pos _ _ (holds_page d s3 l (image_holds _ _ _ _ _ _ _ _ I3))) as Hd. assert (HP3 : xproc s3 = P) by congruence.
  apply safe_bind, safe_xswitchuvm; [cbn; by rewrite HP3|cbn; lia|]. apply safe_bind, safe_onk.
  replace (Proc.pgdir _) with old by (cbn; by rewrite HP3). eapply wp_mono; [apply (swap_spaces d sz (Some (npages sz - 2)) f3 _ l); exact I3|].
  cbn beta. intros _ k4 (l4 & I4) s4 Hk4 Hp4 _. apply safe_ret. right. split; [done|]. cbn in Hp4. rewrite HP3 in Hp4. rewrite <- Hk4 in I4.
  split; [|split; [lia|]; split; [done|]; fold argc; rewrite <- Esp; lia].
  exists d, l4, f3. rewrite Hp4. cbn. split; [done|]. split; [done|]. split; [done|]. split; [lia|]. split; [done|].
  assert (Hf : forall y, f3 y = fput (push_strings sz argv f) (sp - (3 + argc + 1) * 4) (words ustack) y) by (intros y; rewrite Hf3; by apply fput_ext).
  split.
  - eapply stack_ok_ext; [exact Hf|]. unfold ustack, argc. rewrite Esp. apply stack_laid; [rewrite <- Esp; exact Hlo|lia|lia|done].
  - intros y Hy. rewrite Hf. unfold fput, put_bytes. rewrite decide_False by lia. apply push_below. lia.
Qed.
Lemma installed_ext path argv elf e f g s' : installed path argv elf e f s' -> (forall y, f y = g y) -> installed path argv elf e g s'.
Proof.
  intros (d & l' & f' & H1 & H2 & H3 & H4 & H5 & H6 & H7) Hfg. exists d, l', f'. split; [done|]. split; [done|]. split; [done|]. split; [done|].
  split; [done|]. split; [done|]. intros y Hy. by rewrite H7, Hfg.
Qed.
(** The program finds its memory. *)
Lemma installed_byte path argv elf e f s' y :
  installed path argv elf e f s' -> 0 <= y < e - 2 * PGSIZE ->
  user (pm (km s')) (Proc.pgdir (xproc s')) y = true /\ ubyte (pm (km s')) (Proc.pgdir (xproc s')) y = f y.
Proof.
  intros (d & l' & f' & -> & HI & He & _ & _ & _ & Hf) Hy. cbn. assert (Hin : 0 <= y < PGSIZE * npages e) by (unfold PGSIZE in *; lia).
  destruct (im_user _ _ _ _ _ _ _ _ _ HI y Hin) as (_ & Hp & Hu).
  assert (Hdiv : y / PGSIZE < npages e - 2) by (apply Z.div_lt_upper_bound; [done|]; lia).
  rewrite bool_decide_false in Hu by (intros [= ?]; lia). assert (E : user (pm (km s')) d y = true) by (unfold user; by rewrite Hp, Hu).
  split; [done|]. rewrite (im_bytes _ _ _ _ _ _ _ _ _ HI y Hin E). apply Hf. unfold PGSIZE in *. lia.
Qed.
(** ** The file *)

(** What the file promises: its header and the size of the image with the
    stack, if it can be run with these arguments. *)
Definition runnable (data : list Z) (argv : list (list Z)) : option (elfhdr * Z) :=
  if decide (ELFHDR <= Z.of_nat (length data)) then
    let elf := get_elfhdr (slice data 0 (Z.to_nat ELFHDR)) in
    if decide (magic elf <> ELF_MAGIC) then None else
    sz ← prog_size data (Z.to_nat (phnum elf)) (phoff elf) 0;
    if decide (stack_fits (stack_end sz) argv) then Some (elf, stack_end sz) else None
  else None.
Definition program_of (data : list Z) (elf : elfhdr) : Z -> Z := program data (Z.to_nat (phnum elf)) (phoff elf) (fun _ => 0).
Lemma prog_size_lt data n : forall off sz e, sz < KERNBASE -> prog_size data n off sz = Some e -> e < KERNBASE.
Proof.
  induction n as [|n IH]; intros off sz e Hs; cbn [prog_size]; [by intros [= <-]|]. case_decide; [|done]. cbv zeta.
  case_decide; [by apply IH|]. case_decide as Hok; [|done]. apply IH. destruct Hok as (_ & ? & _). lia.
Qed.
Lemma runnable_size data argv elf e :
  runnable data argv = Some (elf, e) -> exists sz, prog_size data (Z.to_nat (phnum elf)) (phoff elf) 0 = Some sz /\ e = stack_end sz /\ 0 <= sz <= e /\ stack_fits e argv.
Proof.
  unfold runnable. case_decide; [|done]. cbv zeta. case_decide; [done|]. intros H1. apply bind_Some in H1 as (sz & Hsz & H1).
  case_decide as Hf; [|done]. injection H1 as <- <-. exists sz. pose proof (prog_size_le _ _ _ _ _ Hsz). apply prog_size_lt in Hsz as Hlt; [|done].
  destruct (round_up_pages sz ltac:(lia)) as (_ & _ & _ & Hle). split; [done|]. split; [done|]. split; [unfold stack_end, PGSIZE; lia|done].
Qed.
Section file.
Context (ip : nat) (good : fs -> Prop) (data : list Z) (track : Prop).
Hypothesis reads : forall t t' off n r,
  good t -> is_u32 off -> 0 < n <= PGSIZE -> readi devread ip off n t = Ok (t', r) -> good t' /\ (track -> got data off n r).
Hypothesis data_small : Z.of_nat (length data) < 2 ^ 31.
Definition file_post path argv (r : Z) s' : Prop :=
  (r = -1 /\ failed s' /\ (track -> forall elf e, runnable data argv = Some (elf, e) -> few l0 (npages e))) \/
  (r = 0 /\ exists elf e f, installed path argv elf e f s' /\
    (track -> runnable data argv = Some (elf, e) /\ forall y, f y = program_of data elf y)).
Lemma safe_exec_file path argv s :
  keeps P good s -> km s = k0 -> Forall (fun a : list Z => Z.of_nat (length a) < 2 ^ 24) argv ->
  safe (exec_file me kend kdata devread path argv ip) (file_post path argv) s.
Proof.
  intros HK Hk Ha. unfold exec_file. apply safe_bind, (safe_read ip P good data track reads); [done|done|done|].
  intros h s1 HK1 Hk1 Hlen Hdat. destruct HK1 as [HP1 Hg1].
  destruct (decide (h.1 <> ELFHDR)) as [Hne|Heq].
  { apply safe_bad_early; [congruence|done|]. intros s' HF. left. split; [done|]. split; [done|]. intros Ht elf e. unfold runnable.
    rewrite decide_False; [done|]. intros Hle. by apply Hne, Hdat. }
  assert (Eq : h.1 = ELFHDR) by (destruct (decide (h.1 = ELFHDR)); [done|exfalso; auto]). cbv zeta. set (elf := get_elfhdr h.2).
  assert (Helf : track -> ELFHDR <= Z.of_nat (length data) /\ get_elfhdr (slice data 0 (Z.to_nat ELFHDR)) = elf).
  { intros Ht. destruct (Hdat Ht) as [[Hb _] Hd]. specialize (Hb Eq). split; [lia|]. unfold elf. by rewrite (Hd Eq). }
  destruct (decide (magic elf <> ELF_MAGIC)) as [Hm|Hm].
  { apply safe_bad_early; [congruence|done|]. intros s' HF. left. split; [done|]. split; [done|]. intros Ht elf' e. unfold runnable.
    destruct (Helf Ht) as [Hle ->]. by rewrite decide_True, decide_True by done. }
  assert (Hrun : track -> runnable data argv = sz ← prog_size data (Z.to_nat (phnum elf)) (phoff elf) 0;
    if decide (stack_fits (stack_end sz) argv) then Some (elf, stack_end sz) else None).
  { intros Ht. unfold runnable. destruct (Helf Ht) as [Hle ->]. by rewrite decide_True, decide_False by auto. }
  apply safe_bind, safe_onk. eapply wp_mono; [apply (setupkvm_spec kend kend_above kdata kdata_ok (km s1) l0); rewrite Hk1, Hk; apply old_space|].
  cbn beta. intros d k2 Hd s2 Hk2 Hp2 Hf2. rewrite Hk1, Hk in Hd. destruct Hd as [(Hd & l2 & HS2 & HO2 & Hu2 & Hh2)|(-> & Hg & Hfew)].
  2: { rewrite decide_True by done. destruct Hg as (l' & Hk' & Hl' & Ho'). unfold bad. rewrite decide_True by done.
       apply safe_bind, safe_ret, safe_bind, safe_xput. intros s3 Hk3 Hp3. apply safe_ret. left. split; [done|]. split.
       - split; [congruence|]. exists l'. by rewrite Hk3, Hk2.
       - intros _ elf' e (sz & _ & _ & Hsz & _)%runnable_size. apply (few_mono l0 0 e); [exact Hfew|lia]. }
  rewrite decide_False by done. assert (HK2 : keeps P good s2) by (split; congruence).
  assert (I2 : image kend l0 k0 d 0 None (fun _ => 0) (km s2) l2) by (rewrite Hk2; by apply image_start).
  apply safe_bind. eapply safe_mono; [apply (safe_load_segments ip P l0 k0 d good data track reads data_small _ (phoff elf) 0 _ s2 l2 I2 HK2); apply u32_range|].
  cbn beta. intros [sz|] s3 ([HP3 _] & l3 & HH3 & Hr3).
  - destruct Hr3 as (f & I3 & Hr3). apply safe_bind, safe_xput. intros s4 Hk4 Hp4. rewrite <- Hk4 in I3.
    eapply safe_mono; [apply (safe_exec_stack path argv elf d sz f s4 l3 I3); [congruence|done]|].
    intros r s5 [(-> & HF & Hfw)|(-> & HI & Hfit)]; [left|right].
    + split; [done|]. split; [done|]. intros Ht elf' e. rewrite (Hrun Ht). destruct (Hr3 Ht) as [-> _]. cbn. case_decide; [|done]. intros [= <- <-]. auto.
    + split; [done|]. exists elf, (stack_end sz), f. split; [done|]. intros Ht. destruct (Hr3 Ht) as [E Hf]. split; [|done]. rewrite (Hrun Ht), E. cbn. by rewrite decide_True.
  - eapply safe_bad; [exact HH3|done|]. intros s4 HF. left. split; [done|]. split; [done|]. intros Ht elf' e Hr.
    destruct (runnable_size _ _ _ _ Hr) as (sz & Hsz & -> & Hle & _). rewrite (Hrun Ht) in Hr. apply bind_Some in Hr as (sz' & Hsz' & Hr).
    case_decide; [|done]. injection Hr as <- Hr. assert (sz' = sz) as -> by congruence. eapply few_mono; [by eapply Hr3|lia].
Qed.
End file.
End whole.

(** ** Files of the file system *)

Abbreviation node t i := (icache t !!! i).
Lemma readi_got t t' ip off n r :
  file_ok t ip -> itype (node t ip) <> T_DEV -> is_u32 off -> 0 < n <= PGSIZE -> readi devread ip off n t = Ok (t', r) ->
  t' = t /\ got (contents t ip) off n r.
Proof.
  intros H Hty Ho Hn E. pose proof (contents_length t ip) as Hl. pose proof (fi_size _ _ H) as Hs. unfold got. rewrite Hl, Z2Nat.id by lia.
  change (Z.of_nat (MAXFILE * BSIZE)) with 71680 in Hs. unfold is_u32, PGSIZE in *.
  destruct (decide (off <= isize (node t ip))) as [Hle|Hgt].
  - destruct (readi_spec devread t ip off n H Hty ltac:(lia) ltac:(lia) ltac:(lia)) as (k & -> & E'). rewrite E' in E. injection E as <- <-. cbn.
    split; [done|]. split; [lia|]. intros ->. done.
  - unfold readi in E. rewrite geti_run, (decide_False (P := itype _ = T_DEV)) in E by done. rewrite decide_True in E by (left; lia).
    injection E as <- <-. cbn. split; [done|]. split; [lia|]. intros. lia.
Qed.
(** The path leads to the inode [ip], which is locked in [t]. *)
Definition opens s path (ip : nat) (t : fs) : Prop := exists t0,
  namei (pid_ me s) (cwd_ me s) devread path (fsys (xsys s)) = Ok (t0, Some ip) /\ ilock (pid_ me s) ip t0 = Ok (t, tt).
Lemma safe_exec_open path argv (Q : Z -> xst -> Prop) s :
  (forall ip s', opens s path ip (fsys (xsys s')) -> km s' = km s -> xproc s' = xproc s -> safe (exec_file me kend kdata devread path argv ip) Q s') ->
  (forall s', (forall ip t, ~ opens s path ip t) -> km s' = km s -> xproc s' = xproc s -> Q (-1) s') ->
  safe (exec me kend kdata devread path argv) Q s.
Proof.
  intros Hyes Hno. unfold exec. apply safe_bind, exec_begin. intros s1 Hk1 Hp1 Hf1 Hpid Hcwd. apply safe_bind, safe_gets, safe_bind, safe_gets.
  rewrite Hpid, Hcwd. apply safe_bind, safe_fs; [by apply c_namei|]. intros r t0 s2 E2 Hk2 Hp2 Ht2. rewrite Hf1 in E2. destruct r as [ip|].
  - apply safe_bind, safe_fs; [apply c_ilock|]. intros [] t1 s3 E3 Hk3 Hp3 Ht3. apply Hyes; [|congruence|congruence].
    exists t0. split; [done|]. by rewrite Ht3, <- Ht2.
  - apply safe_bind, exec_end. intros s3 Hk3 Hp3. apply safe_ret, Hno; [|congruence|congruence]. intros ip t (t0' & E & _). by rewrite E2 in E.
Qed.
Lemma failed_start P A l0 k0 s : space kend A k0 l0 (Proc.pgdir P) -> km s = k0 -> xproc s = P -> failed P l0 k0 s.
Proof. intros H <- HP. split; [done|]. exists l0. split; [apply H|]. by split. Qed.
End exec.

(** ** A program to run

    The program of two bytes at address 0, in a file of 86 bytes. *)
#[local] Opaque km_boot free_w.
Definition tiny : list Z :=
  le_enc 4 ELF_MAGIC ++ replicate 20 0 ++ le_enc 4 0 ++ le_enc 4 52 ++ replicate 12 0 ++ [1; 0] ++ replicate 6 0 ++
  le_enc 4 1 ++ le_enc 4 84 ++ le_enc 4 0 ++ le_enc 4 0 ++ le_enc 4 2 ++ le_enc 4 16 ++ le_enc 4 0 ++ le_enc 4 4096 ++ [144; 195].
Definition fs_tiny : fs := fs_small T_FILE 86 tiny.
Definition proc_w : Proc.proc := Proc.proc_zero <| Proc.pgdir := dir_w |> <| Proc.kstack := pg 1401 |>.
Definition xst_w : xst :=
  mkxst (mksys fs_tiny 0 (replicate NFILE file_zero) ∅ km_w [mkfproc 1 false [] 0 (mkuctx (fun _ => 0) 0 0) None]) proc_w.
(** The file, found and locked. *)
Definition fs_locked : fs := fs_tiny <| icache := [(node_small T_FILE 86) <| iref := 2 |> <| ilk := mksl true 1 |>] |>.
Definition no_devs (n : Z) : option (nat -> Z -> M fs (Z * list Z)) := None.
Lemma tiny_opens : opens 0 no_devs xst_w [SLASH] 0 fs_locked.
Proof. eexists. split; reflexivity. Qed.
Lemma tiny_ok : file_ok fs_locked 0.
Proof.
  destruct (small_file T_FILE 86 tiny) as [H1 H2 H3 H4 H5 H6 H7 H8 H9]; [vm_compute; lia|apply (bool_decide_unpack _); vm_compute; exact I|lia|].
  destruct H1 as [F1 F2 F3 F4 F5 F6].
  split; [by split|exact H2|exact H3|exact H4|exact H5|exact H6|exact H7|exact H8|exact H9].
Qed.
Definition hello : list (list Z) := [[104; 105]].
Definition tiny_elf : elfhdr := mkelf ELF_MAGIC 0 52 1.
Lemma tiny_runs : runnable (contents fs_locked 0) hello = Some (tiny_elf, 12288).
Proof. vm_compute. reflexivity. Qed.
Lemma no_devs_clean n (rd : nat -> Z -> M fs (Z * list Z)) i k : no_devs n = Some rd -> clean panics (rd i k).
Proof. done. Qed.
Lemma no_devs_len n (rd : nat -> Z -> M fs (Z * list Z)) i k (t t' : fs) (r : Z * list Z) :
  no_devs n = Some rd -> rd i k t = Ok (t', r) -> Z.of_nat (length r.2) <= k.
Proof. done. Qed.
Lemma hello_short : Forall (fun a : list Z => Z.of_nat (length a) < 2 ^ 24) hello.
Proof. by repeat constructor. Qed.
Lemma many_w : ~ few free_w (npages 12288).
Proof. unfold few. rewrite free_w_length. change (npages 12288) with 3. lia. Qed.
Lemma tiny_byte : program_of (contents fs_locked 0) tiny_elf 0 = 144.
Proof. vm_compute. reflexivity. Qed.
Lemma installed_eip P A path argv elf e f s' : installed kend_w P A path argv elf e f s' -> tf_eip (Proc.tf (xproc s')) = entry_ elf.
Proof. intros (d & l' & f' & -> & _). reflexivity. Qed.
