(* ===== verification/Console.v ===== *)
(** The console (console.c): the line editor with history and completion, the
    read and write functions of the console device, and the screen.

    [console] is the input ring with its read, write and edit indices, the
    history ring, and the characters given to consputc so far.  cons.lock is
    held throughout each operation.  The screen is separate: [cgaputc] runs on
    the cursor and the cells of the CGA memory. *)
From S2P Require Import Prelude Cstring.

Definition INPUT_BUF : nat := 128.
Definition HIST_MAX : nat := 16.
Definition BACKSPACE : Z := 256.
Definition NL : Z := 10.
Definition CR : Z := 13.
Definition TAB : Z := 9.
Definition ESC : Z := 27.
Definition DEL : Z := 127.
Definition CTRL_D : Z := 4.
Definition CTRL_H : Z := 8.
Definition CTRL_L : Z := 12.
Definition CTRL_P : Z := 16.
Definition CTRL_U : Z := 21.

Record console := mkcons {
  ibuf : list Z; ir : Z; iw : Z; ie : Z;
  hist : list (list Z); hist_count : Z; hist_head : Z; hist_pos : Z;
  out : list Z; dumps : bool }.
#[export] Instance eta_console : Eta console := fun s =>
  mkcons (ibuf s) (ir s) (iw s) (ie s) (hist s) (hist_count s) (hist_head s) (hist_pos s) (out s) (dumps s).

Definition consputc (c : Z) (s : console) : console := s <| out ::= fun l => l ++ [c] |>.
Definition consputs (l : list Z) (s : console) : console := s <| out ::= fun o => o ++ l |>.
(** [input.buf[i % INPUT_BUF]] *)
Definition ring_at (s : console) (i : Z) : Z := ibuf s !!! Z.to_nat (i mod Z.of_nat INPUT_BUF).
(** [input.buf[input.e++ % INPUT_BUF] = c] and its echo *)
Definition append (c : Z) (s : console) : console :=
  consputc c (s <| ibuf ::= insert (Z.to_nat (ie s mod Z.of_nat INPUT_BUF)) (u8 c) |> <| ie := u32 (ie s + 1) |>).
(** [input.e--; consputc(BACKSPACE)] *)
Definition erase (s : console) : console := consputc BACKSPACE (s <| ie := u32 (ie s - 1) |>).

(** ** History *)

(** The loop that looks for the start of the line. *)
Fixpoint line_start (fuel : nat) (s : console) (start : Z) : Z :=
  match fuel with
  | O => start
  | S fuel => if decide (start > 0 /\ start > s32 (ir s) /\ ring_at s (start - 1) <> NL)
              then line_start fuel s (start - 1) else start
  end.
Definition history_add (s : console) : console :=
  let start := line_start INPUT_BUF s (s32 (ie s - 1)) in
  let len := s32 (ie s - start) in
  if decide (len <= 1) then s else
  let copylen := if decide (len - 1 >= Z.of_nat INPUT_BUF) then Z.of_nat INPUT_BUF - 1 else len - 1 in
  let line := (fun i => ring_at s (start + i)) <$> seqZ 0 copylen in
  s <| hist ::= alter (fun row => splice row 0 (line ++ [0])) (Z.to_nat (hist_head s)) |>
    <| hist_head := (hist_head s + 1) mod Z.of_nat HIST_MAX |>
    <| hist_count := if decide (hist_count s < Z.of_nat HIST_MAX) then hist_count s + 1 else hist_count s |>
    <| hist_pos := -1 |>.

(** The characters before the NUL. *)
Fixpoint cstr (l : list Z) : list Z :=
  match l with
  | c :: l => if decide (c = 0) then [] else c :: cstr l
  | [] => []
  end.
(** [None]: the caller's buffer is left as it was. *)
Definition history_get (s : console) (i : Z) : option (list Z) :=
  if decide (i < 0 \/ i >= hist_count s) then None else
  let base := (hist_head s - hist_count s + Z.of_nat HIST_MAX) mod Z.of_nat HIST_MAX in
  let real := (base + i) mod Z.of_nat HIST_MAX in
  Some (cstr (take (INPUT_BUF - 1) (hist s !!! Z.to_nat real))).
(** [while(input.e != input.w)] erase *)
Definition erase_line (s : console) : console := Nat.iter (Z.to_nat (u32 (ie s - iw s))) erase s.
Fixpoint put_line (l : list Z) (s : console) : console :=
  match l with
  | [] => s
  | c :: l => if decide (u32 (ie s - ir s) < Z.of_nat INPUT_BUF) then put_line l (append c s) else s
  end.
(** [stale] is what the kernel stack holds in place of [tmp]. *)
Definition history_restore (stale : list Z) (i : Z) (s : console) : console :=
  let tmp := if decide (i < 0) then [] else default stale (history_get s i) in
  put_line tmp (erase_line s).

(** ** Completion *)

(** ls cat echo forktest grep kill mkdir rm pwd cd stressfs wolfietest clear
    history pwd ps setprioritytest getstatstest cpuhog *)
Definition commands : list (list Z) :=
  [ [108; 115]; [99; 97; 116]; [101; 99; 104; 111]; [102; 111; 114; 107; 116; 101; 115; 116];
    [103; 114; 101; 112]; [107; 105; 108; 108]; [109; 107; 100; 105; 114]; [114; 109]; [112; 119; 100];
    [99; 100]; [115; 116; 114; 101; 115; 115; 102; 115]; [119; 111; 108; 102; 105; 101; 116; 101; 115; 116];
    [99; 108; 101; 97; 114]; [104; 105; 115; 116; 111; 114; 121]; [112; 119; 100]; [112; 115];
    [115; 101; 116; 112; 114; 105; 111; 114; 105; 116; 121; 116; 101; 115; 116];
    [103; 101; 116; 115; 116; 97; 116; 115; 116; 101; 115; 116]; [99; 112; 117; 104; 111; 103] ].

Section console_input.
(** The memory behind the struct [input], and an uninitialised stack buffer. *)
Context (after : Z -> Z) (stale : list Z).

(** The byte [k] bytes after [&input.buf[input.r % INPUT_BUF]]: the indices
    follow the buffer in memory. *)
Definition line_byte (s : console) (k : Z) : Z :=
  let i := ir s mod Z.of_nat INPUT_BUF + k in
  if decide (i < Z.of_nat INPUT_BUF) then ibuf s !!! Z.to_nat i
  else let fields := le_enc 4 (ir s) ++ le_enc 4 (iw s) ++ le_enc 4 (ie s) in
       default (after i) (fields !! Z.to_nat (i - Z.of_nat INPUT_BUF)).
(** A command and the line, for strncmp. *)
Definition cmd_mem (s : console) (cmd : list Z) : mem := fun x =>
  if decide (x < 1000) then default 0 (cmd !! Z.to_nat x) else line_byte s (x - 1000).
Definition matches (s : console) (len : Z) (cmd : list Z) : bool :=
  bool_decide (string_c.strncmp (cmd_mem s cmd) 0 1000 (Z.to_nat len) = 0).
(** The line from [input.r] to [input.e]. *)
Definition show_line (s : console) : list Z := ring_at s <$> seqZ (ir s) (ie s - ir s).
Definition autocomplete (s : console) : console :=
  let len := u32 (ie s - ir s) in
  match filter (fun cmd => matches s len cmd = true) commands with
  | [] => s
  | [m] => foldl (fun s c => append c s) s (drop (Z.to_nat len) m)
  | ms => consputs (show_line s)
            (consputs [NL; 36; 32] (foldl (fun s cmd => consputs (cmd ++ [32]) s) (consputc NL s) ms))
  end.

(** ** Keys *)

(** The loop of kill line. *)
Fixpoint kill_line (fuel : nat) (s : console) : console :=
  match fuel with
  | O => s
  | S fuel => if decide (ie s <> iw s /\ ring_at s (ie s - 1) <> NL) then kill_line fuel (erase s) else s
  end.
Definition key_up (s : console) : console :=
  if decide (hist_count s > 0) then
    let s := s <| hist_pos := if decide (hist_pos s = -1) then hist_count s - 1
                              else if decide (hist_pos s > 0) then hist_pos s - 1 else hist_pos s |> in
    history_restore stale (hist_pos s) s
  else s.
Definition key_down (s : console) : console :=
  if decide (hist_pos s <> -1) then
    if decide (hist_pos s < hist_count s - 1) then
      let s := s <| hist_pos := hist_pos s + 1 |> in history_restore stale (hist_pos s) s
    else history_restore stale (-1) (s <| hist_pos := -1 |>)
  else s.
(** The default case of the switch. *)
Definition key_char (c : Z) (s : console) : console :=
  if decide (c <> 0 /\ u32 (ie s - ir s) < Z.of_nat INPUT_BUF) then
    let c := if decide (c = CR) then NL else c in
    let s := append c (s <| hist_pos := -1 |>) in
    if decide (c = NL \/ c = CTRL_D \/ ie s = u32 (ir s + Z.of_nat INPUT_BUF)) then
      let s := if decide (c = NL) then history_add s else s in
      s <| iw := ie s |>
    else s
  else s.
Definition key (c : Z) (s : console) : console :=
  if decide (c = CTRL_P) then s <| dumps := true |>
  else if decide (c = CTRL_U) then kill_line (Z.to_nat (u32 (ie s - iw s))) s
  else if decide (c = CTRL_H \/ c = DEL) then if decide (ie s <> iw s) then erase s else s
  else if decide (c = CTRL_L) then consputs ([ESC; 91; 50; 74; ESC; 91; 72; 36; 32] ++ show_line s) s
  else if decide (c = TAB) then autocomplete s
  else key_char c s.
(** consoleintr with the results of getc, which is negative after the last. *)
Fixpoint consoleintr (keys : list Z) (s : console) : console :=
  match keys with
  | [] => s
  | c :: keys =>
      if decide (c < 0) then s
      else if decide (c = ESC) then
        match keys with
        | c1 :: ((c2 :: keys) as ks) =>
            if decide (c1 = 91) then
              if decide (c2 = 65) then consoleintr keys (key_up s)
              else if decide (c2 = 66) then consoleintr keys (key_down s)
              else consoleintr keys s
            else consoleintr ks s
        | _ :: ks => consoleintr ks s
        | [] => s
        end
      else consoleintr keys (key c s)
  end.
End console_input.

(** ** Reading and writing *)

(** How consoleread ends: with its bytes, killed, or asleep with [n] bytes
    still to read. *)
Inductive rdend := RdDone | RdKilled | RdSleeps (n : nat).
(** The loop with [n] bytes to read of [target]. *)
Fixpoint consoleread_from (killed : bool) (target n : nat) (s : console) : console * list Z * rdend :=
  match n with
  | O => (s, [], RdDone)
  | S n' =>
      if decide (ir s = iw s) then (s, [], if killed then RdKilled else RdSleeps n) else
      let c := ring_at s (ir s) in
      let s' := s <| ir := u32 (ir s + 1) |> in
      if decide (c = CTRL_D) then (if decide (n < target)%nat then s else s', [], RdDone) else
      if decide (c = NL) then (s', [c], RdDone) else
      let r := consoleread_from killed target n' s' in (r.1.1, c :: r.1.2, r.2)
  end.
Definition consoleread (killed : bool) (n : nat) (s : console) : console * list Z * rdend :=
  consoleread_from killed n n s.
Definition consolewrite (buf : list Z) (s : console) : console * Z :=
  (consputs buf s, Z.of_nat (length buf)).

(** ** The screen *)

(** The cursor register and the cells of the CGA memory. *)
Record screen := mkscr { pos : Z; crt : list Z }.
Definition COLS : Z := 80.
Definition attr (c : Z) : Z := Z.lor (Z.land c 255) 1792.
(** The cursor and the cells after the character, before the checks. *)
Definition cga_move (c : Z) (s : screen) : Z * list Z :=
  if decide (c = NL) then (pos s + (COLS - pos s mod COLS), crt s)
  else if decide (c = BACKSPACE) then ((if decide (pos s > 0) then pos s - 1 else pos s), crt s)
  else (pos s + 1, <[Z.to_nat (pos s) := attr c]> (crt s)).
(** The check, the scroll and the cursor cell. *)
Definition cga_show (p : Z) (cells : list Z) : result screen :=
  if decide (p < 0 \/ p > 25 * COLS) then Panic "pos under/overflow" else
  let (p, cells) :=
    if decide (p / COLS >= 24) then
      let cells := splice cells 0 (slice cells (Z.to_nat COLS) (Z.to_nat (23 * COLS))) in
      let p := p - COLS in
      (p, splice cells (Z.to_nat p) (replicate (Z.to_nat (24 * COLS - p)) 0))
    else (p, cells) in
  Ok (mkscr p (<[Z.to_nat p := attr 32]> cells)).
Definition cgaputc (c : Z) (s : screen) : result screen :=
  let r := cga_move c s in cga_show r.1 r.2.
Fixpoint cgaputs (l : list Z) (s : screen) : result screen :=
  match l with
  | [] => Ok s
  | c :: l => match cgaputc c s with Ok s => cgaputs l s | Panic e => Panic e | Sleeps ch => Sleeps ch end
  end.
