(* ===== verification/ConsoleFacts.v ===== *)
(** The console as a line editor.

    [editor] is what the console promises: the bytes submitted and not yet
    read, the line being edited, the last sixteen lines entered, oldest first,
    and the line of the history being shown.  The theorems show that the rings
    of console.c implement it, that reads take the submitted bytes in order,
    and that the screen never runs out of its memory. *)
From S2P Require Import Prelude Cstring Console.

Record editor := mked { unread : list Z; edit : list Z; lines : list (list Z); browse : Z }.
#[export] Instance eta_editor : Eta editor := fun s => mked (unread s) (edit s) (lines s) (browse s).
Implicit Types (s : console) (d : editor).

Definition room d : nat := INPUT_BUF - length (unread d ++ edit d).
(** What follows the last newline. *)
Definition last_line (l : list Z) : list Z :=
  foldl (fun acc c => if decide (c = NL) then [] else acc ++ [c]) [] l.
Definition remember (line : list Z) (ls : list (list Z)) : list (list Z) :=
  if decide (line = []) then ls else drop (length ls + 1 - HIST_MAX) (ls ++ [line]).
Definition show (line : list Z) d : editor := d <| edit := take (INPUT_BUF - length (unread d)) line |>.
Definition ed_up d : editor :=
  if decide (lines d = []) then d else
  let i := if decide (browse d = -1) then Z.of_nat (length (lines d)) - 1
           else if decide (browse d > 0) then browse d - 1 else browse d in
  show (lines d !!! Z.to_nat i) (d <| browse := i |>).
Definition ed_down d : editor :=
  if decide (browse d = -1) then d else
  if decide (browse d < Z.of_nat (length (lines d)) - 1)
  then show (lines d !!! Z.to_nat (browse d + 1)) (d <| browse := browse d + 1 |>)
  else show [] (d <| browse := -1 |>).
Definition ed_char (c : Z) d : editor :=
  if decide (c = 0 \/ room d = 0%nat) then d else
  let c := if decide (c = CR) then NL else c in
  let d := d <| browse := -1 |> in
  if decide (c = NL) then
    d <| lines ::= remember (last_line (unread d ++ edit d)) |> <| unread := unread d ++ edit d ++ [c] |> <| edit := [] |>
  else if decide (c = CTRL_D \/ room d = 1%nat) then d <| unread := unread d ++ edit d ++ [c] |> <| edit := [] |>
  else d <| edit ::= fun l => l ++ [c] |>.
Definition ed_key (c : Z) d : editor :=
  if decide (c = CTRL_P \/ c = CTRL_L) then d
  else if decide (c = CTRL_U) then d <| edit := [] |>
  else if decide (c = CTRL_H \/ c = DEL) then d <| edit := removelast (edit d) |>
  else ed_char c d.
Fixpoint ed_keys (keys : list Z) d : editor :=
  match keys with
  | [] => d
  | c :: keys =>
      if decide (c < 0) then d
      else if decide (c = ESC) then
        match keys with
        | c1 :: ((c2 :: keys) as ks) =>
            if decide (c1 = 91) then
              if decide (c2 = 65) then ed_keys keys (ed_up d)
              else if decide (c2 = 66) then ed_keys keys (ed_down d)
              else ed_keys keys d
            else ed_keys ks d
        | _ :: ks => ed_keys ks d
        | [] => d
        end
      else ed_keys keys (ed_key c d)
  end.

(** ** The input ring *)

Definition bytes s (i n : Z) : list Z := ring_at s <$> seqZ i n.
Record ring_ok s : Prop := {
  rk_len : length (ibuf s) = INPUT_BUF;
  rk_order : 0 <= ir s <= iw s /\ iw s <= ie s;
  rk_size : ie s - ir s <= 128;
  rk_small : ie s < 2 ^ 31 - 1;
}.
Section ring.
Lemma bytes_length s i n : length (bytes s i n) = Z.to_nat n.
Proof. unfold bytes. by rewrite length_fmap, length_seqZ. Qed.
Lemma bytes_snoc s i n : 0 <= n -> bytes s i (n + 1) = bytes s i n ++ [ring_at s (i + n)].
Proof. intros. unfold bytes. rewrite seqZ_app by lia. by rewrite fmap_app. Qed.
Lemma bytes_split s i m n : 0 <= m -> 0 <= n -> bytes s i (m + n) = bytes s i m ++ bytes s (i + m) n.
Proof. intros. unfold bytes. rewrite seqZ_app by lia. by rewrite fmap_app. Qed.
Lemma bytes_nil s i n : n <= 0 -> bytes s i n = [].
Proof. intros. unfold bytes. by rewrite seqZ_nil. Qed.
Lemma bytes_ext s s' i n : (forall k, i <= k < i + n -> ring_at s' k = ring_at s k) -> bytes s' i n = bytes s i n.
Proof. intros H. unfold bytes. apply list_fmap_ext. intros j x [-> Hj]%lookup_seqZ. apply H. lia. Qed.
Lemma bytes_same s s' i n : ibuf s' = ibuf s -> bytes s' i n = bytes s i n.
Proof. intros E. apply bytes_ext. intros. unfold ring_at. by rewrite E. Qed.
Lemma size_nat s : ring_ok s -> u32 (ie s - ir s) = ie s - ir s.
Proof. intros [_ H1 H2 H3]. apply u32_small. unfold is_u32. lia. Qed.

Lemma append_ring c s k :
  ring_ok s -> ie s - ir s < 128 -> is_u8 c -> ir s <= k <= ie s ->
  ring_at (append c s) k = if decide (k = ie s) then c else ring_at s k.
Proof.
  intros [Hl Ho _ _] Hr Hc Hk. unfold ring_at, append, consputc. simpl. change (Z.of_nat INPUT_BUF) with 128.
  case_decide as E.
  - subst k. rewrite list_lookup_total_insert_eq; [apply Z.mod_small; exact Hc|].
    rewrite Hl. change INPUT_BUF with (Z.to_nat 128). apply Z2Nat.inj_lt; try lia; apply Z.mod_pos_bound; lia.
  - rewrite list_lookup_total_insert_ne; [done|]. intros E'. apply Z2Nat.inj in E'; try (apply Z.mod_pos_bound; lia).
    Z.to_euclidean_division_equations. lia.
Qed.
Lemma append_ok c s :
  ring_ok s -> ie s - ir s < 128 -> ie s < 2 ^ 31 - 2 -> ring_ok (append c s) /\ ie (append c s) = ie s + 1.
Proof.
  intros [Hl Ho Hs Hm] Hr Hsm.
  assert (E : ie (append c s) = ie s + 1) by (unfold append, consputc; simpl; apply u32_small; unfold is_u32; lia).
  split; [|done]. split; rewrite ?E; unfold append, consputc; simpl; [by rewrite length_insert|lia|lia|lia].
Qed.
(** Everything but the edited line. *)
Definition rest s := (ir s, iw s, hist s, hist_count s, hist_head s, hist_pos s).
Lemma append_rest c s : rest (append c s) = rest s.
Proof. done. Qed.
Lemma append_bytes c s i :
  ring_ok s -> ie s - ir s < 128 -> is_u8 c -> ir s <= i <= ie s -> ie s < 2 ^ 31 - 2 ->
  bytes (append c s) i (ie (append c s) - i) = bytes s i (ie s - i) ++ [c].
Proof.
  intros H Hr Hc Hi Hsm. destruct (append_ok c s H Hr Hsm) as [_ ->].
  replace (ie s + 1 - i) with (ie s - i + 1) by lia. rewrite bytes_snoc by lia.
  replace (i + (ie s - i)) with (ie s) by lia. rewrite append_ring by (done || lia).
  rewrite decide_True by done. f_equal. apply bytes_ext. intros k Hk.
  rewrite append_ring by (done || lia). by rewrite decide_False by lia.
Qed.
Lemma append_prefix c s i n :
  ring_ok s -> ie s - ir s < 128 -> is_u8 c -> ir s <= i -> i + n <= ie s -> bytes (append c s) i n = bytes s i n.
Proof.
  intros H Hr Hc Hi Hn. apply bytes_ext. intros k Hk. rewrite append_ring by (done || lia). by rewrite decide_False by lia.
Qed.

Lemma put_line_spec l : forall s,
  ring_ok s -> Forall is_u8 l -> ie s + Z.of_nat (length l) < 2 ^ 31 - 2 ->
  let s' := put_line l s in
  ring_ok s' /\ rest s' = rest s /\ ie s <= ie s' <= ie s + Z.of_nat (length l) /\
  bytes s' (ir s) (iw s - ir s) = bytes s (ir s) (iw s - ir s) /\
  bytes s' (iw s) (ie s' - iw s) = bytes s (iw s) (ie s - iw s) ++ take (Z.to_nat (128 - (ie s - ir s))) l.
Proof.
  induction l as [|c l IH]; intros s H Hl Hsm; simpl put_line.
  { split; [done|]. split; [done|]. split; [simpl; lia|]. by rewrite take_nil, app_nil_r. }
  inversion Hl as [|? ? Hc Hl']; subst. simpl length in *. rewrite size_nat by done. change (Z.of_nat INPUT_BUF) with 128.
  pose proof H as [_ Ho Hs _]. case_decide as Hr.
  - destruct (append_ok c s H Hr) as [H1 E1]; [lia|]. destruct (IH (append c s) H1 Hl') as (A & B & C & D & F); [lia|].
    assert (Er : ir (append c s) = ir s) by done. assert (Ew : iw (append c s) = iw s) by done.
    split; [done|]. split; [exact B|]. split; [lia|]. rewrite Er, Ew in *. split.
    + rewrite D. apply append_prefix; try done; lia.
    + rewrite F, E1. pose proof (append_bytes c s (iw s) H Hr Hc ltac:(lia) ltac:(lia)) as G. rewrite E1 in G. rewrite G.
      rewrite <- app_assoc. f_equal.
      replace (Z.to_nat (128 - (ie s - ir s))) with (S (Z.to_nat (128 - (ie s + 1 - ir s)))) by lia. done.
  - split; [done|]. split; [done|]. split; [lia|]. replace (Z.to_nat (128 - (ie s - ir s))) with 0%nat by lia.
    by rewrite take_0, app_nil_r.
Qed.

Lemma erase_spec s : ring_ok s -> iw s < ie s ->
  ring_ok (erase s) /\ rest (erase s) = rest s /\ ie (erase s) = ie s - 1 /\ ibuf (erase s) = ibuf s.
Proof.
  intros [Hl Ho Hs Hm] Hw. assert (E : ie (erase s) = ie s - 1).
  { unfold erase, consputc. simpl. apply u32_small. unfold is_u32. lia. }
  split; [|done]. split; rewrite ?E; simpl; [done|lia|lia|lia].
Qed.
Lemma erase_line_spec s : ring_ok s ->
  ring_ok (erase_line s) /\ rest (erase_line s) = rest s /\ ie (erase_line s) = iw s /\ ibuf (erase_line s) = ibuf s.
Proof.
  intros H. unfold erase_line. assert (Eu : u32 (ie s - iw s) = ie s - iw s).
  { destruct H as [_ Ho _ Hm]. apply u32_small. unfold is_u32. lia. }
  rewrite Eu. remember (Z.to_nat (ie s - iw s)) as n eqn:En. revert s H Eu En.
  induction n as [|n IH]; intros s H Eu En; pose proof H as [_ Ho _ Hm].
  - simpl. split; [done|]. split; [done|]. split; [lia|done].
  - rewrite Nat.iter_succ_r. destruct (erase_spec s H) as (A & B & C & D); [lia|].
    assert (Ew : iw (erase s) = iw s) by done.
    destruct (IH (erase s) A) as (A' & B' & C' & D'); [rewrite C, Ew; apply u32_small; unfold is_u32; lia|lia|].
    split; [done|]. split; [by rewrite B'|]. split; [lia|congruence].
Qed.
Lemma kill_line_spec s : ring_ok s -> (forall c, c ∈ bytes s (iw s) (ie s - iw s) -> c <> NL) ->
  let s' := kill_line (Z.to_nat (u32 (ie s - iw s))) s in
  ring_ok s' /\ rest s' = rest s /\ ie s' = iw s /\ ibuf s' = ibuf s.
Proof.
  intros H Hnl. assert (Eu : u32 (ie s - iw s) = ie s - iw s).
  { destruct H as [_ Ho _ Hm]. apply u32_small. unfold is_u32. lia. }
  rewrite Eu. remember (Z.to_nat (ie s - iw s)) as n eqn:En. revert s H Hnl Eu En.
  induction n as [|n IH]; intros s H Hnl Eu En; pose proof H as [_ Ho _ Hm]; cbn [kill_line].
  - split; [done|]. split; [done|]. split; [lia|done].
  - rewrite decide_True.
    2:{ split; [lia|]. apply Hnl. replace (ie s - iw s) with (ie s - iw s - 1 + 1) by lia. rewrite bytes_snoc by lia.
        apply elem_of_app. right. apply list_elem_of_singleton. f_equal. lia. }
    destruct (erase_spec s H) as (A & B & C & D); [lia|]. assert (Ew : iw (erase s) = iw s) by done.
    destruct (IH (erase s) A) as (A' & B' & C' & D').
    + intros c. rewrite Ew, C, (bytes_same s) by done. intros Hc. apply Hnl.
      replace (ie s - iw s) with (ie s - 1 - iw s + 1) by lia. rewrite bytes_snoc by lia. apply elem_of_app. by left.
    + rewrite C, Ew. apply u32_small. unfold is_u32. lia.
    + lia.
    + split; [done|]. split; [by rewrite B'|]. split; [lia|congruence].
Qed.
End ring.

(** ** The history ring *)

Definition text (l : list Z) : Prop := forall c, c ∈ l -> c <> NL /\ c <> 0 /\ is_u8 c.
Definition hist_row s (i : Z) : list Z := hist s !!! Z.to_nat ((hist_head s - hist_count s + 16 + i) mod 16).
Record hist_ok s (ls : list (list Z)) : Prop := {
  hk_rows : length (hist s) = HIST_MAX;
  hk_row : forall r, r ∈ hist s -> length r = INPUT_BUF;
  hk_count : 0 <= hist_count s <= 16;
  hk_head : 0 <= hist_head s < 16;
  hk_len : Z.of_nat (length ls) = hist_count s;
  hk_lines : forall i l, ls !! i = Some l -> cstr (take (INPUT_BUF - 1) (hist_row s (Z.of_nat i))) = l;
  hk_text : forall l, l ∈ ls -> text l;
}.
Section history.
Lemma history_get_spec s ls i :
  hist_ok s ls -> history_get s i = if decide (0 <= i < hist_count s) then ls !! Z.to_nat i else None.
Proof.
  intros [H1 H2 H3 H4 H5 H6 H7]. unfold history_get. case_decide as Hi; [by rewrite decide_False by lia|].
  rewrite decide_True by lia. destruct (ls !! Z.to_nat i) as [l|] eqn:E.
  - apply H6 in E. rewrite <- E. unfold hist_row. do 5 f_equal. change (Z.of_nat HIST_MAX) with 16.
    rewrite Z.add_mod_idemp_l by lia. f_equal. lia.
  - apply lookup_ge_None in E. lia.
Qed.
Lemma hist_frame s s' ls :
  hist s' = hist s -> hist_count s' = hist_count s -> hist_head s' = hist_head s -> hist_ok s ls -> hist_ok s' ls.
Proof.
  intros E1 E2 E3 [H1 H2 H3 H4 H5 H6 H7]. split; rewrite ?E1, ?E2, ?E3; try done.
  intros i l Hl. unfold hist_row. rewrite E1, E2, E3. by apply H6.
Qed.
Lemma cstr_app l r : (forall c, c ∈ l -> c <> 0) -> cstr (l ++ 0 :: r) = l.
Proof.
  induction l as [|c l IH]; intros H; simpl; [done|].
  rewrite decide_False by (apply H; left). f_equal. apply IH. intros. apply H. by right.
Qed.
Lemma last_line_snoc l c : last_line (l ++ [c]) = if decide (c = NL) then [] else last_line l ++ [c].
Proof. unfold last_line. by rewrite foldl_app. Qed.
Lemma last_line_suffix l : exists p, l = p ++ last_line l.
Proof.
  induction l as [|c l [p IH]] using rev_ind; [by exists []|]. rewrite last_line_snoc. case_decide.
  - exists (l ++ [c]). by rewrite app_nil_r.
  - exists p. rewrite app_assoc. by rewrite <- IH.
Qed.
Lemma last_line_text l : (forall c, c ∈ l -> c <> 0 /\ is_u8 c) -> text (last_line l).
Proof.
  induction l as [|c l IH] using rev_ind; intros H; [by intros c ?%not_elem_of_nil|]. rewrite last_line_snoc.
  case_decide; [by intros x ?%not_elem_of_nil|]. intros x [Hx| ->%list_elem_of_singleton]%elem_of_app.
  - apply IH; [|done]. intros y Hy. apply H, elem_of_app. by left.
  - split; [done|]. apply H, elem_of_app. right. by apply list_elem_of_singleton.
Qed.
(** The scan for the start of the line. *)
Lemma line_start_spec s start fuel :
  0 <= ir s <= start -> start < 2 ^ 31 -> (Z.to_nat (start - ir s) <= fuel)%nat ->
  line_start fuel s start = start - Z.of_nat (length (last_line (bytes s (ir s) (start - ir s)))).
Proof.
  revert start. induction fuel as [|fuel IH]; intros start Hr Hs Hf; cbn [line_start].
  - rewrite bytes_nil by lia. simpl. lia.
  - rewrite s32_small by (unfold is_s32; lia). destruct (decide (start = ir s)) as [->|Hn].
    { rewrite decide_False by lia. rewrite bytes_nil by lia. simpl. lia. }
    replace (start - ir s) with (start - 1 - ir s + 1) by lia. rewrite bytes_snoc by lia. rewrite last_line_snoc.
    replace (ir s + (start - 1 - ir s)) with (start - 1) by lia. case_decide as Hc.
    + rewrite (decide_False (P := ring_at s (start - 1) = NL)) by naive_solver.
      rewrite IH by lia. rewrite length_app. simpl. lia.
    + rewrite (decide_True (P := ring_at s (start - 1) = NL)); [simpl; lia|].
      destruct (decide (ring_at s (start - 1) = NL)); [done|]. exfalso. apply Hc. split; [lia|]. split; [lia|done].
Qed.
(** The new state when a line [l] is put into row [head]. *)
Definition pushed (l : list Z) s : console :=
  s <| hist ::= alter (fun row => splice row 0 (l ++ [0])) (Z.to_nat (hist_head s)) |>
    <| hist_head := (hist_head s + 1) mod Z.of_nat HIST_MAX |>
    <| hist_count := if decide (hist_count s < Z.of_nat HIST_MAX) then hist_count s + 1 else hist_count s |>
    <| hist_pos := -1 |>.
Lemma history_add_run s u :
  ring_ok s -> ir s < ie s -> u = bytes s (ir s) (ie s - 1 - ir s) ->
  history_add s = if decide (last_line u = []) then s else pushed (last_line u) s.
Proof.
  intros [Hl Ho Hs Hm] Hlt ->. unfold history_add. rewrite (s32_small (ie s - 1)) by (unfold is_s32; lia).
  rewrite line_start_spec; [|lia|lia|change INPUT_BUF with (Z.to_nat 128); lia].
  set (u := bytes s (ir s) (ie s - 1 - ir s)). destruct (last_line_suffix u) as [p Hp].
  assert (Hlen : (length p + length (last_line u) = Z.to_nat (ie s - 1 - ir s))%nat).
  { pose proof (f_equal length Hp) as E. rewrite length_app in E.
    pose proof (bytes_length s (ir s) (ie s - 1 - ir s)) as E2. fold u in E2. lia. }
  rewrite s32_small by (unfold is_s32; lia). set (n := length (last_line u)) in *.
  replace (ie s - (ie s - 1 - Z.of_nat n)) with (Z.of_nat n + 1) by lia.
  destruct (decide (last_line u = [])) as [E|E].
  { assert (n = 0%nat) by (unfold n; by rewrite E). by rewrite decide_True by lia. }
  assert (Hn : n <> 0%nat) by (unfold n; by destruct (last_line u)). rewrite decide_False by lia.
  change (Z.of_nat INPUT_BUF) with 128. rewrite (decide_False (P := Z.of_nat n + 1 - 1 >= 128)) by lia. unfold pushed.
  assert (El : (fun i => ring_at s (ie s - 1 - Z.of_nat n + i)) <$> seqZ 0 (Z.of_nat n + 1 - 1) = last_line u).
  { replace (Z.of_nat n + 1 - 1) with (Z.of_nat n) by lia.
    assert (Eb : u = bytes s (ir s) (Z.of_nat (length p)) ++ bytes s (ie s - 1 - Z.of_nat n) (Z.of_nat n)).
    { unfold u. replace (ie s - 1 - ir s) with (Z.of_nat (length p) + Z.of_nat n) by lia.
      rewrite bytes_split by lia. do 2 f_equal. lia. }
    rewrite Hp in Eb at 1. apply app_inj_1 in Eb as [_ ->]; [|by rewrite bytes_length, Nat2Z.id].
    unfold bytes. apply list_eq. intros i. rewrite !list_lookup_fmap.
    destruct (decide (i < n)%nat); [rewrite !lookup_seqZ_lt by lia; simpl; do 2 f_equal; lia|].
    by rewrite !lookup_seqZ_ge by lia. }
  by rewrite El.
Qed.

Lemma cstr_id l : (forall c, c ∈ l -> c <> 0) -> cstr l = l.
Proof.
  induction l as [|c l IH]; intros H; simpl; [done|].
  rewrite decide_False by (apply H; left). f_equal. apply IH. intros. apply H. by right.
Qed.
Lemma cstr_row l r n : (forall c, c ∈ l -> c <> 0) -> (length l <= n)%nat -> cstr (take n (l ++ 0 :: r)) = l.
Proof.
  intros H Hn. rewrite take_app. rewrite (take_ge l) by lia. destruct (n - length l)%nat as [|k]; simpl.
  - rewrite app_nil_r. by apply cstr_id.
  - by apply cstr_app.
Qed.
Lemma pushed_ok s ls l :
  hist_ok s ls -> text l -> (length l <= 127)%nat ->
  hist_ok (pushed l s) (drop (length ls + 1 - HIST_MAX) (ls ++ [l])).
Proof.
  intros [H1 H2 H3 H4 H5 H6 H7] Ht Hl. set (off := (length ls + 1 - HIST_MAX)%nat).
  assert (Hoff : Z.of_nat off = if decide (hist_count s < 16) then 0 else 1).
  { unfold off, HIST_MAX. case_decide; lia. }
  assert (Hhead : (Z.to_nat (hist_head s) < length (hist s))%nat) by (rewrite H1; unfold HIST_MAX; lia).
  destruct (lookup_lt_is_Some_2 _ _ Hhead) as [row Hrow].
  assert (Hrl : length row = INPUT_BUF) by (apply H2; by eapply list_elem_of_lookup_2).
  unfold pushed. change (Z.of_nat HIST_MAX) with 16. split; simpl.
  - by rewrite length_alter.
  - intros r [i Hi]%list_elem_of_lookup. destruct (decide (Z.to_nat (hist_head s) = i)) as [<-|Hn].
    + rewrite list_lookup_alter_eq, Hrow in Hi. simplify_eq/=. rewrite splice_length; [done|].
      rewrite Hrl, length_app. unfold INPUT_BUF. simpl. lia.
    + rewrite list_lookup_alter_ne in Hi by done. apply H2. by eapply list_elem_of_lookup_2.
  - case_decide; lia.
  - apply Z.mod_pos_bound. lia.
  - rewrite length_drop, length_app. simpl length. unfold off, HIST_MAX. case_decide; lia.
  - intros j x Hj. rewrite lookup_drop in Hj.
    assert (Ei : ((hist_head s + 1) mod 16 - (if decide (hist_count s < 16) then hist_count s + 1 else hist_count s) + 16 + Z.of_nat j) mod 16
               = (hist_head s - hist_count s + 16 + Z.of_nat (off + j)) mod 16).
    { rewrite Nat2Z.inj_add, Hoff. case_decide; Z.to_euclidean_division_equations; lia. }
    unfold hist_row. simpl. rewrite Ei. set (k := (off + j)%nat) in *.
    destruct (decide (k < length ls)%nat) as [Hk|Hk].
    + rewrite lookup_app_l in Hj by done. rewrite list_lookup_total_alter_ne; [by apply H6|].
      intros E. apply Z2Nat.inj in E; [|lia|apply Z.mod_pos_bound; lia]. revert E.
      assert (1 <= 16 - hist_count s + Z.of_nat k <= 15).
      { unfold k in *. rewrite Nat2Z.inj_add, Hoff. case_decide; lia. }
      Z.to_euclidean_division_equations. lia.
    + rewrite lookup_app_r in Hj by lia. destruct (k - length ls)%nat as [|q] eqn:Eq; [|done]. simpl in Hj. simplify_eq.
      replace ((hist_head s - hist_count s + 16 + Z.of_nat k) mod 16) with (hist_head s).
      2:{ replace (hist_head s - hist_count s + 16 + Z.of_nat k) with (hist_head s + 1 * 16) by lia.
          rewrite Z_mod_plus_full. symmetry. apply Z.mod_small. lia. }
      rewrite list_lookup_total_alter_eq by done. rewrite (list_lookup_total_correct _ _ _ Hrow).
      unfold splice. rewrite take_0. simpl app. rewrite <- app_assoc. apply cstr_row; [|unfold INPUT_BUF; lia].
      intros c Hc. by apply Ht.
  - intros x [i Hi]%list_elem_of_lookup. rewrite lookup_drop in Hi. apply list_elem_of_lookup_2 in Hi.
    apply elem_of_app in Hi as [Hi| ->%list_elem_of_singleton]; [by apply H7|done].
Qed.
End history.

(** ** The refinement *)

Record refines s d : Prop := {
  rf_ring : ring_ok s;
  rf_unread : unread d = bytes s (ir s) (iw s - ir s);
  rf_edit : edit d = bytes s (iw s) (ie s - iw s);
  rf_text : text (edit d);
  rf_bytes : forall c, c ∈ unread d -> c <> 0 /\ is_u8 c;
  rf_hist : hist_ok s (lines d);
  rf_browse : browse d = hist_pos s /\ -1 <= hist_pos s < hist_count s;
}.
Section refine.
Context (after : Z -> Z) (stale : list Z).

Lemma input_ext s s' : ibuf s' = ibuf s -> ir s' = ir s -> iw s' = iw s -> ie s' = ie s -> ring_ok s -> ring_ok s'.
Proof. intros E1 E2 E3 E4 [H1 H2 H3 H4]. split; rewrite ?E1, ?E2, ?E3, ?E4; done. Qed.
Lemma refines_ext s s' d :
  ibuf s' = ibuf s -> ie s' = ie s -> rest s' = rest s -> refines s d -> refines s' d.
Proof.
  unfold rest. intros E1 E2 E3 [H1 H2 H3 H4 H5 H6 H7]. injection E3 as R1 R2 R3 R4 R5 R6.
  split; rewrite ?R1, ?R2, ?R4, ?R6, ?E2; try done.
  - by apply (input_ext s).
  - rewrite H2. symmetry. by apply bytes_same.
  - rewrite H3. symmetry. by apply bytes_same.
  - by apply (hist_frame s).
Qed.
Lemma whole_line s d : refines s d -> unread d ++ edit d = bytes s (ir s) (ie s - ir s).
Proof.
  intros [[_ Ho _ _] -> -> _ _ _ _]. replace (ie s - ir s) with (iw s - ir s + (ie s - iw s)) by lia.
  rewrite bytes_split by lia. do 2 f_equal. lia.
Qed.
Lemma room_spec s d : refines s d -> Z.of_nat (room d) = 128 - (ie s - ir s).
Proof.
  intros R. unfold room. rewrite (whole_line s d R), bytes_length. destruct R as [[_ Ho Hs _] _ _ _ _ _ _].
  unfold INPUT_BUF. lia.
Qed.
Lemma line_text s d : refines s d -> forall c, c ∈ unread d ++ edit d -> c <> 0 /\ is_u8 c.
Proof. intros [_ _ _ Ht Hb _ _] c [Hc|Hc]%elem_of_app; [by apply Hb|]. destruct (Ht c Hc) as (_ & ? & ?). done. Qed.

(** Showing a line in place of the edited one. *)
Lemma show_refines s d l i :
  refines s d -> text l -> (length l <= 127)%nat -> ie s + 256 < 2 ^ 31 - 2 ->
  (i < 0 /\ l = [] \/ 0 <= i /\ history_get s i = Some l) -> refines (history_restore stale i s) (show l d).
Proof.
  intros R Ht Hl Hsm Hi. unfold history_restore.
  assert (El : (if decide (i < 0) then [] else default stale (history_get s i)) = l).
  { destruct Hi as [[Hi ->]|[Hi E]]; case_decide; try lia; [done|]. by rewrite E. }
  rewrite El. destruct R as [H1 H2 H3 H4 H5 H6 H7].
  destruct (erase_line_spec s H1) as (A1 & A2 & A3 & A4). set (s1 := erase_line s) in *.
  unfold rest in A2. injection A2 as R1 R2 R3 R4 R5 R6. pose proof H1 as [_ Ho Hs _].
  destruct (put_line_spec l s1 A1) as (B1 & B2 & B3 & B4 & B5).
  { apply Forall_forall. intros c Hc. by apply Ht. }
  { lia. }
  set (s2 := put_line l s1) in *. unfold rest in B2. injection B2 as Q1 Q2 Q3 Q4 Q5 Q6.
  rewrite R1, R2, A3 in *. rewrite (bytes_nil s1 (iw s)) in B5 by lia. simpl app in B5.
  assert (E : edit (show l d) = bytes s2 (iw s) (ie s2 - iw s)).
  { rewrite B5. unfold show. simpl. f_equal. rewrite H2, bytes_length. unfold INPUT_BUF. lia. }
  split; rewrite ?Q1, ?Q2, ?R1, ?R2; try done.
  - simpl. rewrite B4, H2. symmetry. by apply bytes_same.
  - simpl. intros c [j Hj]%list_elem_of_lookup. apply lookup_take_Some in Hj as [Hj _].
    apply Ht. by eapply list_elem_of_lookup_2.
  - apply (hist_frame s); [congruence..|done].
  - simpl. by rewrite Q6, R6, Q4, R4.
Qed.

Lemma cstr_length l : (length (cstr l) <= length l)%nat.
Proof. induction l as [|c l IH]; simpl; [lia|]. case_decide; simpl; lia. Qed.
Lemma line_short s ls l : hist_ok s ls -> l ∈ ls -> (length l <= 127)%nat.
Proof.
  intros H [i Hi]%list_elem_of_lookup. rewrite <- (hk_lines _ _ H i l Hi).
  etransitivity; [apply cstr_length|]. rewrite length_take. unfold INPUT_BUF. lia.
Qed.
Lemma set_pos_refines s d i :
  refines s d -> -1 <= i < hist_count s -> refines (s <| hist_pos := i |>) (d <| browse := i |>).
Proof. intros [H1 H2 H3 H4 H5 H6 H7] Hi. split; try done; [by apply (input_ext s)|by apply (hist_frame s)]. Qed.
Lemma browse_refines s d i :
  refines s d -> ie s + 256 < 2 ^ 31 - 2 -> 0 <= i < hist_count s ->
  refines (history_restore stale i (s <| hist_pos := i |>)) (show (lines d !!! Z.to_nat i) (d <| browse := i |>)).
Proof.
  intros R Hsm Hi. pose proof (rf_hist _ _ R) as Hh.
  destruct (lookup_lt_is_Some_2 (lines d) (Z.to_nat i)) as [l El]; [pose proof (hk_len _ _ Hh); lia|].
  rewrite (list_lookup_total_correct _ _ _ El). pose proof (list_elem_of_lookup_2 _ _ _ El) as Hin.
  apply (show_refines _ (d <| browse := i |>)); try done.
  - apply set_pos_refines; [done|lia].
  - by apply (hk_text _ _ Hh).
  - by eapply line_short.
  - right. split; [lia|]. change (history_get (s <| hist_pos := i |>) i) with (history_get s i).
    rewrite (history_get_spec _ _ _ Hh). by rewrite decide_True by lia.
Qed.
Lemma up_refines s d : refines s d -> ie s + 256 < 2 ^ 31 - 2 -> refines (key_up stale s) (ed_up d).
Proof.
  intros R Hsm. pose proof (hk_len _ _ (rf_hist _ _ R)) as Hlen. destruct (rf_browse _ _ R) as [Eb Hb].
  unfold key_up, ed_up. case_decide as Hc.
  - rewrite (decide_False (P := lines d = [])) by (intros E; rewrite E in Hlen; simpl in Hlen; lia). cbv zeta. rewrite Eb, Hlen.
    apply browse_refines; [done|done|]. repeat case_decide; lia.
  - rewrite (decide_True (P := lines d = [])); [done|]. apply nil_length_inv. lia.
Qed.
Lemma down_refines s d : refines s d -> ie s + 256 < 2 ^ 31 - 2 -> refines (key_down stale s) (ed_down d).
Proof.
  intros R Hsm. pose proof (hk_len _ _ (rf_hist _ _ R)) as Hlen. destruct (rf_browse _ _ R) as [Eb Hb].
  unfold key_down, ed_down. rewrite Eb, Hlen. destruct (decide (hist_pos s = -1)) as [E|E].
  - by rewrite decide_False by auto.
  - rewrite decide_True by done. case_decide.
    + cbv zeta. apply browse_refines; [done|done|lia].
    + apply (show_refines _ (d <| browse := -1 |>)); [apply set_pos_refines; [done|lia]|by intros c ?%not_elem_of_nil|simpl; lia|done|by left].
Qed.

(** A character goes to the end of the edited line. *)
Lemma append_refines s d c :
  refines s d -> is_u8 c -> c <> 0 -> ie s - ir s < 128 -> ie s + 256 < 2 ^ 31 - 2 -> c <> NL ->
  refines (append c s) (d <| edit ::= fun l => l ++ [c] |>).
Proof.
  intros [H1 H2 H3 H4 H5 H6 H7] Hc H0 Hr Hsm Hnl. destruct (append_ok c s H1 Hr) as [A1 A2]; [lia|].
  pose proof H1 as [_ Ho _ _]. assert (Er : ir (append c s) = ir s) by done. assert (Ew : iw (append c s) = iw s) by done.
  split; try done.
  - simpl unread. rewrite Er, Ew. rewrite append_prefix by (done || lia). done.
  - simpl edit. rewrite Ew. rewrite append_bytes by (done || lia). by rewrite H3.
  - simpl. intros x [Hx| ->%list_elem_of_singleton]%elem_of_app; [by apply H4|done].
  - by apply (hist_frame s).
Qed.
(** The line is submitted: [input.w = input.e]. *)
Lemma submit_refines s d c ls n s' :
  refines s d -> is_u8 c -> c <> 0 -> ie s - ir s < 128 -> ie s + 256 < 2 ^ 31 - 2 ->
  ibuf s' = ibuf (append c s) -> ie s' = ie (append c s) -> ir s' = ir s -> hist_ok s' ls ->
  n = hist_pos s' -> -1 <= n < hist_count s' ->
  refines (s' <| iw := ie s' |>) (mked (unread d ++ edit d ++ [c]) [] ls n).
Proof.
  intros R Hc H0 Hr Hsm Eb Ee Er Hh -> Hp. pose proof R as [H1 H2 H3 H4 H5 H6 H7].
  destruct (append_ok c s H1 Hr) as [A1 A2]; [lia|]. pose proof A1 as [L1 L2 L3 L4]. pose proof H1 as [_ Ho _ _].
  assert (Er' : ir (append c s) = ir s) by done. rewrite Er' in *. split; simpl; try done.
  - split; simpl; rewrite ?Eb, ?Ee, ?Er; [done|lia|lia|lia].
  - rewrite Ee, Er. rewrite app_assoc, (whole_line s d R).
    transitivity (bytes (append c s) (ir s) (ie (append c s) - ir s)); symmetry;
      [apply append_bytes; try done; lia|apply bytes_same; exact Eb].
  - by rewrite bytes_nil by lia.
  - by intros x ?%not_elem_of_nil.
  - intros x Hx. rewrite app_assoc in Hx. apply elem_of_app in Hx as [Hx| ->%list_elem_of_singleton]; [by eapply line_text|done].
  - by apply (hist_frame s').
Qed.

Lemma newline_refines s d :
  refines s d -> ie s - ir s < 128 -> ie s + 256 < 2 ^ 31 - 2 -> hist_pos s = -1 ->
  let s1 := history_add (append NL s) in
  refines (s1 <| iw := ie s1 |>)
    (mked (unread d ++ edit d ++ [NL]) [] (remember (last_line (unread d ++ edit d)) (lines d)) (-1)).
Proof.
  intros R Hr Hsm Hp. pose proof (rf_ring _ _ R) as Hring. pose proof Hring as [_ Ho _ _].
  destruct (append_ok NL s Hring Hr) as [A1 A2]; [lia|]. pose proof (hk_count _ _ (rf_hist _ _ R)) as Hcnt.
  assert (Hu : is_u8 NL) by (unfold is_u8, NL; lia). assert (Er : ir (append NL s) = ir s) by done.
  rewrite (history_add_run _ (unread d ++ edit d)); [|done|lia|].
  2:{ rewrite A2, (whole_line s d R), Er. replace (ie s + 1 - 1 - ir s) with (ie s - ir s) by lia. symmetry.
      apply append_prefix; [exact Hring|done|done|lia|lia]. }
  assert (Hh : hist_ok (append NL s) (lines d)) by (by apply (hist_frame s), R).
  set (ll := last_line (unread d ++ edit d)). unfold remember. destruct (decide (ll = [])) as [El|El].
  - eapply (submit_refines s d NL (lines d) (-1) (append NL s)); try done.
    change (-1 <= -1 < hist_count s). lia.
  - assert (Hll : (length ll <= 127)%nat).
    { destruct (last_line_suffix (unread d ++ edit d)) as [p Hp']. apply (f_equal length) in Hp'.
      rewrite (length_app p) in Hp'. fold ll in Hp'. rewrite (whole_line s d R), bytes_length in Hp'. lia. }
    eapply (submit_refines s d NL _ (-1) (pushed ll (append NL s))); try done.
    + apply pushed_ok; [done| |done]. apply last_line_text. by eapply line_text.
    + change (-1 <= -1 < if decide (hist_count s < 16) then hist_count s + 1 else hist_count s). case_decide; lia.
Qed.
Lemma char_refines s d c :
  refines s d -> 0 <= c < 256 -> ie s + 256 < 2 ^ 31 - 2 -> refines (key_char c s) (ed_char c d).
Proof.
  intros R Hc Hsm. pose proof (room_spec s d R) as Hroom. unfold key_char, ed_char.
  rewrite size_nat by apply R. change (Z.of_nat INPUT_BUF) with 128.
  destruct (decide (c = 0 \/ room d = 0%nat)) as [E|E]; [rewrite decide_False by lia; done|].
  rewrite decide_True by lia. cbv zeta. set (c' := if decide (c = CR) then NL else c).
  assert (Hc' : is_u8 c' /\ c' <> 0) by (unfold c', NL, is_u8; case_decide; lia). clearbody c'. destruct Hc' as [Hu Hn].
  set (s0 := s <| hist_pos := -1 |>). set (d0 := d <| browse := -1 |>).
  assert (R0 : refines s0 d0).
  { apply set_pos_refines; [done|]. pose proof (hk_count _ _ (rf_hist _ _ R)). lia. }
  assert (Hr : ie s0 - ir s0 < 128) by (change (ie s - ir s < 128); lia).
  pose proof (rf_ring _ _ R0) as Hring. destruct (append_ok c' s0 Hring Hr) as [A1 A2]; [change (ie s0) with (ie s); lia|].
  pose proof (hk_count _ _ (rf_hist _ _ R0)) as Hcnt.
  assert (Hfull : ie (append c' s0) = u32 (ir (append c' s0) + 128) <-> room d0 = 1%nat).
  { rewrite A2. change (ir (append c' s0)) with (ir s0). pose proof (room_spec s0 d0 R0).
    destruct Hring as [_ Ho _ Hm]. rewrite u32_small by (unfold is_u32; lia). lia. }
  destruct (decide (c' = NL)) as [->|Hnl].
  - rewrite decide_True by auto. by apply (newline_refines s0 d0).
  - destruct (decide (c' = CTRL_D \/ room d0 = 1%nat)) as [Ed|Ed].
    + rewrite decide_True by (destruct Ed as [|]; [auto|right; right; by apply Hfull]).
      eapply (submit_refines s0 d0 c' (lines d0) (-1) (append c' s0)); try done; [by apply (hist_frame s0), R0|].
      change (-1 <= -1 < hist_count s0). lia.
    + rewrite decide_False by (rewrite Hfull; naive_solver). by apply append_refines.
Qed.
Lemma removelast_snoc {A} (l : list A) x : removelast (l ++ [x]) = l.
Proof. apply removelast_last. Qed.
Lemma erase_refines s d : refines s d ->
  refines (if decide (ie s <> iw s) then erase s else s) (d <| edit := removelast (edit d) |>).
Proof.
  intros [H1 H2 H3 H4 H5 H6 H7]. pose proof H1 as [_ Ho _ _]. case_decide as E.
  - destruct (erase_spec s H1) as (A & B & C & D); [lia|].
    assert (Ed : edit d = bytes s (iw s) (ie s - 1 - iw s) ++ [ring_at s (ie s - 1)]).
    { rewrite H3. replace (ie s - iw s) with (ie s - 1 - iw s + 1) by lia. rewrite bytes_snoc by lia. do 3 f_equal. lia. }
    rewrite Ed, removelast_snoc. assert (Ew : iw (erase s) = iw s) by done. split; try done.
    + rewrite C, Ew. symmetry. by apply bytes_same.
    + intros c Hc. apply H4. rewrite Ed. apply elem_of_app. by left.
    + by apply (hist_frame s).
  - assert (Ed : edit d = []) by (rewrite H3; apply bytes_nil; lia). rewrite Ed. simpl.
    split; try done; simpl; [by rewrite <- Ed|by intros c ?%not_elem_of_nil].
Qed.
Lemma kill_refines s d : refines s d ->
  refines (kill_line (Z.to_nat (u32 (ie s - iw s))) s) (d <| edit := [] |>).
Proof.
  intros [H1 H2 H3 H4 H5 H6 H7]. destruct (kill_line_spec s H1) as (A & B & C & D).
  { rewrite <- H3. intros c Hc. by apply H4. }
  unfold rest in B. injection B as R1 R2 R3 R4 R5 R6. split; simpl; rewrite ?R1, ?R2, ?R6, ?R4; try done.
  - rewrite H2. symmetry. by apply bytes_same.
  - rewrite C. by rewrite bytes_nil by lia.
  - by intros c ?%not_elem_of_nil.
  - by apply (hist_frame s).
Qed.
Lemma key_refines s d c :
  refines s d -> 0 <= c < 256 -> c <> TAB -> ie s + 256 < 2 ^ 31 - 2 -> refines (key after c s) (ed_key c d).
Proof.
  intros R Hc Ht Hsm. unfold key, ed_key. destruct (decide (c = CTRL_P)) as [->|Hp].
  { rewrite decide_True by auto. by apply (refines_ext s). }
  destruct (decide (c = CTRL_L)) as [->|Hl].
  { rewrite (decide_True (P := CTRL_L = CTRL_P \/ _)) by auto. simpl. by apply (refines_ext s). }
  rewrite (decide_False (P := c = CTRL_P \/ _)) by naive_solver.
  destruct (decide (c = CTRL_U)); [by apply kill_refines|].
  destruct (decide (c = CTRL_H \/ c = DEL)); [by apply erase_refines|].
  rewrite decide_False by done. by apply char_refines.
Qed.

(** No key moves the read index. *)
Lemma put_line_ir l : forall s, ir (put_line l s) = ir s.
Proof. induction l as [|c l IH]; intros s; simpl; [done|]. case_decide; [by rewrite IH|done]. Qed.
Lemma erase_iter_ir n s : ir (Nat.iter n erase s) = ir s.
Proof. induction n as [|n IH]; [done|]. exact IH. Qed.
Lemma restore_ir i s : ir (history_restore stale i s) = ir s.
Proof. unfold history_restore. rewrite put_line_ir. apply erase_iter_ir. Qed.
Lemma kill_line_ir n : forall s, ir (kill_line n s) = ir s.
Proof. induction n as [|n IH]; intros s; simpl; [done|]. case_decide; [by rewrite IH|done]. Qed.
Lemma add_ir s : ir (history_add s) = ir s.
Proof. unfold history_add. by case_decide. Qed.
Lemma up_ir s : ir (key_up stale s) = ir s.
Proof. unfold key_up. case_decide; [|done]. by rewrite restore_ir. Qed.
Lemma down_ir s : ir (key_down stale s) = ir s.
Proof. unfold key_down. repeat case_decide; rewrite ?restore_ir; done. Qed.
Lemma key_ir c s : c <> TAB -> ir (key after c s) = ir s.
Proof.
  intros Ht. unfold key, key_char. cbv zeta. destruct (decide (c = CTRL_P)); [done|].
  destruct (decide (c = CTRL_U)); [by rewrite kill_line_ir|].
  destruct (decide (c = CTRL_H \/ c = DEL)); [by destruct (decide (ie s <> iw s))|].
  destruct (decide (c = CTRL_L)); [done|]. rewrite (decide_False (P := c = TAB)) by done.
  repeat (case_decide; try done); simpl; by rewrite ?add_ir.
Qed.
End refine.

(** C19: the console is a line editor: for any sequence of keys other than TAB,
    typed, erased, killed, submitted or browsed with the arrows' escape
    sequences, the input ring and the history ring of console.c hold exactly
    the unread bytes, the edited line and the last sixteen lines of the
    reference editor, whatever lies in memory behind them. *)
Theorem console_refines after stale keys s d :
  refines s d -> Forall (fun c => 0 <= c < 256 /\ c <> TAB) keys -> ir s < 2 ^ 31 - 1000 ->
  refines (consoleintr after stale keys s) (ed_keys keys d).
Proof.
  intros R Hk Hr. remember (length keys) as n eqn:En. assert (Hn : (length keys <= n)%nat) by lia. clear En.
  revert keys s d R Hk Hr Hn. induction n as [|n IH]; intros keys s d R Hk Hr Hn; (destruct keys as [|c keys]; [done|]);
    simpl length in Hn; [lia|].
  assert (Hsm : ie s + 256 < 2 ^ 31 - 2) by (destruct R as [[_ _ Hs _] _ _ _ _ _ _]; lia).
  inversion Hk as [|? ? [Hc Ht] Hk']; subst. cbn [consoleintr ed_keys].
  rewrite !(decide_False (P := c < 0)) by lia. destruct (decide (c = ESC)) as [->|He].
  - destruct keys as [|c1 [|c2 keys]]; [done|done|]. simpl length in Hn.
    inversion Hk' as [|? ? [H1 _] Hk2]; subst. inversion Hk2 as [|? ? [H2 _] Hk3]; subst.
    destruct (decide (c1 = 91)); [|apply IH; try done; simpl length; lia].
    destruct (decide (c2 = 65)); [|destruct (decide (c2 = 66))].
    + apply IH; try done; [by apply up_refines|by rewrite up_ir|lia].
    + apply IH; try done; [by apply down_refines|by rewrite down_ir|lia].
    + apply IH; try done; lia.
  - apply IH; try done; [by apply key_refines|by rewrite key_ir|lia].
Qed.

(** ** Reading *)

(** One byte of the submitted input is taken. *)
Lemma take_refines s d c u :
  refines s d -> unread d = c :: u ->
  c = ring_at s (ir s) /\ refines (s <| ir := u32 (ir s + 1) |>) (d <| unread := u |>).
Proof.
  intros [H1 H2 H3 H4 H5 H6 H7] Hu. pose proof H1 as [L1 Ho Hs Hm].
  assert (Hlt : ir s < iw s).
  { destruct (decide (ir s < iw s)); [done|]. rewrite bytes_nil in H2 by lia. congruence. }
  assert (E : bytes s (ir s) (iw s - ir s) = ring_at s (ir s) :: bytes s (ir s + 1) (iw s - (ir s + 1))).
  { replace (iw s - ir s) with (1 + (iw s - (ir s + 1))) at 1 by lia. rewrite bytes_split by lia. done. }
  rewrite Hu, E in H2. injection H2 as -> ->. split; [done|].
  assert (Ei : u32 (ir s + 1) = ir s + 1) by (apply u32_small; unfold is_u32; lia). rewrite Ei. split; simpl; try done.
  - split; simpl; [done|lia|lia|done].
  - intros c Hc. apply H5. rewrite Hu. by right.
  - by apply (hist_frame s).
Qed.
Lemma empty_read s d : refines s d -> (ir s = iw s <-> unread d = []).
Proof.
  intros [[_ Ho _ _] -> _ _ _ _ _]. split; intros E; [apply bytes_nil; lia|].
  apply (f_equal length) in E. rewrite bytes_length in E. simpl in E. lia.
Qed.
Definition plain (l : list Z) : Prop := Forall (fun c => c <> NL /\ c <> CTRL_D) l.
(** What a read of [n] of [target] bytes does to the unread bytes [u]. *)
Definition read_result (killed : bool) (target n : nat) (u bs u' : list Z) (e : rdend) : Prop :=
  match e with
  | RdDone =>
      u = bs ++ u' /\ (plain bs /\ length bs = n \/ exists l, bs = l ++ [NL] /\ plain l /\ (length bs <= n)%nat) \/
      plain bs /\ (length bs < n)%nat /\
        exists r, u = bs ++ CTRL_D :: r /\ u' = if decide (bs = [] /\ n = target) then r else CTRL_D :: r
  | RdKilled => killed = true /\ u = bs /\ u' = [] /\ plain bs /\ (length bs < n)%nat
  | RdSleeps m => killed = false /\ u = bs /\ u' = [] /\ plain bs /\ (length bs < n)%nat /\ m = (n - length bs)%nat
  end.
Lemma read_result_cons killed target n c u bs u' e :
  c <> NL -> c <> CTRL_D -> (n < target)%nat -> read_result killed target n u bs u' e ->
  read_result killed target (S n) (c :: u) (c :: bs) u' e.
Proof.
  intros Hn Hd Ht. assert (P : forall l, plain l -> plain (c :: l)) by (intros; by constructor).
  destruct e as [| |m]; simpl.
  - intros [(-> & [[H1 H2]|(l & -> & H1 & H2)])|(H1 & H2 & r & -> & ->)].
    + left. split; [done|]. left. split; [auto|lia].
    + left. split; [done|]. right. exists (c :: l). split; [done|]. split; [auto|]. lia.
    + right. split; [auto|]. split; [lia|]. exists r. split; [done|].
      rewrite !decide_False by naive_solver lia. done.
  - intros (-> & -> & -> & H1 & H2). split; [done|]. split; [done|]. split; [done|]. split; [auto|lia].
  - intros (-> & -> & -> & H1 & H2 & ->). split; [done|]. split; [done|]. split; [done|]. split; [auto|]. split; lia.
Qed.
Lemma read_from_spec killed target n : forall s d,
  refines s d -> (n <= target)%nat ->
  let r := consoleread_from killed target n s in
  exists u', refines r.1.1 (d <| unread := u' |>) /\ read_result killed target n (unread d) r.1.2 u' r.2.
Proof.
  induction n as [|n IH]; intros s d R Ht; cbn [consoleread_from].
  { exists (unread d). split; [by destruct d|]. left. split; [done|]. left. split; [constructor|done]. }
  destruct (unread d) as [|c u] eqn:Eu.
  { rewrite (decide_True (P := ir s = iw s)) by (by apply (empty_read s d)). exists []. split; [by destruct d; simpl in *; subst|].
    assert (P : plain []) by constructor. destruct killed; simpl; (split; [done|]); split; [done| |done|]; split; try done;
      (split; [done|]); [lia|]. split; lia. }
  rewrite (decide_False (P := ir s = iw s)) by (intros E; apply (empty_read s d) in E; [congruence|done]). cbv zeta.
  destruct (take_refines s d c u R Eu) as [<- R'].
  destruct (decide (c = CTRL_D)) as [->|Hd].
  { exists (if decide (S n = target) then u else CTRL_D :: u). split.
    - destruct (decide (S n = target)); [rewrite decide_False by lia; done|rewrite decide_True by lia; by destruct d; simpl in *; subst].
    - right. split; [constructor|]. split; [simpl; lia|]. exists u. split; [done|]. simpl.
      destruct (decide (S n = target)); [by rewrite decide_True|]. rewrite decide_False by naive_solver. done. }
  destruct (decide (c = NL)) as [->|Hn].
  { exists u. split; [done|]. left. split; [done|]. right. exists []. split; [done|]. split; [constructor|simpl; lia]. }
  destruct (IH _ _ R') as (u' & R2 & Q); [lia|]. exists u'. split; [exact R2|]. by apply read_result_cons; [..|lia|].
Qed.
(** A read from the console takes the submitted bytes in order and stops
    after a newline, at a control-D or when it has what was asked; a control-D
    ends the file once and is kept when bytes were read before it; a reader
    that finds nothing more sleeps, or fails when killed; the edited line and
    the history are left alone. *)
Theorem consoleread_correct killed n s d :
  refines s d ->
  let r := consoleread killed n s in
  exists u', refines r.1.1 (d <| unread := u' |>) /\ read_result killed n n (unread d) r.1.2 u' r.2.
Proof. intros R. by apply read_from_spec. Qed.

(** ** Completion *)

Lemma strncmp_prefix (m : mem) l : forall p q cmd,
  (forall k, (k < length l)%nat -> m (q + Z.of_nat k) = l !!! k) ->
  (forall k, (k <= length l)%nat -> m (p + Z.of_nat k) = default 0 (cmd !! k)) ->
  (forall c, c ∈ l ++ cmd -> c <> 0 /\ is_u8 c) ->
  string_c.strncmp m p q (length l) = 0 <-> l `prefix_of` cmd.
Proof.
  induction l as [|c l IH]; intros p q cmd Hq Hp Ht; simpl length.
  { split; [intros _; apply prefix_nil|done]. }
  cbn [string_c.strncmp]. pose proof (Hq 0%nat ltac:(simpl; lia)) as Eq. pose proof (Hp 0%nat ltac:(simpl; lia)) as Ep.
  rewrite Z.add_0_r in Eq, Ep. simpl in Eq. rewrite Eq, Ep. destruct (Ht c ltac:(left)) as [Hc Hu].
  destruct cmd as [|x cmd]; simpl.
  { unfold u8, is_u8 in *. rewrite !Z.mod_small by lia.
    split; [lia|]. by intros ?%prefix_nil_not. }
  destruct (Ht x) as [Hx Hux]; [right; apply elem_of_app; right; left|]. case_bool_decide as E.
  - destruct E as [_ ->]. rewrite IH with (cmd := cmd).
    + split; [by apply prefix_cons|by intros ?%prefix_cons_inv_2].
    + intros k Hk. specialize (Hq (S k) ltac:(simpl; lia)). simpl in Hq. rewrite <- Hq. f_equal. lia.
    + intros k Hk. specialize (Hp (S k) ltac:(simpl; lia)). simpl in Hp. rewrite <- Hp. f_equal. lia.
    + intros z Hz. apply Ht. apply elem_of_app in Hz as [Hz|Hz]; [right; apply elem_of_app; by left|].
      right. apply elem_of_app. right. by right.
  - unfold u8, is_u8 in *. rewrite !Z.mod_small by lia. split; [intros; exfalso; apply E; split; [done|lia]|].
    intros ?%prefix_cons_inv_1. subst. tauto.
Qed.
Lemma commands_text cmd : cmd ∈ commands -> text cmd /\ (length cmd <= 15)%nat.
Proof.
  intros H. assert (Hall : Forall (fun cmd => Forall (fun c => c <> NL /\ c <> 0 /\ is_u8 c) cmd /\ (length cmd <= 15)%nat) commands).
  { unfold commands. repeat constructor; unfold is_u8, NL; lia. }
  rewrite Forall_forall in Hall. destruct (Hall cmd H) as [H1 H2]. split; [|done]. intros c Hc. rewrite Forall_forall in H1. by apply H1.
Qed.
Section complete.
Context (after : Z -> Z).
(** The line does not cross the end of the buffer. *)
Definition straight s : Prop := ir s mod 128 + (ie s - ir s) <= 128.
Lemma matches_prefix s d cmd :
  refines s d -> straight s -> cmd ∈ commands ->
  matches after s (u32 (ie s - ir s)) cmd = true <-> unread d ++ edit d `prefix_of` cmd.
Proof.
  intros R Hs Hc. destruct (commands_text cmd Hc) as [Ht Hl]. unfold matches. rewrite bool_decide_eq_true.
  rewrite size_nat by apply R. pose proof (whole_line s d R) as Ew. pose proof (rf_ring _ _ R) as [_ Ho Hs2 _].
  assert (Elen : Z.to_nat (ie s - ir s) = length (unread d ++ edit d)) by (by rewrite Ew, bytes_length).
  rewrite Elen. apply strncmp_prefix.
  - intros k Hk. unfold cmd_mem. rewrite decide_False by lia. replace (1000 + Z.of_nat k - 1000) with (Z.of_nat k) by lia.
    rewrite Ew. unfold line_byte. change (Z.of_nat INPUT_BUF) with 128. unfold straight in Hs.
    pose proof (Z.mod_pos_bound (ir s) 128). rewrite decide_True by lia.
    assert (El : bytes s (ir s) (ie s - ir s) !! k = Some (ring_at s (ir s + Z.of_nat k))).
    { unfold bytes. rewrite list_lookup_fmap, lookup_seqZ_lt by lia. done. }
    rewrite (list_lookup_total_correct _ _ _ El).
    unfold ring_at. do 2 f_equal. change (Z.of_nat INPUT_BUF) with 128. Z.to_euclidean_division_equations. lia.
  - intros k Hk. unfold cmd_mem. rewrite Ew, bytes_length in Hk. rewrite decide_True by lia. do 2 f_equal. lia.
  - intros c [Hin|Hin]%elem_of_app; [by eapply line_text|]. destruct (Ht c Hin) as (_ & ? & ?). done.
Qed.
Lemma append_all l : forall s d,
  refines s d -> text l -> ie s - ir s + Z.of_nat (length l) <= 128 -> ir s < 2 ^ 31 - 1000 ->
  refines (foldl (fun s c => append c s) s l) (d <| edit ::= fun e => e ++ l |>).
Proof.
  induction l as [|c l IH]; intros s d R Ht Hl Hr; simpl.
  { rewrite app_nil_r. by destruct d. }
  simpl length in Hl. pose proof (rf_ring _ _ R) as Hring. destruct (Ht c ltac:(left)) as (C1 & C2 & C3).
  destruct (append_ok c s Hring) as [_ A2]; [lia|destruct Hring; lia|].
  replace (edit d ++ c :: l) with ((edit d ++ [c]) ++ l) by (by rewrite <- app_assoc).
  refine (IH (append c s) (mked (unread d) (edit d ++ [c]) (lines d) (browse d)) _ _ _ _).
  - apply append_refines; try done; destruct Hring; lia.
  - intros x Hx. apply Ht. by right.
  - rewrite A2. change (ir (append c s)) with (ir s). lia.
  - done.
Qed.
Lemma puts_fields l : forall s,
  let s' := foldl (fun s cmd => consputs (cmd ++ [32]) s) s l in
  ibuf s' = ibuf s /\ ie s' = ie s /\ rest s' = rest s.
Proof. induction l as [|c l IH]; intros s; [done|]. apply (IH (consputs (c ++ [32]) s)). Qed.
(** TAB completes the line to a command exactly when one entry of the
    command list begins with the unread and edited bytes, and otherwise leaves
    the line as it is, provided the line does not cross the end of the buffer. *)
Theorem autocomplete_correct s d :
  refines s d -> straight s -> ir s < 2 ^ 31 - 1000 ->
  let line := unread d ++ edit d in
  refines (autocomplete after s)
    (match filter (fun cmd => line `prefix_of` cmd) commands with
     | [cmd] => d <| edit ::= fun e => e ++ drop (length line) cmd |>
     | _ => d
     end).
Proof.
  intros R Hs Hr line. unfold autocomplete.
  assert (E : filter (fun cmd => matches after s (u32 (ie s - ir s)) cmd = true) commands =
              filter (fun cmd => line `prefix_of` cmd) commands).
  { assert (G : forall l : list (list Z), (forall cmd, cmd ∈ l -> cmd ∈ commands) ->
      filter (fun cmd => matches after s (u32 (ie s - ir s)) cmd = true) l = filter (fun cmd => line `prefix_of` cmd) l).
    { induction l as [|cmd l IH]; intros Hin; [done|]. rewrite !filter_cons.
      rewrite IH by (intros; apply Hin; by right). pose proof (matches_prefix s d cmd R Hs (Hin cmd ltac:(left))) as M.
      destruct (decide (matches _ _ _ _ = true)) as [Em|Em], (decide (line `prefix_of` cmd)) as [Ep|Ep]; tauto. }
    by apply G. }
  rewrite E. destruct (filter (fun cmd => line `prefix_of` cmd) commands) as [|m ms] eqn:Ef; [done|].
  assert (Hm : m ∈ filter (fun cmd => line `prefix_of` cmd) commands) by (rewrite Ef; left).
  apply list_elem_of_filter in Hm as [[k Hk] Hm]. destruct (commands_text m Hm) as [Ht Hl]. destruct ms as [|m2 ms].
  - assert (Elen : Z.to_nat (u32 (ie s - ir s)) = length line).
    { unfold line. rewrite (whole_line s d R), bytes_length, size_nat; [done|apply R]. }
    rewrite Elen. apply append_all; try done.
    + intros c Hc. apply Ht. rewrite <- (take_drop (length line) m). apply elem_of_app. by right.
    + rewrite length_drop. pose proof (f_equal length Hk) as Hk'. rewrite length_app in Hk'.
      pose proof (rf_ring _ _ R) as [_ Ho _ _]. rewrite size_nat in Elen by apply R. lia.
  - apply (refines_ext s); [| | |done]; destruct (puts_fields (m :: m2 :: ms) (consputc NL s)) as (P1 & P2 & P3);
      [exact P1|exact P2|exact P3].
Qed.
End complete.

(** A console that has taken [n] characters, all read, with no history. *)
Definition cons_at (n : Z) : console :=
  mkcons (replicate INPUT_BUF 0) n n n (replicate HIST_MAX (replicate INPUT_BUF 0)) 0 0 (-1) [] false.
Lemma cons_at_refines n : 0 <= n < 2 ^ 31 - 1000 -> refines (cons_at n) (mked [] [] [] (-1)).
Proof.
  intros Hn. split; simpl.
  - split; [reflexivity|simpl; lia|simpl; lia|simpl; lia].
  - by rewrite bytes_nil by lia.
  - by rewrite bytes_nil by lia.
  - by intros c ?%not_elem_of_nil.
  - by intros c ?%not_elem_of_nil.
  - split; [reflexivity| |simpl; lia|simpl; lia|done|done|by intros l ?%not_elem_of_nil].
    intros r [i Hi]%list_elem_of_lookup. change (replicate HIST_MAX (replicate INPUT_BUF 0) !! i = Some r) in Hi.
    by apply lookup_replicate in Hi as [-> _].
  - lia.
Qed.
Definition edited s : list Z := bytes s (iw s) (ie s - iw s).
(** TAB misses two completions: a line that crosses the end of the input
    buffer is compared with the bytes behind the buffer, so gr is not completed
    to grep, its only completion; and pw is not completed, because pwd is listed
    twice. *)
Theorem autocomplete_misses after stale :
  (filter (fun cmd => [103; 114] `prefix_of` cmd) commands = [[103; 114; 101; 112]] /\
   edited (consoleintr after stale [103; 114; TAB] (cons_at 127)) = [103; 114]) /\
  ((forall cmd, cmd ∈ commands -> [112; 119] `prefix_of` cmd -> cmd = [112; 119; 100]) /\
   edited (consoleintr after stale [112; 119; TAB] (cons_at 0)) = [112; 119]).
Proof.
  split; (split; [|vm_compute; reflexivity]); [vm_compute; reflexivity|].
  intros cmd Hc Hp. assert (H : cmd ∈ filter (fun cmd => [112; 119] `prefix_of` cmd) commands) by (by apply list_elem_of_filter).
  assert (E : filter (fun cmd => [112; 119] `prefix_of` cmd) commands = [[112; 119; 100]; [112; 119; 100]]) by (vm_compute; reflexivity).
  rewrite E in H. repeat (apply elem_of_cons in H as [->|H]; [done|]). by apply not_elem_of_nil in H.
Qed.

(** l s RETURN l s SPACE / RETURN, then twice up. *)
Definition session : list Z := [108; 115; NL; 108; 115; 32; 47; CR; ESC; 91; 65; ESC; 91; 65].
Lemma console_refines_witness :
  refines (consoleintr (fun _ => 0) [] session (cons_at 0)) (ed_keys session (mked [] [] [] (-1))) /\
  edit (ed_keys session (mked [] [] [] (-1))) = [108; 115].
Proof.
  split; [|vm_compute; reflexivity].
  apply (console_refines (fun _ => 0) [] session (cons_at 0)); [apply cons_at_refines; lia| |simpl; lia].
  unfold session, NL, CR, ESC, TAB. repeat (constructor; [lia|]). constructor.
Defined.
Definition typed : console := consoleintr (fun _ => 0) [] [108; 115; NL] (cons_at 0).
Lemma consoleread_correct_witness :
  refines typed (mked [108; 115; NL] [] [[108; 115]] (-1)) /\
  exists u', read_result false 2 2 [108; 115; NL] (consoleread false 2 typed).1.2 u' (consoleread false 2 typed).2.
Proof.
  assert (R : refines typed (mked [108; 115; NL] [] [[108; 115]] (-1))).
  { unfold typed. change (mked [108; 115; NL] [] [[108; 115]] (-1)) with (ed_keys [108; 115; NL] (mked [] [] [] (-1))).
    assert (H : Forall (fun c => 0 <= c < 256 /\ c <> TAB) [108; 115; NL]) by (unfold NL, TAB; repeat (constructor; [lia|]); constructor).
    pose proof (key_refines (fun _ => 0)) as K. simpl consoleintr. simpl ed_keys.
    apply K; [apply K; [apply K; [apply cons_at_refines; lia|..]|..]|..]; vm_compute; lia || (split; congruence). }
  split; [exact R|]. destruct (consoleread_correct false 2 typed _ R) as (u' & _ & H). exists u'. exact H.
Defined.
Lemma autocomplete_correct_witness :
  refines (autocomplete (fun _ => 0) (cons_at 0)) (mked [] [] [] (-1)).
Proof.
  exact (autocomplete_correct (fun _ => 0) (cons_at 0) _ (cons_at_refines 0 ltac:(lia))
           ltac:(vm_compute; discriminate) ltac:(vm_compute; reflexivity)).
Defined.

(** ** The screen *)

Record scr_ok (n : nat) (t : screen) : Prop := {
  sk_pos : 0 <= pos t < 24 * COLS;
  sk_len : length (crt t) = n;
}.
(** The same cells behind the 24 rows. *)
Definition below (l l' : list Z) : Prop := length l' = length l /\ forall i, (1920 <= i)%nat -> l' !! i = l !! i.
Section screen.
Lemma below_trans l1 l2 l3 : below l1 l2 -> below l2 l3 -> below l1 l3.
Proof. intros [L1 H1] [L2 H2]. split; [lia|]. intros i Hi. by rewrite H2, H1. Qed.
Lemma below_insert l (p : nat) v : (p < 1920)%nat -> below l (<[p := v]> l).
Proof. intros Hp. split; [apply length_insert|]. intros i Hi. by rewrite list_lookup_insert_ne by lia. Qed.
Lemma below_splice l o bs : (o + length bs <= 1920)%nat -> (1920 <= length l)%nat -> below l (splice l o bs).
Proof.
  intros Ho Hl. split; [apply splice_length; lia|]. intros i Hi. rewrite splice_lookup by lia. by rewrite decide_False by lia.
Qed.
Lemma cga_show_ok p cells :
  0 <= p <= 1920 -> (1920 <= length cells)%nat ->
  exists t', cga_show p cells = Ok t' /\ 0 <= pos t' < 1920 /\ below cells (crt t').
Proof.
  intros Hp Hl. unfold cga_show, COLS. rewrite decide_False by lia. destruct (decide (p / 80 >= 24)) as [Hs|Hs].
  - assert (p = 1920) as -> by (Z.to_euclidean_division_equations; lia). eexists. split; [done|]. split; [simpl; lia|].
    cbn [crt]. eapply below_trans; [eapply below_trans; [|apply below_splice]|apply below_insert; lia].
    + apply below_splice; [|done]. rewrite slice_length by lia. lia.
    + rewrite length_replicate. lia.
    + rewrite splice_length; rewrite ?slice_length; lia.
  - eexists. split; [done|]. split; [simpl; Z.to_euclidean_division_equations; lia|]. apply below_insert.
    Z.to_euclidean_division_equations. lia.
Qed.
Lemma cgaputc_ok c t n :
  (1920 <= n)%nat -> scr_ok n t -> exists t', cgaputc c t = Ok t' /\ scr_ok n t' /\ below (crt t) (crt t').
Proof.
  intros Hn [Hp Hl]. unfold COLS in *.
  assert (M : 0 <= (cga_move c t).1 <= 1920 /\ below (crt t) (cga_move c t).2).
  { unfold cga_move, COLS. repeat case_decide; simpl; (split; [Z.to_euclidean_division_equations; lia|]); try done.
    apply below_insert. lia. }
  destruct M as [M1 M2]. destruct (cga_show_ok (cga_move c t).1 (cga_move c t).2 M1) as (t' & E & P & Bl); [destruct M2; lia|].
  exists t'. split; [done|]. pose proof (below_trans _ _ _ M2 Bl) as B2. split; [|done]. split; [done|]. destruct B2; lia.
Qed.
End screen.
(** Whatever is printed, the cursor stays on the 24 rows of the screen, the
    position check never panics, and no cell behind the rows is written. *)
Theorem screen_in_bounds l t n :
  (1920 <= n)%nat -> scr_ok n t -> exists t', cgaputs l t = Ok t' /\ scr_ok n t' /\ below (crt t) (crt t').
Proof.
  intros Hn. revert t. induction l as [|c l IH]; intros t Ht; simpl; [by exists t|].
  destruct (cgaputc_ok c t n Hn Ht) as (t1 & -> & H1 & B1). destruct (IH t1 H1) as (t2 & -> & H2 & B2).
  exists t2. split; [done|]. split; [done|]. by eapply below_trans.
Qed.
Definition scr_blank : screen := mkscr 0 (replicate 2000 0).
Lemma screen_in_bounds_witness : exists t', cgaputs (replicate 30 NL) scr_blank = Ok t' /\ pos t' = 1840.
Proof.
  destruct (screen_in_bounds (replicate 30 NL) scr_blank 2000) as (t' & E & _).
  - lia.
  - split; [unfold COLS; simpl; lia|reflexivity].
  - exists t'. split; [exact E|]. vm_compute in E. by injection E as <-.
Defined.
