(* ===== verification/Kbd.v ===== *)
(** The keyboard (kbd.c, kbd.h): scan codes to characters.

    The controller's data port is the list of scan codes that wait in it;
    [None] stands for an empty port. *)
From S2P Require Import Prelude Console ConsoleFacts.

Definition NO : Z := 0.
Definition SHIFT : Z := 1.
Definition CTL : Z := 2.
Definition ALT : Z := 4.
Definition CAPSLOCK : Z := 8.
Definition NUMLOCK : Z := 16.
Definition SCROLLLOCK : Z := 32.
Definition E0ESC : Z := 64.
Definition KEY_HOME : Z := 224.
Definition KEY_END : Z := 225.
Definition KEY_UP : Z := 226.
Definition KEY_DN : Z := 227.
Definition KEY_LF : Z := 228.
Definition KEY_RT : Z := 229.
Definition KEY_PGUP : Z := 230.
Definition KEY_PGDN : Z := 231.
Definition KEY_INS : Z := 232.
Definition KEY_DEL : Z := 233.

(** An array of 256 bytes: its first entries and the designated ones. *)
Definition keymap (l : list Z) (ext : list (Z * Z)) (d : Z) : Z :=
  match list_find (fun e => e.1 = d) ext with
  | Some (_, e) => e.2
  | None => default NO (l !! Z.to_nat d)
  end.
Definition shiftcode : Z -> Z :=
  keymap [] [(0x1D, CTL); (0x2A, SHIFT); (0x36, SHIFT); (0x38, ALT); (0x9D, CTL); (0xB8, ALT)].
Definition togglecode : Z -> Z := keymap [] [(0x3A, CAPSLOCK); (0x45, NUMLOCK); (0x46, SCROLLLOCK)].
Definition arrows : list (Z * Z) :=
  [(0xC8, KEY_UP); (0xD0, KEY_DN); (0xC9, KEY_PGUP); (0xD1, KEY_PGDN); (0xCB, KEY_LF); (0xCD, KEY_RT);
   (0x97, KEY_HOME); (0xCF, KEY_END); (0xD2, KEY_INS); (0xD3, KEY_DEL)].
Definition normalmap : Z -> Z := keymap
  [ NO; 27; 49; 50; 51; 52; 53; 54; 55; 56; 57; 48; 45; 61; 8; 9;
    113; 119; 101; 114; 116; 121; 117; 105; 111; 112; 91; 93; 10; NO; 97; 115;
    100; 102; 103; 104; 106; 107; 108; 59; 39; 96; NO; 92; 122; 120; 99; 118;
    98; 110; 109; 44; 46; 47; NO; 42; NO; 32; NO; NO; NO; NO; NO; NO;
    NO; NO; NO; NO; NO; NO; NO; 55; 56; 57; 45; 52; 53; 54; 43; 49;
    50; 51; 48; 46; NO; NO; NO; NO ] ([(0x9C, 10); (0xB5, 47)] ++ arrows).
Definition shiftmap : Z -> Z := keymap
  [ NO; 27; 33; 64; 35; 36; 37; 94; 38; 42; 40; 41; 95; 43; 8; 9;
    81; 87; 69; 82; 84; 89; 85; 73; 79; 80; 123; 125; 10; NO; 65; 83;
    68; 70; 71; 72; 74; 75; 76; 58; 34; 126; NO; 124; 90; 88; 67; 86;
    66; 78; 77; 60; 62; 63; NO; 42; NO; 32; NO; NO; NO; NO; NO; NO;
    NO; NO; NO; NO; NO; NO; NO; 55; 56; 57; 45; 52; 53; 54; 43; 49;
    50; 51; 48; 46; NO; NO; NO; NO ] ([(0x9C, 10); (0xB5, 47)] ++ arrows).
(** C(x), stored in an unsigned char. *)
Definition ctl (c : Z) : Z := u8 (c - 64).
Definition ctlmap : Z -> Z := keymap
  [ NO; NO; NO; NO; NO; NO; NO; NO; NO; NO; NO; NO; NO; NO; NO; NO;
    ctl 81; ctl 87; ctl 69; ctl 82; ctl 84; ctl 89; ctl 85; ctl 73; ctl 79; ctl 80; NO; NO; 13; NO; ctl 65; ctl 83;
    ctl 68; ctl 70; ctl 71; ctl 72; ctl 74; ctl 75; ctl 76; NO; NO; NO; NO; ctl 92; ctl 90; ctl 88; ctl 67; ctl 86;
    ctl 66; ctl 78; ctl 77; NO; NO; ctl 47; NO; NO ] ([(0x9C, 13); (0xB5, ctl 47)] ++ arrows).

Definition charcode (i : Z) : Z -> Z :=
  if decide (i = 0) then normalmap else if decide (i = 1) then shiftmap else ctlmap.
(** kbdgetc on the data of the port: the new shift state and the result. *)
Definition kbdgetc (shift : Z) (port : option Z) : Z * Z :=
  match port with
  | None => (shift, -1)
  | Some data =>
      if decide (data = 0xE0) then (Z.lor shift E0ESC, 0)
      else if decide (Z.land data 0x80 <> 0) then
        let data := if decide (Z.land shift E0ESC <> 0) then data else Z.land data 0x7F in
        (Z.land shift (Z.lnot (Z.lor (shiftcode data) E0ESC)), 0)
      else
        let esc := bool_decide (Z.land shift E0ESC <> 0) in
        let data := if esc then Z.lor data 0x80 else data in
        let shift := if esc then Z.land shift (Z.lnot E0ESC) else shift in
        let shift := Z.lxor (Z.lor shift (shiftcode data)) (togglecode data) in
        let c := charcode (Z.land shift (Z.lor CTL SHIFT)) data in
        let c := if decide (Z.land shift CAPSLOCK <> 0) then
                   if decide (97 <= c <= 122) then c - 32 else if decide (65 <= c <= 90) then c + 32 else c
                 else c in
        (shift, c)
  end.
(** The results of getc while the codes last. *)
Fixpoint kbd_keys (shift : Z) (codes : list Z) : Z * list Z :=
  match codes with
  | [] => (shift, [])
  | d :: codes => let r := kbdgetc shift (Some d) in let q := kbd_keys r.1 codes in (q.1, r.2 :: q.2)
  end.
(** kbdintr: the shift state and the console afterwards. *)
Definition kbdintr (after : Z -> Z) (stale : list Z) (shift : Z) (codes : list Z) (s : console) : Z * console :=
  let r := kbd_keys shift codes in (r.1, consoleintr after stale r.2 s).

(** The up arrow of the keyboard does not browse the history: kbd.c gives
    it the code 0xE2, which the console enters into the line like any other
    character; only the escape sequence of a terminal is understood as an
    arrow. *)
Theorem keyboard_arrow_types after stale s d :
  refines s d -> ir s < 2 ^ 31 - 1000 ->
  (kbdintr after stale 0 [0xE0; 0x48] s).1 = 0 /\
  refines (kbdintr after stale 0 [0xE0; 0x48] s).2 (ed_char KEY_UP d).
Proof.
  intros R Hr. assert (E : kbd_keys 0 [0xE0; 0x48] = (0, [0; KEY_UP])) by (vm_compute; reflexivity).
  unfold kbdintr. rewrite E. cbn [fst snd]. split; [done|].
  assert (K : refines (key after 0 s) d).
  { replace d with (ed_key 0 d); [|reflexivity]. apply key_refines; try done. destruct R as [[_ _ ? _] _ _ _ _ _ _]. lia. }
  change (consoleintr after stale [0; KEY_UP] s) with (key after KEY_UP (key after 0 s)).
  change (ed_char KEY_UP d) with (ed_key KEY_UP d). apply key_refines; try done.
  pose proof (key_ir after 0 s ltac:(done)) as Ei. destruct K as [[_ _ ? _] _ _ _ _ _ _]. lia.
Qed.
Lemma keyboard_arrow_types_witness :
  refines (kbdintr (fun _ => 0) [] 0 [0xE0; 0x48] (cons_at 0)).2 (mked [] [KEY_UP] [] (-1)).
Proof.
  apply (keyboard_arrow_types (fun _ => 0) [] (cons_at 0) (mked [] [] [] (-1))); [apply cons_at_refines; lia|simpl; lia].
Defined.
