(* ===== verification/Ulib.v ===== *)
(** The user library: the string routines and line input of ulib.c, and the
    formatted output of printf.c and of the kernel's cprintf (console.c).

    The routines run over byte memory.  A loop that C leaves unbounded carries
    fuel; [string_at] gives the length that is enough. *)
From S2P Require Import Prelude Cstring.

(** The C string [s] is stored at [a]. *)
Definition string_at (m : mem) (a : Z) (s : list Z) : Prop :=
  bytes_at m a (length s) = s /\ m (a + Z.of_nat (length s)) = 0 /\ Forall (fun c => 0 < c < 256) s.

Module ulib_c.

Fixpoint strlen (fuel : nat) (m : mem) (s : Z) : Z :=
  match fuel with
  | O => 0
  | S fuel => if decide (m s = 0) then 0 else 1 + strlen fuel m (s + 1)
  end.
(** The byte is copied before it is tested. *)
Fixpoint strcpy (fuel : nat) (m : mem) (s t : Z) : mem :=
  match fuel with
  | O => m
  | S fuel => let m := upd m s (m t) in
              if decide (m s = 0) then m else strcpy fuel m (s + 1) (t + 1)
  end.
Fixpoint strcmp (fuel : nat) (m : mem) (p q : Z) : Z :=
  match fuel with
  | O => 0
  | S fuel => if decide (m p <> 0 /\ m p = m q) then strcmp fuel m (p + 1) (q + 1)
              else u8 (m p) - u8 (m q)
  end.
Fixpoint strchr (fuel : nat) (m : mem) (s c : Z) : Z :=
  match fuel with
  | O => 0
  | S fuel => if decide (m s = 0) then 0 else if decide (m s = c) then s else strchr fuel m (s + 1) c
  end.
(** [n] so far; the sum wraps. *)
Fixpoint atoi_from (fuel : nat) (m : mem) (s n : Z) : Z :=
  match fuel with
  | O => n
  | S fuel => if decide (48 <= m s /\ m s <= 57) then atoi_from fuel m (s + 1) (s32 (n * 10 + m s - 48)) else n
  end.
Definition atoi (fuel : nat) (m : mem) (s : Z) : Z := atoi_from fuel m s 0.
(** gets: [input] is what read(0, ., 1) will give; the memory, and what is left. *)
Fixpoint gets_from (fuel : nat) (m : mem) (buf i max : Z) (input : list Z) : mem * list Z :=
  match fuel with
  | O => (m, input)
  | S fuel =>
      if decide (i + 1 < max) then
        match input with
        | [] => (upd m (buf + i) 0, [])
        | c :: input =>
            let m := upd m (buf + i) c in
            if decide (c = 10 \/ c = 13) then (upd m (buf + (i + 1)) 0, input)
            else gets_from fuel m buf (i + 1) max input
        end
      else (upd m (buf + i) 0, input)
  end.
Definition gets (m : mem) (buf max : Z) (input : list Z) : mem * list Z :=
  gets_from (Z.to_nat max + 1) m buf 0 max input.

End ulib_c.

(** ** Formatted output *)

(** [digits[d]], in the capitals of printf.c or the small letters of console.c. *)
Definition digit (upper : bool) (d : Z) : Z := if decide (d < 10) then 48 + d else (if upper then 55 else 87) + d.
(** The do loop: [buf], least significant digit first; 16 turns fill it. *)
Fixpoint digits_of (fuel : nat) (upper : bool) (x base : Z) : list Z :=
  match fuel with
  | O => []
  | S fuel => digit upper (x mod base) :: (if decide (x / base = 0) then [] else digits_of fuel upper (x / base) base)
  end.
Definition printint (upper : bool) (xx base : Z) (sgn : bool) : list Z :=
  let neg := sgn && bool_decide (xx < 0) in
  let x := if neg then u32 (- xx) else u32 xx in
  rev (digits_of 16 upper x base ++ if neg then [45] else []).
Definition NULL_TEXT : list Z := [40; 110; 117; 108; 108; 41].
(** The string argument [a]; [str] is the text at an address. *)
Definition text_arg (str : Z -> list Z) (a : Z) : list Z := if decide (a = 0) then NULL_TEXT else str a.
(** The loop of printf: [state] tells whether a percent sign came before; the
    arguments from [ap] on. *)
Fixpoint printf_from (str : Z -> list Z) (fmt : list Z) (state : bool) (ap : list Z) : list Z :=
  match fmt with
  | [] => []
  | c :: fmt =>
      let arg := default 0 (head ap) in
      if state then
        if decide (c = 100) then printint true (s32 arg) 10 true ++ printf_from str fmt false (tail ap)
        else if decide (c = 120 \/ c = 112) then printint true (s32 arg) 16 false ++ printf_from str fmt false (tail ap)
        else if decide (c = 115) then text_arg str arg ++ printf_from str fmt false (tail ap)
        else if decide (c = 99) then u8 arg :: printf_from str fmt false (tail ap)
        else if decide (c = 37) then c :: printf_from str fmt false ap
        else 37 :: c :: printf_from str fmt false ap
      else if decide (c = 37) then printf_from str fmt true ap else c :: printf_from str fmt false ap
  end.
Definition printf (str : Z -> list Z) (fmt : list Z) (ap : list Z) : list Z := printf_from str fmt false ap.
(** cprintf of the kernel: the characters given to consputc. *)
Fixpoint cprintf (str : Z -> list Z) (fmt : list Z) (ap : list Z) : list Z :=
  match fmt with
  | [] => []
  | c :: fmt =>
      if decide (c <> 37) then c :: cprintf str fmt ap else
      match fmt with
      | [] => []
      | c :: fmt =>
          let arg := default 0 (head ap) in
          if decide (c = 100) then printint false (s32 arg) 10 true ++ cprintf str fmt (tail ap)
          else if decide (c = 120 \/ c = 112) then printint false (s32 arg) 16 false ++ cprintf str fmt (tail ap)
          else if decide (c = 115) then text_arg str arg ++ cprintf str fmt (tail ap)
          else if decide (c = 37) then 37 :: cprintf str fmt ap
          else 37 :: c :: cprintf str fmt ap
      end
  end.

(** ** Strings in memory *)

Section strings.
Context (m : mem).
Lemma string_nil a : string_at m a [] -> m a = 0.
Proof. intros (_ & H & _). simpl in H. by rewrite Z.add_0_r in H. Qed.
Lemma string_cons a c s : string_at m a (c :: s) -> m a = c /\ 0 < c < 256 /\ string_at m (a + 1) s.
Proof.
  intros (H & H0 & Hf). inversion Hf as [|? ? Hc Hs]; subst. unfold bytes_at in H. simpl in H. injection H as H1 H2.
  rewrite Z.add_0_r in H1. split; [done|]. split; [done|]. split; [|split; [|done]].
  - unfold bytes_at. etransitivity; [|exact H2]. rewrite <- fmap_S_seq, <- list_fmap_compose. apply list_fmap_ext. intros i x _. simpl. f_equal. lia.
  - simpl length in H0. rewrite <- H0. f_equal. lia.
Qed.
Lemma strlen_correct a s fuel : string_at m a s -> (length s < fuel)%nat -> ulib_c.strlen fuel m a = Z.of_nat (length s).
Proof.
  revert a fuel. induction s as [|c s IH]; intros a [|fuel] H Hf; simpl in *; try lia.
  - rewrite decide_True; [done|]. by apply string_nil.
  - apply string_cons in H as (Hc & Hn & H). rewrite decide_False by lia. rewrite IH by (done || lia). lia.
Qed.
(** strcmp is zero exactly on equal strings. *)
Lemma strcmp_zero a b s t fuel :
  string_at m a s -> string_at m b t -> (length s < fuel)%nat -> ulib_c.strcmp fuel m a b = 0 <-> s = t.
Proof.
  revert a b t fuel. induction s as [|c s IH]; intros a b [|d t] [|fuel] Ha Hb Hf; simpl in *; try lia.
  - rewrite decide_False by (apply string_nil in Ha; tauto). apply string_nil in Ha, Hb. by rewrite Ha, Hb.
  - apply string_nil in Ha. apply string_cons in Hb as (Hd & Hn & _). rewrite decide_False by tauto. rewrite Ha, Hd. unfold u8.
    rewrite !Z.mod_small by lia. split; [lia|done].
  - apply string_cons in Ha as (Hc & Hn & _). apply string_nil in Hb. rewrite decide_False by lia. rewrite Hb, Hc. unfold u8.
    rewrite !Z.mod_small by lia. split; [lia|done].
  - apply string_cons in Ha as (Hc & Hnc & Ha). apply string_cons in Hb as (Hd & Hnd & Hb). rewrite Hc, Hd. case_decide as E.
    + rewrite IH by (done || lia). destruct E as [_ ->]. split; congruence.
    + unfold u8. rewrite !Z.mod_small by lia. split; [lia|]. intros [= -> _]. lia.
Qed.
End strings.

(** ** Numbers as text *)

(** The number that digits, most significant first, stand for. *)
Definition value (base : Z) (ds : list Z) : Z := foldl (fun n d => n * base + d) 0 ds.
(** The digit that a character stands for. *)
Definition digit_of (c : Z) : Z := if decide (c < 58) then c - 48 else if decide (c < 97) then c - 55 else c - 87.

Section numbers.
Context (base : Z) (Hbase : base = 10 \/ base = 16).
Lemma digit_of_digit upper d : 0 <= d < base -> digit_of (digit upper d) = d.
Proof using Hbase. intros H. unfold digit_of, digit. destruct upper; repeat case_decide; lia. Qed.
Lemma value_snoc ds d : value base (ds ++ [d]) = value base ds * base + d.
Proof. unfold value. by rewrite foldl_app. Qed.
Lemma digits_value fuel upper x :
  0 <= x < base ^ Z.of_nat fuel -> value base (digit_of <$> rev (digits_of fuel upper x base)) = x.
Proof using Hbase.
  revert x. induction fuel as [|fuel IH]; intros x Hx; [simpl in Hx; unfold value; simpl; lia|].
  assert (Hd : x = base * (x / base) + x mod base) by (apply Z.div_mod; lia).
  assert (Hm : 0 <= x mod base < base) by (apply Z.mod_pos_bound; lia).
  cbn [digits_of rev]. rewrite fmap_app. cbn [fmap list_fmap]. rewrite value_snoc, digit_of_digit by done. case_decide as E.
  - unfold value. simpl. lia.
  - rewrite IH; [lia|]. split; [apply Z.div_pos; lia|]. apply Z.div_lt_upper_bound; [lia|].
    rewrite Nat2Z.inj_succ, Z.pow_succ_r in Hx by lia. lia.
Qed.
Lemma digits_are_digits fuel upper x : 0 <= x -> Forall (fun c => exists d, c = digit upper d /\ 0 <= d < base) (digits_of fuel upper x base).
Proof using Hbase.
  revert x. induction fuel as [|fuel IH]; intros x Hx; simpl; constructor.
  - exists (x mod base). split; [done|]. apply Z.mod_pos_bound. lia.
  - case_decide; [constructor|]. apply IH. apply Z.div_pos; lia.
Qed.
Lemma digits_length n fuel upper x : 0 <= x < base ^ Z.of_nat (S n) -> (length (digits_of fuel upper x base) <= S n)%nat.
Proof using Hbase.
  revert fuel x. induction n as [|n IH]; intros [|fuel] x Hx; simpl length; try lia; case_decide as E; simpl length; try lia.
  - exfalso. apply E. apply Z.div_small. change (Z.of_nat 1) with 1 in Hx. lia.
  - apply le_n_S, IH. split; [apply Z.div_pos; lia|]. apply Z.div_lt_upper_bound; [lia|].
    rewrite (Nat2Z.inj_succ (S n)), Z.pow_succ_r in Hx by lia. lia.
Qed.
End numbers.

(** atoi of a string of decimal digits is its value, while that fits an int. *)
Lemma atoi_digits m a s fuel : forall n,
  string_at m a s -> Forall (fun c => 48 <= c <= 57) s -> (length s < fuel)%nat -> 0 <= n ->
  foldl (fun n d => n * 10 + d) n (digit_of <$> s) < 2 ^ 31 ->
  ulib_c.atoi_from fuel m a n = foldl (fun n d => n * 10 + d) n (digit_of <$> s).
Proof.
  revert a fuel. induction s as [|c s IH]; intros a [|fuel] n H Hd Hf Hn Hv; simpl in *; try lia.
  - rewrite decide_False; [done|]. rewrite (string_nil m a H). lia.
  - apply string_cons in H as (Hc & _ & H). inversion Hd as [|? ? Hc' Hs]; subst. rewrite decide_True by done.
    assert (E : digit_of (m a) = m a - 48) by (unfold digit_of; rewrite decide_True by lia; done). rewrite E in *.
    assert (Hmono : forall (ds : list Z) k, Forall (fun d => 0 <= d) ds -> 0 <= k -> k <= foldl (fun n d => n * 10 + d) k ds).
    { clear. induction ds as [|d ds IH]; intros k Hds Hk; simpl; [lia|]. inversion Hds; subst. etransitivity; [|apply IH; [done|lia]]. lia. }
    assert (Hk : n * 10 + (m a - 48) < 2 ^ 31).
    { eapply Z.le_lt_trans; [|exact Hv]. apply Hmono; [|lia]. apply Forall_fmap. eapply Forall_impl; [exact Hs|].
      intros d Hd'. cbv beta in Hd'. simpl. unfold digit_of. rewrite decide_True by lia. lia. }
    replace (s32 (n * 10 + m a - 48)) with (n * 10 + (m a - 48)) by (unfold s32; rewrite Z.mod_small; lia).
    apply IH; try done; lia.
Qed.
Lemma printint_digits upper x : 0 <= x < 2 ^ 31 -> printint upper x 10 true = rev (digits_of 16 upper x 10).
Proof.
  intros H. unfold printint. rewrite bool_decide_eq_false_2 by lia. simpl andb. cbv iota. rewrite app_nil_r. unfold u32. by rewrite Z.mod_small by lia.
Qed.

(** Printing an int with %d and reading it back: the text is at most the 16
    characters of the buffer, and atoi of the text, stored anywhere as a string,
    is the number. *)
Theorem print_atoi_roundtrip m a x :
  0 <= x < 2 ^ 31 -> string_at m a (printint true x 10 true) ->
  (length (printint true x 10 true) <= 16)%nat /\ ulib_c.atoi 17 m a = x.
Proof.
  intros Hx H. rewrite printint_digits in * by done.
  assert (Hl : (length (digits_of 16 true x 10) <= 10)%nat) by (apply digits_length; [by left|simpl; lia]).
  rewrite length_rev. split; [lia|]. unfold ulib_c.atoi.
  assert (Hv : value 10 (digit_of <$> rev (digits_of 16 true x 10)) = x) by (apply digits_value; [by left|simpl; lia]).
  unfold value in Hv. rewrite (atoi_digits m a _ 17 0 H); [done| |rewrite length_rev; lia|lia|lia].
  apply Forall_rev. eapply Forall_impl; [apply digits_are_digits; [by left|lia]|].
  intros c (d & -> & Hd). unfold digit. rewrite decide_True by lia. lia.
Qed.
Lemma print_atoi_roundtrip_witness : ulib_c.atoi 17 (put_bytes (fun _ => 0) 64 (printint true 2147483647 10 true)) 64 = 2147483647.
Proof.
  apply (print_atoi_roundtrip (put_bytes (fun _ => 0) 64 (printint true 2147483647 10 true)) 64 2147483647); [lia|].
  split; [vm_compute; reflexivity|]. split; [vm_compute; reflexivity|]. vm_compute. repeat constructor.
Defined.
