(* ===== verification/Grep.v ===== *)
(** grep (grep.c): the matcher of regular expressions and the loop over the
    lines of a file.

    Strings are the characters before their NUL.  [denotes] is the language of
    an expression, independent of how the code searches. *)
From S2P Require Import Prelude.

Definition CARET : Z := 94.
Definition DOLLAR : Z := 36.
Definition DOT_ : Z := 46.
Definition STAR : Z := 42.

(** [re[0]=='.' || re[0]==*text] *)
Definition char_ok (c x : Z) : bool := bool_decide (c = DOT_ \/ c = x).
(** matchstar(c, re, text); [here] is matchhere(re, .). *)
Fixpoint matchstar (here : list Z -> bool) (c : Z) (text : list Z) : bool :=
  if here text then true else
  match text with
  | [] => false
  | x :: text => if char_ok c x then matchstar here c text else false
  end.
Fixpoint matchhere (re : list Z) : list Z -> bool :=
  match re with
  | [] => fun _ => true
  | c :: re1 =>
      match re1 with
      | s :: re2 => if decide (s = STAR) then matchstar (matchhere re2) c else
          fun text => match text with [] => false | x :: t => if char_ok c x then matchhere re1 t else false end
      | [] => fun text =>
          if decide (c = DOLLAR) then match text with [] => true | _ => false end else
          match text with [] => false | x :: t => if char_ok c x then matchhere re1 t else false end
      end
  end.
(** The do loop of match. *)
Fixpoint match_from (re text : list Z) : bool :=
  if matchhere re text then true else
  match text with [] => false | _ :: text => match_from re text end.
Definition match_ (re text : list Z) : bool :=
  match re with
  | c :: re' => if decide (c = CARET) then matchhere re' text else match_from re text
  | [] => match_from re text
  end.

(** ** The loop over lines *)

Definition BUFSZ : nat := 1024.
(** strchr(p, '\n') in the string at [p]: the line and what follows. *)
Fixpoint split_line (p : list Z) : option (list Z * list Z) :=
  match p with
  | [] => None
  | c :: p => if decide (c = 0) then None
              else if decide (c = NEWLINE) then Some ([], p)
              else r ← split_line p; Some (c :: r.1, r.2)
  end.
(** The inner loop: the output, and the bytes from the last [p] on. *)
Fixpoint grep_lines (fuel : nat) (pattern p : list Z) : list Z * list Z :=
  match fuel with
  | O => ([], p)
  | S fuel =>
      match split_line p with
      | None => ([], p)
      | Some (line, rest) =>
          let r := grep_lines fuel pattern rest in
          ((if match_ pattern line then line ++ [NEWLINE] else []) ++ r.1, r.2)
      end
  end.
(** The outer loop: [avail] is how much each read finds; [buf] the bytes kept
    from before; the output. *)
Fixpoint grep (pattern : list Z) (avail : list nat) (input buf : list Z) : list Z :=
  match avail with
  | [] => []
  | a :: avail =>
      let n := Nat.min a (Nat.min (length input) (BUFSZ - length buf - 1)) in
      if decide (n = 0%nat) then [] else
      let data := buf ++ take n input in
      let r := grep_lines (S (length data)) pattern data in
      let keep := if decide (length r.2 = length data) then [] else r.2 in
      r.1 ++ grep pattern avail (drop n input) keep
  end.

(** ** The language of an expression *)

(** The elements of an expression, with whether each is starred, and whether
    it ends in a dollar sign. *)
Fixpoint parse (re : list Z) : list (Z * bool) * bool :=
  match re with
  | [] => ([], false)
  | c :: re1 =>
      match re1 with
      | s :: re2 => if decide (s = STAR) then let r := parse re2 in ((c, true) :: r.1, r.2)
                    else let r := parse re1 in ((c, false) :: r.1, r.2)
      | [] => if decide (c = DOLLAR) then ([], true) else ([(c, false)], false)
      end
  end.
(** The strings that a list of elements describes. *)
Inductive denotes : list (Z * bool) -> list Z -> Prop :=
| d_nil : denotes [] []
| d_one c x p w : c = DOT_ \/ c = x -> denotes p w -> denotes ((c, false) :: p) (x :: w)
| d_star c r p w : Forall (fun x => c = DOT_ \/ c = x) r -> denotes p w -> denotes ((c, true) :: p) (r ++ w).
(** A part of [text] is in the language, at its start or end when anchored. *)
Definition occurs (re text : list Z) : Prop :=
  let '(start, re) := match re with c :: re' => if decide (c = CARET) then (true, re') else (false, re) | [] => (false, re) end in
  let '(items, end_) := parse re in
  exists pre mid post, text = pre ++ mid ++ post /\ denotes items mid /\
    (start = true -> pre = []) /\ (end_ = true -> post = []).

(** A prefix of [text], or all of it, is in the language. *)
Definition begins (re text : list Z) : Prop :=
  exists mid post, text = mid ++ post /\ denotes (parse re).1 mid /\ ((parse re).2 = true -> post = []).

Section matcher.
Lemma char_ok_true c x : char_ok c x = true <-> c = DOT_ \/ c = x.
Proof. unfold char_ok. by rewrite bool_decide_eq_true. Qed.
Lemma matchstar_true here c text :
  matchstar here c text = true <->
  exists r w, text = r ++ w /\ Forall (fun x => c = DOT_ \/ c = x) r /\ here w = true.
Proof.
  induction text as [|x text IH]; simpl.
  - split.
    + destruct (here []) eqn:E; [|done]. intros _. exists [], []. split; [done|]. split; [constructor|done].
    + intros (r & w & E & _ & H). symmetry in E. apply app_nil in E as [-> ->]. by rewrite H.
  - split.
    + destruct (here (x :: text)) eqn:E; [intros _; exists [], (x :: text); by repeat constructor|].
      destruct (char_ok c x) eqn:Ec; [|done]. intros (r & w & -> & Hr & Hw)%IH. exists (x :: r), w.
      split; [done|]. split; [|done]. constructor; [by apply char_ok_true|done].
    + intros (r & w & E & Hr & Hw). destruct (here (x :: text)) eqn:Eh; [done|]. destruct r as [|y r]; simpl in E; [congruence|].
      injection E as <- ->. inversion Hr as [|? ? Hx Hr']; subst. apply char_ok_true in Hx. rewrite Hx. apply IH. eauto.
Qed.
Lemma begins_nil text : begins [] text.
Proof. exists [], text. split; [done|]. split; [constructor|done]. Qed.
Lemma begins_star c re text :
  begins (c :: STAR :: re) text <->
  exists r w, text = r ++ w /\ Forall (fun x => c = DOT_ \/ c = x) r /\ begins re w.
Proof.
  unfold begins. simpl. split.
  - intros (mid & post & -> & H & He). inversion H as [| |? r ? w Hr Hw]; subst. exists r, (w ++ post).
    split; [by rewrite app_assoc|]. split; [done|]. by exists w, post.
  - intros (r & w & -> & Hr & mid & post & -> & H & He). exists (r ++ mid), post. split; [by rewrite app_assoc|].
    split; [by constructor|done].
Qed.
(** One character, where the expression goes on with [re]. *)
Lemma begins_one c re text :
  parse (c :: re) = ((c, false) :: (parse re).1, (parse re).2) ->
  begins (c :: re) text <-> exists x t, text = x :: t /\ (c = DOT_ \/ c = x) /\ begins re t.
Proof.
  intros E. unfold begins. rewrite E. simpl. split.
  - intros (mid & post & -> & H & He). inversion H as [|? x ? w Hx Hw|]; subst. exists x, (w ++ post).
    split; [done|]. split; [done|]. by exists w, post.
  - intros (x & t & -> & Hx & mid & post & -> & H & He). exists (x :: mid), post. split; [done|].
    split; [by constructor|done].
Qed.
Lemma matchhere_begins : forall re text, matchhere re text = true <-> begins re text.
Proof.
  intros re. remember (length re) as n eqn:En. assert (Hn : (length re <= n)%nat) by lia. clear En.
  revert re Hn. induction n as [|n IH]; intros re Hn text; (destruct re as [|c re1]; [split; [intros _; apply begins_nil|done]|]);
    simpl in Hn; [lia|].
  assert (One : forall re, (length re <= n)%nat -> parse (c :: re) = ((c, false) :: (parse re).1, (parse re).2) ->
    match text with [] => false | x :: t => if char_ok c x then matchhere re t else false end = true <-> begins (c :: re) text).
  { intros re Hre E. rewrite begins_one by done. destruct text as [|x t].
    - split; [done|]. by intros (x & t & ? & _).
    - destruct (char_ok c x) eqn:Ec.
      + rewrite IH by done. split; [|by intros (? & ? & [= <- <-] & _ & H)]. intros H. exists x, t. apply char_ok_true in Ec. done.
      + split; [done|]. intros (? & ? & [= <- <-] & Hx & _). apply char_ok_true in Hx. congruence. }
  destruct re1 as [|s re2]; cbn [matchhere].
  - destruct (decide (c = DOLLAR)) as [->|Hd].
    + unfold begins. simpl. destruct text as [|x t].
      * split; [|done]. intros _. exists [], []. split; [done|]. split; [constructor|done].
      * split; [done|]. intros (mid & post & E & H & He). inversion H; subst. rewrite (He eq_refl) in E. done.
    + apply (One []); [simpl; lia|]. simpl. by rewrite decide_False.
  - simpl in Hn. destruct (decide (s = STAR)) as [->|Hs].
    + rewrite matchstar_true, begins_star. split; intros (r & w & -> & Hr & Hw); exists r, w; (split; [done|]); (split; [done|]);
        by apply IH; [lia|].
    + apply (One (s :: re2)); [simpl; lia|]. simpl. by rewrite decide_False.
Qed.
Lemma match_from_true re text :
  match_from re text = true <-> exists pre post, text = pre ++ post /\ begins re post.
Proof.
  induction text as [|x text IH]; simpl.
  - split.
    + destruct (matchhere re []) eqn:E; [|done]. intros _. exists [], []. split; [done|]. by apply matchhere_begins.
    + intros (pre & post & E & H). symmetry in E. apply app_nil in E as [-> ->]. apply matchhere_begins in H. by rewrite H.
  - split.
    + destruct (matchhere re (x :: text)) eqn:E.
      * intros _. exists [], (x :: text). split; [done|]. by apply matchhere_begins.
      * intros (pre & post & -> & H)%IH. by exists (x :: pre), post.
    + intros (pre & post & E & H). destruct (matchhere re (x :: text)) eqn:Em; [done|]. destruct pre as [|y pre]; simpl in E.
      * subst. apply matchhere_begins in H. congruence.
      * injection E as <- ->. apply IH. eauto.
Qed.
End matcher.

(** C30: the matcher decides the language: match finds a match exactly when some
    part of the text is described by the expression, where ^ at the front and $
    at the end tie the part to the start and end of the text, a character stands
    for itself, . for any character, and a star for any number of the character
    before it. *)
Theorem match_correct re text : match_ re text = true <-> occurs re text.
Proof.
  assert (From : forall re, match_from re text = true <->
    exists pre mid post, text = pre ++ mid ++ post /\ denotes (parse re).1 mid /\ (false = true -> pre = []) /\ ((parse re).2 = true -> post = [])).
  { intros re'. rewrite match_from_true. unfold begins. split.
    - intros (pre & post & -> & mid & rest & -> & H & He). by exists pre, mid, rest.
    - intros (pre & mid & post & -> & H & _ & He). exists pre, (mid ++ post). split; [done|]. by exists mid, post. }
  unfold match_, occurs. destruct re as [|c re].
  - rewrite From. by destruct (parse []).
  - destruct (decide (c = CARET)) as [->|Hc].
    + rewrite matchhere_begins. unfold begins. destruct (parse re) as [items e]. cbn [fst snd]. split.
      * intros (mid & rest & -> & H & He). by exists [], mid, rest.
      * intros (pre & mid & post & -> & H & Hp & He). rewrite (Hp eq_refl). by exists mid, post.
    + rewrite From. by destruct (parse (c :: re)).
Qed.

(** ** Whole files *)

(** A line that fits grep's buffer. *)
Definition fits_buf (l : list Z) : Prop := Forall (fun c => c <> 0 /\ c <> NEWLINE) l /\ (length l < BUFSZ - 1)%nat.

Section loop.
Context (pattern : list Z).
Let out (ls : list (list Z)) : list Z := lines_text (filter (fun l => match_ pattern l = true) ls).
Lemma split_line_some l rest : Forall (fun c => c <> 0 /\ c <> NEWLINE) l -> split_line (l ++ NEWLINE :: rest) = Some (l, rest).
Proof. induction 1 as [|c l [H0 Hn] _ IH]; [done|]. simpl. rewrite !decide_False by done. by rewrite IH. Qed.
Lemma split_line_none l : Forall (fun c => c <> 0 /\ c <> NEWLINE) l -> split_line l = None.
Proof. induction 1 as [|c l [H0 Hn] _ IH]; [done|]. simpl. rewrite !decide_False by done. by rewrite IH. Qed.
Lemma out_cons l ls : out (l :: ls) = (if match_ pattern l then l ++ [NEWLINE] else []) ++ out ls.
Proof. unfold out. rewrite filter_cons. by destruct (match_ pattern l). Qed.
Lemma out_app ls1 ls2 : out (ls1 ++ ls2) = out ls1 ++ out ls2.
Proof. induction ls1 as [|l ls1 IH]; [done|]. simpl app. rewrite !out_cons, IH. by rewrite app_assoc. Qed.
Lemma grep_lines_all fuel ls tl :
  Forall fits_buf ls -> Forall (fun c => c <> 0 /\ c <> NEWLINE) tl -> (length ls < fuel)%nat ->
  grep_lines fuel pattern (lines_text ls ++ tl) = (out ls, tl).
Proof.
  intros H Ht. revert fuel. induction H as [|l ls [Hl _] _ IH]; intros [|fuel] Hf; try (simpl in Hf; lia).
  - cbn [grep_lines]. simpl app. by rewrite split_line_none.
  - cbn [grep_lines]. unfold lines_text at 1. simpl. rewrite <- !app_assoc. simpl. rewrite split_line_some by done.
    change (concat (map _ ls)) with (lines_text ls). rewrite IH by (simpl in Hf; lia). by rewrite out_cons.
Qed.
(** The lines that end within the first [d] bytes, and the beginning of the next. *)
Lemma cut_lines ls d :
  Forall fits_buf ls -> exists ls1 ls2 tl,
    ls = ls1 ++ ls2 /\ take d (lines_text ls) = lines_text ls1 ++ tl /\ tl ++ drop d (lines_text ls) = lines_text ls2 /\
    Forall (fun c => c <> 0 /\ c <> NEWLINE) tl /\ (length tl < BUFSZ - 1)%nat /\
    (ls1 = [] -> ls = [] \/ (d < BUFSZ - 1)%nat /\ (d < length (lines_text ls))%nat).
Proof.
  intros H. revert d. induction H as [|l ls [Hl Hb] H IH]; intros d.
  - exists [], [], []. unfold lines_text. simpl. rewrite take_nil, drop_nil. repeat split; try done; [unfold BUFSZ; lia|by left].
  - assert (E : lines_text (l :: ls) = (l ++ [NEWLINE]) ++ lines_text ls) by done.
    destruct (decide (d <= length l)%nat) as [Hd|Hd].
    + exists [], (l :: ls), (take d l). rewrite E, <- app_assoc, take_app_le, drop_app_le by lia.
      split; [done|]. split; [done|]. split; [by rewrite app_assoc, take_drop|].
      split; [by apply Forall_take|]. split; [rewrite length_take; lia|]. intros _. right. rewrite !length_app. cbn [length]. lia.
    + destruct (IH (d - S (length l))%nat) as (ls1 & ls2 & tl & -> & E1 & E2 & Ht & Hlt & _).
      exists (l :: ls1), ls2, tl. rewrite E, take_app_ge, drop_app_ge by (rewrite length_app; simpl; lia).
      rewrite length_app. simpl length. rewrite Nat.add_1_r. rewrite E1. split; [done|]. split; [by rewrite app_assoc|]. done.
Qed.
Lemma lines_text_length ls : (length ls <= length (lines_text ls))%nat.
Proof. induction ls as [|l ls IH]; [done|]. unfold lines_text in *. simpl. rewrite !length_app. simpl. lia. Qed.
Lemma no_more_lines ls buf : Forall (fun c => c <> 0 /\ c <> NEWLINE) buf -> buf = lines_text ls -> ls = [].
Proof.
  intros H ->. destruct ls as [|l ls]; [done|]. unfold lines_text in H. simpl in H. rewrite !Forall_app, Forall_singleton in H. naive_solver.
Qed.
Lemma grep_from k : forall ls buf input,
  Forall fits_buf ls -> buf ++ input = lines_text ls -> (length buf < BUFSZ - 1)%nat ->
  Forall (fun c => c <> 0 /\ c <> NEWLINE) buf -> (length input <= k)%nat ->
  grep pattern (replicate k BUFSZ) input buf = out ls.
Proof.
  induction k as [|k IH]; intros ls buf input H E Hb Hc Hk; cbn [grep replicate].
  - destruct input; simpl in Hk; [|lia]. rewrite app_nil_r in E. by rewrite (no_more_lines ls buf).
  - case_decide as Hn.
    { destruct input; [|cbn [length] in Hn; unfold BUFSZ in *; lia]. rewrite app_nil_r in E. by rewrite (no_more_lines ls buf). }
    set (n := Nat.min _ _) in *. set (d := (length buf + n)%nat).
    assert (Ed : buf ++ take n input = take d (lines_text ls)).
    { rewrite <- E. unfold d. by rewrite take_app_add. }
    assert (Er : drop n input = drop d (lines_text ls)).
    { rewrite <- E. unfold d. by rewrite drop_app_add. }
    assert (Hd : (d = BUFSZ - 1)%nat \/ d = length (lines_text ls)) by (rewrite <- E, length_app; unfold d, n, BUFSZ in *; lia).
    destruct (cut_lines ls d H) as (ls1 & ls2 & tl & -> & E1 & E2 & Ht & Hlt & Hz).
    apply Forall_app in H as [H1 H2]. rewrite Ed, E1, grep_lines_all by (try done; pose proof (lines_text_length ls1); rewrite length_app; lia).
    cbn [fst snd]. rewrite Er, out_app. f_equal. rewrite decide_False.
    + apply IH; try done. rewrite <- Er, length_drop. lia.
    + destruct ls1 as [|l ls1]; [exfalso|rewrite length_app; pose proof (lines_text_length (l :: ls1)); simpl length in *; lia].
      destruct (Hz eq_refl) as [Hz'|Hz']; [|lia]. simpl in Hz'. subst ls2. apply (app_nil buf input) in E as [-> ->]. by apply Hn.
Qed.
End loop.

(** C31: on a file whose lines fit the buffer, where each read returns all that
    it was asked for, grep prints exactly the matching lines, whole and in
    order, wherever the reads cut them. *)
Theorem grep_file_correct pattern ls :
  Forall fits_buf ls ->
  grep pattern (replicate (length (lines_text ls)) BUFSZ) (lines_text ls) [] =
  lines_text (filter (fun l => match_ pattern l = true) ls).
Proof. intros H. apply (grep_from pattern (length (lines_text ls)) ls [] (lines_text ls)); try done; unfold BUFSZ; simpl; lia. Qed.
(** Fifty lines of 29 bytes, more than the buffer holds. *)
Lemma grep_file_correct_witness :
  grep [CARET; 98] (replicate 1500 BUFSZ) (lines_text (replicate 25 (replicate 29 97) ++ replicate 25 (replicate 29 98))) [] =
  lines_text (replicate 25 (replicate 29 98)).
Proof.
  transitivity (lines_text (filter (fun l => match_ [CARET; 98] l = true) (replicate 25 (replicate 29 97) ++ replicate 25 (replicate 29 98)))).
  - apply (grep_file_correct [CARET; 98] (replicate 25 (replicate 29 97) ++ replicate 25 (replicate 29 98))).
    apply Forall_app. split; apply Forall_replicate; (split; [apply Forall_replicate; done|vm_compute; lia]).
  - vm_compute. reflexivity.
Defined.

(** When a read returns the beginning of a line only, as reads of a pipe or
    of the console do, grep throws that beginning away and matches the rest as
    if it were the line: a line that matches is not printed, and a part of a
    line is printed as a line. *)
Theorem grep_drops_line_start :
  let line := [97; 98; 99; NEWLINE] in
  grep [97; 98; 99] [4%nat] line [] = line /\ grep [97; 98; 99] [2%nat; 2%nat] line [] = [] /\
  grep [CARET; 99] [4%nat] line [] = [] /\ grep [CARET; 99] [2%nat; 2%nat] line [] = [99; NEWLINE].
Proof. vm_compute. done. Qed.
