(* ===== verification/Shell.v ===== *)
(** The shell's parser (sh.c): from the text of a line to a command.

    A pointer into the line is the text from it on, so that [s < es] says that
    the text is not empty, and a position is [length line] minus its length.
    The line ends at its NUL, so it holds none.  [Spent] is out of fuel, which
    ShellFacts.v shows does not happen. *)
From S2P Require Import Prelude.

(** A token: its first character on, and the rest after it. *)
Record token : Type := Token { tq : list Z; teq : list Z }.
(** struct cmd and the structs that begin like it; [T] is what argv and file
    point to. *)
Inductive cmd (T : Type) : Type :=
| EXEC (argv : list T)
| REDIR (c : cmd T) (file : T) (mode fd : Z)
| PIPE (left right : cmd T)
| LIST (left right : cmd T)
| BACK (c : cmd T).
Arguments EXEC {T} argv.
Arguments REDIR {T} c file mode fd.
Arguments PIPE {T} left right.
Arguments LIST {T} left right.
Arguments BACK {T} c.
Definition MAXARGS : nat := 10.

Inductive outcome (A : Type) : Type :=
| Done (a : A) (s : list Z)
| Exits (msg : string)
| Spent.
Arguments Done {A} a s.
Arguments Exits {A} msg.
Arguments Spent {A}.
Definition parser (A : Type) : Type := list Z -> outcome A.
#[export] Instance parser_ret : MRet parser := fun A a s => Done a s.
#[export] Instance parser_bind : MBind parser := fun A B f p s =>
  match p s with
  | Done a s => f a s
  | Exits e => Exits e
  | Spent => Spent
  end.
(** panic of the shell: it prints the message and exits. *)
Definition fails {A} (msg : string) : parser A := fun _ => Exits msg.
Definition spent {A} : parser A := fun _ => Spent.
(** A loop that consumes a character or more at each turn. *)
Definition looping {A} (loop : nat -> parser A) : parser A := fun s => loop (S (length s)) s.

Definition whitespace : list Z := [32; 9; 13; 10; 11].
Definition BAR : Z := 124.
Definition LPAR : Z := 40.
Definition RPAR : Z := 41.
Definition SEMI : Z := 59.
Definition AMP : Z := 38.
Definition LT : Z := 60.
Definition GT : Z := 62.
Definition symbols : list Z := [LT; BAR; GT; AMP; SEMI; LPAR; RPAR].
(** The character of a word. *)
Definition word_char (c : Z) : Prop := ~ c ∈ whitespace /\ ~ c ∈ symbols.
#[export] Instance word_char_dec c : Decision (word_char c) := _.

Fixpoint skip_space (s : list Z) : list Z :=
  match s with
  | c :: t => if decide (c ∈ whitespace) then skip_space t else s
  | [] => []
  end.
Fixpoint skip_word (s : list Z) : list Z :=
  match s with
  | c :: t => if decide (word_char c) then skip_word t else s
  | [] => []
  end.
(** The return values of gettoken. *)
Inductive kind : Type := TEnd | TSym (c : Z) | TAppend | TWord.
#[export] Instance kind_eq_dec : EqDecision kind.
Proof. solve_decision. Defined.
Definition gettoken : parser (kind * token) := fun s =>
  let s := skip_space s in
  let '(ret, eq) :=
    match s with
    | [] => (TEnd, s)
    | c :: t =>
        if decide (c ∈ [BAR; LPAR; RPAR; SEMI; AMP; LT]) then (TSym c, t)
        else if decide (c = GT) then
          match t with
          | d :: t' => if decide (d = GT) then (TAppend, t') else (TSym GT, t)
          | [] => (TSym GT, t)
          end
        else (TWord, skip_word s)
    end in
  Done (ret, Token s eq) (skip_space eq).
Definition peek (toks : list Z) : parser bool := fun s =>
  let s := skip_space s in
  Done (match s with c :: _ => bool_decide (c ∈ toks) | [] => false end) s.

Fixpoint parseredirs_loop (fuel : nat) (c : cmd token) : parser (cmd token) :=
  match fuel with
  | O => spent
  | S fuel =>
      b ← peek [LT; GT];
      if b : bool then
        tok ← gettoken;
        file ← gettoken;
        if decide (file.1 <> TWord) then fails "missing file for redirection"%string else
        parseredirs_loop fuel
          (if decide (tok.1 = TSym LT) then REDIR c file.2 O_RDONLY 0
           else if decide (tok.1 = TSym GT) then REDIR c file.2 (Z.lor O_WRONLY O_CREATE) 1
           else if decide (tok.1 = TAppend) then REDIR c file.2 (Z.lor O_WRONLY O_CREATE) 1
           else c)
      else mret c
  end.
Definition parseredirs (c : cmd token) : parser (cmd token) := looping (fun fuel => parseredirs_loop fuel c).
(** [cmd->argv[argc] = q; cmd->eargv[argc] = eq], where [ret] is the execcmd
    inside the redirections around it. *)
Fixpoint set_arg {T} (t : T) (ret : cmd T) : cmd T :=
  match ret with
  | EXEC argv => EXEC (argv ++ [t])
  | REDIR c file mode fd => REDIR (set_arg t c) file mode fd
  | _ => ret
  end.
(** The while loop of parseexec. *)
Fixpoint parseargs (fuel argc : nat) (ret : cmd token) : parser (cmd token) :=
  match fuel with
  | O => spent
  | S fuel =>
      b ← peek [BAR; RPAR; AMP; SEMI];
      if b : bool then mret ret else
      tok ← gettoken;
      if decide (tok.1 = TEnd) then mret ret else
      if decide (tok.1 <> TWord) then fails "syntax"%string else
      let ret := set_arg tok.2 ret in
      if decide (MAXARGS <= S argc)%nat then fails "too many args"%string else
      ret ← parseredirs ret;
      parseargs fuel (S argc) ret
  end.
(** The while loop of parseline. *)
Fixpoint parseback (fuel : nat) (c : cmd token) : parser (cmd token) :=
  match fuel with
  | O => spent
  | S fuel =>
      b ← peek [AMP];
      if b : bool then _ ← gettoken; parseback fuel (BACK c) else mret c
  end.

Fixpoint parseline (fuel : nat) : parser (cmd token) :=
  match fuel with
  | O => spent
  | S fuel =>
      c ← parsepipe fuel;
      c ← looping (fun fuel => parseback fuel c);
      b ← peek [SEMI];
      if b : bool then
        _ ← gettoken;
        r ← parseline fuel;
        mret (LIST c r)
      else mret c
  end
with parsepipe (fuel : nat) : parser (cmd token) :=
  match fuel with
  | O => spent
  | S fuel =>
      c ← parseexec fuel;
      b ← peek [BAR];
      if b : bool then
        _ ← gettoken;
        r ← parsepipe fuel;
        mret (PIPE c r)
      else mret c
  end
with parseexec (fuel : nat) : parser (cmd token) :=
  match fuel with
  | O => spent
  | S fuel =>
      b ← peek [LPAR];
      if b : bool then parseblock fuel else
      ret ← parseredirs (EXEC []);
      looping (fun fuel => parseargs fuel 0 ret)
  end
with parseblock (fuel : nat) : parser (cmd token) :=
  match fuel with
  | O => spent
  | S fuel =>
      b ← peek [LPAR];
      if negb b then fails "parseblock"%string else
      _ ← gettoken;
      c ← parseline fuel;
      b ← peek [RPAR];
      if negb b then fails "syntax - missing )"%string else
      _ ← gettoken;
      parseredirs c
  end.

(** ** The strings of the command *)

(** The line with its NUL; the offset of a pointer into it. *)
Definition offset (line s : list Z) : nat := length line - length s.
(** nulterminate: a NUL after each token, in the buffer of [line]. *)
Fixpoint nulterminate (line : list Z) (c : cmd token) (buf : list Z) : list Z :=
  match c with
  | EXEC argv => foldl (fun buf t => <[offset line (teq t) := 0]> buf) buf argv
  | REDIR c file _ _ => <[offset line (teq file) := 0]> (nulterminate line c buf)
  | PIPE l r | LIST l r => nulterminate line r (nulterminate line l buf)
  | BACK c => nulterminate line c buf
  end.
(** The C string at an offset. *)
Fixpoint string_of (buf : list Z) : list Z :=
  match buf with
  | c :: buf => if decide (c = 0) then [] else c :: string_of buf
  | [] => []
  end.
Fixpoint cmd_map {T U} (f : T -> U) (c : cmd T) : cmd U :=
  match c with
  | EXEC argv => EXEC (f <$> argv)
  | REDIR c file mode fd => REDIR (cmd_map f c) (f file) mode fd
  | PIPE l r => PIPE (cmd_map f l) (cmd_map f r)
  | LIST l r => LIST (cmd_map f l) (cmd_map f r)
  | BACK c => BACK (cmd_map f c)
  end.
(** Enough calls for a line of that length. *)
Definition enough (s : list Z) : nat := 4 * length s + 4.
(** parsecmd up to its call of nulterminate. *)
Definition tree (line : list Z) : outcome (cmd token) :=
  (c ← parseline (enough line); _ ← peek []; mret c) line.
(** parsecmd: the command, its tokens read as the strings they point to. *)
Definition parsecmd (line : list Z) : outcome (cmd (list Z)) :=
  match tree line with
  | Done c [] =>
      let buf := nulterminate line c (line ++ [0]) in
      Done (cmd_map (fun t => string_of (drop (offset line (tq t)) buf)) c) []
  | Done _ _ => Exits "syntax"%string
  | Exits e => Exits e
  | Spent => Spent
  end.
