(* ===== verification/ShellFacts.v ===== *)
(** The shell's parser (sh.c): it ends on every line, and its tokens become
    separate strings. *)
From S2P Require Import Prelude Shell.

(** ** Total correctness of a parser *)

Definition pwp {A} (Q : A -> list Z -> Prop) (r : outcome A) : Prop :=
  match r with Done a s => Q a s | Exits _ => True | Spent => False end.
Lemma pwp_bind {A B} (p : parser A) (f : A -> parser B) Q s :
  pwp (fun a s => pwp Q (f a s)) (p s) -> pwp Q ((p ≫= f) s).
Proof. unfold mbind, parser_bind. by destruct (p s). Qed.
Lemma pwp_mono {A} (Q R : A -> list Z -> Prop) r : pwp Q r -> (forall a s, Q a s -> R a s) -> pwp R r.
Proof. destruct r; simpl; eauto. Qed.

(** ** Positions *)

Lemma skip_space_suffix s : skip_space s `suffix_of` s.
Proof. induction s as [|c s IH]; simpl; [done|]. case_decide; [|done]. by apply suffix_cons_r. Qed.
Lemma skip_word_suffix s : skip_word s `suffix_of` s.
Proof. induction s as [|c s IH]; simpl; [done|]. case_decide; [|done]. by apply suffix_cons_r. Qed.
Lemma skip_space_idem s : skip_space (skip_space s) = skip_space s.
Proof. induction s as [|c s IH]; simpl; [done|]. case_decide; [done|]. simpl. by rewrite decide_False. Qed.
Lemma skip_space_head s c t : skip_space s = c :: t -> ~ c ∈ whitespace.
Proof. induction s as [|d s IH]; simpl; [done|]. case_decide; [done|]. by intros [= -> ->]. Qed.
Lemma suffix_le {A} (s t : list A) : s `suffix_of` t -> (length s <= length t)%nat.
Proof. apply suffix_length. Qed.
Lemma suffix_trans {A} (a b c : list A) : a `suffix_of` b -> b `suffix_of` c -> a `suffix_of` c.
Proof. intros H1 H2. by transitivity b. Qed.
(** A rest of a rest is a rest. *)
Ltac rest := eauto 6 using suffix_trans, skip_space_suffix, skip_word_suffix, suffix_cons_r.
(** The characters of a token. *)
Definition text (t : token) : list Z := take (length (tq t) - length (teq t)) (tq t).
Lemma text_app w k : text (Token (w ++ k) k) = w.
Proof. unfold text. simpl. rewrite length_app, Nat.add_sub. by rewrite take_app_length. Qed.
(** A word of the line: the character after it is not of a word. *)
Definition good (line : list Z) (t : token) : Prop :=
  tq t `suffix_of` line /\ (exists w, tq t = w ++ teq t /\ Forall word_char w) /\
  match teq t with c :: _ => ~ word_char c | [] => True end.
Fixpoint tokens {T} (c : cmd T) : list T :=
  match c with
  | EXEC argv => argv
  | REDIR c file _ _ => tokens c ++ [file]
  | PIPE l r | LIST l r => tokens l ++ tokens r
  | BACK c => tokens c
  end.
Lemma skip_word_text s : exists w, s = w ++ skip_word s /\ Forall word_char w /\
  match skip_word s with c :: _ => ~ word_char c | [] => True end.
Proof.
  induction s as [|c s (w & E & Hw & Hk)]; simpl; [by exists []|]. case_decide as Hc.
  - exists (c :: w). simpl. rewrite <- E. split; [done|]. split; [by constructor|done].
  - by exists [].
Qed.

Section total.
Context (line : list Z).
(** What every parser does from [s]: the tokens are words of the line, and the
    rest is a rest of [s]. *)
Definition keeps (s : list Z) (c : cmd token) (s' : list Z) : Prop := Forall (good line) (tokens c) /\ s' `suffix_of` s.
Lemma peek_pwp toks s : pwp (fun b s' => s' = skip_space s /\ (b = true -> exists c t, s' = c :: t /\ c ∈ toks)) (peek toks s).
Proof. unfold peek. simpl. split; [done|]. destruct (skip_space s) as [|c t]; [done|]. intros H%bool_decide_eq_true. eauto. Qed.
Lemma gettoken_pwp s :
  s `suffix_of` line ->
  pwp (fun r s' => s' `suffix_of` s /\ (skip_space s <> [] -> (length s' < length s)%nat) /\
                   (r.1 = TEnd <-> skip_space s = []) /\ (r.1 = TWord -> good line r.2)) (gettoken s).
Proof.
  intros Hs. pose proof (skip_space_suffix s) as H0. pose proof (suffix_le _ _ H0) as L0. unfold gettoken.
  assert (Sym : forall k c t eq, k <> TEnd -> k <> TWord -> skip_space s = c :: t -> eq `suffix_of` t ->
    pwp (fun r s' => s' `suffix_of` s /\ (skip_space s <> [] -> (length s' < length s)%nat) /\
      (r.1 = TEnd <-> skip_space s = []) /\ (r.1 = TWord -> good line r.2)) (Done (k, Token (skip_space s) eq) (skip_space eq))).
  { intros k c t eq Hk Hw E He. simpl. rewrite E in *. simpl in L0. pose proof (skip_space_suffix eq) as H1.
    assert (H2 : skip_space eq `suffix_of` t) by (rest). pose proof (suffix_le _ _ H2).
    split; [rest|]. split; [lia|]. split; [|done]. by split; intros. }
  destruct (skip_space s) as [|c t] eqn:E.
  - simpl. split; [apply suffix_nil|]. done.
  - case_decide as Hc; [by apply (Sym _ c t)|]. case_decide as Hg.
    + destruct t as [|d t]; [by apply (Sym _ c [])|]. case_decide; [|by apply (Sym _ c (d :: t))].
      apply (Sym _ c (d :: t)); try done. by apply suffix_cons_r.
    + assert (Hw : word_char c).
      { split; [by eapply skip_space_head|]. unfold symbols. set_unfold. naive_solver. }
      cbn [pwp fst snd]. pose proof (skip_word_suffix (c :: t)) as H1. pose proof (skip_space_suffix (skip_word (c :: t))) as H2.
      assert (H3 : (length (skip_word (c :: t)) <= length t)%nat).
      { simpl. rewrite decide_True by done. apply suffix_le, skip_word_suffix. }
      pose proof (suffix_le _ _ H2). simpl length in *.
      split; [rest|]. split; [intros _; lia|]. split; [done|]. intros _.
      split; [rest|]. destruct (skip_word_text (c :: t)) as (w & Ew & Hww & Hk). cbn [tq teq]. split; [by exists w|done].
Qed.
(** gettoken after peek saw the character: it is taken. *)
Lemma gettoken_seen s c t :
  s `suffix_of` line -> s = c :: t -> skip_space s = s ->
  pwp (fun r s' => s' `suffix_of` s /\ (length s' < length s)%nat /\ (r.1 = TWord -> good line r.2)) (gettoken s).
Proof.
  intros Hs E E'. eapply pwp_mono; [by apply gettoken_pwp|]. intros r s' (H1 & H2 & _ & H3). split; [done|]. split; [|done].
  apply H2. by rewrite E', E.
Qed.
Lemma parseredirs_loop_pwp fuel : forall c s,
  (length s < fuel)%nat -> s `suffix_of` line -> Forall (good line) (tokens c) -> pwp (keeps s) (parseredirs_loop fuel c s).
Proof.
  induction fuel as [|fuel IH]; intros c s Hf Hs Hc; [lia|]. cbn [parseredirs_loop]. apply pwp_bind.
  eapply pwp_mono; [apply peek_pwp|]. intros b s1 (-> & Hb). pose proof (skip_space_suffix s) as H1. destruct b; [|done].
  destruct (Hb eq_refl) as (ch & t & E & _). apply pwp_bind.
  eapply pwp_mono; [eapply gettoken_seen; [rest|exact E|apply skip_space_idem]|]. intros tok s2 (H2 & L2 & _).
  apply pwp_bind. assert (S2 : s2 `suffix_of` line) by (rest).
  eapply pwp_mono; [by apply gettoken_pwp|]. intros file s3 (H3 & _ & _ & G3). destruct (decide (file.1 <> TWord)) as [|Hw]; [done|].
  apply suffix_le in H1 as L1. apply suffix_le in H3 as L3. eapply pwp_mono.
  - apply IH; [lia|rest|]. assert (G : good line file.2) by (apply G3; by apply dec_stable).
    repeat case_decide; simpl; rewrite ?Forall_app, ?Forall_singleton; done.
  - intros c' s' [Hc' Hs']. split; [done|]. rest.
Qed.
Lemma parseredirs_pwp c s :
  s `suffix_of` line -> Forall (good line) (tokens c) -> pwp (keeps s) (parseredirs c s).
Proof. intros. unfold parseredirs, looping. apply parseredirs_loop_pwp; [lia|done|done]. Qed.
Lemma set_arg_good t c : good line t -> Forall (good line) (tokens c) -> Forall (good line) (tokens (set_arg t c)).
Proof.
  intros Ht. induction c as [argv|c IH file mode fd|l IHl r IHr|l IHl r IHr|c IH]; simpl; try done; rewrite !Forall_app, Forall_singleton; [done|].
  naive_solver.
Qed.
Lemma parseargs_pwp fuel : forall argc c s,
  (length s < fuel)%nat -> s `suffix_of` line -> Forall (good line) (tokens c) -> pwp (keeps s) (parseargs fuel argc c s).
Proof.
  induction fuel as [|fuel IH]; intros argc c s Hf Hs Hc; [lia|]. cbn [parseargs]. apply pwp_bind.
  eapply pwp_mono; [apply peek_pwp|]. intros b s1 (-> & _). pose proof (skip_space_suffix s) as H1. destruct b; [done|].
  apply pwp_bind. assert (S1 : skip_space s `suffix_of` line) by (rest).
  eapply pwp_mono; [by apply gettoken_pwp|]. intros tok s2 (H2 & L2 & E2 & G2). rewrite skip_space_idem in *.
  assert (S2 : s2 `suffix_of` s) by (rest). destruct (decide (tok.1 = TEnd)) as [|He]; [done|].
  destruct (decide (tok.1 <> TWord)) as [|Hw]; [done|]. case_decide; [done|].
  apply pwp_bind. assert (L2' : (length s2 < length (skip_space s))%nat) by (apply L2; by intros ?%E2). apply suffix_le in H1 as L1.
  eapply pwp_mono; [apply parseredirs_pwp; [rest|apply set_arg_good; [apply G2; by apply dec_stable|done]]|].
  intros c' s3 [Hc' H3]. apply suffix_le in H3 as L3. eapply pwp_mono; [apply IH; [lia| |done]|].
  - rest.
  - intros c'' s' [Hc'' Hs']. split; [done|]. rest.
Qed.
Lemma parseback_pwp fuel : forall c s,
  (length s < fuel)%nat -> s `suffix_of` line -> Forall (good line) (tokens c) -> pwp (keeps s) (parseback fuel c s).
Proof.
  induction fuel as [|fuel IH]; intros c s Hf Hs Hc; [lia|]. cbn [parseback]. apply pwp_bind.
  eapply pwp_mono; [apply peek_pwp|]. intros b s1 (-> & Hb). pose proof (skip_space_suffix s) as H1. destruct b; [|done].
  destruct (Hb eq_refl) as (ch & t & E & _). apply pwp_bind.
  eapply pwp_mono; [eapply gettoken_seen; [rest|exact E|apply skip_space_idem]|]. intros tok s2 (H2 & L2 & _).
  apply suffix_le in H1 as L1. assert (S2 : s2 `suffix_of` s) by (rest).
  eapply pwp_mono; [apply IH; [lia|rest|done]|]. intros c' s' [Hc' Hs']. split; [done|]. rest.
Qed.
(** The four functions, each with the fuel it needs for [s]. *)
Definition ends (p : nat -> parser (cmd token)) (d fuel : nat) : Prop :=
  forall s, (4 * length s + d <= fuel)%nat -> s `suffix_of` line -> pwp (keeps s) (p fuel s).
Lemma parse_pwp fuel :
  ends parseline 4 fuel /\ ends parsepipe 3 fuel /\ ends parseexec 2 fuel /\ ends parseblock 1 fuel.
Proof.
  induction fuel as [|fuel (IHl & IHp & IHe & IHb)]; [split_and!; intros s Hf; lia|]. split_and!; intros s Hf Hs.
  - cbn [parseline]. apply pwp_bind. eapply pwp_mono; [apply IHp; [lia|done]|]. intros c s1 [Hc H1]. apply pwp_bind.
    eapply pwp_mono; [apply parseback_pwp; [lia|rest|done]|]. intros c2 s2 [Hc2 H2]. apply pwp_bind.
    eapply pwp_mono; [apply peek_pwp|]. intros b s3 (-> & Hb). assert (S3 : skip_space s2 `suffix_of` s) by rest.
    destruct b; [|done]. destruct (Hb eq_refl) as (ch & t & E & _). apply pwp_bind.
    eapply pwp_mono; [eapply gettoken_seen; [rest|exact E|apply skip_space_idem]|]. intros tok s4 (H4 & L4 & _).
    apply suffix_le in S3 as L3. apply pwp_bind. eapply pwp_mono; [apply IHl; [lia|rest]|]. intros r s5 [Hr H5].
    split; [by apply Forall_app|rest].
  - cbn [parsepipe]. apply pwp_bind. eapply pwp_mono; [apply IHe; [lia|done]|]. intros c s1 [Hc H1]. apply pwp_bind.
    eapply pwp_mono; [apply peek_pwp|]. intros b s3 (-> & Hb). assert (S3 : skip_space s1 `suffix_of` s) by rest.
    destruct b; [|done]. destruct (Hb eq_refl) as (ch & t & E & _). apply pwp_bind.
    eapply pwp_mono; [eapply gettoken_seen; [rest|exact E|apply skip_space_idem]|]. intros tok s4 (H4 & L4 & _).
    apply suffix_le in S3 as L3. apply pwp_bind. eapply pwp_mono; [apply IHp; [lia|rest]|]. intros r s5 [Hr H5].
    split; [by apply Forall_app|rest].
  - cbn [parseexec]. apply pwp_bind. eapply pwp_mono; [apply peek_pwp|]. intros b s1 (-> & Hb).
    pose proof (skip_space_suffix s) as H1. apply suffix_le in H1 as L1. destruct b.
    + eapply pwp_mono; [apply IHb; [lia|rest]|]. intros c s' [Hc H']. split; [done|rest].
    + apply pwp_bind. eapply pwp_mono; [apply parseredirs_pwp; [rest|constructor]|]. intros c s2 [Hc H2].
      eapply pwp_mono; [apply parseargs_pwp; [lia|rest|done]|]. intros c' s' [Hc' H']. split; [done|rest].
  - cbn [parseblock]. apply pwp_bind. eapply pwp_mono; [apply peek_pwp|]. intros b s1 (-> & Hb).
    pose proof (skip_space_suffix s) as H1. apply suffix_le in H1 as L1. destruct b; [|done]. simpl negb. cbv iota.
    destruct (Hb eq_refl) as (ch & t & E & _). apply pwp_bind.
    eapply pwp_mono; [eapply gettoken_seen; [rest|exact E|apply skip_space_idem]|]. intros tok s2 (H2 & L2 & _).
    apply pwp_bind. eapply pwp_mono; [apply IHl; [lia|rest]|]. intros c s3 [Hc H3]. apply pwp_bind.
    eapply pwp_mono; [apply peek_pwp|]. intros b s4 (-> & Hb'). assert (S4 : skip_space s3 `suffix_of` s) by rest.
    destruct b; [|done]. simpl negb. cbv iota. destruct (Hb' eq_refl) as (ch' & t' & E' & _). apply pwp_bind.
    eapply pwp_mono; [eapply gettoken_seen; [rest|exact E'|apply skip_space_idem]|]. intros tok' s5 (H5 & _).
    eapply pwp_mono; [apply parseredirs_pwp; [rest|done]|]. intros c' s' [Hc' H']. split; [done|rest].
Qed.
Lemma tree_pwp : pwp (fun c _ => Forall (good line) (tokens c)) (tree line).
Proof.
  unfold tree. apply pwp_bind. eapply pwp_mono; [apply parse_pwp; [unfold enough; lia|done]|]. intros c s [Hc _].
  apply pwp_bind. by eapply pwp_mono; [apply peek_pwp|].
Qed.

(** *** The buffer after nulterminate *)

(** It agrees with the line on the characters of words, and is 0 after each
    token of [ts]. *)
Definition cut (ts : list token) (buf : list Z) : Prop :=
  length buf = S (length line) /\
  (forall i c, line !! i = Some c -> word_char c -> buf !! i = Some c) /\
  (forall t, t ∈ ts -> buf !! offset line (teq t) = Some 0).
Lemma after_good t : good line t -> (offset line (teq t) <= length line)%nat /\ (forall c, line !! offset line (teq t) = Some c -> ~ word_char c).
Proof.
  intros ([p Hp] & (w & Hw & _) & Hk). unfold offset. split; [lia|]. intros c Hc. rewrite Hw in Hp. rewrite app_assoc in Hp.
  rewrite Hp, length_app, Nat.add_sub in Hc. rewrite lookup_app_r, Nat.sub_diag in Hc by lia.
  destruct (teq t) as [|d k]; [done|]. by injection Hc as ->.
Qed.
Lemma cut_insert ts t buf : good line t -> cut ts buf -> cut (t :: ts) (<[offset line (teq t) := 0]> buf).
Proof.
  intros Hg (H1 & H2 & H3). destruct (after_good t Hg) as [Hi Hn]. split; [by rewrite length_insert|]. split.
  - intros i c Hc Hw. rewrite list_lookup_insert_ne; [by apply H2|]. intros E. rewrite <- E in Hc. by apply (Hn c).
  - intros u Hu. destruct (decide (offset line (teq u) = offset line (teq t))) as [->|Hne].
    + apply list_lookup_insert_eq. lia.
    + rewrite list_lookup_insert_ne by done. apply elem_of_cons in Hu as [->|Hu]; [done|by apply H3].
Qed.
Lemma cut_sub ts us buf : (forall t, t ∈ us -> t ∈ ts) -> cut ts buf -> cut us buf.
Proof. intros H (H1 & H2 & H3). split; [done|]. split; [done|]. eauto. Qed.
Lemma cut_args argv : forall ts buf,
  Forall (good line) argv -> cut ts buf -> cut (argv ++ ts) (foldl (fun buf t => <[offset line (teq t) := 0]> buf) buf argv).
Proof.
  induction argv as [|t argv IH]; intros ts buf Hg H; [done|]. inversion Hg; subst. simpl. eapply cut_sub; [|apply (IH (t :: ts)); [done|by apply cut_insert]].
  set_solver.
Qed.
Lemma nulterminate_cut c : forall ts buf, Forall (good line) (tokens c) -> cut ts buf -> cut (tokens c ++ ts) (nulterminate line c buf).
Proof.
  induction c as [argv|c IH file mode fd|l IHl r IHr|l IHl r IHr|c IH]; simpl; intros ts buf Hg H; rewrite ?Forall_app, ?Forall_singleton in Hg.
  - by apply cut_args.
  - eapply cut_sub; [|apply cut_insert; [apply Hg|apply (IH ts); [apply Hg|done]]].
    set_solver.
  - eapply cut_sub; [|apply (IHr (tokens l ++ ts)); [apply Hg|by apply IHl; [apply Hg|]]]. set_solver.
  - eapply cut_sub; [|apply (IHr (tokens l ++ ts)); [apply Hg|by apply IHl; [apply Hg|]]]. set_solver.
  - by apply IH.
Qed.
End total.
Lemma string_of_app w k : Forall (fun c => c <> 0) w -> string_of (w ++ 0 :: k) = w.
Proof. induction 1 as [|c w Hc _ IH]; simpl; [done|]. rewrite decide_False by done. by rewrite IH. Qed.
(** Each token is then a string of its own. *)
Lemma string_of_token line ts buf t :
  Forall (fun c => c <> 0) line -> cut line ts buf -> t ∈ ts -> good line t ->
  string_of (drop (offset line (tq t)) buf) = text t.
Proof.
  intros Hz (Hl & Hw & H0) Ht ([p Hp] & (w & Ew & Hww) & _). specialize (H0 t Ht). destruct t as [q e]. cbn [tq teq] in *. subst q.
  rewrite text_app. unfold offset in *. subst line. rewrite !length_app in *.
  replace (length p + (length w + length e) - (length w + length e))%nat with (length p) by lia.
  replace (length p + (length w + length e) - length e)%nat with (length p + length w)%nat in H0 by lia.
  rewrite <- (take_drop (length w) (drop (length p) buf)), drop_drop, (drop_S _ _ _ H0).
  assert (E : take (length w) (drop (length p) buf) = w).
  { apply list_eq_same_length with (n := length w); [done|rewrite length_take, length_drop; lia|].
    intros i x y Hi Hx Hy. rewrite lookup_take_lt, lookup_drop in Hx by done.
    assert (Hbuf : buf !! (length p + i)%nat = Some y); [|congruence]. apply Hw.
    - rewrite lookup_app_r, Nat.add_sub_swap, Nat.sub_diag by lia. by apply lookup_app_l_Some.
    - by eapply Forall_lookup_1. }
  rewrite E. apply string_of_app. rewrite !Forall_app in Hz. tauto.
Qed.
Lemma cmd_map_ext {T U} (f g : T -> U) c : (forall t, t ∈ tokens c -> f t = g t) -> cmd_map f c = cmd_map g c.
Proof.
  induction c as [argv|c IH file mode fd|l IHl r IHr|l IHl r IHr|c IH]; simpl; intros H; f_equal; auto with set_solver.
  - apply list_fmap_ext. intros i x Hx. apply H. by eapply list_elem_of_lookup_2.
Qed.
Lemma parsecmd_tree line c :
  Forall (fun c => c <> 0) line -> tree line = Done c [] -> parsecmd line = Done (cmd_map text c) [].
Proof.
  intros Hz Ht. unfold parsecmd. rewrite Ht. f_equal. apply cmd_map_ext. intros t Hin.
  pose proof (tree_pwp line) as Hg. rewrite Ht in Hg. simpl in Hg. apply string_of_token with (ts := tokens c ++ []); [done| |set_solver|].
  - apply nulterminate_cut; [done|]. split; [rewrite length_app; simpl; lia|]. split; [|set_solver].
    intros i x Hx _. by apply lookup_app_l_Some.
  - rewrite Forall_forall in Hg. by apply Hg.
Qed.

(** C32: the parser ends on every line: the recursion from lines to blocks to
    lines and the loops over arguments, redirections and ampersands take at most
    four calls and one turn per character, and give a command or a syntax
    error. *)
Theorem parsecmd_ends line : parsecmd line <> Spent.
Proof.
  unfold parsecmd. pose proof (tree_pwp line) as H.
  destruct (tree line) as [c [|]| |]; try done.
Qed.
