(* ===== verification/ShellPrint.v ===== *)
(** Printing a command and parsing it back (sh.c).

    [pr] writes a command in the grammar of the parser, with parentheses where
    the level of the grammar requires them. *)
From S2P Require Import Prelude Shell ShellFacts.

Definition word (w : list Z) : Prop := w <> [] /\ Forall (fun c => word_char c /\ c <> 0) w.
(** A redirection: file, mode and descriptor. *)
Abbreviation redir := (list Z * Z * Z)%type.
Definition wf_redir (r : redir) : Prop :=
  word r.1.1 /\ (r.1.2 = O_RDONLY /\ r.2 = 0 \/ r.1.2 = Z.lor O_WRONLY O_CREATE /\ r.2 = 1).
(** The commands that can be written: words as arguments, fewer than MAXARGS,
    and the modes of < and >. *)
Fixpoint wf (c : cmd (list Z)) : Prop :=
  match c with
  | EXEC argv => Forall word argv /\ (length argv < MAXARGS)%nat
  | REDIR c file mode fd => wf c /\ wf_redir (file, mode, fd)
  | PIPE l r | LIST l r => wf l /\ wf r
  | BACK c => wf c
  end.
Definition words (argv : list (list Z)) : list Z := concat (map (fun w => w ++ [32]) argv).
Definition pr_redir (r : redir) : list Z := (if decide (r.1.2 = O_RDONLY) then LT else GT) :: r.1.1 ++ [32].
Definition paren (b : bool) (s : list Z) : list Z := if b then [LPAR] ++ s ++ [RPAR] else s.
(** Level 0 is what parseexec reads, 1 parsepipe, 2 parseline up to the
    ampersands, 3 parseline. *)
Fixpoint pr (lvl : nat) (c : cmd (list Z)) : list Z :=
  match c with
  | EXEC argv => words argv
  | REDIR c file mode fd => pr 0 c ++ pr_redir (file, mode, fd)
  | PIPE l r => paren (bool_decide (lvl < 1)%nat) (pr 0 l ++ [BAR] ++ pr 1 r)
  | BACK c => paren (bool_decide (lvl < 2)%nat) (pr 2 c ++ [AMP])
  | LIST l r => paren (bool_decide (lvl < 3)%nat) (pr 2 l ++ [SEMI] ++ pr 3 r)
  end.
Definition pr_redirs (rs : list redir) : list Z := concat (map pr_redir rs).
Definition wrap {T} (c : cmd T) (rs : list (T * Z * Z)) : cmd T := foldl (fun c r => REDIR c r.1.1 r.1.2 r.2) c rs.

(** ** Cursors *)

Definition nospace (s : list Z) : Prop := skip_space s = s.
(** What ends a command: the end of the line or one of [toks]. *)
Definition stop (toks k : list Z) : Prop := match k with [] => True | c :: _ => c ∈ toks end.
Definition head_in (toks s : list Z) : bool := match s with c :: _ => bool_decide (c ∈ toks) | [] => false end.
Lemma nospace_cons c s : ~ c ∈ whitespace -> nospace (c :: s).
Proof. intros H. unfold nospace. simpl. by rewrite decide_False. Qed.
Lemma peek_at toks s : nospace s -> peek toks s = Done (head_in toks s) s.
Proof. unfold nospace, peek. intros ->. by destruct s. Qed.
Lemma stop_nospace toks k : stop toks k -> (forall c, c ∈ toks -> ~ c ∈ whitespace) -> nospace k.
Proof. destruct k as [|c k]; [done|]. intros H Hn. by apply nospace_cons, Hn. Qed.
Lemma word_cons w : word w -> exists c w', w = c :: w' /\ word_char c.
Proof. intros [H0 Hw]. destruct w as [|c w]; [done|]. inversion Hw; subst. naive_solver. Qed.
Lemma skip_word_app w k : Forall word_char w -> skip_word (w ++ 32 :: k) = 32 :: k.
Proof. induction 1 as [|c w Hc _ IH]; simpl; [done|]. by rewrite decide_True. Qed.
Lemma gettoken_word w k :
  word w -> nospace k -> gettoken (w ++ 32 :: k) = Done (TWord, Token (w ++ 32 :: k) (32 :: k)) k.
Proof.
  intros Hw Hk. destruct (word_cons w Hw) as (c & w' & -> & Hc). destruct Hw as [_ Hw]. unfold gettoken.
  assert (E : skip_space ((c :: w') ++ 32 :: k) = (c :: w') ++ 32 :: k) by (apply nospace_cons, Hc). rewrite E. cbn [app].
  destruct Hc as [Hc1 Hc2]. unfold symbols in Hc2. rewrite decide_False by set_solver. rewrite decide_False by set_solver.
  change (c :: w' ++ 32 :: k) with ((c :: w') ++ 32 :: k). rewrite skip_word_app by (eapply Forall_impl; [exact Hw|by intros ? [? _]]).
  simpl skip_space. by rewrite Hk.
Qed.
Lemma symbol_not_space c : c ∈ symbols -> ~ c ∈ whitespace.
Proof. revert c. rewrite <- Forall_forall. apply (bool_decide_unpack _). by vm_compute. Qed.
Lemma gettoken_sym c k :
  c ∈ [BAR; LPAR; RPAR; SEMI; AMP; LT] \/ c = GT /\ head_in [GT] k = false -> nospace k ->
  gettoken (c :: k) = Done (TSym c, Token (c :: k) k) k.
Proof.
  intros Hc Hk. assert (E : nospace (c :: k)).
  { apply nospace_cons, symbol_not_space. unfold symbols. destruct Hc as [Hc|[-> _]]; set_solver. }
  unfold nospace in *. unfold gettoken. cbv zeta. rewrite !E. destruct (decide (c ∈ _)) as [Hs|Hs]; [by rewrite Hk|].
  destruct Hc as [?|[-> Hg]]; [done|]. rewrite decide_True by done.
  destruct k as [|d k]; [done|]. apply bool_decide_eq_false in Hg. rewrite decide_False by set_solver. by rewrite Hk.
Qed.

(** ** Reading what was printed *)

Definition reads (r : outcome (cmd token)) (c : cmd (list Z)) (k : list Z) : Prop :=
  exists c', r = Done c' k /\ cmd_map text c' = c.
Lemma reads_bind (p : parser (cmd token)) f s c s1 d k :
  reads (p s) c s1 -> (forall c', cmd_map text c' = c -> reads (f c' s1) d k) -> reads ((p ≫= f) s) d k.
Proof. intros (c' & E & Hc) H. unfold mbind, parser_bind. rewrite E. by apply H. Qed.
Lemma bind_done {A B} (p : parser A) (f : A -> parser B) s a s' : p s = Done a s' -> (p ≫= f) s = f a s'.
Proof. unfold mbind, parser_bind. by intros ->. Qed.
Lemma set_arg_map t c : cmd_map text (set_arg t c) = set_arg (text t) (cmd_map text c).
Proof. induction c; simpl; try done; [by rewrite fmap_app|congruence]. Qed.
Lemma word_head toks w k : word w -> (forall c, c ∈ toks -> c ∈ symbols) -> head_in toks (w ++ k) = false.
Proof.
  intros Hw Ht. destruct (word_cons w Hw) as (c & w' & -> & [_ Hc]). simpl. apply bool_decide_eq_false. intros H. by apply Hc, Ht.
Qed.
Lemma nospace_word w k : word w -> nospace (w ++ k).
Proof. intros Hw. destruct (word_cons w Hw) as (c & w' & -> & [Hc _]). by apply nospace_cons. Qed.
Lemma nospace_redirs rs k : Forall wf_redir rs -> nospace k -> nospace (pr_redirs rs ++ k).
Proof.
  intros [|r rs' Hr _] Hk; [done|]. apply nospace_cons, symbol_not_space. unfold symbols. case_decide; set_solver.
Qed.
Lemma nospace_words ws k : Forall word ws -> nospace k -> nospace (words ws ++ k).
Proof. intros [|w ws' Hw _] Hk; [done|]. unfold words. simpl. rewrite <- !app_assoc. by apply nospace_word. Qed.
Lemma parseredirs_reads fuel : forall rs c k,
  Forall wf_redir rs -> nospace k -> head_in [LT; GT] k = false -> (length rs < fuel)%nat ->
  reads (parseredirs_loop fuel c (pr_redirs rs ++ k)) (wrap (cmd_map text c) rs) k.
Proof.
  induction fuel as [|fuel IH]; intros rs c k Hrs Hk Hh Hf; [lia|]. cbn [parseredirs_loop].
  erewrite bind_done by (apply peek_at, nospace_redirs; done). destruct Hrs as [|[[f m] fd] rs Hr Hrs].
  - change (pr_redirs [] ++ k) with k. rewrite Hh. by exists c.
  - destruct Hr as [Hw Hm]. cbn [fst snd] in *. assert (Hn : nospace (pr_redirs rs ++ k)) by (by apply nospace_redirs).
    assert (E : pr_redirs ((f, m, fd) :: rs) ++ k = (if decide (m = O_RDONLY) then LT else GT) :: f ++ 32 :: pr_redirs rs ++ k).
    { unfold pr_redirs. simpl. by rewrite <- !app_assoc. }
    rewrite E. assert (head_in [LT; GT] ((if decide (m = O_RDONLY) then LT else GT) :: f ++ 32 :: pr_redirs rs ++ k) = true) as ->
      by (case_decide; apply bool_decide_eq_true; set_solver).
    assert (Hg : head_in [GT] (f ++ 32 :: pr_redirs rs ++ k) = false) by (apply word_head; [done|unfold symbols; set_solver]).
    erewrite bind_done by (apply gettoken_sym; [case_decide; [left; set_solver|by right]|by apply nospace_word]).
    erewrite bind_done by (by apply gettoken_word). cbn [fst snd]. destruct (decide (TWord <> TWord)) as [|_]; [done|].
    simpl in Hf. destruct Hm as [[-> ->]|[-> ->]].
    + destruct (IH rs (REDIR c (Token (f ++ 32 :: pr_redirs rs ++ k) (32 :: pr_redirs rs ++ k)) O_RDONLY 0) k) as (c' & Ec & Hc); try done; [lia|].
      exists c'. split; [exact Ec|]. rewrite Hc. simpl. by rewrite text_app.
    + destruct (IH rs (REDIR c (Token (f ++ 32 :: pr_redirs rs ++ k) (32 :: pr_redirs rs ++ k)) (Z.lor O_WRONLY O_CREATE) 1) k) as (c' & Ec & Hc); try done; [lia|].
      exists c'. split; [exact Ec|]. rewrite Hc. simpl. by rewrite text_app.
Qed.
Lemma redirs_length rs : (length rs <= length (pr_redirs rs))%nat.
Proof. induction rs as [|r rs IH]; [done|]. unfold pr_redirs in *. simpl. rewrite !length_app. lia. Qed.
Lemma parseredirs_at rs c k :
  Forall wf_redir rs -> nospace k -> head_in [LT; GT] k = false ->
  reads (parseredirs c (pr_redirs rs ++ k)) (wrap (cmd_map text c) rs) k.
Proof. intros. apply parseredirs_reads; try done. rewrite length_app. pose proof (redirs_length rs). lia. Qed.
Definition TERMS : list Z := [BAR; RPAR; AMP; SEMI].
Lemma stop_heads toks k : stop toks k -> (forall c, c ∈ toks -> c ∈ TERMS) -> nospace k /\ head_in [LT; GT] k = false /\ head_in [LPAR] k = false.
Proof.
  intros Hk Ht. split; [eapply stop_nospace; [exact Hk|]; intros c Hc%Ht; apply symbol_not_space; unfold TERMS, symbols in *; set_solver|].
  destruct k as [|c k]; [done|]. apply Ht in Hk. clear Ht. revert c Hk. unfold head_in.
  assert (H : Forall (fun c => bool_decide (c ∈ [LT; GT]) = false /\ bool_decide (c ∈ [LPAR]) = false) TERMS) by (repeat constructor).
  by rewrite Forall_forall in H.
Qed.
Lemma words_cons w ws k : words (w :: ws) ++ k = w ++ 32 :: words ws ++ k.
Proof. unfold words. simpl. by rewrite <- !app_assoc. Qed.
Lemma parseargs_reads args : forall fuel argc c rs k,
  Forall word args -> Forall wf_redir rs -> stop TERMS k -> args <> [] \/ rs = [] ->
  (argc + length args < MAXARGS)%nat -> (length args < fuel)%nat ->
  reads (parseargs fuel argc c (words args ++ pr_redirs rs ++ k)) (wrap (foldl (fun c w => set_arg w c) (cmd_map text c) args) rs) k.
Proof.
  induction args as [|w args IH]; intros [|fuel] argc c rs k Hw Hrs Hk Hne Hm Hf; simpl in Hf; try lia;
    destruct (stop_heads TERMS k Hk) as (Hn & Hh & _); try done; cbn [parseargs].
  - destruct Hne as [| ->]; [done|]. change (words [] ++ pr_redirs [] ++ k) with k. erewrite bind_done by (by apply peek_at). destruct k as [|d k].
    + simpl. by exists c.
    + simpl in Hk. unfold head_in. rewrite bool_decide_eq_true_2 by done. by exists c.
  - inversion Hw as [|? ? Hw1 Hws]; subst.
    assert (Hn' : nospace (words args ++ pr_redirs rs ++ k)) by (apply nospace_words; [done|by apply nospace_redirs]).
    rewrite words_cons. erewrite bind_done by (apply peek_at; by apply nospace_word). rewrite word_head; [|done|unfold symbols; set_solver].
    erewrite bind_done by (by apply gettoken_word). cbn [fst snd]. destruct (decide (TWord = TEnd)); [done|].
    destruct (decide (TWord <> TWord)); [done|]. cbv zeta. destruct (decide (MAXARGS <= S argc)%nat); [simpl in Hm; lia|].
    set (c1 := set_arg _ c). assert (Ec1 : cmd_map text c1 = set_arg w (cmd_map text c)) by (unfold c1; by rewrite set_arg_map, text_app).
    simpl in Hm. destruct args as [|w2 args].
    + eapply reads_bind; [by apply parseredirs_at|]. intros c' Hc'.
      destruct (IH fuel (S argc) c' [] k) as (c2 & E2 & H2); [constructor|constructor|done|by right|simpl; lia|simpl; lia|].
      exists c2. split; [exact E2|]. rewrite H2. simpl. by rewrite Hc', Ec1.
    + eapply reads_bind; [apply (parseredirs_at [] c1); [constructor|done|]|].
      { inversion Hws; subst. rewrite words_cons. apply word_head; [done|unfold symbols; set_solver]. }
      intros c' Hc'. destruct (IH fuel (S argc) c' rs k) as (c2 & E2 & H2); [done|done|done|by left|simpl in *; lia|simpl in *; lia|].
      exists c2. split; [exact E2|]. rewrite H2. simpl foldl. simpl in Hc'. by rewrite Hc', Ec1.
Qed.
Lemma argv_length args : (length args <= length (words args))%nat.
Proof. induction args as [|w ws IH]; [done|]. unfold words in *. simpl. rewrite !length_app. simpl. lia. Qed.
Lemma set_args argv0 args : foldl (fun (c : cmd (list Z)) w => set_arg w c) (EXEC argv0) args = EXEC (argv0 ++ args).
Proof. revert argv0. induction args as [|w args IH]; intros argv0; simpl; [by rewrite app_nil_r|]. rewrite IH. by rewrite <- app_assoc. Qed.

(** ** The levels *)

Definition LINE_END : list Z := [RPAR].
Definition BACK_END : list Z := [RPAR; SEMI].
Definition PIPE_END : list Z := [RPAR; AMP; SEMI].
Definition backs (c : cmd (list Z)) (j : nat) : cmd (list Z) := Nat.iter j BACK c.
(** A command printed at each level is read by the function of that level; at
    level 0 with redirections after it, at level 2 with ampersands. *)
Definition reads0 (c : cmd (list Z)) : Prop := forall fuel rs k,
  stop TERMS k -> Forall wf_redir rs -> (4 * length (pr 0 c ++ pr_redirs rs ++ k) + 2 <= fuel)%nat ->
  reads (parseexec fuel (pr 0 c ++ pr_redirs rs ++ k)) (wrap c rs) k.
Definition reads1 (c : cmd (list Z)) : Prop := forall fuel k,
  stop PIPE_END k -> (4 * length (pr 1 c ++ k) + 3 <= fuel)%nat -> reads (parsepipe fuel (pr 1 c ++ k)) c k.
Definition reads2 (c : cmd (list Z)) : Prop := forall fuel j k,
  stop BACK_END k -> (4 * length (pr 2 c ++ replicate j AMP ++ k) + 3 <= fuel)%nat ->
  reads ((c ← parsepipe fuel; looping (fun fuel => parseback fuel c)) (pr 2 c ++ replicate j AMP ++ k)) (backs c j) k.
Definition reads3 (c : cmd (list Z)) : Prop := forall fuel k,
  stop LINE_END k -> (4 * length (pr 3 c ++ k) + 4 <= fuel)%nat -> reads (parseline fuel (pr 3 c ++ k)) c k.

Lemma nospace_sym c k : c ∈ symbols -> nospace (c :: k).
Proof. intros. by apply nospace_cons, symbol_not_space. Qed.
Lemma nospace_pr c : forall lvl k, wf c -> nospace k -> nospace (pr lvl c ++ k).
Proof.
  induction c as [argv|c IH file mode fd|l IHl r IHr|l IHl r IHr|c IH]; intros lvl k Hw Hk; simpl.
  - apply nospace_words; [apply Hw|done].
  - rewrite <- app_assoc. apply IH; [apply Hw|]. apply nospace_sym. unfold symbols. case_decide; set_solver.
  - case_bool_decide; simpl; [by apply nospace_sym; unfold symbols; set_solver|]. rewrite <- app_assoc. apply IHl; [apply Hw|].
    by apply nospace_sym; unfold symbols; set_solver.
  - case_bool_decide; simpl; [by apply nospace_sym; unfold symbols; set_solver|]. rewrite <- app_assoc. apply IHl; [apply Hw|].
    by apply nospace_sym; unfold symbols; set_solver.
  - case_bool_decide; simpl; [by apply nospace_sym; unfold symbols; set_solver|]. rewrite <- app_assoc. apply IH; [apply Hw|].
    by apply nospace_sym; unfold symbols; set_solver.
Qed.
Lemma stop_weaken toks toks' k : stop toks k -> (forall c, c ∈ toks -> c ∈ toks') -> stop toks' k.
Proof. destruct k; simpl; eauto. Qed.
(** peek at what ends a command. *)
Lemma peek_stop toks toks' k :
  stop toks k -> (forall c, c ∈ toks -> c ∈ symbols /\ ~ c ∈ toks') -> peek toks' k = Done false k.
Proof.
  intros Hk Ht. rewrite peek_at by (eapply stop_nospace; [exact Hk|]; intros c Hc; by apply symbol_not_space, Ht).
  destruct k as [|c k]; [done|]. simpl. rewrite bool_decide_eq_false_2; [done|]. by apply Ht.
Qed.
Lemma peek_sym toks c k : c ∈ symbols -> c ∈ toks -> peek toks (c :: k) = Done true (c :: k).
Proof. intros H Ht. rewrite peek_at by (by apply nospace_sym). simpl. by rewrite bool_decide_eq_true_2. Qed.
(** Membership in the concrete lists of symbols. *)
Ltac syms := try rewrite <- Forall_forall; apply (bool_decide_unpack _); vm_compute; exact I.
Lemma level1 c : wf c -> pr 1 c = pr 0 c -> reads0 c -> reads1 c.
Proof.
  intros Hw E H [|fuel] k Hk Hf; [lia|]. rewrite E in *. cbn [parsepipe].
  eapply reads_bind; [apply (H fuel [] k); [eapply stop_weaken; [exact Hk|syms]|constructor|simpl; lia]|].
  intros c' Hc'. erewrite bind_done by (eapply peek_stop; [exact Hk|syms]). by exists c'.
Qed.
Lemma parseback_reads j : forall fuel c k,
  stop BACK_END k -> (j < fuel)%nat -> reads (parseback fuel c (replicate j AMP ++ k)) (backs (cmd_map text c) j) k.
Proof.
  induction j as [|j IH]; intros [|fuel] c k Hk Hf; try lia; cbn [parseback replicate app].
  - erewrite bind_done by (eapply peek_stop; [exact Hk|syms]). by exists c.
  - erewrite bind_done by (apply peek_sym; syms). cbv iota.
    assert (Hn : nospace (replicate j AMP ++ k)).
    { destruct j; [|apply nospace_sym; syms]. eapply stop_nospace; [exact Hk|syms]. }
    erewrite bind_done by (apply gettoken_sym; [left; syms|exact Hn]).
    destruct (IH fuel (BACK c) k) as (c' & E & Hc'); [done|lia|]. exists c'. split; [exact E|]. rewrite Hc'.
    unfold backs. simpl cmd_map. by rewrite Nat.iter_succ_r.
Qed.
Lemma level2 c : wf c -> pr 2 c = pr 1 c -> reads1 c -> reads2 c.
Proof.
  intros Hw E H fuel j k Hk Hf. rewrite E in *. eapply reads_bind; [apply (H fuel)|].
  - destruct j; [eapply stop_weaken; [exact Hk|syms]|]. simpl. syms.
  - lia.
  - intros c' <-. apply parseback_reads; [done|]. rewrite length_app, length_replicate. lia.
Qed.
(** A line: the part up to the ampersands, then the rest. *)
Lemma parseline_step fuel : parseline (S fuel) =
  (c ← parsepipe fuel;
   c ← looping (fun fuel => parseback fuel c);
   b ← peek [SEMI];
   if b : bool then _ ← gettoken; r ← parseline fuel; mret (LIST c r) else mret c).
Proof. done. Qed.
Lemma bind_assoc {A B C} (p : parser A) (f : A -> parser B) (g : B -> parser C) s :
  (p ≫= fun a => f a ≫= g) s = ((p ≫= f) ≫= g) s.
Proof. unfold mbind, parser_bind. by destruct (p s). Qed.
Lemma parseline_reads fuel c s k d k' :
  reads ((c ← parsepipe fuel; looping (fun fuel => parseback fuel c)) s) c k ->
  (forall c', cmd_map text c' = c ->
     reads ((b ← peek [SEMI]; if b : bool then _ ← gettoken; r ← parseline fuel; mret (LIST c' r) else mret c') k) d k') ->
  reads (parseline (S fuel) s) d k'.
Proof. intros H1 H2. rewrite parseline_step, bind_assoc. eapply reads_bind; [exact H1|exact H2]. Qed.
Lemma level3 c : wf c -> pr 3 c = pr 2 c -> reads2 c -> reads3 c.
Proof.
  intros Hw E H [|fuel] k Hk Hf; [lia|]. rewrite E in *.
  eapply parseline_reads; [apply (H fuel 0%nat k); [eapply stop_weaken; [exact Hk|syms]|simpl; lia]|].
  intros c' Hc'. erewrite bind_done by (eapply peek_stop; [exact Hk|syms]). by exists c'.
Qed.
(** A block in parentheses. *)
Lemma level0 c : wf c -> pr 0 c = [LPAR] ++ pr 3 c ++ [RPAR] -> reads3 c -> reads0 c.
Proof.
  intros Hw E H fuel rs k Hk Hrs Hf. rewrite E in *. destruct fuel as [|[|fuel]]; [lia|lia|].
  destruct (stop_heads TERMS k Hk) as (Hn & Hh & _); [done|].
  assert (E' : ([LPAR] ++ pr 3 c ++ [RPAR]) ++ pr_redirs rs ++ k = LPAR :: pr 3 c ++ RPAR :: pr_redirs rs ++ k) by (simpl; by rewrite <- app_assoc).
  rewrite E' in *. simpl length in Hf. cbn [parseexec]. erewrite bind_done by (apply peek_sym; syms). cbv iota. cbn [parseblock].
  erewrite bind_done by (apply peek_sym; syms). cbv beta iota delta [negb].
  erewrite bind_done by (apply gettoken_sym; [left; syms|apply nospace_pr; [done|apply nospace_sym; syms]]).
  eapply reads_bind; [apply (H fuel); [simpl; syms|lia]|]. intros c' <-.
  erewrite bind_done by (apply peek_sym; syms). cbv beta iota delta [negb].
  erewrite bind_done by (apply gettoken_sym; [left; syms|by apply nospace_redirs]). by apply parseredirs_at.
Qed.
Lemma exec_reads argv : wf (EXEC argv) -> reads0 (EXEC argv).
Proof.
  intros [Hargs Hlen] [|fuel] rs k Hk Hrs Hf; [lia|]. destruct (stop_heads TERMS k Hk) as (Hn & Hh & Hp); [done|].
  simpl pr in *. cbn [parseexec].
  assert (Hns : nospace (words argv ++ pr_redirs rs ++ k)) by (apply nospace_words; [done|by apply nospace_redirs]).
  assert (Hlp : head_in [LPAR] (words argv ++ pr_redirs rs ++ k) = false).
  { destruct Hargs as [|w ws Hw1 _]; [|rewrite words_cons; apply word_head; [done|syms]].
    destruct Hrs as [|r rs _ _]; [done|]. simpl. apply bool_decide_eq_false_2. case_decide; syms. }
  erewrite bind_done by (by apply peek_at). rewrite Hlp. pose proof (argv_length argv) as Lw. destruct argv as [|w ws].
  - eapply reads_bind; [by apply parseredirs_at|]. intros c' Hc'.
    destruct (parseargs_reads [] (S (length k)) 0 c' [] k) as (c2 & E2 & H2); [constructor|constructor|done|by right|simpl; lia|simpl; lia|].
    exists c2. split; [exact E2|]. rewrite H2. simpl. exact Hc'.
  - eapply reads_bind; [apply (parseredirs_at [] (EXEC [])); [constructor|done|]|].
    { inversion Hargs; subst. rewrite words_cons. apply word_head; [done|syms]. }
    intros c' Hc'. set (s := words (w :: ws) ++ pr_redirs rs ++ k) in *.
    destruct (parseargs_reads (w :: ws) (S (length s)) 0 c' rs k) as (c2 & E2 & H2); try done; [by left|unfold s; rewrite length_app; lia|].
    exists c2. split; [exact E2|]. rewrite H2, Hc'. f_equal. apply (set_args [] (w :: ws)).
Qed.
Lemma redir_reads c file mode fd : wf_redir (file, mode, fd) -> reads0 c -> reads0 (REDIR c file mode fd).
Proof.
  intros Hr R0 fuel rs k Hk Hrs Hf. simpl pr in *. rewrite <- app_assoc in *.
  assert (E : pr_redir (file, mode, fd) ++ pr_redirs rs ++ k = pr_redirs ((file, mode, fd) :: rs) ++ k) by (unfold pr_redirs; simpl; by rewrite <- !app_assoc).
  rewrite E in *. apply (R0 fuel ((file, mode, fd) :: rs) k); [done|by constructor|done].
Qed.
Lemma pipe_reads l r : wf r -> reads0 l -> reads1 r -> reads1 (PIPE l r).
Proof.
  intros Hr Rl Rr [|fuel] k Hk Hf; [lia|]. simpl pr in *. unfold paren in *. simpl in Hf |- *. rewrite <- app_assoc in *. simpl in Hf |- *.
  destruct (stop_heads PIPE_END k Hk) as (Hn & _); [syms|]. rewrite length_app in Hf. simpl length in Hf.
  eapply reads_bind; [apply (Rl fuel [] (BAR :: pr 1 r ++ k)); [simpl; syms|constructor|]|].
  { simpl. rewrite length_app. simpl. lia. }
  intros c' Hc'. erewrite bind_done by (apply peek_sym; syms). cbv iota.
  erewrite bind_done by (apply gettoken_sym; [left; syms|by apply nospace_pr]).
  eapply reads_bind; [apply (Rr fuel); [done|lia]|]. intros c2 Hc2. exists (PIPE c' c2). split; [done|]. simpl. by rewrite Hc', Hc2.
Qed.
Lemma list_reads l r : wf r -> reads2 l -> reads3 r -> reads3 (LIST l r).
Proof.
  intros Hr Rl Rr [|fuel] k Hk Hf; [lia|]. simpl pr in *. unfold paren in *. simpl in Hf |- *. rewrite <- app_assoc in *. simpl in Hf |- *.
  destruct (stop_heads LINE_END k Hk) as (Hn & _); [syms|]. rewrite length_app in Hf. simpl length in Hf.
  eapply parseline_reads; [apply (Rl fuel 0%nat (SEMI :: pr 3 r ++ k)); [simpl; syms|]|].
  { simpl. rewrite length_app. simpl. lia. }
  intros c' Hc'. erewrite bind_done by (apply peek_sym; syms). cbv iota.
  erewrite bind_done by (apply gettoken_sym; [left; syms|by apply nospace_pr]).
  eapply reads_bind; [apply (Rr fuel); [done|lia]|]. intros c2 Hc2. exists (LIST c' c2). split; [done|]. simpl. by rewrite Hc', Hc2.
Qed.
Lemma back_reads c : reads2 c -> reads2 (BACK c).
Proof.
  intros R fuel j k Hk Hf. simpl pr in *. unfold paren in *. simpl bool_decide in *. cbv iota in *. rewrite <- app_assoc in *.
  specialize (R fuel (S j) k Hk Hf). unfold backs in *. by rewrite Nat.iter_succ_r in R.
Qed.
Lemma levels c : wf c -> reads0 c /\ reads1 c /\ reads2 c /\ reads3 c.
Proof.
  assert (Up : forall c, wf c -> pr 1 c = pr 0 c -> pr 2 c = pr 1 c -> pr 3 c = pr 2 c -> reads0 c -> reads0 c /\ reads1 c /\ reads2 c /\ reads3 c).
  { intros d Hd E1 E2 E3 R0. pose proof (level1 _ Hd E1 R0) as R1. pose proof (level2 _ Hd E2 R1) as R2. pose proof (level3 _ Hd E3 R2). done. }
  induction c as [argv|c IH file mode fd|l IHl r IHr|l IHl r IHr|c IH]; intros Hw.
  - apply Up; try done. by apply exec_reads.
  - apply Up; try done. apply redir_reads; [apply Hw|by apply IH, Hw].
  - assert (R1 : reads1 (PIPE l r)) by (apply pipe_reads; [apply Hw|apply IHl, Hw|apply IHr, Hw]).
    pose proof (level2 _ Hw eq_refl R1) as R2. pose proof (level3 _ Hw eq_refl R2) as R3. split_and!; try done. by apply level0.
  - assert (R3 : reads3 (LIST l r)) by (apply list_reads; [apply Hw|apply IHl, Hw|apply IHr, Hw]).
    pose proof (level0 _ Hw eq_refl R3) as R0. pose proof (level1 _ Hw eq_refl R0) as R1. split_and!; try done. by apply level2.
  - assert (R2 : reads2 (BACK c)) by (apply back_reads, IH, Hw).
    pose proof (level3 _ Hw eq_refl R2) as R3. pose proof (level0 _ Hw eq_refl R3) as R0. split_and!; try done. by apply level1.
Qed.
Lemma pr_no_nul c : forall lvl, wf c -> Forall (fun x => x <> 0) (pr lvl c).
Proof.
  assert (W : forall w, word w -> Forall (fun x => x <> 0) w) by (intros w [_ H]; eapply Forall_impl; [exact H|by intros ? [_ ?]]).
  assert (P : forall b s, Forall (fun x => x <> 0) s -> Forall (fun x => x <> 0) (paren b s)).
  { intros [] s H; simpl; [|done]. constructor; [done|]. apply Forall_app. split; [done|]. by repeat constructor. }
  induction c as [argv|c IH file mode fd|l IHl r IHr|l IHl r IHr|c IH]; intros lvl Hw; simpl.
  - destruct Hw as [Hw _]. induction Hw as [|w ws Hw _ IH]; [constructor|]. unfold words. simpl. rewrite !Forall_app. split; [|done].
    split; [by apply W|by repeat constructor].
  - destruct Hw as [Hw [Hf _]]. apply Forall_app. split; [by apply IH|]. constructor; [by case_decide|]. apply Forall_app.
    split; [by apply W|by repeat constructor].
  - apply P, Forall_app. split; [by apply IHl, Hw|]. constructor; [done|]. by apply IHr, Hw.
  - apply P, Forall_app. split; [by apply IHl, Hw|]. constructor; [done|]. by apply IHr, Hw.
  - apply P, Forall_app. split; [by apply IH|]. by repeat constructor.
Qed.

(** C10: round trip of the shell's grammar: a command of any shape (pipelines,
    lists, background jobs, blocks, redirections, up to nine arguments each),
    printed with the parentheses it needs, parses back to the same command, with
    every argument and file name cut out of the line as its own string. *)
Theorem parse_print_roundtrip c : wf c -> parsecmd (pr 3 c) = Done c [].
Proof.
  intros Hw. destruct (levels c Hw) as (_ & _ & _ & R3).
  destruct (R3 (enough (pr 3 c)) []) as (c' & E & Hc'); [done|unfold enough; rewrite app_nil_r; lia|]. rewrite app_nil_r in E.
  rewrite (parsecmd_tree _ c'); [by rewrite Hc'|by apply pr_no_nul|]. unfold tree. by erewrite bind_done by exact E.
Qed.
(** [( ls x | grep k > f & ) < g ; wc] *)
Definition example_cmd : cmd (list Z) :=
  LIST (REDIR (BACK (PIPE (EXEC [[108; 115]; [120]]) (REDIR (EXEC [[103; 114; 101; 112]; [107]]) [102] 513 1))) [103] 0 0)
       (EXEC [[119; 99]]).
Lemma parse_print_roundtrip_witness :
  parsecmd [40; 108; 115; 32; 120; 32; 124; 103; 114; 101; 112; 32; 107; 32; 62; 102; 32; 38; 41; 60; 103; 32; 59; 119; 99; 32]
  = Done example_cmd [].
Proof.
  apply (parse_print_roundtrip example_cmd).
  assert (W : forall ws, Forall (fun w => w <> [] /\ Forall (fun c => word_char c /\ c <> 0) w) ws -> Forall word ws) by done.
  split; [split; [split|]|]; [split; [apply W|vm_compute; lia]|split; [split; [apply W|vm_compute; lia]|]| |split; [apply W|vm_compute; lia]].
  all: apply (bool_decide_unpack _); vm_compute; exact I.
Defined.
