(* ===== verification/ShellRun.v ===== *)
(** The shell (sh.c): how a parsed command runs, the main loop and the history
    file.

    A process of the shell is the tree of the system calls it makes: runcmd
    never returns, so the branch of the child of a fork is all of that child. *)
From S2P Require Import Prelude Shell.

Inductive prog : Type :=
| Exit
| Exec (path : list Z) (argv : list (list Z)) (failed : prog)
| Print (fd : Z) (msg : list Z) (k : prog)
| Close (fd : nat) (k : prog)
| Dup (fd : nat) (k : prog)
| Open (file : list Z) (mode : Z) (k : bool -> prog)
| Pipe (k : option (nat * nat) -> prog)
| Fork (child parent : prog) (failed : prog)
| Wait (k : prog).

(** The text of an ASCII literal. *)
Definition ascii (s : string) : list Z := (fun c => Z.of_nat (Ascii.nat_of_ascii c)) <$> String.list_ascii_of_string s.
Definition SLASH : Z := 47.
(** [path[]] *)
Definition path : list (list Z) := [ascii "/"; ascii "/bin"].
(** panic: the message, a newline, exit. *)
Definition panic_ (s : string) : prog := Print 2 (ascii s ++ [NEWLINE]) Exit.
Definition fork1 (child parent : prog) : prog := Fork child parent (panic_ "fork").
Definition exec_failed (name : list Z) : prog := Print 2 (ascii "exec " ++ name ++ ascii " failed" ++ [NEWLINE]) Exit.
(** [buf]: a directory of the path, a slash unless it ends in one, the name. *)
Definition path_file (dir name : list Z) : list Z :=
  (if bool_decide (dir <> [] /\ last dir <> Some SLASH) then dir ++ [SLASH] else dir) ++ name.
Fixpoint exec_path (dirs : list (list Z)) (argv : list (list Z)) (name : list Z) : prog :=
  match dirs with
  | [] => exec_failed name
  | dir :: dirs => Exec (path_file dir name) argv (exec_path dirs argv name)
  end.
Fixpoint runcmd (c : cmd (list Z)) : prog :=
  match c with
  | EXEC [] => Exit
  | EXEC (name :: args) =>
      if decide (SLASH ∈ name) then Exec name (name :: args) (exec_failed name)
      else exec_path path (name :: args) name
  | REDIR c file mode fd =>
      Close (Z.to_nat fd) (Open file mode (fun ok =>
        if ok then runcmd c else Print 2 (ascii "open " ++ file ++ ascii " failed" ++ [NEWLINE]) Exit))
  | LIST l r => fork1 (runcmd l) (Wait (runcmd r))
  | PIPE l r =>
      Pipe (fun p => match p with
        | None => panic_ "pipe"
        | Some (p0, p1) =>
            fork1 (Close 1 (Dup p1 (Close p0 (Close p1 (runcmd l)))))
           (fork1 (Close 0 (Dup p0 (Close p0 (Close p1 (runcmd r)))))
            (Close p0 (Close p1 (Wait (Wait Exit)))))
        end)
  | BACK c => fork1 (runcmd c) Exit
  end.

(** ** The kernel's side *)

(** What a descriptor is open on. *)
Inductive desc : Type := Inherited (n : nat) | OpenFile (file : list Z) (mode : Z) | PipeRead (id : nat) | PipeWrite (id : nat).
Abbreviation table := (gmap nat desc).
Definition NOFILE : nat := 16.
(** The descriptor that open, dup and pipe take: the lowest that is free. *)
Definition lowest (fds : table) : option nat := find (fun fd => bool_decide (fds !! fd = None)) (seq 0 NOFILE).
(** A process that called exec: the program, its arguments and descriptors. *)
Record started : Type := Started { sprog : list Z; sargv : list (list Z); sfds : table }.

Section launch.
(** Which programs exist, and which files can be opened in a mode. *)
Context (exists_ : list Z -> bool) (opens : list Z -> Z -> bool).
(** The processes that a process of the shell with the descriptors [fds] becomes
    and starts, when fork succeeds; [next] numbers the pipes. *)
Fixpoint launch (p : prog) (fds : table) (next : nat) : list started * nat :=
  match p with
  | Exit => ([], next)
  | Exec file argv failed => if exists_ file then ([Started file argv fds], next) else launch failed fds next
  | Print _ _ k => launch k fds next
  | Close fd k => launch k (delete fd fds) next
  | Dup fd k =>
      match fds !! fd, lowest fds with
      | Some d, Some fd' => launch k (<[fd' := d]> fds) next
      | _, _ => launch k fds next
      end
  | Open file mode k =>
      match opens file mode, lowest fds with
      | true, Some fd => launch (k true) (<[fd := OpenFile file mode]> fds) next
      | _, _ => launch (k false) fds next
      end
  | Pipe k =>
      match lowest fds with
      | Some p0 =>
          let fds0 := <[p0 := PipeRead next]> fds in
          match lowest fds0 with
          | Some p1 => launch (k (Some (p0, p1))) (<[p1 := PipeWrite next]> fds0) (S next)
          | None => launch (k None) fds next
          end
      | None => launch (k None) fds next
      end
  | Fork child parent _ =>
      let r1 := launch child fds next in
      let r2 := launch parent fds r1.2 in
      (r1.1 ++ r2.1, r2.2)
  | Wait k => launch k fds next
  end.

(** ** What a command means *)

(** Standard input, output and error. *)
Record stdio : Type := Stdio { in_ : desc; out_ : desc; err_ : desc }.
Definition table_of (io : stdio) : table := <[0%nat := in_ io]> (<[1%nat := out_ io]> {[2%nat := err_ io]}).
Definition set_io (fd : Z) (d : desc) (io : stdio) : stdio :=
  if decide (fd = 0) then Stdio d (out_ io) (err_ io) else Stdio (in_ io) d (err_ io).
(** The file that a name stands for. *)
Definition program (name : list Z) : option (list Z) :=
  if decide (SLASH ∈ name) then (if exists_ name then Some name else None)
  else find exists_ [SLASH :: name; ascii "/bin/" ++ name].
(** The programs a command starts, with their standard descriptors; [next] numbers the
    pipes from the left. *)
Fixpoint meaning (c : cmd (list Z)) (io : stdio) (next : nat) : list (list Z * list (list Z) * stdio) * nat :=
  match c with
  | EXEC [] => ([], next)
  | EXEC (name :: args) => (match program name with Some f => [(f, name :: args, io)] | None => [] end, next)
  | REDIR c file mode fd => if opens file mode then meaning c (set_io fd (OpenFile file mode) io) next else ([], next)
  | PIPE l r =>
      let r1 := meaning l (set_io 1 (PipeWrite next) io) (S next) in
      let r2 := meaning r (set_io 0 (PipeRead next) io) r1.2 in
      (r1.1 ++ r2.1, r2.2)
  | LIST l r =>
      let r1 := meaning l io next in
      let r2 := meaning r io r1.2 in
      (r1.1 ++ r2.1, r2.2)
  | BACK c => meaning c io next
  end.
(** Redirections name standard input or output, as the parser makes them. *)
Fixpoint redirs_std {T} (c : cmd T) : Prop :=
  match c with
  | EXEC _ => True
  | REDIR c _ _ fd => (fd = 0 \/ fd = 1) /\ redirs_std c
  | PIPE l r | LIST l r => redirs_std l /\ redirs_std r
  | BACK c => redirs_std c
  end.
Definition as_started (x : list Z * list (list Z) * stdio) : started := Started x.1.1 x.1.2 (table_of x.2).

Lemma table_all io : lowest (table_of io) = Some 3%nat.
Proof. reflexivity. Qed.
Lemma launch_redir fd d io : fd = 0 \/ fd = 1 ->
  lowest (delete (Z.to_nat fd) (table_of io)) = Some (Z.to_nat fd) /\
  <[Z.to_nat fd := d]> (delete (Z.to_nat fd) (table_of io)) = table_of (set_io fd d io).
Proof.
  intros [->| ->]; split; reflexivity.
Qed.
(** The descriptors of the two ends of a pipeline, and of the shell between. *)
Lemma pipe_tables io n :
  let fds0 := <[3%nat := PipeRead n]> (table_of io) in
  let fds := <[4%nat := PipeWrite n]> fds0 in
  lowest fds0 = Some 4%nat /\
  delete 1%nat fds !! 4%nat = Some (PipeWrite n) /\ lowest (delete 1%nat fds) = Some 1%nat /\
  delete 4%nat (delete 3%nat (<[1%nat := PipeWrite n]> (delete 1%nat fds))) = table_of (set_io 1 (PipeWrite n) io) /\
  delete 0%nat fds !! 3%nat = Some (PipeRead n) /\ lowest (delete 0%nat fds) = Some 0%nat /\
  delete 4%nat (delete 3%nat (<[0%nat := PipeRead n]> (delete 0%nat fds))) = table_of (set_io 0 (PipeRead n) io).
Proof. repeat split; reflexivity. Qed.
Lemma launch_exec name args io next :
  launch (runcmd (EXEC (name :: args))) (table_of io) next =
  (match program name with Some f => [Started f (name :: args) (table_of io)] | None => [] end, next).
Proof.
  unfold program. cbn [runcmd]. destruct (decide (SLASH ∈ name)).
  { cbn [launch exec_failed]. by destruct (exists_ name). }
  unfold path. cbn [exec_path launch exec_failed find]. change (path_file (ascii "/") name) with (SLASH :: name).
  change (path_file (ascii "/bin") name) with (ascii "/bin/" ++ name). destruct (exists_ (SLASH :: name)); [done|].
  by destruct (exists_ (ascii "/bin/" ++ name)).
Qed.
Lemma launch_meaning c : forall io next,
  redirs_std c -> launch (runcmd c) (table_of io) next = (as_started <$> (meaning c io next).1, (meaning c io next).2).
Proof.
  induction c as [argv|c IH file mode fd|l IHl r IHr|l IHl r IHr|c IH]; intros io next Hr.
  - destruct argv as [|name args]; [done|]. rewrite launch_exec. simpl. by destruct (program name).
  - destruct Hr as [Hfd Hr]. destruct (launch_redir fd (OpenFile file mode) io Hfd) as [E1 E2]. cbn [runcmd launch meaning].
    rewrite E1, E2. destruct (opens file mode); [by apply IH|done].
  - destruct Hr as [Hl Hr]. destruct (pipe_tables io next) as (E0 & E1 & E2 & E3 & E4 & E5 & E6). cbn [runcmd launch meaning].
    rewrite table_all, E0. cbn [launch fork1]. rewrite E1, E2, E3, E4, E5, E6, IHl by done. cbn [fst snd].
    rewrite IHr by done. cbn [fst snd]. by rewrite app_nil_r, fmap_app.
  - destruct Hr as [Hl Hr]. cbn [runcmd launch fork1 meaning]. rewrite IHl by done. cbn [fst snd]. rewrite IHr by done. cbn [fst snd].
    by rewrite fmap_app.
  - cbn [runcmd launch fork1 meaning]. rewrite IH by done. cbn [fst snd]. by rewrite app_nil_r.
Qed.
End launch.

(** C16: a command of any shape starts exactly the programs it means, each with
    the descriptors it should have and no other open: in a pipeline the left
    side writes to the pipe and the right side reads from it, a redirection
    replaces the input or output of all it applies to, the parts of a list keep
    those of the shell, and no process keeps an end of a pipe it does not use. *)
Theorem runcmd_plumbs exists_ opens c io next :
  redirs_std c ->
  launch exists_ opens (runcmd c) (table_of io) next =
  (as_started <$> (meaning exists_ opens c io next).1, (meaning exists_ opens c io next).2).
Proof. apply launch_meaning. Qed.
(** [ls | grep x > f], where /ls and /bin/grep exist. *)
Lemma runcmd_plumbs_witness :
  launch (fun p => bool_decide (p = ascii "/ls" \/ p = ascii "/bin/grep")) (fun _ _ => true)
    (runcmd (PIPE (EXEC [ascii "ls"]) (REDIR (EXEC [ascii "grep"; ascii "x"]) (ascii "f") 513 1)))
    (table_of (Stdio (Inherited 0) (Inherited 1) (Inherited 2))) 7 =
  ([Started (ascii "/ls") [ascii "ls"] (table_of (Stdio (Inherited 0) (PipeWrite 7) (Inherited 2)));
    Started (ascii "/bin/grep") [ascii "grep"; ascii "x"] (table_of (Stdio (PipeRead 7) (OpenFile (ascii "f") 513) (Inherited 2)))], 8%nat).
Proof.
  assert (H : redirs_std (PIPE (EXEC [ascii "ls"]) (REDIR (EXEC [ascii "grep"; ascii "x"]) (ascii "f") 513 1)))
    by (split; [done|split; [by right|done]]).
  etransitivity; [apply (runcmd_plumbs (fun p => bool_decide (p = ascii "/ls" \/ p = ascii "/bin/grep")) (fun _ _ => true) _
    (Stdio (Inherited 0) (Inherited 1) (Inherited 2)) 7 H)|]. reflexivity.
Defined.

(** ** The main loop *)

(** The newline that append_history_file cuts off, in the buffer of main. *)
Definition chomp (cmd : list Z) : list Z := if decide (last cmd = Some NEWLINE) then removelast cmd else cmd.
Inductive action : Type := ChangeDir (dir : list Z) | RunLine (child : prog).
(** One turn of main after getcmd read [buf]. *)
Definition shell_line (buf : list Z) : action :=
  let buf := chomp buf in
  if decide (take 3 buf = ascii "cd ") then ChangeDir (drop 3 (removelast buf))
  else RunLine (match parsecmd buf with
                | Done c _ => runcmd c
                | Exits msg => panic_ msg
                | Spent => Exit
                end).

Definition MAX_CMD_LEN : nat := 100.
(** The loop over the bytes of the history file: [cur] and [last]. *)
Definition last_step (s : list Z * list Z) (ch : Z) : list Z * list Z :=
  if decide (ch = NEWLINE) then ([], s.1)
  else (if decide (length s.1 < MAX_CMD_LEN)%nat then s.1 ++ [ch] else s.1, s.2).
Definition last_line (file : list Z) : list Z :=
  let s := foldl last_step ([], []) file in
  if decide (s.1 <> []) then s.1 else s.2.
(** The name compared with history: what follows the first slash. *)
Fixpoint after_slash (cmd : list Z) : option (list Z) :=
  match cmd with
  | [] => None
  | c :: cmd => if decide (c = SLASH) then Some cmd else after_slash cmd
  end.
Definition cmdname (cmd : list Z) : list Z := default cmd (after_slash cmd).
(** The history file after a command; [creates] tells whether open can create
    or write it. *)
Definition append_history_file (creates : bool) (cmd : list Z) (file : option (list Z)) : option (list Z) :=
  let cmd := chomp cmd in
  if decide (cmdname cmd = ascii "history") then file else
  if (match file with Some f => bool_decide (cmd <> [] /\ last_line f = cmd) | None => false end) then file else
  if creates then Some (default [] file ++ cmd ++ [NEWLINE]) else file.

Lemma chomp_newline l : chomp (l ++ [NEWLINE]) = l.
Proof. unfold chomp. rewrite last_snoc, decide_True by done. apply removelast_last. Qed.

(** C38: changing directory loses the last character of the directory: main cuts
    off the last character of the line to drop the newline, which
    append_history_file has already dropped. *)
Theorem cd_drops_last dir :
  shell_line (ascii "cd " ++ dir ++ [NEWLINE]) = ChangeDir (removelast dir).
Proof.
  unfold shell_line. rewrite app_assoc, chomp_newline. rewrite decide_True by done. destruct dir as [|c dir]; [done|].
  rewrite removelast_app by done. done.
Qed.

Section history.
Lemma last_step_line l s :
  Forall (fun c => c <> NEWLINE) l -> (length s.1 + length l <= MAX_CMD_LEN)%nat -> foldl last_step s l = (s.1 ++ l, s.2).
Proof.
  revert s. induction l as [|c l IH]; intros [cur lst] Hn Hl; simpl in *; [by rewrite app_nil_r|]. inversion Hn; subst.
  rewrite IH; unfold last_step; rewrite ?decide_False, ?decide_True by (done || simpl in *; lia); [|done|].
  - simpl. by rewrite <- app_assoc.
  - simpl. rewrite length_app. simpl. lia.
Qed.
Definition short_line (l : list Z) : Prop := Forall (fun c => c <> NEWLINE) l /\ (length l <= MAX_CMD_LEN)%nat.
Lemma last_steps ls s : s.1 = [] -> Forall short_line ls -> foldl last_step s (lines_text ls) = ([], default s.2 (last ls)).
Proof.
  intros E H. revert s E. induction H as [|l ls [Hl Hb] _ IH]; intros [cur lst] E; simpl in E; subst; [done|].
  unfold lines_text. simpl. rewrite !foldl_app, (last_step_line l) by first [done|cbn [fst length]; lia]. simpl.
  change (concat (map _ ls)) with (lines_text ls). unfold last_step at 2. rewrite decide_True by done. rewrite IH by done.
  simpl. rewrite last_cons. by destruct (last ls).
Qed.
Lemma last_line_lines ls : Forall short_line ls -> last_line (lines_text ls) = default [] (last ls).
Proof. intros H. unfold last_line. rewrite last_steps by done. done. Qed.
End history.

(** The history file holds the commands in order: a command line that is not
    the history command and, when not empty, differs from the last line is added
    as a new last line; any other leaves the file as it was. *)
Theorem history_file_correct ls w :
  Forall short_line ls ->
  append_history_file true (w ++ [NEWLINE]) (Some (lines_text ls)) =
  Some (lines_text (if decide (cmdname w = ascii "history" \/ w <> [] /\ last ls = Some w) then ls else ls ++ [w])).
Proof.
  intros H. unfold append_history_file. rewrite chomp_newline. destruct (decide (cmdname w = ascii "history")) as [Hh|Hh].
  { by rewrite decide_True by (by left). }
  rewrite last_line_lines by done. case_bool_decide as Hs.
  - rewrite decide_True; [done|]. right. destruct Hs as [Hw Hl]. split; [done|]. destruct (last ls); simpl in Hl; congruence.
  - rewrite decide_False; [unfold lines_text; rewrite map_app, concat_app; simpl; by rewrite app_nil_r|].
    intros [?|[Hw Hl]]; [done|]. apply Hs. by rewrite Hl.
Qed.
Lemma history_file_correct_witness :
  append_history_file true (ascii "ls" ++ [NEWLINE]) (Some (lines_text [ascii "wc"; ascii "ls"])) = Some (lines_text [ascii "wc"; ascii "ls"]) /\
  append_history_file true (ascii "wc" ++ [NEWLINE]) (Some (lines_text [ascii "wc"; ascii "ls"])) = Some (lines_text [ascii "wc"; ascii "ls"; ascii "wc"]).
Proof.
  assert (H : Forall short_line [ascii "wc"; ascii "ls"]).
  { repeat constructor; try done; vm_compute; lia. }
  split; [exact (history_file_correct _ (ascii "ls") H)|exact (history_file_correct _ (ascii "wc") H)].
Defined.
