(* ===== verification/Umalloc.v ===== *)
(** The allocator of user programs (umalloc.c).

    [heap] has the ptr and size fields of the headers by address, [freep] and
    the end of the process.  A pointer to a header moves by 8 bytes per unit.
    [BASE] is the address of base, which the linker defines, and [grow] tells
    whether the kernel grants a call of sbrk.  The loops carry fuel; [None] is
    running out of it. *)
From S2P Require Import Prelude Cstring.

Record heap : Type := mkheap { hptr : mem; hsize : mem; freep : Z; brk : Z }.
#[export] Instance eta_heap : Eta heap := fun h => mkheap (hptr h) (hsize h) (freep h) (brk h).
(** [p->s.ptr = v] and [p->s.size = v]. *)
Definition set_ptr (p v : Z) (s : heap) : heap := s <| hptr ::= fun m => upd m p v |>.
Definition set_size (p v : Z) (s : heap) : heap := s <| hsize ::= fun m => upd m p v |>.
Definition UNIT : Z := 8.

#[local] Arguments Z.mul : simpl never.
Section umalloc.
Context (BASE : Z) (grow : Z -> Z -> bool).

(** The for loop of free: the header after which [bp] belongs. *)
Fixpoint free_find (fuel : nat) (s : heap) (p bp : Z) : option Z :=
  match fuel with
  | O => None
  | S fuel =>
      if decide (bp > p /\ bp < hptr s p) then Some p
      else if decide (p >= hptr s p /\ (bp > p \/ bp < hptr s p)) then Some p
      else free_find fuel s (hptr s p) bp
  end.
(** The two ifs of free, which join [bp] with its neighbours. *)
Definition join_upper (bp p : Z) (s : heap) : heap :=
  if decide (bp + UNIT * hsize s bp = hptr s p)
  then let s := set_size bp (u32 (hsize s bp + hsize s (hptr s p))) s in
       set_ptr bp (hptr s (hptr s p)) s
  else set_ptr bp (hptr s p) s.
Definition join_lower (bp p : Z) (s : heap) : heap :=
  if decide (p + UNIT * hsize s p = bp)
  then let s := set_size p (u32 (hsize s p + hsize s bp)) s in
       set_ptr p (hptr s bp) s
  else set_ptr p bp s.
Definition free (fuel : nat) (s : heap) (ap : Z) : option heap :=
  let bp := ap - UNIT in
  p ← free_find fuel s (freep s) bp;
  Some ((join_lower bp p (join_upper bp p s)) <| freep := p |>).

(** sbrk with an int argument: the old end of the process, or -1; a process
    shrinks unless its new size wraps (growproc and deallocuvm). *)
Definition sbrk (n : Z) (s : heap) : heap * Z :=
  if decide (n > 0) then
    if grow (brk s) n then (s <| brk := brk s + n |>, brk s) else (s, -1)
  else (s <| brk := if decide (u32 (brk s + n) >= brk s) then brk s else u32 (brk s + n) |>, brk s).
Definition morecore (fuel : nat) (nu : Z) (s : heap) : option (heap * Z) :=
  let nu := if decide (nu < 4096) then 4096 else nu in
  let r := sbrk (s32 (u32 (nu * UNIT))) s in
  if decide (r.2 = -1) then Some (r.1, 0) else
  s ← free fuel (set_size r.2 nu r.1) (r.2 + UNIT);
  Some (s, freep s).
(** The block found, or its upper end. *)
Definition take_block (nunits : Z) (s : heap) (prevp p : Z) : heap * Z :=
  if decide (hsize s p = nunits)
  then ((set_ptr prevp (hptr s p) s) <| freep := prevp |>, p + UNIT)
  else let s := set_size p (hsize s p - nunits) s in
       let p := p + UNIT * hsize s p in
       ((set_size p nunits s) <| freep := prevp |>, p + UNIT).
(** The for loop of malloc. *)
Fixpoint malloc_loop (fuel : nat) (nunits : Z) (s : heap) (prevp p : Z) : option (heap * Z) :=
  match fuel with
  | O => None
  | S fuel =>
      if decide (hsize s p >= nunits) then Some (take_block nunits s prevp p)
      else if decide (p = freep s) then
        r ← morecore fuel nunits s;
        if decide (r.2 = 0) then Some (r.1, 0) else malloc_loop fuel nunits r.1 r.2 (hptr r.1 r.2)
      else malloc_loop fuel nunits s p (hptr s p)
  end.
Definition nunits (nbytes : Z) : Z := u32 (nbytes + UNIT - 1) / UNIT + 1.
(** The first call makes the list of base alone. *)
Definition malloc_init (s : heap) : heap :=
  if decide (freep s = 0) then (set_size BASE 0 (set_ptr BASE BASE s)) <| freep := BASE |> else s.
Definition malloc (fuel : nat) (nbytes : Z) (s : heap) : option (heap * Z) :=
  let s := malloc_init s in
  malloc_loop fuel (nunits nbytes) s (freep s) (hptr s (freep s)).

(** ** The free list *)

(** Following ptr from [x] visits [l] and comes to [e]. *)
Fixpoint path (f : mem) (x : Z) (l : list Z) (e : Z) : Prop :=
  match l with
  | [] => f x = e
  | y :: l => f x = y /\ path f y l e
  end.
(** A block: its address and size in units. *)
Abbreviation block := (Z * Z)%type.
Definition bend (b : block) : Z := b.1 + UNIT * b.2.
Definition apart (b c : block) : Prop := bend b <= c.1 \/ bend c <= b.1.
(** Blocks in ascending order with a gap between each and the next. *)
Fixpoint spaced (lo : Z) (l : list block) : Prop :=
  match l with
  | [] => True
  | b :: l => lo < b.1 /\ 0 < b.2 /\ spaced (bend b) l
  end.
(** The free blocks [F] form the circular list from base in order of address,
    no two of them adjacent; the blocks [A] handed out have their size in the
    header; all blocks lie apart, behind base and within the process. *)
Record Inv (s : heap) (F : list block) (A : gmap Z Z) : Prop := mkInv {
  i_base : 0 < BASE;
  i_path : path (hptr s) BASE F.*1 BASE;
  i_size : Forall (fun b => hsize s b.1 = b.2) F;
  i_zero : hsize s BASE = 0;
  i_spaced : spaced (BASE + 7) F;
  i_brk : Forall (fun b => bend b <= brk s) F;
  i_freep : freep s ∈ BASE :: F.*1;
  i_alloc : forall a n, A !! a = Some n -> hsize s a = n /\ 0 < n /\ BASE + 7 < a /\ a + UNIT * n <= brk s;
  i_af : forall a n b, A !! a = Some n -> b ∈ F -> apart (a, n) b;
  i_aa : forall a n a' n', A !! a = Some n -> A !! a' = Some n' -> a <> a' -> apart (a, n) (a', n');
  i_end : BASE + 7 < brk s <= 2 ^ 31;
}.

Lemma path_app f x l1 y l2 e : path f x (l1 ++ y :: l2) e <-> path f x l1 y /\ path f y l2 e.
Proof. revert x. induction l1 as [|z l1 IH]; intros x; simpl; [done|]. rewrite IH. tauto. Qed.
Lemma path_splice f f' x l e pre p post post' l' e' :
  x :: l = pre ++ p :: post -> x :: l' = pre ++ p :: post' ->
  path f x l e -> (forall y, y ∈ pre -> f' y = f y) -> path f' p post' e' -> path f' x l' e'.
Proof.
  revert x l l'. induction pre as [|y pre IH]; intros x l l' E E' Hp Hf Hp'; simpl in *; [by injection E' as -> ->|].
  injection E as -> ->. injection E' as ->. destruct pre as [|z pre]; simpl in *.
  - split; [rewrite Hf by set_solver; apply Hp|done].
  - split; [rewrite Hf by set_solver; apply Hp|]. apply (IH z (pre ++ p :: post)); try done; [apply Hp|set_solver].
Qed.
Lemma path_tail f x l e pre p post : x :: l = pre ++ p :: post -> path f x l e -> path f p post e.
Proof.
  revert x l. induction pre as [|y pre IH]; intros x l E Hp; simpl in E; [by injection E as -> ->|].
  injection E as -> ->. destruct pre as [|z pre]; simpl in *; [apply Hp|]. apply (IH z (pre ++ p :: post)); [done|apply Hp].
Qed.
Lemma path_ext f f' x l e : (forall y, y ∈ x :: l -> f' y = f y) -> path f x l e -> path f' x l e.
Proof.
  revert x. induction l as [|y l IH]; intros x H; simpl; rewrite H by set_solver; [done|]. intros [? ?]. split; [done|]. apply IH; [set_solver|done].
Qed.
(** Ascending addresses above [lo]. *)
Fixpoint asc (lo : Z) (l : list Z) : Prop := match l with [] => True | x :: l => lo < x /\ asc x l end.
Lemma asc_gt lo l x : asc lo l -> x ∈ l -> lo < x.
Proof. revert lo. induction l as [|y l IH]; intros lo; [set_solver|]. simpl. intros [H1 H2] [->|Hx]%elem_of_cons; [done|]. specialize (IH y H2 Hx). lia. Qed.
Lemma asc_nodup lo l : asc lo l -> NoDup (lo :: l).
Proof.
  revert lo. induction l as [|y l IH]; intros lo H; [apply NoDup_singleton|]. constructor; [|apply IH, H].
  intros Hx. pose proof (asc_gt lo (y :: l) lo H Hx). lia.
Qed.
Lemma asc_mono lo lo' l : lo' <= lo -> asc lo l -> asc lo' l.
Proof. destruct l; simpl; [done|]. intros ? [? ?]. split; [lia|done]. Qed.
Lemma spaced_asc lo lo' F : lo' <= lo -> spaced lo F -> asc lo' F.*1.
Proof.
  revert lo lo'. induction F as [|b F IH]; intros lo lo' H; simpl; [done|]. intros (H1 & H2 & H3). split; [lia|].
  apply (IH (bend b)); [unfold bend, UNIT; lia|done].
Qed.
Lemma spaced_in lo F b : spaced lo F -> b ∈ F -> lo < b.1 /\ 0 < b.2.
Proof.
  revert lo. induction F as [|c F IH]; intros lo; [set_solver|]. simpl. intros (H1 & H2 & H3) [->|Hb]%elem_of_cons; [done|].
  destruct (IH _ H3 Hb) as [H4 H5]. unfold bend, UNIT in H4. split; [lia|done].
Qed.
Lemma spaced_app lo F1 F2 : spaced lo (F1 ++ F2) <-> spaced lo F1 /\ spaced (foldl (fun _ b => bend b) lo F1) F2.
Proof. revert lo. induction F1 as [|b F1 IH]; intros lo; simpl; [tauto|]. rewrite IH. tauto. Qed.
Lemma spaced_snoc lo F b : spaced lo (F ++ [b]) <-> spaced lo F /\ foldl (fun _ b => bend b) lo F < b.1 /\ 0 < b.2.
Proof. rewrite spaced_app. simpl. tauto. Qed.

(** ** The loop of free *)

Lemma find_below s bp p post mid : forall x l fuel,
  x :: l = mid ++ p :: post -> path (hptr s) x l BASE -> asc BASE (x :: l) \/ x = BASE /\ asc BASE l ->
  (forall y, y ∈ mid ++ [p] -> y < bp) -> (forall y, y ∈ post -> bp < y) -> (length mid < fuel)%nat ->
  free_find fuel s x bp = Some p.
Proof.
  induction mid as [|y mid IH]; intros x l [|fuel] E Hp Ha Hlo Hhi Hf; simpl in Hf; try lia; cbn [free_find]; simpl in E.
  - injection E as -> ->. assert (p < bp) by (apply Hlo; set_solver).
    assert (BASE <= p) by (destruct Ha as [[? _]|[-> _]]; lia). destruct post as [|z post]; simpl in Hp.
    + rewrite Hp. rewrite decide_False by lia. by rewrite decide_True by lia.
    + destruct Hp as [-> _]. rewrite decide_True; [done|]. specialize (Hhi z). split; [lia|]. apply Hhi. set_solver.
  - injection E as -> ->. assert (Hy : exists z l', mid ++ p :: post = z :: l' /\ z < bp).
    { destruct mid as [|z mid]; simpl; eexists _, _; (split; [reflexivity|]); apply Hlo; set_solver. }
    destruct Hy as (z & l' & Ez & Hz). rewrite Ez in Hp, Ha. destruct Hp as [Hp1 Hp2]. rewrite Hp1.
    assert (y < z /\ asc BASE (z :: l')) as [Hyz Hasc].
    { destruct Ha as [Ha|[-> Ha]]; simpl in Ha; [|by destruct Ha]. simpl. destruct Ha as (H1 & H2 & H3). split; [done|]. split; [lia|done]. }
    rewrite decide_False by lia. rewrite decide_False by lia.
    apply (IH z l'); [by rewrite Ez|done|by left|set_solver|done|lia].
Qed.
Lemma find_above s bp : forall l x fuel,
  path (hptr s) x l BASE -> asc bp (x :: l) -> BASE < bp -> (length l < fuel)%nat ->
  free_find fuel s x bp = free_find (fuel - S (length l)) s BASE bp.
Proof.
  induction l as [|y l IH]; intros x [|fuel] Hp Ha Hb Hf; simpl in Hf; try lia; cbn [free_find]; simpl in Hp, Ha.
  - rewrite Hp. rewrite decide_False by lia. rewrite decide_False by lia. f_equal. simpl. lia.
  - destruct Hp as [-> Hp]. rewrite decide_False by lia. rewrite decide_False by lia. rewrite IH; [|done| |done|lia].
    + f_equal.
    + simpl. split; [lia|apply Ha].
Qed.
Lemma asc_app_r lo l1 l2 : asc lo (l1 ++ l2) -> asc lo l2.
Proof. revert lo. induction l1 as [|x l1 IH]; intros lo; simpl; [done|]. intros [H1 H2]. apply (asc_mono x); [lia|]. by apply IH. Qed.
(** From any header of the list the loop finds the last one below [bp]. *)
Lemma free_find_pred s nodes pre p post bp x fuel :
  path (hptr s) BASE nodes BASE -> asc BASE nodes -> BASE :: nodes = pre ++ p :: post ->
  (forall y, y ∈ pre ++ [p] -> y < bp) -> asc bp post -> BASE < bp -> x ∈ BASE :: nodes ->
  (2 * length nodes + 2 < fuel)%nat -> free_find fuel s x bp = Some p.
Proof.
  intros Hp Ha E Hlo Hhi Hb Hx Hf. assert (Hlen : S (length nodes) = (length pre + S (length post))%nat) by (change (S (length nodes)) with (length (BASE :: nodes)); rewrite E, length_app; done).
  assert (Hhi' : forall y, y ∈ post -> bp < y) by (intros y; by apply asc_gt).
  assert (FromBase : forall fuel, (length nodes < fuel)%nat -> free_find fuel s BASE bp = Some p).
  { intros g Hg. eapply (find_below s bp p post pre BASE nodes); try done; [by right|lia]. }
  rewrite E in Hx. apply elem_of_app in Hx as [Hx|[->|Hx]%elem_of_cons].
  - apply list_elem_of_split in Hx as (pre1 & pre2 & ->). rewrite <- app_assoc in E. simpl in E.
    pose proof (path_tail _ _ _ _ _ _ _ E Hp) as Hpx. eapply (find_below s bp p post (x :: pre2) x (pre2 ++ p :: post)); try done.
    + destruct pre1 as [|y pre1]; simpl in E; injection E as <- ->; [right; split; done|left]. by eapply asc_app_r.
    + set_solver.
    + rewrite length_app in Hlen. simpl in *. lia.
  - pose proof (path_tail _ _ _ _ _ _ _ E Hp) as Hpx. eapply (find_below s bp p post [] p post); try done.
    + destruct pre as [|y pre]; simpl in E; injection E as <- ->; [right; split; done|left]. by eapply asc_app_r.
    + set_solver.
    + simpl. lia.
  - apply list_elem_of_split in Hx as (post1 & post2 & ->). assert (E' : BASE :: nodes = (pre ++ p :: post1) ++ x :: post2) by (rewrite E, <- app_assoc; done).
    pose proof (path_tail _ _ _ _ _ _ _ E' Hp) as Hpx. rewrite length_app in Hlen. simpl in Hlen.
    rewrite (find_above s bp post2 x) by first [done|lia|by eapply asc_app_r]. apply FromBase. lia.
Qed.

(** ** Joining blocks *)

Lemma apart_join c b1 b2 : 0 < c.2 -> bend b1 = b2.1 -> apart c b1 -> apart c b2 -> apart c (b1.1, b1.2 + b2.2).
Proof. unfold apart, bend, UNIT. simpl. lia. Qed.
Lemma split_blocks bp n F lo :
  0 < n -> spaced lo F -> (forall b, b ∈ F -> apart (bp, n) b) ->
  exists F1 F2, F = F1 ++ F2 /\ (forall b, b ∈ F1 -> bend b <= bp) /\ (forall b, b ∈ F2 -> bp + UNIT * n <= b.1).
Proof.
  intros Hn. revert lo. induction F as [|b F IH]; intros lo Hs Ha; [exists [], []; set_solver|]. destruct Hs as (H1 & H2 & H3).
  destruct (Ha b) as [Hb|Hb]; [set_solver| |].
  - exists [], (b :: F). split; [done|]. split; [set_solver|]. unfold bend in Hb. simpl in Hb.
    intros c [->|Hc]%elem_of_cons; [done|]. destruct (spaced_in _ _ _ H3 Hc) as [Hc1 _]. unfold bend, UNIT in *. lia.
  - destruct (IH _ H3) as (F1 & F2 & -> & HF1 & HF2); [set_solver|]. exists (b :: F1), F2. split; [done|]. split; [|done].
    simpl in Hb. intros c [->|Hc]%elem_of_cons; [done|by apply HF1].
Qed.
(** The first if of free: [bp] before the blocks [F2] above it. *)
Lemma join_upper_ok s p bp n F2 :
  0 < BASE -> BASE < bp -> 0 < n -> hsize s bp = n -> p <> bp -> bp + UNIT * n <= brk s -> brk s <= 2 ^ 31 ->
  path (hptr s) p F2.*1 BASE -> Forall (fun b => hsize s b.1 = b.2) F2 -> Forall (fun b => bend b <= brk s) F2 ->
  (forall b, b ∈ F2 -> bp + UNIT * n <= b.1 /\ 0 < b.2) -> (exists lo, spaced lo F2) ->
  let s1 := join_upper bp p s in
  exists n1 F2', hsize s1 bp = n1 /\ n <= n1 /\ bp + UNIT * n1 <= brk s /\ freep s1 = freep s /\ brk s1 = brk s /\
    (forall x, x <> bp -> hptr s1 x = hptr s x /\ hsize s1 x = hsize s x) /\
    path (hptr s1) bp F2'.*1 BASE /\ spaced (bp + UNIT * n1) F2' /\ (forall b, b ∈ F2' -> b ∈ F2) /\ (length F2' <= length F2)%nat /\
    (forall c, 0 < c.2 -> apart c (bp, n) -> (forall b, b ∈ F2 -> apart c b) -> apart c (bp, n1)).
Proof.
  intros HB Hbp Hn Hs Hpb Hbrk H31 Hp Hsz Hbr Hhi [lo Hsp] s1. subst s1. unfold join_upper. rewrite Hs.
  destruct F2 as [|[q m] F2]; simpl in Hp.
  - rewrite Hp. rewrite decide_False by (unfold UNIT; lia). exists n, []. unfold set_ptr. simpl. unfold upd at 2. rewrite decide_True by done.
    split_and!; try done; try lia. intros x Hx. unfold upd. by rewrite decide_False.
  - destruct Hp as [Hq Hp]. rewrite Hq. destruct (Hhi (q, m)) as [Hqb Hm]; [set_solver|]. simpl in Hqb, Hm.
    apply Forall_cons in Hsz as [Hqs Hsz']. apply Forall_cons in Hbr as [Hqe Hbr']. unfold bend in Hqe. simpl in Hqs, Hqe.
    destruct Hsp as (_ & _ & Hsp). assert (Hqbp : q <> bp) by (unfold UNIT in *; lia).
    assert (Hnot : ~ bp ∈ F2.*1).
    { intros Hx. apply list_elem_of_fmap in Hx as (b & -> & Hb). destruct (Hhi b) as [? _]; [set_solver|]. unfold UNIT in *. lia. }
    case_decide as Ej.
    + assert (Em : u32 (n + hsize s q) = n + m) by (rewrite Hqs; unfold u32, UNIT in *; apply Z.mod_small; lia).
      exists (n + m), F2. unfold set_ptr, set_size. simpl. rewrite Hq, Em. unfold upd at 1. rewrite decide_True by done.
      split; [done|]. split; [lia|]. split; [unfold UNIT in *; lia|]. split; [done|]. split; [done|].
      split; [intros x Hx; unfold upd; by rewrite !decide_False|]. split; [|split; [|split; [set_solver|split; [simpl; lia|]]]].
      * destruct F2 as [|c F2]; simpl in Hp |- *; [unfold upd; by rewrite decide_True|]. destruct Hp as [-> Hp]. split; [unfold upd; by rewrite decide_True|].
        eapply path_ext; [|exact Hp]. intros y Hy. unfold upd. rewrite decide_False; [done|]. set_solver.
      * eapply eq_ind with (P := fun z => spaced z F2); [exact Hsp|]. unfold bend, UNIT in *. simpl. lia.
      * intros c Hc H1 H2. apply (apart_join c (bp, n) (q, m)); try done. apply H2. set_solver.
    + exists n, ((q, m) :: F2). unfold set_ptr. simpl.
      split; [done|]. split; [lia|]. split; [done|]. split; [done|]. split; [done|].
      split; [intros x Hx; unfold upd; by rewrite !decide_False|]. split; [|split; [|split; [set_solver|split; [lia|done]]]].
      * split; [unfold upd; by rewrite decide_True|]. eapply path_ext; [|exact Hp]. intros y Hy. unfold upd. rewrite decide_False; [done|].
        intros ->. apply elem_of_cons in Hy as [?|?]; done.
      * split; [unfold UNIT in *; lia|done].
Qed.
(** The invariant after [bp] joined the free blocks. *)
Lemma Inv_free s F A s' F' bp n :
  Inv s F A -> A !! bp = Some n ->
  path (hptr s') BASE F'.*1 BASE -> Forall (fun b => hsize s' b.1 = b.2) F' -> hsize s' BASE = 0 ->
  spaced (BASE + 7) F' -> Forall (fun b => bend b <= brk s) F' -> freep s' ∈ BASE :: F'.*1 -> brk s' = brk s ->
  (forall a, a <> bp -> is_Some (A !! a) -> hsize s' a = hsize s a) ->
  (forall c, 0 < c.2 -> apart c (bp, n) -> (forall b, b ∈ F -> apart c b) -> forall b, b ∈ F' -> apart c b) ->
  Inv s' F' (delete bp A).
Proof.
  intros [] Hbp Hp Hs Hz Hsp Hb Hf Eb Ha Hap. split; try done; rewrite ?Eb; try done.
  - intros a m [Hne Hm]%lookup_delete_Some. rewrite Ha by (done || by eexists). by apply i_alloc0.
  - intros a m b [Hne Hm]%lookup_delete_Some Hin. destruct (i_alloc0 a m Hm) as (_ & Hm0 & _).
    apply Hap; [done|by eapply i_aa0|by intros; eapply i_af0|done].
  - intros a m a' m' [_ H1]%lookup_delete_Some [_ H2]%lookup_delete_Some. by apply i_aa0.
Qed.
Lemma alloc_not_node s F A a n : Inv s F A -> A !! a = Some n -> ~ a ∈ BASE :: F.*1.
Proof.
  intros HI Ha Hin. destruct (i_alloc _ _ _ HI a n Ha) as (_ & Hn & Hlo & _). apply elem_of_cons in Hin as [->|Hin]; [lia|].
  apply list_elem_of_fmap in Hin as (b & -> & Hb). destruct (spaced_in _ _ _ (i_spaced _ _ _ HI) Hb) as [_ Hb2].
  destruct (i_af _ _ _ HI _ _ _ Ha Hb) as [H|H]; unfold bend, UNIT in H; simpl in H; lia.
Qed.
Lemma Inv_nodes s F A : Inv s F A -> asc BASE F.*1 /\ NoDup (BASE :: F.*1).
Proof. intros []. assert (asc BASE F.*1) by (eapply spaced_asc; [|done]; lia). split; [done|by apply asc_nodup]. Qed.
Lemma path_start f f' x y l e : path f x l e -> f' y = f x -> (forall z, z ∈ l -> f' z = f z) -> path f' y l e.
Proof.
  destruct l as [|z l]; simpl; [by intros -> ->|]. intros [-> Hp] -> H. split; [done|]. eapply path_ext; [|exact Hp]. done.
Qed.
(** Where free puts [bp]: after [p], the last header of [F1]. *)
Definition place (s : heap) (F1 F2 : list block) (pre : list Z) (p bp n : Z) : Prop :=
  BASE :: F1.*1 = pre ++ [p] /\ (p = BASE /\ F1 = [] \/ exists F1' k, F1 = F1' ++ [(p, k)]) /\
  (forall b, b ∈ F1 -> bend b <= bp) /\ (forall b, b ∈ F2 -> bp + UNIT * n <= b.1) /\ (forall y, y ∈ pre ++ [p] -> y < bp).
Lemma free_place s F A bp n :
  Inv s F A -> A !! bp = Some n -> exists F1 F2 pre p, F = F1 ++ F2 /\ place s F1 F2 pre p bp n.
Proof.
  intros HI Hbp. destruct (i_alloc _ _ _ HI bp n Hbp) as (Hsz & Hn & Hlo & Hend). pose proof (i_spaced _ _ _ HI) as Hsp.
  destruct (split_blocks bp n F _ Hn Hsp) as (F1 & F2 & -> & HF1 & HF2); [by intros; eapply i_af|].
  assert (exists pre p, BASE :: F1.*1 = pre ++ [p] /\ (p = BASE /\ F1 = [] \/ exists F1' k, F1 = F1' ++ [(p, k)])) as (pre & p & Epre & Hpc).
  { clear. induction F1 as [|[a k] F1 _] using rev_ind; [by exists [], BASE; split; [|left]|]. rewrite fmap_app. exists (BASE :: F1.*1), a. split; [done|]. eauto. }
  exists F1, F2, pre, p. split; [done|]. split_and!; try done. rewrite <- Epre. intros y [->|Hy]%elem_of_cons; [lia|].
  apply list_elem_of_fmap in Hy as (b & -> & Hb). specialize (HF1 b Hb). destruct (spaced_in _ _ b Hsp) as [_ ?]; [set_solver|]. unfold bend, UNIT in *. lia.
Qed.
Lemma place_nodes s F1 F2 pre p bp n : place s F1 F2 pre p bp n -> BASE :: (F1 ++ F2).*1 = pre ++ p :: F2.*1.
Proof. intros (E & _). rewrite fmap_app, app_comm_cons, E, <- app_assoc. done. Qed.
Lemma place_find s F1 F2 A pre p bp n fuel :
  Inv s (F1 ++ F2) A -> A !! bp = Some n -> place s F1 F2 pre p bp n -> (2 * length (F1 ++ F2) + 2 < fuel)%nat ->
  free_find fuel s (freep s) bp = Some p.
Proof.
  intros HI Hbp Hpl Hf. destruct (i_alloc _ _ _ HI bp n Hbp) as (_ & Hn & Hlo & _). pose proof (i_spaced _ _ _ HI) as Hsp.
  pose proof (place_nodes _ _ _ _ _ _ _ Hpl) as En. destruct Hpl as (_ & _ & _ & HF2 & Hpre).
  apply (free_find_pred s (F1 ++ F2).*1 pre p F2.*1); try done; [apply HI|by eapply Inv_nodes| |lia|apply HI|by rewrite length_fmap].
  destruct F2 as [|b F2]; [done|]. apply spaced_app in Hsp as [_ (_ & Hb & Hsp)]. specialize (HF2 b ltac:(set_solver)).
  simpl. split; [unfold UNIT in *; lia|]. eapply spaced_asc; [|exact Hsp]. unfold bend, UNIT. lia.
Qed.

(** The second if of free, after the first gave [s1]. *)
Section lower.
Context (s s1 : heap) (F1 F2 F2' : list block) (A : gmap Z Z) (pre : list Z) (p bp n n1 : Z).
Context (HI : Inv s (F1 ++ F2) A) (Hbp : A !! bp = Some n) (Hpl : place s F1 F2 pre p bp n).
Context (E1 : hsize s1 bp = n1) (Hn1 : n <= n1) (Hend1 : bp + UNIT * n1 <= brk s) (Eb : brk s1 = brk s).
Context (Eoth : forall x, x <> bp -> hptr s1 x = hptr s x /\ hsize s1 x = hsize s x).
Context (Hpath1 : path (hptr s1) bp F2'.*1 BASE) (Hsp1 : spaced (bp + UNIT * n1) F2') (Hsub : forall b, b ∈ F2' -> b ∈ F2).
Context (Hap1 : forall c, 0 < c.2 -> apart c (bp, n) -> (forall b, b ∈ F2 -> apart c b) -> apart c (bp, n1)).

Lemma lower_p : p < bp /\ BASE <= p /\ (forall z, z ∈ bp :: F2'.*1 -> z <> p) /\ (forall y, y ∈ pre -> y <> p /\ y <> bp).
Proof.
  destruct (Inv_nodes _ _ _ HI) as [Hasc Hnd]. destruct (i_alloc _ _ _ HI bp n Hbp) as (_ & Hn & Hlo & _).
  rewrite (place_nodes _ _ _ _ _ _ _ Hpl) in Hnd. pose proof Hpl as (Epre & Hpc & HF1 & HF2 & Hpre).
  assert (Hpbp : p < bp) by (apply Hpre; set_solver). split; [done|]. split; [|split].
  - destruct Hpc as [[-> _]|(F1' & k & EF)]; [lia|]. destruct (spaced_in _ _ (p, k) (i_spaced _ _ _ HI)) as [H _]; [rewrite EF; set_solver|]. simpl in H. lia.
  - intros z [->|Hz]%elem_of_cons; [lia|]. apply list_elem_of_fmap in Hz as (b & -> & Hb%Hsub%HF2). unfold UNIT in *. lia.
  - intros y Hy. split; [|assert (y < bp) by (apply Hpre; set_solver); lia]. intros ->.
    apply NoDup_app in Hnd as (_ & Hnd & _). by apply (Hnd p Hy), elem_of_cons; left.
Qed.
Lemma lower_sizes F : Forall (fun b => b ∈ F1 ++ F2) F -> Forall (fun b => hsize s1 b.1 = b.2) F.
Proof.
  intros H. pose proof (i_size _ _ _ HI) as HS. rewrite Forall_forall in HS, H |- *. intros b Hb.
  destruct (Eoth b.1) as [_ ->]; [|by apply HS, H]. intros E. apply (alloc_not_node _ _ _ bp n HI Hbp). rewrite <- E.
  apply elem_of_cons. right. apply list_elem_of_fmap. eauto.
Qed.
Lemma lower_F2' : Forall (fun b => b ∈ F1 ++ F2) F2'.
Proof. clear -Hsub. apply Forall_forall. intros b Hb%Hsub. set_solver. Qed.
Lemma lower_F1 : Forall (fun b => b ∈ F1 ++ F2) F1.
Proof. clear. apply Forall_forall. set_solver. Qed.
Lemma lower_brk F : Forall (fun b => b ∈ F1 ++ F2) F -> Forall (fun b => bend b <= brk s) F.
Proof. intros H. pose proof (i_brk _ _ _ HI) as HS. rewrite Forall_forall in HS, H |- *. eauto. Qed.
Lemma lower_base : hsize s1 BASE = 0.
Proof.
  destruct (Eoth BASE) as [_ ->]; [|apply HI]. intros E. apply (alloc_not_node _ _ _ bp n HI Hbp). rewrite <- E. set_solver.
Qed.
Lemma lower_keep a : a <> bp -> is_Some (A !! a) -> hsize s1 a = hsize s a /\ a <> p.
Proof.
  intros Ha [m Hm]. split; [by apply Eoth|]. intros ->. apply (alloc_not_node _ _ _ _ _ HI Hm).
  rewrite (place_nodes _ _ _ _ _ _ _ Hpl). set_solver.
Qed.
Lemma lower_apart_ok :
  p + UNIT * hsize s1 p <> bp -> Inv ((set_ptr p bp s1) <| freep := p |>) (F1 ++ (bp, n1) :: F2') (delete bp A).
Proof.
  intros Hne. destruct lower_p as (Hpbp & HBp & HpF2 & Hpp). pose proof (place_nodes _ _ _ _ _ _ _ Hpl) as En.
  pose proof Hpl as (Epre & Hpc & HF1 & HF2 & Hpre). destruct (i_alloc _ _ _ HI bp n Hbp) as (_ & Hn & Hlo & _).
  eapply (Inv_free s); try done; simpl.
  - eapply (path_splice (hptr s) _ BASE (F1 ++ F2).*1 BASE pre p F2.*1 (bp :: F2'.*1)).
    + exact En.
    + rewrite fmap_app. simpl. rewrite app_comm_cons, Epre, <- app_assoc. done.
    + apply HI.
    + intros y Hy. destruct (Hpp y Hy) as [H1 H2]. unfold upd. rewrite decide_False by done. by apply Eoth.
    + simpl. split; [unfold upd; by rewrite decide_True|]. eapply path_ext; [|exact Hpath1].
      intros y Hy. unfold upd. rewrite decide_False; [done|by apply HpF2].
  - apply Forall_app. split; [apply lower_sizes, lower_F1|]. constructor; [done|apply lower_sizes, lower_F2'].
  - apply lower_base.
  - apply spaced_app. pose proof (i_spaced _ _ _ HI) as Hsp. apply spaced_app in Hsp as [Hsp _]. split; [done|]. simpl. split; [|split; [lia|done]].
    destruct Hpc as [[_ EF]|(F1' & k & EF)]; [by rewrite EF|].
    assert (Hb : bend (p, k) <= bp) by (apply HF1; rewrite EF; set_solver).
    pose proof (lower_sizes _ lower_F1) as HF. rewrite EF, Forall_app, Forall_singleton in HF. destruct HF as [_ HF]. simpl in HF.
    rewrite EF, foldl_app. simpl. rewrite HF in Hne. unfold bend in *. simpl in *. lia.
  - apply Forall_app. split; [apply lower_brk, lower_F1|]. constructor; [done|apply lower_brk, lower_F2'].
  - rewrite fmap_app, app_comm_cons, Epre. set_solver.
  - intros a Ha Hs. by apply lower_keep.
  - intros c Hc H1 H2 b [Hb|[->|Hb]%elem_of_cons]%elem_of_app; [apply H2; set_solver|apply Hap1; set_solver|apply H2; set_solver].
Qed.
Lemma lower_joined_ok F1' k :
  F1 = F1' ++ [(p, k)] -> p + UNIT * k = bp ->
  Inv ((set_ptr p (hptr s1 bp) (set_size p (k + n1) s1)) <| freep := p |>) (F1' ++ (p, k + n1) :: F2') (delete bp A).
Proof.
  intros EF Hj. destruct lower_p as (Hpbp & HBp & HpF2 & Hpp). pose proof (place_nodes _ _ _ _ _ _ _ Hpl) as En.
  pose proof Hpl as (Epre & _ & HF1 & HF2 & Hpre). destruct (i_alloc _ _ _ HI bp n Hbp) as (_ & Hn & Hlo & _).
  assert (Epre' : BASE :: F1'.*1 = pre) by (rewrite EF, fmap_app, app_comm_cons in Epre; by apply app_inj_tail in Epre as [? _]).
  pose proof (i_spaced _ _ _ HI) as Hsp. apply spaced_app in Hsp as [Hsp _]. rewrite EF in Hsp. apply spaced_snoc in Hsp as (Hsp & Htop & Hk). simpl in Htop, Hk.
  assert (Hne : forall x, x ∈ F1'.*1 ++ F2'.*1 -> x <> p).
  { intros x [Hx|Hx]%elem_of_app; [|apply HpF2; set_solver]. apply Hpp. rewrite <- Epre'. set_solver. }
  assert (Hsz : forall F, Forall (fun b => b ∈ F1 ++ F2) F -> (forall b, b ∈ F -> b.1 <> p) ->
    Forall (fun b => upd (hsize s1) p (k + n1) b.1 = b.2) F).
  { intros F HF Hd. apply lower_sizes in HF. rewrite Forall_forall in HF |- *. intros b Hb. unfold upd. rewrite decide_False by (by apply Hd). by apply HF. }
  assert (HF1' : Forall (fun b => b ∈ F1 ++ F2) F1') by (rewrite EF; apply Forall_forall; set_solver).
  assert (Hpk : (p, k) ∈ F1 ++ F2) by (rewrite EF; set_solver).
  eapply (Inv_free s); try done; simpl.
  - eapply (path_splice (hptr s) _ BASE (F1 ++ F2).*1 BASE pre p F2.*1 F2'.*1).
    + exact En.
    + rewrite fmap_app. simpl. rewrite app_comm_cons, Epre'. done.
    + apply HI.
    + intros y Hy. destruct (Hpp y Hy) as [H1 H2]. unfold upd. rewrite decide_False by done. by apply Eoth.
    + eapply path_start; [exact Hpath1|unfold upd; by rewrite decide_True|]. intros z Hz. unfold upd. rewrite decide_False; [done|]. apply HpF2. set_solver.
  - apply Forall_app. split; [apply Hsz; [done|]|constructor; [simpl; unfold upd; by rewrite decide_True|apply Hsz; [apply lower_F2'|]]];
      intros b Hb; apply Hne, elem_of_app; [left|right]; apply list_elem_of_fmap; eauto.
  - unfold upd. rewrite decide_False; [apply lower_base|]. intros E. apply (proj1 (Hpp BASE ltac:(rewrite <- Epre'; set_solver))). done.
  - apply spaced_app. split; [done|]. simpl. split; [done|]. split; [lia|].
    eapply eq_ind with (P := fun z => spaced z F2'); [exact Hsp1|]. unfold bend, UNIT in *. simpl. lia.
  - apply Forall_app. split; [by apply lower_brk|]. constructor; [unfold bend, UNIT in *; simpl; lia|apply lower_brk, lower_F2'].
  - rewrite fmap_app. set_solver.
  - intros a Ha Hs. destruct (lower_keep a Ha Hs) as [H1 H2]. unfold upd. by rewrite decide_False.
  - intros c Hc H1 H2 b [Hb|[->|Hb]%elem_of_cons]%elem_of_app; [apply H2; rewrite EF; set_solver| |apply H2; set_solver].
    apply (apart_join c (p, k) (bp, n1)); [done|done|apply H2; set_solver|]. apply Hap1; set_solver.
Qed.
End lower.
Lemma free_ok s F A bp n fuel :
  Inv s F A -> A !! bp = Some n -> (2 * length F + 2 < fuel)%nat ->
  exists s' F', free fuel s (bp + UNIT) = Some s' /\ Inv s' F' (delete bp A) /\ brk s' = brk s /\
    (length F' <= S (length F))%nat /\ exists b, b ∈ F' /\ n <= b.2.
Proof.
  intros HI Hbp Hf. destruct (free_place s F A bp n HI Hbp) as (F1 & F2 & pre & p & -> & Hpl).
  unfold free. replace (bp + UNIT - UNIT) with bp by lia. rewrite (place_find s F1 F2 A pre p bp n fuel) by done. simpl.
  destruct (i_alloc _ _ _ HI bp n Hbp) as (Hsz & Hn & Hlo & Hend). destruct (i_end _ _ _ HI) as [_ H31].
  pose proof (i_size _ _ _ HI) as HS. apply Forall_app in HS as [HS1 HS2]. pose proof (i_brk _ _ _ HI) as HK. apply Forall_app in HK as [HK1 HK2].
  pose proof (i_spaced _ _ _ HI) as Hsp. pose proof Hpl as (Epre & Hpc & HF1 & HF2 & Hpre). assert (Hp : p < bp) by (apply Hpre; set_solver).
  destruct (join_upper_ok s p bp n F2) as (n1 & F2' & E1 & Hn1 & Hend1 & Ef1 & Eb1 & Eoth & Hpath1 & Hsp1 & Hsub & Hlen & Hap1); try done; try lia.
  { apply HI. }
  { eapply path_tail; [by eapply place_nodes|apply HI]. }
  { intros b Hb. split; [by apply HF2|]. eapply spaced_in; [exact Hsp|set_solver]. }
  { apply spaced_app in Hsp as [_ Hs]. eauto. }
  set (s1 := join_upper bp p s) in *. unfold join_lower. rewrite E1. destruct (Eoth p) as [_ Ep]; [lia|]. rewrite Ep.
  case_decide as Hj.
  - destruct Hpc as [[-> _]|(F1' & k & EF)]; [rewrite (i_zero _ _ _ HI) in Hj; lia|].
    assert (Ek : hsize s p = k) by (rewrite EF, Forall_app, Forall_singleton in HS1; apply HS1). rewrite Ek in *.
    assert (0 < k) by (destruct (spaced_in _ _ (p, k) Hsp) as [_ ?]; [rewrite EF; set_solver|done]). pose proof (i_base _ _ _ HI).
    assert (BASE <= p) by (destruct (spaced_in _ _ (p, k) Hsp) as [H1 _]; [rewrite EF; set_solver|simpl in H1; lia]).
    replace (u32 (k + n1)) with (k + n1) by (unfold u32, UNIT in *; rewrite Z.mod_small; lia).
    exists ((set_ptr p (hptr s1 bp) (set_size p (k + n1) s1)) <| freep := p |>), (F1' ++ (p, k + n1) :: F2'). split; [reflexivity|]. split; [by eapply lower_joined_ok|]. split; [done|].
    rewrite EF, !length_app in *. simpl in *. split; [lia|]. exists (p, k + n1). split; [set_solver|simpl; lia].
  - eexists _, (F1 ++ (bp, n1) :: F2'). split; [reflexivity|]. split; [eapply lower_apart_ok; try done; by rewrite Ep|]. split; [done|].
    rewrite !length_app in *. simpl in *. split; [lia|]. exists (bp, n1). split; [set_solver|done].
Qed.

(** ** Taking a block *)

Lemma nodup_split {T} (v : T) a1 b1 a2 b2 : NoDup (a1 ++ v :: b1) -> a1 ++ v :: b1 = a2 ++ v :: b2 -> a1 = a2.
Proof.
  revert a2. induction a1 as [|x a1 IH]; intros [|y a2] Hn E; simpl in *; [done| | |].
  - injection E as <- ->. apply NoDup_cons in Hn as [Hn _]. exfalso. apply Hn. set_solver.
  - injection E as -> <-. apply NoDup_cons in Hn as [Hn _]. exfalso. apply Hn. set_solver.
  - injection E as -> E. apply NoDup_cons in Hn as [_ Hn]. f_equal. by apply IH.
Qed.
Lemma pred_unique s F1 v m F2 A u :
  Inv s (F1 ++ (v, m) :: F2) A -> u ∈ BASE :: (F1 ++ (v, m) :: F2).*1 -> hptr s u = v -> exists pre, BASE :: F1.*1 = pre ++ [u].
Proof.
  intros HI Hu Hv. destruct (Inv_nodes _ _ _ HI) as [Hasc Hnd]. apply list_elem_of_split in Hu as (P & Q & E).
  pose proof (path_tail _ _ _ _ _ _ _ E (i_path _ _ _ HI)) as Hp.
  assert (Hvb : BASE < v) by (apply (asc_gt _ _ _ Hasc); rewrite fmap_app; apply elem_of_app; right; left). destruct Q as [|w Q]; simpl in Hp; [lia|].
  destruct Hp as [Hw _]. assert (w = v) as -> by congruence. exists P.
  assert (E' : (BASE :: F1.*1) ++ v :: F2.*1 = (P ++ [u]) ++ v :: Q) by (rewrite <- app_assoc; simpl; rewrite <- E, fmap_app; done).
  eapply nodup_split; [|exact E']. rewrite fmap_app in Hnd. exact Hnd.
Qed.
Lemma Inv_take s F A s' F' a k :
  Inv s F A -> path (hptr s') BASE F'.*1 BASE -> Forall (fun b => hsize s' b.1 = b.2) F' -> hsize s' BASE = 0 ->
  spaced (BASE + 7) F' -> Forall (fun b => bend b <= brk s) F' -> freep s' ∈ BASE :: F'.*1 -> brk s' = brk s ->
  hsize s' a = k -> 0 < k -> BASE + 7 < a -> a + UNIT * k <= brk s ->
  (forall x, is_Some (A !! x) -> hsize s' x = hsize s x) -> (forall b, b ∈ F' -> apart (a, k) b) ->
  (forall x m, A !! x = Some m -> 0 < m -> (forall b, b ∈ F -> apart (x, m) b) ->
     apart (x, m) (a, k) /\ forall b, b ∈ F' -> apart (x, m) b) ->
  Inv s' F' (<[a := k]> A) /\ A !! a = None.
Proof.
  intros HI Hp Hs Hz Hsp Hb Hf Eb Ha Hk Hlo Hend Hkeep Hnew Hold. destruct HI.
  assert (Hap : forall x m, A !! x = Some m -> apart (x, m) (a, k)).
  { intros x m Hx. destruct (i_alloc0 x m Hx) as (_ & ? & _). destruct (Hold x m Hx) as [H' _]; [done|by intros; eapply i_af0|done]. }
  assert (Hfresh : A !! a = None).
  { destruct (A !! a) as [m|] eqn:E; [|done]. destruct (i_alloc0 a m E) as (_ & ? & _). destruct (Hap a m E) as [H1|H1]; unfold bend, UNIT in H1; simpl in H1; lia. }
  split; [|done]. split; try done; rewrite ?Eb; try done.
  - intros x m [[<- <-]|[Hne Hx]]%lookup_insert_Some; [done|]. rewrite Hkeep by eauto. by apply i_alloc0.
  - intros x m b [[<- <-]|[Hne Hx]]%lookup_insert_Some Hin; [by apply Hnew|]. destruct (i_alloc0 x m Hx) as (_ & ? & _).
    destruct (Hold x m Hx) as [_ H']; [done|by intros; eapply i_af0|by apply H'].
  - intros x m x' m' [[<- <-]|[Hne Hx]]%lookup_insert_Some [[<- <-]|[Hne' Hx']]%lookup_insert_Some Hd; try done.
    + destruct (Hap x' m' Hx') as [?|?]; [by right|by left].
    + by apply Hap.
    + by eapply i_aa0.
Qed.
Lemma spaced_top lo F : spaced lo F -> lo <= foldl (fun _ b => bend b) lo F /\ forall b, b ∈ F -> bend b <= foldl (fun _ b => bend b) lo F.
Proof.
  revert lo. induction F as [|c F IH]; intros lo Hs; simpl; [split; [lia|set_solver]|]. destruct Hs as (? & ? & Hs).
  destruct (IH _ Hs) as [H1 H2]. split; [unfold bend, UNIT in *; lia|]. intros b [->|Hb]%elem_of_cons; [done|by apply H2].
Qed.
Lemma spaced_apart lo F1 v m F2 b : spaced lo (F1 ++ (v, m) :: F2) -> b ∈ F1 ++ F2 -> apart (v, m) b /\ 0 < b.2.
Proof.
  intros Hs Hb. split; [|eapply spaced_in; [exact Hs|set_solver]]. apply spaced_app in Hs as [Hs1 (Hlo & _ & Hs2)].
  apply elem_of_app in Hb as [Hb|Hb]; [right|left].
  - destruct (spaced_top _ _ Hs1) as [_ H]. specialize (H b Hb). simpl in *. lia.
  - destruct (spaced_in _ _ _ Hs2 Hb) as [? _]. unfold bend in *. simpl in *. lia.
Qed.
Section take.
Context (s : heap) (F1 F2 : list block) (A : gmap Z Z) (u v m k : Z) (pre : list Z).
Context (HI : Inv s (F1 ++ (v, m) :: F2) A) (Epre : BASE :: F1.*1 = pre ++ [u]) (Hk : 0 < k <= m).
Lemma take_facts :
  hsize s v = m /\ BASE + 7 < v /\ v + UNIT * m <= brk s /\ (forall x, is_Some (A !! x) -> apart (x, 1) (v, m)) /\
  (forall b, b ∈ F1 ++ F2 -> b ∈ F1 ++ (v, m) :: F2 /\ apart (v, m) b /\ 0 < b.2).
Proof.
  pose proof (i_size _ _ _ HI) as HS. rewrite Forall_forall in HS. pose proof (i_brk _ _ _ HI) as HK. rewrite Forall_forall in HK.
  pose proof (i_spaced _ _ _ HI) as Hsp. assert (Hin : (v, m) ∈ F1 ++ (v, m) :: F2) by set_solver.
  split; [by apply (HS (v, m))|]. split; [by apply (spaced_in _ _ _ Hsp Hin)|]. split; [by apply (HK (v, m))|]. split.
  - intros x [n Hx]. destruct (i_alloc _ _ _ HI x n Hx) as (_ & ? & _). destruct (i_af _ _ _ HI _ _ _ Hx Hin) as [H1|H1]; [left|by right].
    unfold bend, UNIT in *. simpl in *. lia.
  - intros b Hb. split; [set_solver|]. by eapply spaced_apart.
Qed.
(** The sizes of headers outside the block. *)
Lemma take_other x : apart (x, 1) (v, m) -> forall y, v <= y < v + UNIT * m -> x <> y.
Proof. unfold apart, bend, UNIT. simpl. lia. Qed.
Lemma take_whole : m = k -> Inv ((set_ptr u (hptr s v) s) <| freep := u |>) (F1 ++ F2) (<[v := k]> A) /\ A !! v = None.
Proof.
  intros Em. destruct take_facts as (Hm & Hv & Hend & HA & HF). destruct (Inv_nodes _ _ _ HI) as [Hasc Hnd]. pose proof (i_spaced _ _ _ HI) as Hsp.
  assert (En : BASE :: (F1 ++ (v, m) :: F2).*1 = pre ++ u :: v :: F2.*1) by (rewrite fmap_app, app_comm_cons, Epre, <- app_assoc; done).
  rewrite En in Hnd. assert (Hin : forall b, b ∈ F1 ++ F2 -> b ∈ F1 ++ (v, m) :: F2) by (intros b Hb; by apply HF).
  eapply (Inv_take s); try done; simpl; try (by rewrite Em in *); try lia.
  - eapply (path_splice (hptr s) _ BASE (F1 ++ (v, m) :: F2).*1 BASE pre u (v :: F2.*1) F2.*1); [exact En| |apply HI| |].
    + rewrite fmap_app, app_comm_cons, Epre, <- app_assoc. done.
    + intros y Hy. unfold upd. rewrite decide_False; [done|]. intros ->. apply NoDup_app in Hnd as (_ & Hnd & _). by apply (Hnd u Hy), elem_of_cons; left.
    + pose proof (path_tail _ _ _ _ _ _ _ En (i_path _ _ _ HI)) as [_ Hp]. apply NoDup_app in Hnd as (_ & _ & Hnd). apply NoDup_cons in Hnd as [Hnu _].
      eapply path_start; [exact Hp|unfold upd; by rewrite decide_True|]. intros z Hz. unfold upd. rewrite decide_False; [done|]. intros ->. apply Hnu. set_solver.
  - apply Forall_forall. intros b Hb. pose proof (i_size _ _ _ HI) as HS. rewrite Forall_forall in HS. by apply HS, Hin.
  - apply HI.
  - apply spaced_app in Hsp as [Hsp1 (Hlo & _ & Hsp2)]. apply spaced_app. split; [done|]. destruct F2 as [|b F2']; [done|].
    destruct Hsp2 as (? & ? & ?). simpl. unfold bend, UNIT in *. simpl in *. split; [lia|done].
  - apply Forall_forall. intros b Hb. pose proof (i_brk _ _ _ HI) as HS. rewrite Forall_forall in HS. by apply HS, Hin.
  - rewrite fmap_app, app_comm_cons, Epre. set_solver.
  - intros b Hb. subst k. by apply HF.
  - intros x n _ Hc H. subst k. split; [apply H; set_solver|]. intros b Hb. by apply H, Hin.
Qed.
Lemma take_upper : k < m -> let a := v + UNIT * (m - k) in
  Inv ((set_size a k (set_size v (m - k) s)) <| freep := u |>) (F1 ++ (v, m - k) :: F2) (<[a := k]> A) /\ A !! a = None.
Proof.
  intros Em a. destruct take_facts as (Hm & Hv & Hend & HA & HF). pose proof (i_spaced _ _ _ HI) as Hsp.
  assert (Ha : v < a < v + UNIT * m) by (unfold a, UNIT; lia).
  assert (Hoth : forall x, apart (x, 1) (v, m) -> upd (upd (hsize s) v (m - k)) a k x = hsize s x).
  { intros x Hx. unfold upd. rewrite !decide_False; [done| |]; apply (take_other x Hx); unfold UNIT in *; lia. }
  assert (Hb1 : forall b, b ∈ F1 ++ F2 -> apart (b.1, 1) (v, m)).
  { intros b Hb. destruct (HF b Hb) as (_ & [H|H] & H0); [by right|left]. unfold bend, UNIT in *. simpl in *. lia. }
  assert (Enodes : (F1 ++ (v, m - k) :: F2).*1 = (F1 ++ (v, m) :: F2).*1) by (by rewrite !fmap_app).
  eapply (Inv_take s); try done; simpl; try lia.
  - rewrite Enodes. apply HI.
  - pose proof (i_size _ _ _ HI) as HS. rewrite !Forall_app, !Forall_cons, !Forall_forall in HS |- *. destruct HS as (HS1 & _ & HS2).
    split; [|split]; [intros b Hb; rewrite Hoth; [by apply HS1|apply Hb1; set_solver]| |intros b Hb; rewrite Hoth; [by apply HS2|apply Hb1; set_solver]].
    simpl. unfold upd. rewrite decide_False by lia. by rewrite decide_True.
  - rewrite Hoth; [apply HI|]. left. unfold bend, UNIT. simpl. lia.
  - apply spaced_app in Hsp as [Hsp1 (Hlo & _ & Hsp2)]. apply spaced_app. split; [done|]. simpl. split; [done|]. split; [lia|].
    destruct F2 as [|b F2']; [done|]. destruct Hsp2 as (? & ? & ?). simpl. unfold bend, UNIT in *. simpl in *. split; [lia|done].
  - pose proof (i_brk _ _ _ HI) as HS. rewrite !Forall_app, !Forall_cons in HS |- *. destruct HS as (HS1 & _ & HS2). split; [done|]. split; [|done].
    unfold bend, UNIT in *. simpl. lia.
  - rewrite Enodes, fmap_app, app_comm_cons, Epre. set_solver.
  - unfold upd. by rewrite decide_True.
  - intros x Hx. by apply Hoth, HA.
  - intros b Hb. assert (Hb' : b = (v, m - k) \/ b ∈ F1 ++ F2) by set_solver. destruct Hb' as [->|Hb'].
    + right. unfold bend, a, UNIT. simpl. lia.
    + destruct (HF b Hb') as (_ & [H|H] & _); [left|right]; unfold bend, a, UNIT in *; simpl in *; lia.
  - intros x n _ Hc H. assert (Hvm : apart (x, n) (v, m)) by (apply H; set_solver). split.
    + destruct Hvm as [H1|H1]; [left|right]; unfold bend, a, UNIT in *; simpl in *; lia.
    + intros b Hb. assert (Hb' : b = (v, m - k) \/ b ∈ F1 ++ F2) by set_solver. destruct Hb' as [->|Hb']; [|by apply H, HF].
      destruct Hvm as [H1|H1]; [left|right]; unfold bend, a, UNIT in *; simpl in *; lia.
Qed.
End take.
Lemma take_ok s F A u v m k :
  Inv s F A -> (v, m) ∈ F -> u ∈ BASE :: F.*1 -> hptr s u = v -> 0 < k <= m ->
  exists F' a, (take_block k s u v).2 = a + UNIT /\ Inv (take_block k s u v).1 F' (<[a := k]> A) /\ A !! a = None.
Proof.
  intros HI Hv Hu Huv Hk. apply list_elem_of_split in Hv as (F1 & F2 & ->). destruct (pred_unique _ _ _ _ _ _ _ HI Hu Huv) as [pre Epre].
  pose proof (i_size _ _ _ HI) as HS. rewrite Forall_app, Forall_cons in HS. destruct HS as (_ & Hm & _). simpl in Hm. unfold take_block. rewrite Hm. case_decide as Em.
  - exists (F1 ++ F2), v. split; [done|]. by eapply take_whole.
  - assert (Hkm : k < m) by lia. edestruct take_upper as [HI' HA]; [exact HI|exact Epre|exact Hk|exact Hkm|].
    exists (F1 ++ (v, m - k) :: F2), (v + UNIT * (m - k)). cbv zeta.
    assert (E : hsize (set_size v (m - k) s) v = m - k) by (simpl; unfold upd; by rewrite decide_True).
    rewrite E. split; [done|]. by split.
Qed.

(** ** The loop of malloc *)

(** From freep the list comes back to freep and visits every header. *)
Lemma cycle s F A : Inv s F A -> exists vs, path (hptr s) (freep s) vs (freep s) /\
  (forall x, x ∈ vs ++ [freep s] <-> x ∈ BASE :: F.*1) /\ ~ freep s ∈ vs /\ length vs = length F.
Proof.
  intros HI. destruct (Inv_nodes _ _ _ HI) as [_ Hnd]. destruct HI as [_ Hp _ _ _ _ Hf _ _ _ _]. revert Hp Hf Hnd.
  rewrite <- (length_fmap fst F). generalize (F.*1) as l. generalize (freep s) as f. intros f l Hp Hf Hnd.
  apply list_elem_of_split in Hf as (pre & post & E). destruct pre as [|b pre]; simpl in E; injection E as <- ->.
  - exists post. split; [done|]. split; [set_solver|]. split; [by apply NoDup_cons in Hnd as [? _]|done].
  - apply path_app in Hp as [Hp1 Hp2]. exists (post ++ BASE :: pre). split; [by apply path_app|]. split; [set_solver|].
    split; [|rewrite !length_app; simpl; lia]. rewrite app_comm_cons in Hnd. apply NoDup_app in Hnd as (_ & Hd & Hnd).
    apply NoDup_cons in Hnd as [Hn _]. intros [?|?]%elem_of_app; [done|]. by apply (Hd f), elem_of_cons; [|left].
Qed.
(** One turn around the list: a block large enough is found, or the loop comes
    to morecore with every block too small. *)
Lemma walk s k : forall vs u fuel,
  path (hptr s) u vs (freep s) -> ~ freep s ∈ vs -> (length vs < fuel)%nat ->
  (exists u' v, hptr s u' = v /\ u' ∈ u :: vs /\ v ∈ vs ++ [freep s] /\ k <= hsize s v /\
     malloc_loop fuel k s u (hptr s u) = Some (take_block k s u' v)) \/
  (forall v, v ∈ vs ++ [freep s] -> hsize s v < k) /\
  malloc_loop fuel k s u (hptr s u) =
    (r ← morecore (fuel - S (length vs)) k s;
     if decide (r.2 = 0) then Some (r.1, 0) else malloc_loop (fuel - S (length vs)) k r.1 r.2 (hptr r.1 r.2)).
Proof.
  induction vs as [|v vs IH]; intros u [|fuel] Hp Hn Hf; simpl in Hf; try lia; simpl in Hp; cbn [malloc_loop].
  - rewrite Hp. destruct (decide (hsize s (freep s) >= k)) as [Hk|Hk].
    + left. exists u, (freep s). split; [done|]. split; [set_solver|]. split; [set_solver|]. split; [lia|done].
    + right. split; [intros v Hv; apply list_elem_of_singleton in Hv as ->; lia|]. rewrite decide_True by done. by rewrite Nat.sub_1_r.
  - destruct Hp as [Hv Hp]. rewrite Hv. destruct (decide (hsize s v >= k)) as [Hk|Hk].
    + left. exists u, v. split; [done|]. split; [set_solver|]. split; [set_solver|]. split; [lia|done].
    + rewrite decide_False by (intros ->; set_solver). destruct (IH v fuel Hp) as [(u' & w & H1 & H2 & H3 & H4 & H5)|[H1 H2]]; [set_solver|lia| |].
      * left. exists u', w. split; [done|]. split; [set_solver|]. split; [set_solver|]. done.
      * right. split; [intros w Hw; simpl in Hw; apply elem_of_cons in Hw as [->|Hw]; [lia|by apply H1]|]. exact H2.
Qed.
Lemma Inv_brk s F A b : Inv s F A -> brk s <= b <= 2 ^ 31 -> Inv (s <| brk := b |>) F A.
Proof.
  intros [] Hb. split; try done; cbn [assign brk eta eta_heap].
  - eapply Forall_impl; [done|]. simpl. lia.
  - intros a n Ha. destruct (i_alloc0 a n Ha) as (? & ? & ? & ?). simpl. split_and!; try done. lia.
  - simpl. lia.
Qed.
(** New memory at the end of the process is a block of its own. *)
Lemma Inv_new s F A n :
  Inv s F A -> 0 < n -> brk s + UNIT * n <= 2 ^ 31 ->
  Inv (set_size (brk s) n (s <| brk := brk s + UNIT * n |>)) F (<[brk s := n]> A) /\ A !! brk s = None.
Proof.
  intros HI Hn Hb. assert (HI' : Inv (s <| brk := brk s + UNIT * n |>) F A) by (apply Inv_brk; [done|unfold UNIT in *; lia]).
  pose proof (i_brk _ _ _ HI) as HK. rewrite Forall_forall in HK. pose proof (i_spaced _ _ _ HI) as Hsp. destruct (i_end _ _ _ HI) as [Hlo _].
  assert (Hne : forall x m, 0 < m -> x + UNIT * m <= brk s -> upd (hsize s) (brk s) n x = hsize s x).
  { intros x m Hm Hx. unfold upd. rewrite decide_False; [done|]. unfold UNIT in Hx. lia. }
  eapply (Inv_take _ F A); [exact HI'|..]; simpl; try done; try (by apply HI').
  - pose proof (i_size _ _ _ HI) as HS. rewrite Forall_forall in HS |- *. intros b Hb'. rewrite (Hne _ b.2); [by apply HS| |by apply HK].
    by apply (spaced_in _ _ _ Hsp).
  - unfold upd. rewrite decide_False by lia. apply HI.
  - unfold upd. by rewrite decide_True.
  - intros x [m Hx]. destruct (i_alloc _ _ _ HI x m Hx) as (_ & Hm & _ & Hx'). by apply (Hne x m).
  - intros b Hb'. right. simpl. by apply HK.
  - intros x m Hx Hm H. split; [|done]. left. simpl. by apply (i_alloc _ _ _ HI).
Qed.
(** What the kernel's sbrk promises: a process never grows past KERNBASE. *)
Definition grow_ok : Prop := forall b n, grow b n = true -> b + n <= 2 ^ 31.
(** The bytes morecore asks for. *)
Definition core_bytes (k : Z) : Z := UNIT * Z.max k 4096.
Lemma morecore_ok s F A k fuel :
  grow_ok -> Inv s F A -> 0 < k < 2 ^ 28 -> (2 * length F + 2 < fuel)%nat ->
  morecore fuel k s = Some (s, 0) /\ grow (brk s) (core_bytes k) = false \/
  exists s' F', morecore fuel k s = Some (s', freep s') /\ freep s' <> 0 /\ Inv s' F' A /\
    (length F' <= S (length F))%nat /\ exists b, b ∈ F' /\ k <= b.2.
Proof.
  intros Hg HI Hk Hf. unfold morecore. set (nu := if decide (k < 4096) then 4096 else k).
  assert (Hnu : nu = Z.max k 4096) by (unfold nu; case_decide; lia).
  assert (En : s32 (u32 (nu * UNIT)) = core_bytes k).
  { unfold core_bytes. rewrite <- Hnu. unfold u32, s32, UNIT. rewrite (Z.mod_small (nu * 8)) by lia. rewrite Z.mod_small by lia. lia. }
  rewrite En. unfold sbrk. rewrite (decide_True (P := core_bytes k > 0)) by (unfold core_bytes, UNIT; lia). destruct (grow (brk s) (core_bytes k)) eqn:Eg; [|by left].
  right. cbn [fst snd]. destruct (i_end _ _ _ HI) as [Hlo Hhi]. pose proof (i_base _ _ _ HI) as HB. rewrite decide_False by lia.
  apply Hg in Eg. unfold core_bytes in *. rewrite <- Hnu in *.
  destruct (Inv_new s F A nu HI) as [HI1 Hfresh]; [lia|done|].
  destruct (free_ok _ F _ (brk s) nu fuel HI1) as (s' & F' & Ef & HI2 & _ & Hlen & b & Hb & Hnb); [by rewrite lookup_insert_eq|done|].
  rewrite delete_insert_id in HI2 by done. exists s', F'. rewrite Ef. simpl. split; [done|]. split; [|split; [done|]].
  - pose proof (i_freep _ _ _ HI2) as Hfp. destruct (Inv_nodes _ _ _ HI2) as [Hasc _].
    apply elem_of_cons in Hfp as [->|Hfp]; [lia|]. pose proof (asc_gt _ _ _ Hasc Hfp). lia.
  - split; [done|]. exists b. split; [done|lia].
Qed.
(** A block found by the loop is one of the free blocks. *)
Lemma found_block s F A v k : Inv s F A -> v ∈ BASE :: F.*1 -> 0 < k <= hsize s v -> exists m, (v, m) ∈ F /\ k <= m.
Proof.
  intros HI Hv Hk. apply elem_of_cons in Hv as [->|Hv]; [rewrite (i_zero _ _ _ HI) in Hk; lia|].
  apply list_elem_of_fmap in Hv as ([a m] & -> & Hb). exists m. split; [done|].
  pose proof (i_size _ _ _ HI) as HS. rewrite Forall_forall in HS. specialize (HS _ Hb). simpl in *. lia.
Qed.
(** The result of a call of malloc for [k] units. *)
Definition given (A : gmap Z Z) (k : Z) (r : option (heap * Z)) : Prop :=
  exists s' F' a, r = Some (s', a + UNIT) /\ Inv s' F' (<[a := k]> A) /\ A !! a = None.
Lemma loop_gives s F A k fuel :
  Inv s F A -> 0 < k -> (length F < fuel)%nat -> (exists b, b ∈ F /\ k <= b.2) ->
  given A k (malloc_loop fuel k s (freep s) (hptr s (freep s))).
Proof.
  intros HI Hk Hf ([a m] & Hb & Hm). destruct (cycle s F A HI) as (vs & Hp & Hin & Hn & Hlen).
  destruct (walk s k vs (freep s) fuel Hp Hn) as [(u & v & Huv & Hu & Hv & Hkv & E)|[Hno _]]; [lia| |exfalso].
  - rewrite E. apply Hin in Hv. destruct (found_block s F A v k HI Hv) as (m' & Hm' & Hkm); [lia|].
    destruct (take_ok s F A u v m' k HI Hm') as (F' & x & E' & HI' & Hx); [apply Hin; set_solver|done|lia|].
    exists (take_block k s u v).1, F', x. rewrite <- E'. by destruct (take_block k s u v).
  - assert (Ha : a ∈ vs ++ [freep s]) by (apply Hin, elem_of_cons; right; apply list_elem_of_fmap; by exists (a, m)).
    specialize (Hno a Ha). pose proof (i_size _ _ _ HI) as HS. rewrite Forall_forall in HS. specialize (HS _ Hb). simpl in *. lia.
Qed.
Lemma malloc_loop_ok s F A k fuel :
  grow_ok -> Inv s F A -> 0 < k < 2 ^ 28 -> (4 * length F + 8 <= fuel)%nat ->
  malloc_loop fuel k s (freep s) (hptr s (freep s)) = Some (s, 0) /\ grow (brk s) (core_bytes k) = false \/
  given A k (malloc_loop fuel k s (freep s) (hptr s (freep s))).
Proof.
  intros Hg HI Hk Hf. destruct (cycle s F A HI) as (vs & Hp & Hin & Hn & Hlen).
  destruct (walk s k vs (freep s) fuel Hp Hn) as [(u & v & Huv & Hu & Hv & Hkv & E)|[Hno E]]; [lia| |].
  - right. apply Hin in Hv. destruct (found_block s F A v k HI Hv) as (m & Hm & Hkm); [lia|]. apply (loop_gives s F); [done|lia|lia|]. by exists (v, m).
  - rewrite E. destruct (morecore_ok s F A k (fuel - S (length vs)) Hg HI Hk) as [[-> Hr]|(s' & F' & -> & H0 & HI' & Hl & Hb)]; [lia|by left|].
    right. simpl. rewrite decide_False by done. apply (loop_gives s' F'); [done|lia|lia|done].
Qed.
Lemma nunits_bounds nbytes : 0 <= nbytes < 2 ^ 31 - 16 -> 0 < nunits nbytes < 2 ^ 28 /\ nbytes <= UNIT * (nunits nbytes - 1).
Proof.
  intros H. unfold nunits, u32, UNIT. rewrite Z.mod_small by lia. pose proof (Z.div_mod (nbytes + 8 - 1) 8). pose proof (Z.mod_pos_bound (nbytes + 8 - 1) 8). lia.
Qed.
Lemma init_id s F A : Inv s F A -> malloc_init s = s.
Proof.
  intros HI. unfold malloc_init. rewrite decide_False; [done|]. pose proof (i_freep _ _ _ HI) as Hfp. destruct (Inv_nodes _ _ _ HI) as [Hasc _].
  pose proof (i_base _ _ _ HI). apply elem_of_cons in Hfp as [->|Hfp]; [lia|]. pose proof (asc_gt _ _ _ Hasc Hfp). lia.
Qed.
(** Before the first call. *)
Definition unused (s : heap) : Prop := 0 < BASE /\ freep s = 0 /\ BASE + 7 < brk s <= 2 ^ 31.
Lemma init_ok s : unused s -> Inv (malloc_init s) [] ∅.
Proof.
  intros (HB & Hf & Hb). unfold malloc_init. rewrite decide_True by done. split; simpl; try done; try (by constructor); try set_solver.
  - unfold upd. by rewrite decide_True.
  - unfold upd. by rewrite decide_True.
Qed.

(** ** Every use of the allocator *)

(** A program calls malloc and frees blocks it was given; [A] are the blocks it
    has, by the address of their header. *)
Inductive hstep : heap * gmap Z Z -> heap * gmap Z Z -> Prop :=
| h_malloc fuel nbytes s s' r A :
    0 <= nbytes < 2 ^ 31 - 16 -> malloc fuel nbytes s = Some (s', r) -> r <> 0 ->
    hstep (s, A) (s', <[r - UNIT := nunits nbytes]> A)
| h_refused fuel nbytes s s' A :
    0 <= nbytes < 2 ^ 31 - 16 -> malloc fuel nbytes s = Some (s', 0) -> hstep (s, A) (s', A)
| h_free fuel a s s' A : is_Some (A !! a) -> free fuel s (a + UNIT) = Some s' -> hstep (s, A) (s', delete a A).
(** The blocks lie behind base and within the process, apart from each other,
    with their size in the header. *)
Definition blocks_ok (s : heap) (A : gmap Z Z) : Prop :=
  forall a n, A !! a = Some n -> hsize s a = n /\ 0 < n /\ BASE + 8 <= a /\ a + UNIT * n <= brk s /\
    forall a' n', A !! a' = Some n' -> a <> a' -> apart (a, n) (a', n').
Definition heap_ok (s : heap) (A : gmap Z Z) (F : list block) : Prop := unused s /\ A = ∅ /\ F = [] \/ Inv s F A.
Lemma heap_ok_init s A F : heap_ok s A F -> Inv (malloc_init s) F A.
Proof. intros [(Hu & -> & ->)|HI]; [by apply init_ok|by rewrite (init_id s F A)]. Qed.
Lemma init_core s : brk (malloc_init s) = brk s.
Proof. unfold malloc_init. by case_decide. Qed.
Lemma malloc_ok s A F nbytes fuel :
  grow_ok -> heap_ok s A F -> 0 <= nbytes < 2 ^ 31 - 16 -> (4 * length F + 8 <= fuel)%nat ->
  (exists s', malloc fuel nbytes s = Some (s', 0) /\ heap_ok s' A F /\ grow (brk s) (core_bytes (nunits nbytes)) = false) \/
  given A (nunits nbytes) (malloc fuel nbytes s).
Proof.
  intros Hg Hh Hn Hf. apply heap_ok_init in Hh. destruct (nunits_bounds nbytes Hn) as [Hk _].
  destruct (malloc_loop_ok _ F A _ fuel Hg Hh Hk Hf) as [[E Hr]|Hgiv]; [left|right; exact Hgiv].
  exists (malloc_init s). rewrite init_core in Hr. split; [exact E|]. split; [by right|done].
Qed.
(** More fuel does not change a result. *)
Lemma free_find_mono s bp q : forall fuel fuel' p, (fuel <= fuel')%nat -> free_find fuel s p bp = Some q -> free_find fuel' s p bp = Some q.
Proof. induction fuel as [|fuel IH]; intros [|fuel'] p Hf; simpl; try done; [lia|]. repeat case_decide; try done. apply IH. lia. Qed.
Lemma free_mono fuel fuel' s ap s' : (fuel <= fuel')%nat -> free fuel s ap = Some s' -> free fuel' s ap = Some s'.
Proof.
  intros Hf. unfold free. destruct (free_find fuel s _ _) as [p|] eqn:E; [|done]. by rewrite (free_find_mono _ _ _ _ _ _ Hf E).
Qed.
Lemma malloc_loop_mono k r : forall fuel fuel' s u p,
  (fuel <= fuel')%nat -> malloc_loop fuel k s u p = Some r -> malloc_loop fuel' k s u p = Some r.
Proof.
  induction fuel as [|fuel IH]; intros [|fuel'] s u p Hf; cbn [malloc_loop]; try done; [lia|]. case_decide; [done|]. case_decide.
  - unfold morecore. case_decide; [done|]. destruct (free fuel _ _) as [s'|] eqn:E; [|done]. rewrite (free_mono fuel fuel' _ _ _ ltac:(lia) E).
    cbn [mbind option_bind fst snd]. destruct (decide (freep s' = 0)); [done|]. apply IH. lia.
  - apply IH. lia.
Qed.
Lemma hstep_ok x y F : grow_ok -> hstep x y -> heap_ok x.1 x.2 F -> exists F', heap_ok y.1 y.2 F'.
Proof.
  intros Hg Hs Hh. destruct Hs as [fuel nbytes s s' r A Hn E Hr|fuel nbytes s s' A Hn E|fuel a s s' A [n Ha] E]; cbn [fst snd] in *.
  - destruct (malloc_ok s A F nbytes (fuel + (4 * length F + 8)) Hg Hh Hn) as [(s1 & E' & _)|(s1 & F1 & a & E' & HI & _)]; [lia| |];
      apply (malloc_loop_mono _ _ _ (fuel + (4 * length F + 8))) in E; try lia; unfold malloc in E'; rewrite E in E'; injection E' as -> ->; [done|].
    exists F1. right. by replace (a + UNIT - UNIT) with a by lia.
  - destruct (malloc_ok s A F nbytes (fuel + (4 * length F + 8)) Hg Hh Hn) as [(s1 & E' & Hh' & _)|(s1 & F1 & a & E' & HI & _)]; [lia| |];
      apply (malloc_loop_mono _ _ _ (fuel + (4 * length F + 8))) in E; try lia; unfold malloc in E'; rewrite E in E'; injection E'; [intros ->; by exists F|]. intros E2 _.
    exfalso. destruct (i_alloc _ _ _ HI a (nunits nbytes)) as (_ & _ & Ha & _); [by rewrite lookup_insert_eq|]. pose proof (i_base _ _ _ HI). unfold UNIT in *. lia.
  - destruct Hh as [(_ & -> & _)|HI]; [by rewrite lookup_empty in Ha|].
    destruct (free_ok s F A a n (fuel + (2 * length F + 3)) HI Ha) as (s1 & F1 & E' & HI' & _); [lia|].
    apply (free_mono _ (fuel + (2 * length F + 3))) in E; [|lia]. rewrite E in E'. injection E' as ->. exists F1. by right.
Qed.
Lemma Inv_blocks s F A : Inv s F A -> blocks_ok s A.
Proof.
  intros HI a n Ha. destruct (i_alloc _ _ _ HI a n Ha) as (H1 & H2 & H3 & H4). split; [done|]. split; [done|]. split; [lia|]. split; [done|].
  intros. by eapply i_aa.
Qed.
End umalloc.

(** C17: malloc and free of every use: after any sequence of calls from the first,
    the blocks given out and not freed lie inside the process, apart from each
    other, and keep their sizes; and every next call returns: malloc gives a
    block that is none of these and holds the bytes asked for, keeping them as
    they are, or 0 when the kernel refuses more memory, and free takes back any
    of them. *)
Theorem allocator_correct BASE grow s0 s A :
  grow_ok grow -> unused BASE s0 -> rtc (hstep BASE grow) (s0, ∅) (s, A) ->
  blocks_ok BASE s A /\ exists enough,
  (forall fuel nbytes, (enough <= fuel)%nat -> 0 <= nbytes < 2 ^ 31 - 16 -> exists s' r, malloc BASE grow fuel nbytes s = Some (s', r) /\
     (r = 0 /\ blocks_ok BASE s' A /\ grow (brk s) (core_bytes (nunits nbytes)) = false \/
      r <> 0 /\ A !! (r - UNIT) = None /\ blocks_ok BASE s' (<[r - UNIT := nunits nbytes]> A) /\ nbytes <= UNIT * (nunits nbytes - 1))) /\
  (forall fuel a, (enough <= fuel)%nat -> is_Some (A !! a) -> exists s', free fuel s (a + UNIT) = Some s' /\ blocks_ok BASE s' (delete a A)).
Proof.
  intros Hg Hu Hr. assert (exists F, heap_ok BASE s A F) as [F Hh].
  { change (exists F, heap_ok BASE (s, A).1 (s, A).2 F). apply (rtc_invariant (hstep BASE grow) (fun x => exists F, heap_ok BASE x.1 x.2 F) (s0, ∅)); [by exists []; left| |done].
    intros x y [F1 H1] Hst. by eapply hstep_ok. }
  assert (Hb : forall s A F, heap_ok BASE s A F -> blocks_ok BASE s A).
  { intros s1 A1 F1 [(_ & -> & _)|HI]; [by intros a n; rewrite lookup_empty|by eapply Inv_blocks]. }
  split; [by eapply Hb|]. exists (4 * length F + 8)%nat. split.
  - intros fuel nbytes Hf Hn. destruct (malloc_ok BASE grow s A F nbytes fuel Hg Hh Hn Hf) as [(s' & E & Hh' & Hrf)|(s' & F' & a & E & HI & Hfresh)].
    + exists s', 0. split; [done|]. left. split; [done|]. split; [by eapply Hb|done].
    + exists s', (a + UNIT). split; [done|]. right. replace (a + UNIT - UNIT) with a by lia. split; [|split; [done|split; [by eapply Inv_blocks|by apply nunits_bounds]]].
      destruct (i_alloc _ _ _ _ HI a (nunits nbytes)) as (_ & _ & Ha & _); [by rewrite lookup_insert_eq|]. pose proof (i_base _ _ _ _ HI). unfold UNIT. lia.
  - intros fuel a Hf [n Ha]. destruct Hh as [(_ & -> & _)|HI]; [by rewrite lookup_empty in Ha|].
    destruct (free_ok BASE grow s F A a n fuel HI Ha) as (s' & F' & E & HI' & _); [lia|]. exists s'. split; [done|by eapply Inv_blocks].
Qed.
(** A process of two pages with base at 1024. *)
Definition fresh_heap : heap := mkheap (fun _ => 0) (fun _ => 0) 0 8192.
Definition small (b n : Z) : bool := bool_decide (b + n <= 2 ^ 31).
Definition first_heap : heap := default fresh_heap (fst <$> malloc 1024 small 20 100 fresh_heap).
Lemma allocator_correct_witness :
  malloc 1024 small 20 100 fresh_heap = Some (first_heap, 40856) /\ blocks_ok 1024 first_heap (<[40856 - UNIT := nunits 100]> ∅).
Proof.
  assert (E : malloc 1024 small 20 100 fresh_heap = Some (first_heap, 40856)) by (vm_compute; reflexivity). split; [exact E|].
  apply (allocator_correct 1024 small fresh_heap first_heap (<[40856 - UNIT := nunits 100]> ∅)).
  - intros b n H. by apply bool_decide_eq_true in H.
  - split; [lia|]. split; [done|]. simpl. lia.
  - eapply rtc_l; [|apply rtc_refl]. apply (h_malloc 1024 small 20 100); [lia|exact E|done].
Defined.

